(* ===== verification/_CoqProject ===== *)
-Q . S2P
Prelude.v
Utf8.v
Json.v
Float64.v
External.v
Reference.v
FileSystem.v
Format.v
Backends.v
Hsm.v
Hybrid.v
Envelope.v
Receipts.v
Manifest.v
ManifestCanon.v
Chain.v
Crypto.v
Keywrap.v
Chronicle.v
Attestation.v
Archive.v
Pubky.v
ArchiveLemmas.v
Auth.v
Transport.v
Server.v
TransportCorrect.v
ReferenceCodec.v
Provenance.v
ArchiveCorrect.v
VerifyChronicle.v
VerifyChronicleCorrect.v
Cli.v
VerifyEngine.v
Addresses.v
RateLimit.v
CertificateAuthority.v
Commands.v
Wrap.v
Unwrap.v
CliCorrect.v
WrapCorrect.v
Stream.v
Audio.v
YubiKey.v
Client.v
ReferenceStream.v
UnwrapCorrect.v
Browser.v
SealCorrect.v
VerifyEngineCorrect.v
Witness.v
CommandsCorrect.v
Jwks.v
Platform.v
Demo.v
CommandDemo.v
ArchiveTheorems.v
KeyTheorems.v
ChronicleTheorems.v
PlatformTheorems.v
SealTheorems.v
CommandTheorems.v
ServiceTheorems.v
PlatformServer.v
ProtocolTheorems.v
EnvelopeTheorems.v
AuthTheorems.v
StreamTheorems.v
AudioTheorems.v
HsmTheorems.v
ProvenanceTheorems.v
NetworkTheorems.v
BrowserTheorems.v
RateLimitTheorems.v
HybridTheorems.v
PubkyTheorems.v
CaTheorems.v
YubiKeyTheorems.v
