(* ===== verification/Prelude.v ===== *)
(** * Sealedge: a verification development

    Sealedge (crates/) seals payloads into signed, hash-chained and optionally encrypted
    [.seal] archives, links the archives of a device into a chronicle, lets a device
    rotate its key inside the chronicle, and has a platform service verify archives and
    witness chronicle tips with trusted timestamps.  Its core library also has encrypted
    envelopes with ownership receipts on top, an authentication handshake with sessions, key
    backends (a keyring, a software HSM, a YubiKey), a tool that encrypts files and live audio
    to streams of signed records, and a client and a server that move such records over the
    network.  Experimental adapters exchange keys over Pubky.

    ** Parts of the program and where they are modelled

    - Manifest.v, ManifestCanon.v: the archive manifest of all five profiles
      (crates/seal-protocols/src/archive/manifest.rs): records, constructors, [validate],
      and [to_canonical_bytes], the bytes that are signed and hashed.
    - Chain.v: the BLAKE3 continuity chain over chunks (crates/core/src/chain.rs).
    - Crypto.v, Keywrap.v: device keys, encrypted key files, nonces and associated data,
      signing and verification under both algorithms (crates/core/src/crypto.rs); X25519
      keys, HPKE wrapping of content keys, sealed secrets and device bundles
      (crates/core/src/keywrap.rs).
    - Archive.v, ArchiveLemmas.v, ArchiveCorrect.v: the streaming writer, the collecting
      writer, the readers and the validator (crates/core/src/archive.rs), in the [io] monad
      over the file tree of FileSystem.v.
    - Chronicle.v: archive ids, the chronicle state file (load and atomic save), witness
      requests and rotation records (crates/core/src/chronicle.rs).  Attestation.v: point
      attestations of a binary and its bill of materials (crates/core/src/point_attestation.rs).
    - The seal command line (crates/seal-cli/src/main.rs): Cli.v (keygen, key loading, exit
      codes, crates/core/src/secure_file.rs), Wrap.v (wrap: chunked reading, encryption to
      recipients, profiles, chronicle linkage), Unwrap.v (verify and unwrap), Commands.v
      (rekey, witness, emit-request, attest-sbom, verify-attestation), VerifyChronicle.v
      (linking and verify-chronicle: discovery and order of entries, the active-identity walk
      over rotations, the receipt check).  Lemmas are in the file of a component, after its
      definitions, or in a file with the suffix Correct; SealCorrect.v composes wrap, verify and unwrap.
    - The platform (crates/platform/src): Witness.v (the pure decisions of witness.rs and
      revocation.rs), VerifyEngine.v (verify/engine.rs and verify/validation.rs), Jwks.v
      (verify/jwks.rs and verify/signing.rs: the key manager, its sealed key file, the
      published set, rotation and restart), Platform.v (database/queries.rs on the tables of
      crates/platform/migrations, the verify, attestation, receipt, witness, revoke and
      register handlers of http/handlers.rs, http/auth.rs and the routes of http/router.rs).
      A handler is a program over single statements; [run] executes it alone, [step]
      interleaves the statements of any number of requests, lets a statement fail and a
      request vanish.
    - Envelopes: Format.v (crates/core/src/format.rs: algorithm identifiers, headers,
      associated data, the stream preamble), Envelope.v
      (crates/core/src/envelope.rs), Receipts.v (crates/core/src/applications/receipts/mod.rs).
    - Sessions: Auth.v (crates/core/src/auth.rs): both sides of the handshake as steps on a
      byte stream, the session table, and the certificate files.
    - Key backends (crates/core/src/backends): Backends.v (errors, the keyring backend, the
      universal operations, their trait and the registry), Hsm.v (the
      software HSM, its metadata and key files), YubiKey.v (the backend for a device, with its
      count of PIN attempts).
    - The sealedge command line (crates/cli/src/main.rs): Stream.v (key
      selection, encryption and decryption of streams, inspection, also by
      crates/core/src/bin/inspect-seal.rs), Audio.v (crates/core/src/audio.rs and the encryption
      of a live capture).  Provenance.v: software
      attestations (crates/core/src/applications/attestation/mod.rs).
    - The network: Transport.v and TransportCorrect.v (crates/core/src/transport: TCP and QUIC
      with limits, counters and the certificate check), Server.v (a
      connection of sealedge-server, and its accept loop as a step relation), Client.v
      (sealedge-client).
    - Hybrid.v: keys and envelopes for one recipient (crates/core/src/asymmetric.rs, hybrid.rs).
    - Pubky.v: the experimental adapters (crates/experimental): dual keys, version 2 envelopes,
      published identities and keys, the backend, its mock and the command line.
    - Browser.v: verification in the browser (crates/seal-wasm/src).
    - The rest of the platform: Addresses.v and RateLimit.v (http/rate_limit.rs, http/config.rs
      and the settings of http/router.rs), CertificateAuthority.v (ca), PlatformServer.v (the
      start of crates/platform-server/src/main.rs, with its theorems).
    - The files with the suffix Theorems (ArchiveTheorems.v to YubiKeyTheorems.v): the
      properties, each with a witness that applies it to concrete data (Demo.v, CommandDemo.v,
      the files with the prefix Reference, and the end of each file).

    Shared: Prelude.v (bytes, results, machine integers, decimal printing, their lemmas),
    Utf8.v (lossy decoding, trimming), Json.v (the shape of printed JSON and unique
    readability), Float64.v (doubles, their shortest decimal form), FileSystem.v (a tree of
    files and directories with the error cases of the calls used).

    ** Reading the model

    Strings and byte vectors are lists of ascii bytes.  A u32, u64 or usize is an [N], with
    the wrap-around of [+] written out where it can happen and bounds stated where a
    theorem needs them.  Fallible code returns [result] with the error type of the source,
    messages included; an anyhow error is its outermost context.  Randomness, clocks,
    process ids and identifiers are arguments.  An index that panics in Rust is the value
    [Panicked].

    Libraries outside the repository are classes of External.v and of the files that use
    them: BLAKE3, hex, base64, Ed25519, P-256, AES-GCM and XChaCha20-Poly1305, PBKDF2 and
    HKDF, HPKE, X25519, RSA, serde, bincode, chrono, Postgres, the JWS signer, frame codecs and
    quinn, the keyring of the system, the YubiKey, governor, ipnet, rcgen, cpal, the Pubky
    client.  Their laws are the
    documented ones (a hash has 32 bytes, decoding inverts encoding, decryption inverts
    encryption, a signature verifies under its key, key agreement commutes).  No law says
    that BLAKE3 is injective: commitments are stated up to an explicit [Collision].
    Reference.v, ReferenceCodec.v and ReferenceStream.v instantiate the classes by executable
    functions and prove their laws, so the hypotheses can hold together.

    ** What the theorems show

    - Archives: canonical bytes and digests determine the manifest, where an explicit epoch 0 is
      an absent one and floats are finite; validation accepts
      exactly the intact archives; what either writer writes validates and reads back; the
      last continuity hash pins all chunks.
    - Keys and records: verification accepts exactly well-formed signatures of the named
      algorithm; key files round-trip and are refused outside the iteration bounds; signed
      documents of different kinds never coincide; rotations verify exactly with both
      signatures and the next epoch; saving state is atomic.
    - The command line: what wrap writes verifies with exit code 0 and unwraps to the input when
      its manifest is valid, and is refused by both when it is not (wrap does not validate);
      unwrap accepts exactly the archives that are signed, intact and addressed to the
      bundle, and writes all or nothing; verify's exit codes tell the causes apart, and
      1 is left for output that fails; reading
      in chunks ends and depends only on the data; rekey continues a chronicle; an
      attestation binds its two files.
    - Chronicles: [verify-chronicle] succeeds exactly on authentic chronicles and never
      panics; its tip pins the whole history, and a receipt the prefix it witnessed; the
      final identity is the genesis key carried forward by rotations.
    - Platform: receipts never contradict each other under any interleaving; the ledger is
      append-only and authentic; revocation is permanent; an admitted tip is recorded; a
      verified archive passes the engine and what passes binds the files; signing keys
      survive restarts, failed starts included, and one rotation; what the service signs is sound; receipts of the
      verify endpoint are never stored; the ledger is not monotone when requests overlap.
    - Protocols across parts: a rotation made by rekey and submitted by witness is recorded
      and, as long as it is the old key's only one on record, closes the old key beyond it.
    - Envelopes and receipts: sealing round-trips, never repeats a nonce and is bounded by
      the nonce counter; the order of chunks is not authenticated; keyed verification
      accepts exactly the ownership chains, creating and assigning keep them, and the last
      envelope pins the chain.
    - Sessions: an honest handshake completes with one key on both sides; every session was
      earned by a signature and validates exactly until it expires; a client accepts a
      replayed server.
    - Streams: encryption followed by decryption restores the input within the limits of
      decryption and is refused beyond them; decryption never panics and writes only the
      plaintext of signed, numbered records; a stream cut anywhere after its header is accepted;
      exactly the typed headers are accepted.  A live capture keeps the order of the samples and
      records the start of every chunk.
      Signed attestations read back and fit exactly the artifact with the attested digest.
    - Key backends: the software HSM refines a table from identifiers to secrets under every
      sequence of calls and restarts with identifiers that are plain file names; the registry selects a best backend; a YubiKey signs only
      behind its PIN and sees a bounded number of wrong PINs, apart from those sent for
      certificates, which are not counted.
    - Network: a transfer within the limits of a connection completes and the server
      acknowledges every chunk; the server serves
      any peer to an end within its limits, numbers its connections and cuts them on shutdown;
      TCP delivers in order; QUIC never receives.
    - Pubky: version 2 envelopes unseal to what the sender signed; a key whose record the network
      serves is found and receives, and the in-memory double serves it; identities are not bound to the identifier they are asked for by.
    - Hybrid envelopes open with the recipient's key; the browser agrees with seal verify on
      signatures and checks less of the chunks; behind proxies that append to the first
      forwarding header, clients cannot choose the address that they are counted under, and they do not share limits; a certificate's signature covers its fields.

    ** Fuel

    [lossy_go], [valid_go] and [trim_with] (Utf8.v) consume at least one byte per step and
    run with the length of the input; [stream_loop] (Archive.v) runs with one more than the
    length of the file, and [stream_hash_is_hash] shows that it returns; [fill] and
    [read_chunks] (Wrap.v) run with one more than the bytes left, and
    [input_chunks_determined] shows that more fuel changes nothing; [slice_chunks_go]
    (Envelope.v) runs with the length of the payload, and [slice_chunks_concat] shows that
    nothing is lost.  [strip_zeros] and [find_exp] (Float64.v) are bounded by the digits of a
    double.  [encrypt_loop] and [decrypt_loop] (Stream.v) and [send_file_loop] (Client.v) run
    with one more than the bytes left, and [encrypt_loop_total] and [decrypt_loop_total] show
    that they return; [serve_loop] (Server.v) runs with one more than the length of what the
    peer sends, and [server_serves_any_peer] shows that it ends; [pad] (Client.v) runs with the
    size of a chunk; [chunks_of] (CertificateAuthority.v) runs with the length of the text, and
    [chunks_of_concat] shows that nothing is lost.  [live_loop] (Audio.v) runs with one more
    round than polls are given, each read uses up at least one, and a run without a further
    chunk waits, which is a result of its own.

    ** Not modelled

    Argument parsing, printing, sockets, OS randomness, memory zeroization (secret.rs) and file
    modes: outside of a functional model.  TLS inside rustls, the CORS and body limit layers of
    tower, the storing of a passphrase in the keyring of the system: third-party code that the
    sources only configure or call.  The stubs of audio.rs for builds without audio, the
    placeholders of the certificate authority (ca/auth.rs, ca/database.rs), the demonstration
    programs, the JSON schemas of crates/types, and the pages around the browser code.
    crates/wasm/src/crypto.rs repeats crates/seal-wasm/src/crypto.rs, which Browser.v models. *)

From Stdlib Require Export Ascii.
From stdpp Require Export prelude gmap strings list sorting pretty.
From Stdlib Require Export NArith ZArith Lia.

Set Default Proof Using "Type".

(** ** Bytes and strings

    A Rust [String], [&str], [Vec<u8>] or [[u8; n]] is its sequence of bytes.
    [lit] turns a source literal into that sequence. *)

Abbreviation byte := ascii (only parsing).
Abbreviation bytes := (list ascii) (only parsing).

Definition lit (s : string) : bytes := String.list_ascii_of_string s.

Definition byte_of_N (n : N) : byte := ascii_of_N (n mod 256).
Definition N_of_byte (b : byte) : N := N_of_ascii b.

Definition dquote : byte := byte_of_N 34.

(** ** Results: Rust's [Result<A, E>] with [?] as stdpp's bind *)

Inductive result (E A : Type) : Type :=
  | Ok (a : A)
  | Err (e : E).
Arguments Ok {E A} a.
Arguments Err {E A} e.

Global Instance result_ret E : MRet (result E) := λ A a, Ok a.
Global Instance result_bind E : MBind (result E) := λ A B f m,
  match m with Ok a => f a | Err e => Err e end.
Global Instance result_fmap E : FMap (result E) := λ A B f m,
  match m with Ok a => Ok (f a) | Err e => Err e end.

Definition ok_or {E A} (o : option A) (e : E) : result E A :=
  match o with Some a => Ok a | None => Err e end.
Definition map_err {E F A} (f : E → F) (r : result E A) : result F A :=
  match r with Ok a => Ok a | Err e => Err (f e) end.
Definition result_ok {E A} (r : result E A) : option A :=
  match r with Ok a => Some a | Err _ => None end.
Definition is_ok {E A} (r : result E A) : bool :=
  match r with Ok _ => true | Err _ => false end.
(** [if !c { return Err(e) }] *)
Definition ensure {E} (c : bool) (e : E) : result E unit :=
  if c then Ok tt else Err e.

(** The Rust loop [for x in l { body?; }]: stop at the first error. *)
Fixpoint for_each {E A} (f : A → result E unit) (l : list A) : result E unit :=
  match l with
  | [] => Ok tt
  | x :: l' => f x ≫= λ _, for_each f l'
  end.

(** [l.iter().enumerate()], starting at [i]. *)
Fixpoint enumerate_from {A} (i : nat) (l : list A) : list (nat * A) :=
  match l with
  | [] => []
  | x :: l' => (i, x) :: enumerate_from (S i) l'
  end.
Definition enumerate {A} (l : list A) : list (nat * A) := enumerate_from 0 l.

(** [iter.map(f).collect::<Result<Vec<_>, _>>()] and its loop form. *)
Fixpoint map_res {E A B} (f : A → result E B) (l : list A) : result E (list B) :=
  match l with
  | [] => Ok []
  | x :: l' => y ← f x; ys ← map_res f l'; Ok (y :: ys)
  end.

(** [slice.sort_by_key(key)]: Rust's sort is stable. *)
Fixpoint insert_by_key {A} (key : A → N) (x : A) (l : list A) : list A :=
  match l with
  | [] => [x]
  | y :: l' => if (key x <=? key y)%N then x :: y :: l' else y :: insert_by_key key x l'
  end.
Definition sort_by_key {A} (key : A → N) (l : list A) : list A :=
  foldr (insert_by_key key) [] l.

(** ** Strings of the standard library *)

Fixpoint starts_with (p s : bytes) : bool :=
  match p, s with
  | [], _ => true
  | a :: p', b :: s' => bool_decide (a = b) && starts_with p' s'
  | _ :: _, [] => false
  end.
Definition strip_prefix (p s : bytes) : option bytes :=
  if starts_with p s then Some (drop (length p) s) else None.
Definition ends_with (p s : bytes) : bool :=
  bool_decide (length p ≤ length s) && bool_decide (drop (length s - length p) s = p).
Definition is_empty (s : bytes) : bool :=
  match s with [] => true | _ => false end.

Definition byte_in (lo hi : N) (b : byte) : bool :=
  (lo <=? N_of_byte b)%N && (N_of_byte b <=? hi)%N.
Definition is_digit (b : byte) : bool := byte_in 48 57 b.
Definition is_ascii_hexdigit (b : byte) : bool :=
  byte_in 48 57 b || byte_in 65 70 b || byte_in 97 102 b.
Definition to_lower (b : byte) : byte :=
  if byte_in 65 90 b then byte_of_N (N_of_byte b + 32) else b.
Definition to_ascii_lowercase (s : bytes) : bytes := to_lower <$> s.

(** [format!("{}", n)] for an unsigned integer, and for a [usize]. *)
Definition fmt_N (n : N) : bytes := lit (pretty n).
Definition fmt_nat (n : nat) : bytes := fmt_N (N.of_nat n).
(** [format!("{:05}", n)] *)
Definition fmt_05 (n : N) : bytes :=
  replicate (5 - length (fmt_N n)) (byte_of_N 48) ++ fmt_N n.

(** ** Machine integers *)

Definition u8_max : N := 2 ^ 8 - 1.
Definition u16_max : N := 2 ^ 16 - 1.
Definition u32_max : N := 2 ^ 32 - 1.
Definition u64_max : N := 2 ^ 64 - 1.

(** [n as u32], [n as u64]: keep the low bits. *)
Definition as_u32 (n : N) : N := (n mod 2 ^ 32)%N.
Definition as_u64 (n : N) : N := (n mod 2 ^ 64)%N.
(** [a + b] on [u64]/[u32] in a release build: wraps around. *)
Definition wrapping_add64 (a b : N) : N := ((a + b) mod 2 ^ 64)%N.
Definition wrapping_add32 (a b : N) : N := ((a + b) mod 2 ^ 32)%N.
(** [a.checked_add(b)] on [u32]. *)
Definition checked_add32 (a b : N) : option N :=
  if (a + b <=? u32_max)%N then Some (a + b)%N else None.
(** [n as i64] and [z as u64]: two's complement reinterpretation. *)
Definition u64_as_i64 (n : N) : Z :=
  if (n <? 2 ^ 63)%N then Z.of_N n else (Z.of_N n - 2 ^ 64)%Z.
Definition i64_as_u64 (z : Z) : N := Z.to_N (z mod 2 ^ 64).
Definition u32_as_i32 (n : N) : Z :=
  if (n <? 2 ^ 31)%N then Z.of_N n else (Z.of_N n - 2 ^ 32)%Z.
Definition i32_as_u32 (z : Z) : N := Z.to_N (z mod 2 ^ 32).

(** [n.to_be_bytes()] of a [k]-byte integer and [from_be_bytes]. *)
Fixpoint le_bytes (k : nat) (n : N) : bytes :=
  match k with
  | O => []
  | S k' => byte_of_N n :: le_bytes k' (n / 256)
  end.
Fixpoint of_le_bytes (l : bytes) : N :=
  match l with
  | [] => 0%N
  | b :: l' => (N_of_byte b + 256 * of_le_bytes l')%N
  end.
Definition be_bytes (k : nat) (n : N) : bytes := reverse (le_bytes k n).
Definition of_be_bytes (l : bytes) : N := of_le_bytes (reverse l).

(** * Lemmas *)

Create HintDb sealedge.
Create Rewrite HintDb sealedge.

(** ** Results *)

Lemma Ok_inj {E A} (a b : A) : @Ok E A a = Ok b → a = b.
Proof. by intros [= ->]. Qed.

Lemma bind_ok {E A B} (m : result E A) (f : A → result E B) b :
  m ≫= f = Ok b ↔ ∃ a, m = Ok a ∧ f a = Ok b.
Proof. destruct m; simpl; [naive_solver|]. split; [done|]. by intros (? & ? & ?). Qed.

Lemma bind_unit_ok {E} (m k : result E unit) :
  (m ≫= λ _, k) = Ok tt ↔ m = Ok tt ∧ k = Ok tt.
Proof. rewrite bind_ok. split; [intros ([] & ? & ?)|intros []; exists tt]; done. Qed.

Lemma ensure_ok {E} c (e : E) : ensure c e = Ok tt ↔ c = true.
Proof. destruct c; naive_solver. Qed.

Lemma ok_or_ok {E A} (o : option A) (e : E) a : ok_or o e = Ok a ↔ o = Some a.
Proof. destruct o; naive_solver. Qed.

Lemma map_err_ok {E F A} (f : E → F) (r : result E A) a :
  map_err f r = Ok a ↔ r = Ok a.
Proof. destruct r; naive_solver. Qed.

Lemma for_each_ok {E A} (f : A → result E unit) l :
  for_each f l = Ok tt ↔ Forall (λ x, f x = Ok tt) l.
Proof.
  induction l as [|x l IH]; simpl; [naive_solver|].
  rewrite bind_ok, Forall_cons, <-IH.
  split; [intros ([] & ? & ?)|intros []; exists tt]; done.
Qed.

Lemma map_res_ok {E A B} (f : A → result E B) l ys :
  map_res f l = Ok ys ↔ Forall2 (λ x y, f x = Ok y) l ys.
Proof.
  revert ys; induction l as [|x l IH]; intros ys; simpl.
  { split; [by intros [= <-]|]. by intros ->%Forall2_nil_inv_l. }
  rewrite bind_ok. setoid_rewrite bind_ok. split.
  - intros (y & Hy & zs & Hzs & [= <-]). constructor; [done|]. by apply IH.
  - intros (y & zs & ? & ? & ->)%Forall2_cons_inv_l. exists y. split; [done|].
    exists zs. split; [by apply IH|done].
Qed.

(** Invert every successful monadic step among the hypotheses. *)
Ltac inv_ok :=
  repeat match goal with
  | H : _ ≫= _ = Ok _ |- _ => apply bind_ok in H as (? & ? & ?)
  | H : ensure _ _ = Ok ?u |- _ => destruct u; apply ensure_ok in H
  | H : ok_or _ _ = Ok _ |- _ => apply ok_or_ok in H
  | H : map_err _ _ = Ok _ |- _ => apply map_err_ok in H
  | H : Ok _ = Ok _ |- _ => apply Ok_inj in H; subst
  | H : Err _ = Ok _ |- _ => discriminate H
  | H : mret _ = Ok _ |- _ => injection H as H; subst
  end.

Lemma forallb_Forall {A} (f : A → bool) l : forallb f l = true ↔ Forall (λ x, f x = true) l.
Proof. induction l; simpl; rewrite ?Forall_cons, ?andb_true_iff; naive_solver. Qed.

(** ** Enumeration *)

Lemma length_enumerate_from {A} i (l : list A) : length (enumerate_from i l) = length l.
Proof. revert i; induction l; intros; simpl; auto. Qed.

Lemma lookup_enumerate_from {A} i (l : list A) k :
  enumerate_from i l !! k = (λ x, (i + k, x)) <$> l !! k.
Proof.
  revert i k; induction l as [|x l IH]; intros i [|k]; simpl; auto.
  - by rewrite Nat.add_0_r.
  - rewrite IH. by replace (S i + k) with (i + S k) by lia.
Qed.

Lemma enumerate_from_fmap {A} i (l : list A) : (enumerate_from i l).*2 = l.
Proof. revert i; induction l; intros; simpl; f_equal; auto. Qed.

Lemma enumerate_from_app {A} i (l1 l2 : list A) :
  enumerate_from i (l1 ++ l2) = enumerate_from i l1 ++ enumerate_from (i + length l1) l2.
Proof.
  revert i; induction l1 as [|x l1 IH]; intros i; simpl.
  - by rewrite Nat.add_0_r.
  - rewrite IH. do 2 f_equal. f_equal. lia.
Qed.

Lemma Forall_enumerate_from {A} (P : nat * A → Prop) i (l : list A) :
  Forall P (enumerate_from i l) ↔ ∀ k x, l !! k = Some x → P (i + k, x).
Proof.
  rewrite Forall_lookup. setoid_rewrite lookup_enumerate_from. split.
  - intros H k x Hx. apply (H k). by rewrite Hx.
  - intros H k [j x] Hk. apply fmap_Some in Hk as (y & Hy & [= -> ->]). auto.
Qed.

(** ** Stable sorting *)

Lemma insert_by_key_perm {A} (key : A → N) x l : insert_by_key key x l ≡ₚ x :: l.
Proof.
  induction l as [|y l IH]; simpl; [done|].
  case_match; [done|]. rewrite IH. apply Permutation_swap.
Qed.

Lemma sort_by_key_perm {A} (key : A → N) l : sort_by_key key l ≡ₚ l.
Proof. induction l as [|x l IH]; simpl; [done|]. by rewrite insert_by_key_perm, IH. Qed.

Abbreviation key_le key := (λ x y, (key x ≤ key y)%N).

Lemma insert_by_key_sorted {A} (key : A → N) x l :
  StronglySorted (key_le key) l → StronglySorted (key_le key) (insert_by_key key x l).
Proof.
  induction 1 as [|y l Hs IH Hall]; simpl; [repeat constructor|].
  case_match eqn:E; constructor; auto.
  - by constructor.
  - apply N.leb_le in E. constructor; [done|].
    eapply Forall_impl; [done|]. simpl; lia.
  - apply N.leb_gt in E. rewrite insert_by_key_perm. constructor; [lia|done].
Qed.

Lemma sort_by_key_sorted {A} (key : A → N) l :
  StronglySorted (key_le key) (sort_by_key key l).
Proof. induction l; simpl; [constructor|]. by apply insert_by_key_sorted. Qed.

Lemma sort_by_key_id {A} (key : A → N) l :
  StronglySorted (key_le key) l → sort_by_key key l = l.
Proof.
  induction 1 as [|x l Hs IH Hall]; simpl; [done|]. rewrite IH.
  destruct l as [|y l]; simpl; [done|]. inv Hall.
  by rewrite (proj2 (N.leb_le _ _)) by done.
Qed.

(** ** Integers and bytes *)

Lemma N_of_byte_lt b : (N_of_byte b < 256)%N.
Proof. apply N_ascii_bounded. Qed.

Lemma N_of_byte_of_N n : N_of_byte (byte_of_N n) = (n mod 256)%N.
Proof. apply N_ascii_embedding. by apply N.mod_lt. Qed.

Lemma byte_of_N_of_byte b : byte_of_N (N_of_byte b) = b.
Proof.
  unfold byte_of_N. rewrite N.mod_small by apply N_of_byte_lt. apply ascii_N_embedding.
Qed.

Global Instance N_of_byte_inj : Inj (=) (=) N_of_byte.
Proof. intros a b H. by rewrite <-(byte_of_N_of_byte a), H, byte_of_N_of_byte. Qed.

Lemma length_le_bytes k n : length (le_bytes k n) = k.
Proof. revert n; induction k; intros; simpl; auto. Qed.

Lemma of_le_bytes_le_bytes k n : of_le_bytes (le_bytes k n) = (n mod 256 ^ N.of_nat k)%N.
Proof.
  revert n; induction k as [|k IH]; intros n; [simpl; by rewrite N.mod_1_r|].
  cbn [le_bytes of_le_bytes]. rewrite IH, N_of_byte_of_N.
  replace (N.of_nat (S k)) with (N.succ (N.of_nat k)) by lia.
  rewrite N.pow_succ_r', N.Div0.mod_mul_r by lia. lia.
Qed.

Lemma le_bytes_of_le_bytes l : le_bytes (length l) (of_le_bytes l) = l.
Proof.
  induction l as [|b l IH]; [done|]. cbn [length of_le_bytes le_bytes].
  pose proof (N_of_byte_lt b). f_equal.
  - apply (inj N_of_byte). rewrite N_of_byte_of_N, N.mul_comm, N.Div0.mod_add.
    by apply N.mod_small.
  - rewrite N.mul_comm, N.div_add, N.div_small by lia. apply IH.
Qed.

Lemma length_be_bytes k n : length (be_bytes k n) = k.
Proof. unfold be_bytes. by rewrite length_reverse, length_le_bytes. Qed.

Lemma of_be_bytes_be_bytes k n : (n < 256 ^ N.of_nat k)%N → of_be_bytes (be_bytes k n) = n.
Proof.
  intros. unfold of_be_bytes, be_bytes.
  rewrite reverse_involutive, of_le_bytes_le_bytes. by apply N.mod_small.
Qed.

Lemma be_bytes_of_be_bytes l : be_bytes (length l) (of_be_bytes l) = l.
Proof.
  unfold of_be_bytes, be_bytes. rewrite <-(length_reverse l), le_bytes_of_le_bytes.
  apply reverse_involutive.
Qed.

Lemma of_be_bytes_lt l : (of_be_bytes l < 256 ^ N.of_nat (length l))%N.
Proof.
  unfold of_be_bytes. rewrite <-length_reverse. generalize (reverse l); clear l.
  intros l. induction l as [|b l IH]; [done|]. cbn [of_le_bytes length]. rewrite Nat2N.inj_succ, N.pow_succ_r'.
  pose proof (N_of_byte_lt b). lia.
Qed.

Lemma be_bytes_inj k m n :
  (m < 256 ^ N.of_nat k)%N → (n < 256 ^ N.of_nat k)%N → be_bytes k m = be_bytes k n → m = n.
Proof.
  intros Hm Hn H. rewrite <-(of_be_bytes_be_bytes k m), H by done.
  by apply of_be_bytes_be_bytes.
Qed.

Lemma i64_u64_roundtrip n : (n ≤ u64_max)%N → i64_as_u64 (u64_as_i64 n) = n.
Proof.
  unfold i64_as_u64, u64_as_i64, u64_max. intros H. case_match eqn:E.
  - apply N.ltb_lt in E. rewrite Z.mod_small by lia. lia.
  - apply N.ltb_ge in E.
    replace (Z.of_N n - 2 ^ 64)%Z with (Z.of_N n + (-1) * 2 ^ 64)%Z by lia.
    rewrite Z.mod_add, Z.mod_small by lia. lia.
Qed.

Lemma i32_u32_roundtrip n : (n ≤ u32_max)%N → i32_as_u32 (u32_as_i32 n) = n.
Proof.
  unfold i32_as_u32, u32_as_i32, u32_max. intros H. case_match eqn:E.
  - apply N.ltb_lt in E. rewrite Z.mod_small by lia. lia.
  - apply N.ltb_ge in E.
    replace (Z.of_N n - 2 ^ 32)%Z with (Z.of_N n + (-1) * 2 ^ 32)%Z by lia.
    rewrite Z.mod_add, Z.mod_small by lia. lia.
Qed.

(** ** Prefixes *)

Lemma starts_with_spec p s : starts_with p s = true ↔ ∃ r, s = p ++ r.
Proof.
  revert s; induction p as [|a p IH]; intros s; simpl.
  { split; [by exists s|done]. }
  destruct s as [|b s]; simpl.
  { split; [done|]. by intros (r & ?). }
  rewrite andb_true_iff, bool_decide_eq_true, IH. naive_solver.
Qed.

Lemma strip_prefix_spec p s r : strip_prefix p s = Some r ↔ s = p ++ r.
Proof.
  unfold strip_prefix. case_match eqn:E.
  - apply starts_with_spec in E as (r' & ->). rewrite drop_app_length. naive_solver.
  - split; [done|]. intros ->. exfalso.
    assert (starts_with p (p ++ r) = true) by (apply starts_with_spec; eauto). congruence.
Qed.

Lemma strip_prefix_app p r : strip_prefix p (p ++ r) = Some r.
Proof. by apply strip_prefix_spec. Qed.
#[export] Hint Rewrite strip_prefix_app : sealedge.

Lemma is_empty_true s : is_empty s = true ↔ s = [].
Proof. by destruct s. Qed.
Lemma is_empty_false s : is_empty s = false ↔ s ≠ [].
Proof. by destruct s. Qed.

(** ** Decimal formatting *)

Lemma lit_inj s t : lit s = lit t → s = t.
Proof.
  intros H. rewrite <-(String.string_of_list_ascii_of_string s).
  unfold lit in H. by rewrite H, String.string_of_list_ascii_of_string.
Qed.

Global Instance fmt_N_inj : Inj (=) (=) fmt_N.
Proof. intros m n H. by apply lit_inj, (inj pretty) in H. Qed.

Global Instance fmt_nat_inj : Inj (=) (=) fmt_nat.
Proof. intros m n H. apply (inj fmt_N) in H. lia. Qed.

Lemma pretty_N_char_digit n : is_digit (pretty_N_char n) = true.
Proof. destruct n as [|p]; [done|]. do 4 (destruct p as [p|p|]; try done). Qed.

Lemma pretty_N_go_digits n s :
  forallb is_digit (lit s) = true → forallb is_digit (lit (pretty_N_go n s)) = true.
Proof.
  revert s. induction (N.lt_wf_0 n) as [n _ IH]; intros s Hs.
  destruct (decide (n = 0)%N) as [->|Hn]; [done|].
  rewrite pretty_N_go_step by lia. apply IH; [apply N.div_lt; lia|].
  simpl. by rewrite pretty_N_char_digit.
Qed.

Lemma pretty_N_go_length n s : String.length s ≤ String.length (pretty_N_go n s).
Proof.
  revert s. induction (N.lt_wf_0 n) as [n _ IH]; intros s.
  destruct (decide (n = 0)%N) as [->|Hn]; [done|].
  rewrite pretty_N_go_step by lia. etrans; [|apply IH, N.div_lt; lia]. simpl. lia.
Qed.

Lemma fmt_N_digits n : forallb is_digit (fmt_N n) = true.
Proof.
  unfold fmt_N, pretty, pretty_N. case_decide; [done|]. by apply pretty_N_go_digits.
Qed.

Lemma fmt_N_nonempty n : fmt_N n ≠ [].
Proof.
  unfold fmt_N, pretty, pretty_N. case_decide; [done|].
  rewrite pretty_N_go_step by lia.
  pose proof (pretty_N_go_length (n `div` 10) (String (pretty_N_char (n `mod` 10)) "")).
  destruct (pretty_N_go _ _); simpl in *; [lia|done].
Qed.
