(* ===== verification/Utf8.v ===== *)
(** * UTF-8 checking, as the standard library does it

    [String::from_utf8_lossy], [OsStr::to_string_lossy] and [str::from_utf8]:
    a byte string is read as a sequence of encoded characters; each maximal
    ill-formed part becomes U+FFFD. *)

From S2P Require Import Prelude.

Definition is_cont (b : byte) : bool := byte_in 128 191 b.

(** Range of the second byte that a leading byte allows. *)
Definition second_ok (b0 b1 : byte) : bool :=
  let n := N_of_byte b0 in
  if (n =? 224)%N then byte_in 160 191 b1
  else if (n =? 237)%N then byte_in 128 159 b1
  else if (n =? 240)%N then byte_in 144 191 b1
  else if (n =? 244)%N then byte_in 128 143 b1
  else is_cont b1.

(** Number of leading bytes of [l] among the first [n] that satisfy their test. *)
Fixpoint count_ok (tests : list (byte → bool)) (l : bytes) : nat :=
  match tests, l with
  | t :: tests', b :: l' => if t b then S (count_ok tests' l') else 0
  | _, _ => 0
  end.

(** The next part of a non-empty string: whether it is a character, and how
    many bytes it has. *)
Definition utf8_step (b0 : byte) (rest : bytes) : bool * nat :=
  if byte_in 0 127 b0 then (true, 1)
  else if byte_in 194 223 b0 then
    let k := count_ok [is_cont] rest in ((k =? 1)%nat, S k)
  else if byte_in 224 239 b0 then
    let k := count_ok [second_ok b0; is_cont] rest in ((k =? 2)%nat, S k)
  else if byte_in 240 244 b0 then
    let k := count_ok [second_ok b0; is_cont; is_cont] rest in ((k =? 3)%nat, S k)
  else (false, 1).

Definition replacement : bytes := byte_of_N <$> [239; 191; 189]%N.

Fixpoint lossy_go (fuel : nat) (s : bytes) : bytes :=
  match fuel, s with
  | S f, b :: r =>
      let '(ok, n) := utf8_step b r in
      (if ok then take n s else replacement) ++ lossy_go f (drop n s)
  | _, _ => []
  end.
Definition from_utf8_lossy (s : bytes) : bytes := lossy_go (length s) s.

Fixpoint valid_go (fuel : nat) (s : bytes) : bool :=
  match fuel, s with
  | S f, b :: r => let '(ok, n) := utf8_step b r in ok && valid_go f (drop n s)
  | _, [] => true
  | O, _ :: _ => false
  end.
(** [str::from_utf8(s).is_ok()] *)
Definition utf8_valid (s : bytes) : bool := valid_go (length s) s.

(** ** [str::trim]: the characters with the property White_Space, in UTF-8 *)

Definition white_space : list bytes :=
  ((λ n, [byte_of_N n]) <$> [9; 10; 11; 12; 13; 32]%N)
  ++ ((λ n, [byte_of_N 194; byte_of_N n]) <$> [133; 160]%N)
  ++ [[byte_of_N 225; byte_of_N 154; byte_of_N 128]]
  ++ ((λ n, [byte_of_N 226; byte_of_N 128; byte_of_N n])
        <$> [128; 129; 130; 131; 132; 133; 134; 135; 136; 137; 138; 168; 169; 175]%N)
  ++ [[byte_of_N 226; byte_of_N 129; byte_of_N 159]; [byte_of_N 227; byte_of_N 128; byte_of_N 128]].

(** Drop leading occurrences of the patterns. *)
Fixpoint trim_with (fuel : nat) (pats : list bytes) (s : bytes) : bytes :=
  match fuel with
  | O => s
  | S f =>
      match List.find (λ p, starts_with p s) pats with
      | Some p => trim_with f pats (drop (length p) s)
      | None => s
      end
  end.
Definition trim_start (s : bytes) : bytes := trim_with (length s) white_space s.
Definition trim_end (s : bytes) : bytes :=
  reverse (trim_with (length s) (reverse <$> white_space) (reverse s)).
Definition trim (s : bytes) : bytes := trim_end (trim_start s).

(** [s.split(c)] *)
Fixpoint split_on (c : byte) (s : bytes) : list bytes :=
  match s with
  | [] => [[]]
  | b :: s' =>
      if decide (b = c) then [] :: split_on c s'
      else match split_on c s' with
           | x :: l => (b :: x) :: l
           | [] => [[b]] (* not reached: the result is never empty *)
           end
  end.

Lemma utf8_step_pos b r ok n : utf8_step b r = (ok, n) → ∃ k, n = S k.
Proof. unfold utf8_step. intros. repeat case_match; simplify_eq; eauto. Qed.

(** Well-formed text is unchanged. *)
Lemma from_utf8_lossy_valid s : utf8_valid s = true → from_utf8_lossy s = s.
Proof.
  unfold utf8_valid, from_utf8_lossy. generalize (length s) as f. intros f.
  revert s; induction f as [|f IH]; intros [|b r]; try done.
  cbn [valid_go lossy_go]. destruct (utf8_step b r) as [ok n] eqn:E.
  destruct ok; [|done]. simpl. intros Hv. rewrite IH by done. apply take_drop.
Qed.

Lemma ascii_valid s : Forall (λ b, byte_in 0 127 b = true) s → utf8_valid s = true.
Proof.
  unfold utf8_valid. induction 1 as [|b s Hb _ IH]; [done|].
  cbn [length valid_go]. unfold utf8_step. rewrite Hb. simpl. by rewrite drop_0.
Qed.

Example lossy_1 : from_utf8_lossy (byte_of_N <$> [65; 255; 226; 130; 66]%N)
  = byte_of_N <$> [65; 239; 191; 189; 239; 191; 189; 66]%N.
Proof. vm_compute. reflexivity. Qed.

(** ** Trimming *)

(** A byte that starts or ends no white space. *)
Definition solid (c : byte) : Prop := byte_in 33 126 c = true.

(** No pattern starts with a solid byte. *)
Definition blank_patterns (pats : list bytes) : bool :=
  forallb (λ p, match p with b :: _ => negb (byte_in 33 126 b) | [] => false end) pats.

Lemma white_space_blank : blank_patterns white_space = true.
Proof. vm_compute. reflexivity. Qed.
Lemma reverse_white_space_blank : blank_patterns (reverse <$> white_space) = true.
Proof. vm_compute. reflexivity. Qed.

Lemma trim_with_solid (pats : list bytes) fuel c s :
  blank_patterns pats = true → solid c → trim_with fuel pats (c :: s) = c :: s.
Proof.
  intros Hp Hc. destruct fuel as [|f]; [done|]. cbn [trim_with].
  destruct (List.find _ pats) as [p|] eqn:E; [|done].
  apply List.find_some in E as [Hin Hs]. unfold blank_patterns in Hp.
  rewrite forallb_forall in Hp. specialize (Hp p Hin). destruct p as [|b p]; [done|].
  apply starts_with_spec in Hs as [r [= -> _]]. unfold solid in Hc. by rewrite Hc in Hp.
Qed.

(** A text that starts and ends with solid bytes is trimmed already. *)
Lemma trim_solid s :
  (∀ c, head s = Some c → solid c) → (∀ c, last s = Some c → solid c) → trim s = s.
Proof.
  intros Hc Hd. unfold trim, trim_start, trim_end. destruct s as [|c s]; [done|].
  rewrite trim_with_solid by (apply white_space_blank || by apply Hc).
  destruct (reverse (c :: s)) as [|d r] eqn:E.
  { by rewrite reverse_cons in E; apply app_nil in E as []. }
  rewrite trim_with_solid; [|apply reverse_white_space_blank|].
  - by rewrite <-E, reverse_involutive.
  - apply Hd. rewrite <-(reverse_involutive (c :: s)), E, reverse_cons. apply last_snoc.
Qed.

Lemma trim_all_solid s : Forall solid s → trim s = s.
Proof.
  intros Hs. rewrite Forall_forall in Hs. apply trim_solid; intros c Hc; apply Hs.
  - destruct s; [done|]. injection Hc as ->. apply list_elem_of_here.
  - apply last_Some in Hc as [l ->]. set_solver.
Qed.

(** Hexadecimal text is ASCII and has nothing to trim. *)
Lemma hexdigit_solid c : is_ascii_hexdigit c = true → solid c.
Proof.
  unfold solid, is_ascii_hexdigit, byte_in, is_digit. pose proof (N_of_byte_lt c).
  rewrite !orb_true_iff, !andb_true_iff, !N.leb_le. lia.
Qed.
Lemma hexdigits_trim s : Forall (λ c, is_ascii_hexdigit c = true) s → trim s = s.
Proof. intros Hs. apply trim_all_solid. eapply Forall_impl; [exact Hs|apply hexdigit_solid]. Qed.
Lemma hexdigits_valid s : Forall (λ c, is_ascii_hexdigit c = true) s → utf8_valid s = true.
Proof.
  intros Hs. apply ascii_valid. eapply Forall_impl; [exact Hs|]. intros c Hc%hexdigit_solid.
  unfold solid, byte_in in *. rewrite !andb_true_iff, !N.leb_le in *. lia.
Qed.
