(* ===== verification/Json.v ===== *)
(** * Canonical JSON

    The byte sequences that sealedge signs and hashes are JSON documents printed
    by hand in a fixed field order (crates/seal-protocols/src/archive/manifest.rs
    [serialize_canonical], crates/core/src/chronicle.rs [signing_bytes]).  This
    file has the syntax trees of such documents, their printer, and the theorem
    that the printer is injective and self-delimiting.

    String escaping is done by the external crate serde_json.  It is a parameter:
    the class [SerdeJson] has the two calls the sources make and [SerdeJsonLaws]
    what they rely on (RFC 8259: a string is a quoted, self-delimiting literal). *)

From S2P Require Import Prelude.

Definition comma : byte := byte_of_N 44.
Definition colon : byte := byte_of_N 58.
Definition lbrace : byte := byte_of_N 123.
Definition rbrace : byte := byte_of_N 125.
Definition lbracket : byte := byte_of_N 91.
Definition rbracket : byte := byte_of_N 93.
Definition backslash : byte := byte_of_N 92.

(** [x ++ "," ++ y ++ "," ++ ...] *)
Definition commas (l : list bytes) : bytes :=
  match l with
  | [] => []
  | x :: l' => x ++ mjoin ((λ y, comma :: y) <$> l')
  end.

(** A byte a JSON string literal carries without an escape. *)
Definition plain_byte (b : byte) : bool :=
  byte_in 32 126 b && bool_decide (b ≠ dquote) && bool_decide (b ≠ backslash).

Class SerdeJson := {
  (** [serde_json::to_string(&s)] for a string. *)
  json_str : bytes → bytes;
  (** [serde_json::to_string(&v)] for a [Vec<String>]. *)
  json_str_vec : list bytes → bytes;
}.

Class SerdeJsonLaws `{SerdeJson} : Prop := {
  json_str_prefix_free s t r r' : json_str s ++ r = json_str t ++ r' → s = t ∧ r = r';
  json_str_plain s : forallb plain_byte s = true → json_str s = dquote :: s ++ [dquote];
  json_str_head s : head (json_str s) = Some dquote;
  json_str_vec_spec l :
    json_str_vec l = lbracket :: commas (json_str <$> l) ++ [rbracket];
}.

(** ** Syntax trees *)

Inductive json : Type :=
  | JStr (s : bytes)
  | JTok (t : bytes)
  | JArr (l : list json)
  | JObj (l : list (bytes * json)).

(** Bytes that end a value inside a document. *)
Definition is_delim (b : byte) : bool :=
  bool_decide (b = comma) || bool_decide (b = rbrace) || bool_decide (b = rbracket).
(** Bytes of a number token (and of the tokens [NaN], [inf] of Rust's float
    formatting, which are not JSON but are what [{}] prints). *)
Definition is_tok_byte (b : byte) : bool :=
  byte_in 48 57 b || byte_in 65 90 b || byte_in 97 122 b
  || bool_decide (b = byte_of_N 45) || bool_decide (b = byte_of_N 46).
Definition tok_ok (t : bytes) : bool := negb (is_empty t) && forallb is_tok_byte t.

Section Printer.
Context `{SerdeJson}.

Fixpoint jprint (v : json) : bytes :=
  match v with
  | JStr s => json_str s
  | JTok t => t
  | JArr l => lbracket :: commas (List.map jprint l) ++ [rbracket]
  | JObj l =>
      lbrace :: commas (List.map (λ kv, json_str kv.1 ++ colon :: jprint kv.2) l) ++ [rbrace]
  end.
End Printer.

(** Every token is a well-formed number token. *)
Fixpoint json_wf (v : json) : bool :=
  match v with
  | JStr _ => true
  | JTok t => tok_ok t
  | JArr l => forallb json_wf l
  | JObj l => forallb (λ kv, json_wf kv.2) l
  end.

(** Induction with the hypothesis for every element of an array or object. *)
Section Induction.
Variable P : json → Prop.
Hypothesis HStr : ∀ s, P (JStr s).
Hypothesis HTok : ∀ t, P (JTok t).
Hypothesis HArr : ∀ l, Forall P l → P (JArr l).
Hypothesis HObj : ∀ l, Forall (λ kv, P kv.2) l → P (JObj l).

Fixpoint json_ind' (v : json) : P v :=
  match v with
  | JStr s => HStr s
  | JTok t => HTok t
  | JArr l => HArr l
      ((fix go l := match l return Forall P l with
        | [] => Forall_nil_2 _
        | x :: l' => Forall_cons_2 _ _ _ (json_ind' x) (go l') end) l)
  | JObj l => HObj l
      ((fix go l := match l return Forall (λ kv, P kv.2) l with
        | [] => Forall_nil_2 _
        | x :: l' => Forall_cons_2 _ _ _ (json_ind' x.2) (go l') end) l)
  end.
End Induction.

(** ** Printing is injective *)

(** What may follow a value: the end, or a delimiter. *)
Definition delim_next (r : bytes) : Prop :=
  match r with [] => True | b :: _ => is_delim b = true end.

Lemma span_unique (P : byte → bool) l1 l2 r1 r2 :
  forallb P l1 = true → forallb P l2 = true →
  (∀ b, head r1 = Some b → P b = false) → (∀ b, head r2 = Some b → P b = false) →
  l1 ++ r1 = l2 ++ r2 → l1 = l2 ∧ r1 = r2.
Proof.
  revert l2; induction l1 as [|a l1 IH]; intros [|b l2]; simpl;
    rewrite ?andb_true_iff; intros H1 H2 Hr1 Hr2 Heq; simplify_eq; try done.
  - destruct H2. specialize (Hr1 b eq_refl). congruence.
  - destruct H1. specialize (Hr2 a eq_refl). congruence.
  - destruct (IH l2) as [-> ->]; naive_solver.
Qed.

Lemma delim_not_tok b : is_delim b = true → is_tok_byte b = false.
Proof.
  unfold is_delim. rewrite !orb_true_iff, !bool_decide_eq_true.
  by intros [[->| ->]| ->].
Qed.

Lemma delim_next_head r b : delim_next r → head r = Some b → is_tok_byte b = false.
Proof. destruct r; simpl; [done|]. intros ? [= <-]. by apply delim_not_tok. Qed.

Lemma tok_unique t1 t2 r1 r2 :
  tok_ok t1 = true → tok_ok t2 = true → delim_next r1 → delim_next r2 →
  t1 ++ r1 = t2 ++ r2 → t1 = t2 ∧ r1 = r2.
Proof.
  unfold tok_ok. rewrite !andb_true_iff. intros [_ ?] [_ ?] ? ?.
  apply (span_unique is_tok_byte); eauto using delim_next_head.
Qed.

(** A comma separated, closed sequence of self-delimiting items. *)
Section Items.
Context {A : Type} (pr : A → bytes) (close : byte).
Context (Hclose : is_delim close = true) (Hcomma : close ≠ comma).

Definition item_head (x : A) : Prop := ∃ b t, pr x = b :: t ∧ is_delim b = false.

Lemma items_tail_unique (Q : A → Prop) l l' r s :
  (∀ x y r s, Q x → Q y → x ∈ l → delim_next r → delim_next s →
     pr x ++ r = pr y ++ s → x = y ∧ r = s) →
  Forall Q l → Forall Q l' →
  mjoin ((λ y, comma :: y) <$> (pr <$> l)) ++ close :: r =
  mjoin ((λ y, comma :: y) <$> (pr <$> l')) ++ close :: s →
  l = l' ∧ r = s.
Proof using Hclose Hcomma.
  revert l'; induction l as [|x l IH]; intros l' Hpr Hl Hl' Heq.
  { destruct l'; simpl in Heq; simplify_eq; done. }
  destruct l' as [|y l']; simpl in Heq; [by simplify_eq|].
  injection Heq as Heq. rewrite <-!app_assoc in Heq. inv Hl. inv Hl'.
  apply Hpr in Heq as [<- Heq]; [..|done|done|set_solver| |].
  - destruct (IH l') as [<- <-]; [|done..|done].
    intros; eapply Hpr; eauto. set_solver.
  - destruct l; simpl; [done|]. vm_compute; done.
  - destruct l'; simpl; [done|]. vm_compute; done.
Qed.

Lemma items_unique (Q : A → Prop) l l' r s :
  (∀ x y r s, Q x → Q y → x ∈ l → delim_next r → delim_next s →
     pr x ++ r = pr y ++ s → x = y ∧ r = s) →
  (∀ x, Q x → item_head x) →
  Forall Q l → Forall Q l' →
  commas (pr <$> l) ++ close :: r = commas (pr <$> l') ++ close :: s →
  l = l' ∧ r = s.
Proof using Hclose Hcomma.
  intros Hpr Hhead Hl Hl' Heq. destruct l as [|x l], l' as [|y l']; simpl in Heq.
  - by simplify_eq.
  - inv Hl'. destruct (Hhead y) as (b & t & Hb & Hd); [done|].
    rewrite Hb in Heq. simplify_eq/=. congruence.
  - inv Hl. destruct (Hhead x) as (b & t & Hb & Hd); [done|].
    rewrite Hb in Heq. simplify_eq/=. congruence.
  - inv Hl. inv Hl'. rewrite <-!app_assoc in Heq.
    apply Hpr in Heq as [<- Heq]; [..|done|done|set_solver| |].
    + apply (items_tail_unique Q) in Heq as [<- <-]; [done| |done..].
      intros; eapply Hpr; eauto. set_solver.
    + destruct l; simpl; [done|]. vm_compute; done.
    + destruct l'; simpl; [done|]. vm_compute; done.
Qed.
End Items.

Section Unique.
Context `{SerdeJsonLaws}.

Lemma jprint_head v : json_wf v = true → ∃ b t, jprint v = b :: t ∧ is_delim b = false.
Proof.
  destruct v as [s|t|l|l]; simpl; intros Hwf.
  - pose proof (json_str_head s) as Hh. destruct (json_str s) as [|b t]; [done|].
    simpl in Hh. simplify_eq. by exists dquote, t.
  - unfold tok_ok in Hwf. destruct t as [|b t]; [done|]. simpl in Hwf.
    exists b, t. split; [done|]. destruct (is_delim b) eqn:E; [|done].
    apply delim_not_tok in E. by rewrite E in Hwf.
  - by eexists lbracket, _.
  - by eexists lbrace, _.
Qed.

Lemma json_str_not_tok s t r r' : json_str s ++ r = t ++ r' → tok_ok t = true → False.
Proof.
  pose proof (json_str_head s) as Hh. destruct (json_str s) as [|b u]; [done|].
  unfold tok_ok. destruct t as [|c t]; [done|]. simpl in *. intros. simplify_eq.
Qed.

Lemma json_str_not_cons s b r r' : b ≠ dquote → json_str s ++ r = b :: r' → False.
Proof.
  pose proof (json_str_head s) as Hh. destruct (json_str s) as [|c u]; [done|].
  simpl in *. intros. by simplify_eq.
Qed.

Lemma tok_not_cons t b r r' : is_tok_byte b = false → tok_ok t = true → t ++ r = b :: r' → False.
Proof.
  unfold tok_ok. destruct t as [|c t]; [done|]. simpl. intros Hb Ht ?. simplify_eq.
  by rewrite Hb in Ht.
Qed.

Lemma member_unique k k' v v' r s :
  (∀ r s, delim_next r → delim_next s → jprint v ++ r = jprint v' ++ s → v = v' ∧ r = s) →
  delim_next r → delim_next s →
  (json_str k ++ colon :: jprint v) ++ r = (json_str k' ++ colon :: jprint v') ++ s →
  (k, v) = (k', v') ∧ r = s.
Proof.
  intros Hv Hr Hs Heq. rewrite <-!app_assoc in Heq.
  apply json_str_prefix_free in Heq as [<- Heq]. injection Heq as Heq.
  by apply Hv in Heq as [<- <-].
Qed.

Lemma jprint_unique_delim v : ∀ w r s,
  json_wf v = true → json_wf w = true → delim_next r → delim_next s →
  jprint v ++ r = jprint w ++ s → v = w ∧ r = s.
Proof.
  induction v as [a|t|l IH|l IH] using json_ind'; intros w r s Hv Hw Hr Hs Heq.
  - destruct w as [b|t|l|l]; simpl in Heq.
    + by apply json_str_prefix_free in Heq as [<- <-].
    + exfalso; eauto using json_str_not_tok.
    + exfalso; by eapply (json_str_not_cons a lbracket).
    + exfalso; by eapply (json_str_not_cons a lbrace).
  - destruct w as [b|t'|l|l]; simpl in *.
    + exfalso. symmetry in Heq. eauto using json_str_not_tok.
    + by apply tok_unique in Heq as [<- <-].
    + exfalso; by eapply (tok_not_cons t lbracket).
    + exfalso; by eapply (tok_not_cons t lbrace).
  - destruct w as [b|t|l'|l']; cbn [jprint] in Heq.
    + exfalso; symmetry in Heq; by eapply (json_str_not_cons b lbracket).
    + exfalso; symmetry in Heq; by eapply (tok_not_cons t lbracket).
    + injection Heq as Heq. rewrite <-!app_assoc in Heq. simpl in Heq.
      apply (items_unique jprint rbracket eq_refl ltac:(done) (λ x, json_wf x = true))
        in Heq as [<- <-]; [done|..].
      * intros x y r' s' Hx Hy Hin. rewrite Forall_forall in IH. by apply IH.
      * intros x. apply jprint_head.
      * by apply forallb_Forall.
      * by apply forallb_Forall.
    + done.
  - destruct w as [b|t|l'|l']; cbn [jprint] in Heq.
    + exfalso; symmetry in Heq; by eapply (json_str_not_cons b lbrace).
    + exfalso; symmetry in Heq; by eapply (tok_not_cons t lbrace).
    + done.
    + injection Heq as Heq. rewrite <-!app_assoc in Heq. simpl in Heq.
      apply (items_unique (λ kv, json_str kv.1 ++ colon :: jprint kv.2) rbrace eq_refl
        ltac:(done) (λ kv, json_wf kv.2 = true)) in Heq as [<- <-]; [done|..].
      * intros [k x] [k' y] r' s' Hx Hy Hin ?? Hk. rewrite Forall_forall in IH.
        apply member_unique in Hk; [done| |done..].
        intros. by apply (IH (k, x)).
      * intros [k x] _. pose proof (json_str_head k) as Hh. unfold item_head. simpl.
        destruct (json_str k) as [|b u]; [done|]. simpl in Hh. simplify_eq. by eexists _, _.
      * by apply forallb_Forall.
      * by apply forallb_Forall.
Qed.

(** Two documents that print to the same bytes are the same document. *)
Lemma jprint_inj v w :
  json_wf v = true → json_wf w = true → jprint v = jprint w → v = w.
Proof.
  intros Hv Hw Heq. by apply (jprint_unique_delim v w [] []); rewrite ?app_nil_r.
Qed.
End Unique.
