(* ===== verification/Float64.v ===== *)
(** * f64 values and their [{}] formatting

    The manifest stores [f64] fields and prints them with Rust's [Display].
    A value is a [spec_float] of binary64 (52 fraction bits, exponents as in
    IEEE 754).  [fmt_f64] follows the standard library: the shortest decimal
    that reads back as the same value, the one closest to it among those, laid
    out without an exponent; [NaN], [inf] and [-inf] for the special values. *)

From S2P Require Import Prelude Json.
From Stdlib Require Import SpecFloat.

Abbreviation f64 := spec_float (only parsing).

Definition prec : Z := 53.
Definition emax : Z := 1024.

(** An [f64] literal of the source with an integral value, e.g. [30.0]. *)
Definition f64_of_Z (z : Z) : f64 := binary_normalize prec emax z 0 false.
Definition f64_zero : f64 := S754_zero false.

(** [a <= b] on [f64]: false when either side is NaN. *)
Definition f64_le (a b : f64) : bool := SFleb a b.

Global Instance f64_eq_dec : EqDecision f64.
Proof. solve_decision. Defined.

(** ** Reading a decimal *)

(** [d * 10^q] rounded to nearest even. *)
Definition decimal_to_f64 (neg : bool) (d : N) (q : Z) : f64 :=
  match d with
  | N0 => S754_zero neg
  | Npos p =>
      if (0 <=? q)%Z then
        binary_normalize prec emax ((if neg then Zneg p else Zpos p) * 10 ^ q) 0 neg
      else
        SFdiv prec emax (S754_finite neg p 0) (S754_finite false (Z.to_pos (10 ^ (- q))) 0)
  end.

Definition digit_val (b : byte) : N := (N_of_byte b - 48)%N.

(** The digits up to the first other byte, accumulated in [acc]; also how many. *)
Fixpoint read_digits (acc : N) (n : nat) (s : bytes) : N * nat * bytes :=
  match s with
  | [] => (acc, n, [])
  | b :: s' => if is_digit b then read_digits (acc * 10 + digit_val b) (S n) s' else (acc, n, s)
  end.

Definition minus : byte := byte_of_N 45.
Definition dot : byte := byte_of_N 46.

(** [digits] or [digits.digits] *)
Definition parse_decimal (neg : bool) (s : bytes) : option f64 :=
  match read_digits 0 0 s with
  | (_, O, _) => None
  | (d, _, []) => Some (decimal_to_f64 neg d 0)
  | (d, _, c :: s') =>
      if decide (c = dot) then
        match read_digits d 0 s' with
        | (d', n, []) => Some (decimal_to_f64 neg d' (- Z.of_nat n))
        | _ => None
        end
      else None
  end.

Definition parse_f64 (s : bytes) : option f64 :=
  if decide (s = lit "NaN") then Some S754_nan
  else if decide (s = lit "inf") then Some (S754_infinity false)
  else if decide (s = lit "-inf") then Some (S754_infinity true)
  else match s with
  | c :: s' => if decide (c = minus) then parse_decimal true s' else parse_decimal false s
  | [] => None
  end.

(** ** Writing the shortest decimal *)

(** The decimal digits of [d] without trailing zeros; [k] digits stand before
    the decimal point (non-positive: leading zeros after it). *)
Fixpoint strip_zeros (fuel : nat) (d : N) (q : Z) : N * Z :=
  match fuel with
  | O => (d, q)
  | S f => if (0 <? d)%N && (d mod 10 =? 0)%N then strip_zeros f (d / 10) (q + 1) else (d, q)
  end.

Definition zeros (n : nat) : bytes := replicate n (byte_of_N 48).

(** [d * 10^q] in positional notation. *)
Definition layout (d : N) (q : Z) : bytes :=
  let '(d, q) := strip_zeros 20 d q in
  let ds := fmt_N d in
  let k := (Z.of_nat (length ds) + q)%Z in
  if (k <=? 0)%Z then lit "0." ++ zeros (Z.to_nat (- k)) ++ ds
  else if (q <? 0)%Z then take (Z.to_nat k) ds ++ dot :: drop (Z.to_nat k) ds
  else ds ++ zeros (Z.to_nat q).

(** [m * 2^e] as a fraction. *)
Definition frac_of (m : positive) (e : Z) : N * N :=
  if (0 <=? e)%Z then (Npos m * 2 ^ Z.to_N e, 1)%N else (Npos m, 2 ^ Z.to_N (- e))%N.

(** [num/den] against [10^k]. *)
Definition scaled (num den : N) (k : Z) : N * N :=
  if (0 <=? k)%Z then (num, den * 10 ^ Z.to_N k)%N else (num * 10 ^ Z.to_N (- k), den)%N.

(** The least [k] (from a logarithm estimate) with [num/den < 10^k]. *)
Fixpoint find_exp (fuel : nat) (num den : N) (k : Z) : Z :=
  match fuel with
  | O => k
  | S f => let '(a, b) := scaled num den k in
           if (a <? b)%N then k else find_exp f num den (k + 1)
  end.
Definition exp10 (num den : N) : Z :=
  let est := ((Z.of_N (N.log2 num) - Z.of_N (N.log2 den)) * 30103 / 100000)%Z in
  find_exp 8 num den (est - 2).

(** The two [n]-digit decimals around [num/den], the closer one first. *)
Definition candidates (num den : N) (k : Z) (n : nat) : list bytes :=
  let q := (k - Z.of_nat n)%Z in
  let '(a, b) := scaled num den q in
  let lo := (a / b)%N in
  let up := (b <=? 2 * (a mod b))%N in
  if up then [layout (lo + 1) q; layout lo q] else [layout lo q; layout (lo + 1) q].

Definition shortest (m : positive) (e : Z) : bytes :=
  let '(num, den) := frac_of m e in
  let k := exp10 num den in
  let all := mjoin (candidates num den k <$> seq 1 17) in
  match List.find (λ s, bool_decide (parse_f64 s = Some (S754_finite false m e))) all with
  | Some s => s
  | None => List.hd [] (candidates num den k 17)
  end.

(** [format!("{}", x)] *)
Definition fmt_f64 (x : f64) : bytes :=
  match x with
  | S754_nan => lit "NaN"
  | S754_infinity s => (if s then [minus] else []) ++ lit "inf"
  | S754_zero s => (if s then [minus] else []) ++ lit "0"
  | S754_finite s m e => (if s then [minus] else []) ++ shortest m e
  end.

(** [a * b] *)
Definition f64_mul (a b : f64) : f64 := SFmul prec emax a b.

(** [x as iN] and [x as uN]: truncation towards zero, saturating at the bounds of the
    type; NaN gives 0. *)
Definition f64_as_int (lo hi : Z) (x : f64) : Z :=
  match x with
  | S754_nan | S754_zero _ => 0
  | S754_infinity s => if s then lo else hi
  | S754_finite s m e =>
      let '(num, den) := frac_of m e in
      let z := Z.of_N (num / den) in
      Z.max lo (Z.min hi (if s then - z else z))
  end%Z.
Definition f64_as_i64 (x : f64) : Z := f64_as_int (- 2 ^ 63) (2 ^ 63 - 1) x.
Definition f64_as_u32 (x : f64) : N := Z.to_N (f64_as_int 0 (2 ^ 32 - 1) x).

(** [num/den] rounded to an integer, ties to even. *)
Definition round_even (num den : N) : N :=
  let q := (num / den)%N in
  let r := (2 * (num mod den))%N in
  if (r <? den)%N then q
  else if (den <? r)%N then (q + 1)%N
  else if N.even q then q else (q + 1)%N.

(** [format!("{:.n}", x)] *)
Definition fmt_fixed (n : nat) (x : f64) : bytes :=
  let digits (d : N) :=
    let ds := fmt_N d in
    let ds := zeros (S n - length ds) ++ ds in
    take (length ds - n) ds ++ (if n is O then [] else dot :: drop (length ds - n) ds) in
  match x with
  | S754_nan => lit "NaN"
  | S754_infinity s => (if s then [minus] else []) ++ lit "inf"
  | S754_zero s => (if s then [minus] else []) ++ digits 0%N
  | S754_finite s m e =>
      let '(num, den) := frac_of m e in
      (if s then [minus] else []) ++ digits (round_even (num * 10 ^ N.of_nat n) den)
  end.

(** ** f32 *)

(** [x as f32], [a + b] on f32 *)
Definition f64_as_f32 (x : f64) : spec_float :=
  match x with
  | S754_finite s m e => binary_normalize 24 128 (if s then Zneg m else Zpos m) e s
  | x => x
  end.
Definition f32_add (a b : spec_float) : spec_float := SFadd 24 128 a b.
(** [iter().sum::<f32>()]: the neutral element is -0.0. *)
Definition f32_sum (l : list spec_float) : spec_float := foldl f32_add (S754_zero true) l.

(** The contract of the standard library: the printed value reads back. *)
Definition f64_reads_back (x : f64) : bool := bool_decide (parse_f64 (fmt_f64 x) = Some x).

Example fmt_fixed_cases :
  (fmt_fixed 3 ∘ f64_of_Z) <$> [0; 7; -12]%Z = [lit "0.000"; lit "7.000"; lit "-12.000"]
  ∧ fmt_fixed 3 (S754_finite false 4503599627370496 (-56)) = lit "0.062"
  ∧ option_map (fmt_fixed 3) (parse_f64 (lit "3.9996")) = Some (lit "4.000").
Proof. vm_compute. done. Qed.

Example fmt_f64_30 : fmt_f64 (f64_of_Z 30) = lit "30".
Proof. vm_compute. reflexivity. Qed.
Example fmt_f64_2997 : fmt_f64 (decimal_to_f64 false 2997 (-2)) = lit "29.97".
Proof. vm_compute. reflexivity. Qed.
Example fmt_f64_neg : fmt_f64 (decimal_to_f64 true 740060 (-4)) = lit "-74.006".
Proof. vm_compute. reflexivity. Qed.
Example fmt_f64_small : fmt_f64 (decimal_to_f64 false 5 (-7)) = lit "0.0000005".
Proof. vm_compute. reflexivity. Qed.
Example fmt_f64_pow : fmt_f64 (decimal_to_f64 false 9007199254740993 0) = lit "9007199254740992".
Proof. vm_compute. reflexivity. Qed.
Example fmt_f64_third : fmt_f64 (SFdiv prec emax (f64_of_Z 1) (f64_of_Z 3)) = lit "0.3333333333333333".
Proof. vm_compute. reflexivity. Qed.

(** ** Formatted numbers are number tokens *)

Lemma is_digit_tok b : is_digit b = true → is_tok_byte b = true.
Proof. unfold is_digit, is_tok_byte. by intros ->. Qed.

Lemma digits_tok s : forallb is_digit s = true → forallb is_tok_byte s = true.
Proof. rewrite !forallb_Forall. intros. eapply Forall_impl; eauto using is_digit_tok. Qed.

Lemma forallb_app_true {A} (f : A → bool) l1 l2 :
  forallb f (l1 ++ l2) = true ↔ forallb f l1 = true ∧ forallb f l2 = true.
Proof. by rewrite List.forallb_app, andb_true_iff. Qed.

Lemma forallb_take_drop {A} (f : A → bool) n l :
  forallb f l = true → forallb f (take n l) = true ∧ forallb f (drop n l) = true.
Proof. rewrite <-forallb_app_true. by rewrite take_drop. Qed.

Lemma fmt_N_tok n : tok_ok (fmt_N n) = true.
Proof.
  unfold tok_ok. rewrite digits_tok by apply fmt_N_digits.
  pose proof (fmt_N_nonempty n). by destruct (fmt_N n).
Qed.

Lemma zeros_tok n : forallb is_tok_byte (zeros n) = true.
Proof. by induction n. Qed.

Lemma layout_tok d q : tok_ok (layout d q) = true.
Proof.
  unfold layout. destruct (strip_zeros 20 d q) as [d' q'].
  pose proof (fmt_N_tok d') as Ht. unfold tok_ok in *.
  apply andb_true_iff in Ht as [Hne Ht].
  case_match; [|case_match].
  - rewrite andb_true_iff, !forallb_app_true. auto using zeros_tok.
  - destruct (forallb_take_drop is_tok_byte
      (Z.to_nat (Z.of_nat (length (fmt_N d')) + q')) _ Ht) as [H1 H2].
    rewrite andb_true_iff, forallb_app_true. simpl. rewrite H1, H2.
    by destruct (take _ _).
  - rewrite andb_true_iff, forallb_app_true, zeros_tok.
    by destruct (fmt_N d').
Qed.

Lemma shortest_tok m e : tok_ok (shortest m e) = true.
Proof.
  unfold shortest. destruct (frac_of m e) as [num den].
  assert (∀ n, Forall (λ s, tok_ok s = true) (candidates num den (exp10 num den) n)) as Hc.
  { intros n. unfold candidates. destruct (scaled _ _ _).
    case_match; repeat constructor; apply layout_tok. }
  case_match eqn:E.
  - apply List.find_some in E as [Hin _]. apply list_elem_of_In, list_elem_of_join in Hin.
    destruct Hin as (cs & Hs & Hl). apply list_elem_of_fmap in Hl as (n & -> & _).
    by eapply (Forall_forall _ _) in Hs; [|apply Hc].
  - specialize (Hc 17). unfold candidates in *. destruct (scaled _ _ _).
    case_match; simpl; by inv Hc.
Qed.

Lemma sign_tok (s : bool) t : tok_ok t = true → tok_ok ((if s then [minus] else []) ++ t) = true.
Proof. unfold tok_ok. destruct s; [|done]. rewrite !andb_true_iff. simpl. naive_solver. Qed.

Lemma fmt_f64_tok x : tok_ok (fmt_f64 x) = true.
Proof. destruct x as [s|s| |s m e]; simpl; try apply sign_tok; auto using shortest_tok. Qed.

Lemma fmt_f64_inj x y :
  f64_reads_back x = true → f64_reads_back y = true → fmt_f64 x = fmt_f64 y → x = y.
Proof. unfold f64_reads_back. rewrite !bool_decide_eq_true. congruence. Qed.
