(* ===== verification/External.v ===== *)
(** * External crates as parameters

    The cryptographic and encoding crates that sealedge calls are not part of
    its sources.  Each is a class with the functions the sources call, and a
    second class with the documented laws they rely on.  No law states that a
    hash is collision free or a signature unforgeable: theorems about tampering
    conclude with an explicit [Collision]. *)

From S2P Require Import Prelude.

(** ** blake3 *)

Class Blake3 := blake3 : bytes → bytes.
Class Blake3Laws `{Blake3} : Prop := length_blake3 m : length (blake3 m) = 32.

(** Two different messages with one digest. *)
Definition Collision `{Blake3} : Prop := ∃ x y, x ≠ y ∧ blake3 x = blake3 y.

(** ** hex *)

Class Hex := {
  hex_encode : bytes → bytes;
  hex_decode : bytes → option bytes;
  hex_error : bytes → bytes; (* the text of the error on a malformed input *)
}.
Class HexLaws `{Hex} : Prop := {
  hex_decode_encode b : hex_decode (hex_encode b) = Some b;
  length_hex_encode b : length (hex_encode b) = 2 * length b;
  (** encoding is lower case *)
  hex_encode_lower b :
    Forall (λ c, is_ascii_hexdigit c = true ∧ to_lower c = c) (hex_encode b);
  (** decoding ignores case and accepts nothing but an encoding *)
  hex_decode_lower s b : hex_decode s = Some b → to_ascii_lowercase s = hex_encode b;
}.

Lemma hex_encode_digits `{HexLaws} b : Forall (λ c, is_ascii_hexdigit c = true) (hex_encode b).
Proof. eapply Forall_impl; [apply hex_encode_lower|]. by intros c [Hc _]. Qed.

(** ** base64 (the STANDARD engine) *)

Definition is_base64_byte (c : byte) : bool :=
  byte_in 65 90 c || byte_in 97 122 c || byte_in 47 57 c || byte_in 43 43 c || byte_in 61 61 c.

Class Base64 := {
  base64_encode : bytes → bytes;
  base64_decode : bytes → option bytes;
  base64_error : bytes → bytes;
  base64url_encode : bytes → bytes; (* the URL_SAFE_NO_PAD engine *)
  base64url_decode : bytes → option bytes;
}.
Class Base64Laws `{Base64} : Prop := {
  base64url_decode_encode b : base64url_decode (base64url_encode b) = Some b;
  (** printable, without blanks and dots *)
  base64url_encode_solid b :
    Forall (λ c, byte_in 33 126 c = true ∧ c ≠ byte_of_N 46) (base64url_encode b);
  base64_decode_encode b : base64_decode (base64_encode b) = Some b;
  length_base64_encode b : length (base64_encode b) = 4 * ((length b + 2) / 3);
  base64_encode_alphabet b : Forall (λ c, is_base64_byte c = true) (base64_encode b);
  (** only canonical encodings are accepted *)
  base64_encode_decode s b : base64_decode s = Some b → base64_encode b = s;
}.

(** ** ed25519-dalek and p256

    A [VerifyingKey] is its 32 bytes; [ed_key_ok] says whether [from_bytes]
    accepts them. *)

Class Ed25519 := {
  ed_public : bytes → bytes;
  ed_sign : bytes → bytes → bytes;
  ed_key_ok : bytes → bool;
  ed_key_error : bytes → bytes;
  ed_verify : bytes → bytes → bytes → bool;
}.
Class Ed25519Laws `{Ed25519} : Prop := {
  length_ed_public sk : length (ed_public sk) = 32;
  length_ed_sign sk m : length (ed_sign sk m) = 64;
  ed_public_ok sk : ed_key_ok (ed_public sk) = true;
  ed_verify_sign sk m : ed_verify (ed_public sk) m (ed_sign sk m) = true;
}.

Class P256 := {
  p256_key_ok : bytes → bool; (* VerifyingKey::from_sec1_bytes *)
  p256_sig_ok : bytes → bool; (* Signature::from_der *)
  p256_error : bytes → bytes;
  p256_verify : bytes → bytes → bytes → bool;
}.

(** ** Authenticated encryption: aes_gcm and chacha20poly1305 *)

Inductive aead_alg := Aes256Gcm | XChaCha20Poly1305.

Class Aead := {
  aead_encrypt (alg : aead_alg) (key nonce aad msg : bytes) : option bytes;
  aead_decrypt (alg : aead_alg) (key nonce aad ct : bytes) : option bytes;
  aead_error : bytes; (* the text of [aead::Error] *)
}.
Class AeadLaws `{Aead} : Prop := {
  aead_decrypt_encrypt alg key nonce aad msg ct :
    aead_encrypt alg key nonce aad msg = Some ct → aead_decrypt alg key nonce aad ct = Some msg;
  length_aead_encrypt alg key nonce aad msg ct :
    aead_encrypt alg key nonce aad msg = Some ct → length ct = length msg + 16;
}.

(** ** Key derivation: pbkdf2 and hkdf with SHA-256, a 32-byte output *)

Class Kdf := {
  pbkdf2 (passphrase salt : bytes) (iterations : N) : bytes;
  hkdf (salt : option bytes) (ikm info : bytes) : bytes;
}.
Class KdfLaws `{Kdf} : Prop := {
  length_pbkdf2 p salt n : length (pbkdf2 p salt n) = 32;
  length_hkdf salt ikm info : length (hkdf salt ikm info) = 32;
}.

(** ** x25519 and HPKE (RFC 9180, base mode)

    [rng] is the randomness the sender draws. *)

Class Hpke := {
  x25519_public : bytes → bytes;
  hpke_seal (rng pk info aad msg : bytes) : option (bytes * bytes);
  hpke_enc_ok : bytes → bool; (* EncappedKey::from_bytes *)
  hpke_open (sk enc info aad ct : bytes) : option bytes;
  hpke_error : bytes;
}.
Class HpkeLaws `{Hpke} : Prop := {
  length_x25519_public sk : length (x25519_public sk) = 32;
  hpke_open_seal rng sk info aad msg enc ct :
    hpke_seal rng (x25519_public sk) info aad msg = Some (enc, ct) →
    hpke_enc_ok enc = true ∧ hpke_open sk enc info aad ct = Some msg;
}.

(** ** serde_json's dynamically typed values *)

Inductive number := PosInt (n : N) | NegInt (z : Z) | FloatNum (text : bytes).
Inductive value :=
  | VNull
  | VBool (b : bool)
  | VNum (n : number)
  | VStr (s : bytes)
  | VArr (l : list value)
  | VObj (l : list (bytes * value)).

(** [v[k]], [v.as_str()], [v.as_u64()] *)
Definition value_index (v : value) (k : bytes) : value :=
  match v with
  | VObj l => match List.find (λ kv, bool_decide (kv.1 = k)) l with Some kv => kv.2 | None => VNull end
  | _ => VNull
  end.
(** [v.get(k)] *)
Definition value_get (v : value) (k : bytes) : option value :=
  match v with
  | VObj l => snd <$> List.find (λ kv, bool_decide (kv.1 = k)) l
  | _ => None
  end.
Definition as_array (v : value) : option (list value) :=
  match v with VArr l => Some l | _ => None end.
Definition as_str (v : value) : option bytes := match v with VStr s => Some s | _ => None end.
Definition as_u64_value (v : value) : option N :=
  match v with VNum (PosInt n) => Some n | _ => None end.

(** [serde_json::from_str::<Value>] *)
Class SerdeValue := value_from_str : bytes → result bytes value.

(** ** Lemmas *)

Lemma hex_encode_inj `{HexLaws} a b : hex_encode a = hex_encode b → a = b.
Proof. intros Heq. apply (f_equal hex_decode) in Heq. rewrite !hex_decode_encode in Heq. congruence. Qed.

Lemma base64_encode_inj `{Base64Laws} a b : base64_encode a = base64_encode b → a = b.
Proof.
  intros Heq. apply (f_equal base64_decode) in Heq.
  rewrite !base64_decode_encode in Heq. congruence.
Qed.

Lemma blake3_inj_or_collision `{Blake3} x y : blake3 x = blake3 y → x = y ∨ Collision.
Proof. intros Heq. destruct (decide (x = y)); [by left|right]. by exists x, y. Qed.
