(* ===== verification/Reference.v ===== *)
(** * Concrete instances of the external functions

    The development is parametric in serde_json, hex, blake3 and the other
    external crates.  This file has small executable functions that satisfy the
    laws the classes state, so that theorems can be applied to concrete inputs. *)

From S2P Require Import Prelude Json External.

(** ** JSON string escaping, as serde_json does it *)

Definition hex_digit (n : N) : byte :=
  if (n <? 10)%N then byte_of_N (48 + n) else byte_of_N (87 + n).

Definition escape (b : byte) : bytes :=
  match N_of_byte b with
  | 8 => [backslash; byte_of_N 98]
  | 9 => [backslash; byte_of_N 116]
  | 10 => [backslash; byte_of_N 110]
  | 12 => [backslash; byte_of_N 102]
  | 13 => [backslash; byte_of_N 114]
  | 34 => [backslash; dquote]
  | 92 => [backslash; backslash]
  | n => if (n <? 32)%N
         then [backslash] ++ lit "u00" ++ [hex_digit (n / 16); hex_digit (n mod 16)]
         else [b]
  end%N.

Definition ref_json_str (s : bytes) : bytes := dquote :: mjoin (escape <$> s) ++ [dquote].

#[export] Instance ref_serde : SerdeJson := {|
  json_str := ref_json_str;
  json_str_vec l := lbracket :: commas (ref_json_str <$> l) ++ [rbracket];
|}.

Definition hex_val (b : byte) : N :=
  let n := N_of_byte b in if (n <? 58)%N then (n - 48)%N else (n - 87)%N.

(** Reads one possibly escaped byte; [None] at the closing quote. *)
Definition unescape1 (s : bytes) : option (byte * bytes) :=
  match s with
  | [] => None
  | c :: r =>
      if decide (c = dquote) then None
      else if decide (c = backslash) then
        match r with
        | [] => None
        | d :: r' =>
            match N_of_byte d with
            | 98 => Some (byte_of_N 8, r')
            | 116 => Some (byte_of_N 9, r')
            | 110 => Some (byte_of_N 10, r')
            | 102 => Some (byte_of_N 12, r')
            | 114 => Some (byte_of_N 13, r')
            | 117 =>
                match r' with
                | _ :: _ :: x :: y :: r'' => Some (byte_of_N (hex_val x * 16 + hex_val y), r'')
                | _ => None
                end
            | _ => Some (d, r')
            end%N
        end
      else Some (c, r)
  end.

Lemma unescape1_escape b r : unescape1 (escape b ++ r) = Some (b, r).
Proof. by destruct b as [[] [] [] [] [] [] [] []]. Qed.

Lemma ref_json_body_unique s t r r' :
  mjoin (escape <$> s) ++ dquote :: r = mjoin (escape <$> t) ++ dquote :: r' → s = t ∧ r = r'.
Proof.
  revert t; induction s as [|a s IH]; intros [|b t]; simpl; rewrite <-?app_assoc; intros Heq.
  - by simplify_eq.
  - apply (f_equal unescape1) in Heq. rewrite unescape1_escape in Heq. done.
  - apply (f_equal unescape1) in Heq. rewrite unescape1_escape in Heq. done.
  - apply (f_equal unescape1) in Heq. rewrite !unescape1_escape in Heq.
    injection Heq as <- Heq. apply IH in Heq as [<- <-]. done.
Qed.

Lemma escape_plain b : plain_byte b = true → escape b = [b].
Proof. by destruct b as [[] [] [] [] [] [] [] []]. Qed.

#[export] Instance ref_serde_laws : SerdeJsonLaws.
Proof.
  split; simpl.
  - unfold ref_json_str. intros s t r r' [= Heq]. rewrite <-!app_assoc in Heq.
    by apply ref_json_body_unique in Heq.
  - intros s Hs. unfold ref_json_str. do 2 f_equal.
    induction s as [|b s IH]; simpl in *; [done|]. apply andb_true_iff in Hs as [Hb Hs].
    rewrite escape_plain by done. simpl. f_equal. by apply IH.
  - done.
  - done.
Qed.

(** ** A 32-byte digest

    The message folded into 32 bytes by exclusive or: not a cryptographic hash, but
    a function with the digest's length. *)

Definition xor_byte (a b : byte) : byte :=
  match a, b with
  | Ascii a0 a1 a2 a3 a4 a5 a6 a7, Ascii b0 b1 b2 b3 b4 b5 b6 b7 =>
      Ascii (xorb a0 b0) (xorb a1 b1) (xorb a2 b2) (xorb a3 b3)
            (xorb a4 b4) (xorb a5 b5) (xorb a6 b6) (xorb a7 b7)
  end.

Definition absorb (st : bytes) (b : byte) : bytes :=
  match st with [] => [] | h :: t => t ++ [xor_byte h b] end.

#[export] Instance ref_blake3 : Blake3 := λ m, foldl absorb (replicate 32 "!"%char) m.

Lemma length_absorb st b : length (absorb st b) = length st.
Proof. destruct st; [done|]. cbn. rewrite length_app. cbn. lia. Qed.

#[export] Instance ref_blake3_laws : Blake3Laws.
Proof.
  intros m. unfold blake3, ref_blake3.
  assert (∀ st, length (foldl absorb st m) = length st) as ->; [|done].
  induction m as [|b m IH]; intros st; cbn; [done|]. by rewrite IH, length_absorb.
Qed.

(** Padded or cut to 32 bytes. *)
Definition fit32 (s : bytes) : bytes := take 32 (s ++ replicate 32 "0"%char).

Lemma length_fit32 s : length (fit32 s) = 32.
Proof. unfold fit32. rewrite length_take, length_app, length_replicate. lia. Qed.

(** ** Hexadecimal *)

Fixpoint ref_hex_encode (s : bytes) : bytes :=
  match s with
  | [] => []
  | b :: s' =>
      hex_digit (N_of_byte b / 16) :: hex_digit (N_of_byte b mod 16) :: ref_hex_encode s'
  end.

Definition hex_digit_val (c : byte) : option N :=
  if is_ascii_hexdigit c then Some (hex_val (to_lower c)) else None.

Fixpoint ref_hex_decode (s : bytes) : option bytes :=
  match s with
  | [] => Some []
  | [_] => None
  | x :: y :: s' =>
      a ← hex_digit_val x; b ← hex_digit_val y; r ← ref_hex_decode s';
      Some (byte_of_N (a * 16 + b) :: r)
  end.

#[export] Instance ref_hex : Hex := {|
  hex_encode := ref_hex_encode;
  hex_decode := ref_hex_decode;
  hex_error _ := lit "Invalid character";
|}.

Lemma hex_pair_roundtrip b :
  hex_digit_val (hex_digit (N_of_byte b / 16)) = Some (N_of_byte b / 16)%N
  ∧ hex_digit_val (hex_digit (N_of_byte b mod 16)) = Some (N_of_byte b mod 16)%N
  ∧ byte_of_N (N_of_byte b / 16 * 16 + N_of_byte b mod 16) = b.
Proof. destruct b as [[] [] [] [] [] [] [] []]; by vm_compute. Qed.

Lemma hex_pair_lower b :
  Forall (λ c, is_ascii_hexdigit c = true ∧ to_lower c = c)
    [hex_digit (N_of_byte b / 16); hex_digit (N_of_byte b mod 16)].
Proof. destruct b as [[] [] [] [] [] [] [] []]; repeat constructor. Qed.

Lemma hex_digit_val_lower c n :
  hex_digit_val c = Some n → to_lower c = hex_digit n ∧ (n < 16)%N.
Proof. destruct c as [[] [] [] [] [] [] [] []]; by vm_compute; intros [= <-]. Qed.

#[export] Instance ref_hex_laws : HexLaws.
Proof.
  split; cbn [hex_encode hex_decode ref_hex].
  - intros s. induction s as [|b s IH]; [done|]. cbn [ref_hex_encode ref_hex_decode].
    destruct (hex_pair_roundtrip b) as (-> & -> & Hb). cbn [mbind option_bind].
    by rewrite IH, Hb.
  - intros s. induction s as [|b s IH]; [done|]. cbn [ref_hex_encode length]. lia.
  - intros s. induction s as [|b s IH]; [constructor|]. cbn [ref_hex_encode].
    pose proof (hex_pair_lower b) as Hp. rewrite !Forall_cons in Hp |- *. naive_solver.
  - intros s. induction (well_founded_ltof _ length s) as [s _ IH]. intros b Hd.
    destruct s as [|x [|y s]]; [by injection Hd as <-|done|]. cbn [ref_hex_decode] in Hd.
    destruct (hex_digit_val x) as [a|] eqn:Hx; [|done].
    destruct (hex_digit_val y) as [c|] eqn:Hy; [|done].
    destruct (ref_hex_decode s) as [r|] eqn:Hr; [|done]. injection Hd as <-.
    apply hex_digit_val_lower in Hx as [Hx ?], Hy as [Hy ?].
    unfold to_ascii_lowercase. rewrite !fmap_cons, Hx, Hy.
    cbn [ref_hex_encode]. rewrite N_of_byte_of_N.
    rewrite (N.mod_small _ 256) by lia. rewrite N.div_add_l, (N.div_small c) by lia.
    rewrite N.add_0_r, N.add_comm, N.Div0.mod_add, (N.mod_small c) by lia.
    do 2 f_equal. apply IH; [|done]. unfold ltof. simpl. lia.
Qed.

(** ** Base64 with the standard alphabet and canonical padding *)

Definition b64_char (n : N) : byte :=
  byte_of_N (if n <? 26 then 65 + n else if n <? 52 then 71 + n else if n <? 62 then n - 4
             else if n =? 62 then 43 else 47)%N.
Definition b64_val (c : byte) : option N :=
  let n := N_of_byte c in
  (if (65 <=? n) && (n <=? 90) then Some (n - 65)
   else if (97 <=? n) && (n <=? 122) then Some (n - 71)
   else if (48 <=? n) && (n <=? 57) then Some (n + 4)
   else if n =? 43 then Some 62 else if n =? 47 then Some 63 else None)%N.
Definition b64_pad : byte := byte_of_N 61.

(** Digit [k] (from the right) of the group [n] in base 64. *)
Definition b64_digit (n : N) (k : N) : byte := b64_char (n / 64 ^ k mod 64).

Fixpoint ref_b64_encode (s : bytes) : bytes :=
  match s with
  | [] => []
  | [a] => let n := (N_of_byte a * 16)%N in [b64_digit n 1; b64_digit n 0; b64_pad; b64_pad]
  | [a; b] =>
      let n := ((N_of_byte a * 256 + N_of_byte b) * 4)%N in
      [b64_digit n 2; b64_digit n 1; b64_digit n 0; b64_pad]
  | a :: b :: c :: s' =>
      let n := (N_of_byte a * 65536 + N_of_byte b * 256 + N_of_byte c)%N in
      b64_digit n 3 :: b64_digit n 2 :: b64_digit n 1 :: b64_digit n 0 :: ref_b64_encode s'
  end.

Fixpoint b64_groups (s : bytes) : option bytes :=
  match s with
  | [] => Some []
  | w :: x :: y :: z :: s' =>
      a ← b64_val w; b ← b64_val x;
      if decide (y = b64_pad) then Some [byte_of_N ((a * 64 + b) / 16)] else
      c ← b64_val y;
      let n := ((a * 64 + b) * 64 + c)%N in
      if decide (z = b64_pad) then
        Some [byte_of_N (n / 4 / 256); byte_of_N (n / 4)]
      else
      d ← b64_val z; r ← b64_groups s';
      let n' := (n * 64 + d)%N in
      Some (byte_of_N (n' / 65536) :: byte_of_N (n' / 256) :: byte_of_N n' :: r)
  | _ => None
  end.

(** Only a canonical encoding is decoded. *)
Definition ref_b64_decode (s : bytes) : option bytes :=
  r ← b64_groups s; if decide (ref_b64_encode r = s) then Some r else None.

#[export] Instance ref_b64 : Base64 := {|
  base64_encode := ref_b64_encode;
  base64_decode := ref_b64_decode;
  base64_error _ := lit "Invalid symbol";
  base64url_encode b := ref_b64_encode b;
  base64url_decode s := ref_b64_decode s;
|}.

Lemma b64_val_char n : (n < 64)%N → b64_val (b64_char n) = Some n ∧ b64_char n ≠ b64_pad.
Proof.
  intros Hn. destruct n as [|p]; [done|].
  do 6 (destruct p as [p|p|]; [..|done]; try lia).
Qed.

Lemma b64_val_digit n k : b64_val (b64_digit n k) = Some (n / 64 ^ k mod 64)%N ∧ b64_digit n k ≠ b64_pad.
Proof. apply b64_val_char. by apply N.mod_lt. Qed.

Lemma byte_of_N_eq n b : (n mod 256 = N_of_byte b)%N → byte_of_N n = b.
Proof. intros Heq. apply (inj N_of_byte). by rewrite N_of_byte_of_N. Qed.

(** The digits of a number of at most four digits give it back. *)
Lemma b64_join n :
  (n < 64 * 64 * 64 * 64)%N →
  ((((n / 64 ^ 3 mod 64) * 64 + n / 64 ^ 2 mod 64) * 64 + n / 64 ^ 1 mod 64) * 64
    + n / 64 ^ 0 mod 64 = n)%N.
Proof.
  intros Hn. change (64 ^ 3)%N with (64 * 64 * 64)%N. change (64 ^ 2)%N with (64 * 64)%N.
  change (64 ^ 1)%N with 64%N. change (64 ^ 0)%N with 1%N.
  rewrite N.div_1_r, <-!N.Div0.div_div.
  assert (n / 64 / 64 / 64 < 64)%N by (repeat apply N.Div0.div_lt_upper_bound; lia).
  rewrite (N.mod_small (n / 64 / 64 / 64)) by done.
  pose proof (N.div_mod' n 64). pose proof (N.div_mod' (n / 64) 64).
  pose proof (N.div_mod' (n / 64 / 64) 64). lia.
Qed.

Lemma b64_join3 n :
  (n < 64 * 64 * 64)%N →
  (((n / 64 ^ 2 mod 64) * 64 + n / 64 ^ 1 mod 64) * 64 + n / 64 ^ 0 mod 64 = n)%N.
Proof.
  intros Hn. pose proof (b64_join n) as Hj. rewrite (N.div_small n (64 ^ 3)) in Hj by done.
  change (0 mod 64)%N with 0%N in Hj. lia.
Qed.

Lemma b64_join2 n : (n < 64 * 64)%N → ((n / 64 ^ 1 mod 64) * 64 + n / 64 ^ 0 mod 64 = n)%N.
Proof.
  intros Hn. pose proof (b64_join3 n) as Hj. rewrite (N.div_small n (64 ^ 2)) in Hj by done.
  change (0 mod 64)%N with 0%N in Hj. lia.
Qed.

Lemma b64_groups_encode s : b64_groups (ref_b64_encode s) = Some s.
Proof.
  assert (∀ n k, b64_val (b64_digit n k) = Some (n / 64 ^ k mod 64)%N) as Hv
    by (intros; apply b64_val_digit).
  assert (∀ n k, b64_digit n k ≠ b64_pad) as Hp by (intros; apply b64_val_digit).
  induction (well_founded_ltof _ length s) as [s _ IH].
  destruct s as [|a [|b [|c s]]]; [done|..]; cbn [ref_b64_encode b64_groups];
    pose proof (N_of_byte_lt a) as Ha;
    try pose proof (N_of_byte_lt b) as Hb; try pose proof (N_of_byte_lt c) as Hc;
    rewrite !Hv; cbn [mbind option_bind];
    rewrite ?decide_False by apply Hp; rewrite ?decide_True by done; cbn [mbind option_bind].
  - rewrite b64_join2 by lia. do 2 f_equal. apply byte_of_N_eq.
    rewrite N.div_mul by lia. by apply N.mod_small.
  - rewrite b64_join3 by lia. do 2 f_equal; [|f_equal]; apply byte_of_N_eq;
      rewrite N.div_mul by lia.
    + rewrite N.div_add_l, (N.div_small (N_of_byte b)), N.add_0_r by lia. by apply N.mod_small.
    + rewrite N.add_comm, N.Div0.mod_add. by apply N.mod_small.
  - rewrite IH by (unfold ltof; simpl; lia). cbn [mbind option_bind].
    rewrite b64_join by lia. do 2 f_equal; [|f_equal; [|f_equal]]; apply byte_of_N_eq.
    + replace (N_of_byte a * 65536 + N_of_byte b * 256 + N_of_byte c)%N
        with (N_of_byte a * 65536 + (N_of_byte b * 256 + N_of_byte c))%N by lia.
      rewrite N.div_add_l, N.div_small, N.add_0_r by lia. by apply N.mod_small.
    + replace (N_of_byte a * 65536 + N_of_byte b * 256 + N_of_byte c)%N
        with ((N_of_byte b + N_of_byte a * 256) * 256 + N_of_byte c)%N by lia.
      rewrite N.div_add_l, (N.div_small (N_of_byte c)), N.add_0_r by lia.
      rewrite N.Div0.mod_add. by apply N.mod_small.
    + replace (N_of_byte a * 65536 + N_of_byte b * 256 + N_of_byte c)%N
        with (N_of_byte c + (N_of_byte b + N_of_byte a * 256) * 256)%N by lia.
      rewrite N.Div0.mod_add. by apply N.mod_small.
Qed.

Lemma length_ref_b64_encode s : length (ref_b64_encode s) = 4 * ((length s + 2) / 3).
Proof.
  induction (well_founded_ltof _ length s) as [s _ IH].
  destruct s as [|a [|b [|c s]]]; [done..|]. cbn [ref_b64_encode length].
  rewrite IH by (unfold ltof; simpl; lia).
  replace (S (S (S (length s))) + 2) with (length s + 2 + 1 * 3) by lia.
  rewrite Nat.div_add by lia. lia.
Qed.

Lemma b64_char_alphabet n : (n < 64)%N → is_base64_byte (b64_char n) = true.
Proof.
  intros Hn. assert (Forall (λ k, is_base64_byte (b64_char (N.of_nat k)) = true) (seq 0 64)) as Hall.
  { apply forallb_Forall. vm_compute. reflexivity. }
  rewrite Forall_seq in Hall. specialize (Hall (N.to_nat n)). rewrite N2Nat.id in Hall.
  apply Hall. lia.
Qed.

Lemma ref_b64_encode_alphabet s : Forall (λ c, is_base64_byte c = true) (ref_b64_encode s).
Proof.
  assert (∀ n k, is_base64_byte (b64_digit n k) = true) as Hd
    by (intros; apply b64_char_alphabet, N.mod_lt; done).
  assert (is_base64_byte b64_pad = true) as Hp by done.
  induction s as [s IH] using (induction_ltof1 _ length). unfold ltof in IH.
  destruct s as [|a [|b [|c s]]]; cbn [ref_b64_encode]; repeat constructor; auto.
  apply IH. simpl. lia.
Qed.

#[export] Instance ref_b64_laws : Base64Laws.
Proof.
  split; cbn; unfold ref_b64_decode.
  - intros b. rewrite b64_groups_encode. cbn. by rewrite decide_True.
  - intros b. eapply Forall_impl; [apply ref_b64_encode_alphabet|]. intros c Hc.
    split; [|intros ->; by vm_compute in Hc]. unfold is_base64_byte, byte_in in *.
    rewrite !orb_true_iff, !andb_true_iff, !N.leb_le in Hc. rewrite andb_true_iff, !N.leb_le. lia.
  - intros b. rewrite b64_groups_encode. cbn. by rewrite decide_True.
  - apply length_ref_b64_encode.
  - apply ref_b64_encode_alphabet.
  - intros s b. destruct (b64_groups s) as [r|]; [|done]. cbn. case_decide; [|done].
    by intros [= <-].
Qed.

(** ** Signatures

    The public key is the seed padded to 32 bytes and the signature repeats it:
    verification accepts what signing returns. *)

#[export] Instance ref_ed25519 : Ed25519 := {|
  ed_public sk := fit32 sk;
  ed_sign sk m := fit32 sk ++ blake3 m;
  ed_key_ok pk := (length pk =? 32)%nat;
  ed_key_error _ := lit "Cannot decompress Edwards point";
  ed_verify pk m sig := bool_decide (sig = pk ++ blake3 m);
|}.

#[export] Instance ref_ed25519_laws : Ed25519Laws.
Proof.
  split; cbn [ed_public ed_sign ed_key_ok ed_verify ref_ed25519].
  - intros. apply length_fit32.
  - intros. by rewrite length_app, length_blake3, length_fit32.
  - intros. by rewrite length_fit32.
  - intros. by apply bool_decide_eq_true.
Qed.

#[export] Instance ref_p256 : P256 := {|
  p256_key_ok _ := true;
  p256_sig_ok _ := true;
  p256_error _ := lit "signature error";
  p256_verify pk m sig := bool_decide (sig = pk ++ blake3 m);
|}.

(** ** Encryption and key derivation

    The ciphertext is the message behind a tag computed from the key, the nonce
    and the associated data. *)

Definition ref_tag (key nonce aad : bytes) : bytes :=
  take 16 (blake3 (key ++ nonce ++ aad)).

#[export] Instance ref_aead : Aead := {|
  aead_encrypt _ key nonce aad msg := Some (ref_tag key nonce aad ++ msg);
  aead_decrypt _ key nonce aad ct := strip_prefix (ref_tag key nonce aad) ct;
  aead_error := lit "aead::Error";
|}.

#[export] Instance ref_aead_laws : AeadLaws.
Proof.
  split; intros alg key nonce aad msg ct; cbn [aead_encrypt aead_decrypt ref_aead].
  - generalize (ref_tag key nonce aad). intros tag [= <-]. apply strip_prefix_app.
  - intros [= <-]. unfold ref_tag. rewrite length_app, length_take, length_blake3. lia.
Qed.

#[export] Instance ref_kdf : Kdf := {|
  pbkdf2 p salt n := blake3 (p ++ salt ++ fmt_N n);
  hkdf salt ikm info := blake3 (default [] salt ++ ikm ++ info);
|}.

#[export] Instance ref_kdf_laws : KdfLaws.
Proof. split; intros; apply length_blake3. Qed.

#[export] Instance ref_hpke : Hpke := {|
  x25519_public sk := fit32 sk;
  hpke_seal rng pk info aad msg := Some (fit32 rng, ref_tag pk info aad ++ msg);
  hpke_enc_ok enc := (length enc =? 32)%nat;
  hpke_open sk enc info aad ct :=
    strip_prefix (ref_tag (fit32 sk) info aad) ct;
  hpke_error := lit "HPKE error";
|}.

#[export] Instance ref_hpke_laws : HpkeLaws.
Proof.
  split; [intros; apply length_fit32|]. intros rng sk info aad msg enc ct.
  cbn [hpke_seal hpke_open hpke_enc_ok x25519_public ref_hpke].
  generalize (ref_tag (fit32 sk) info aad). intros tag [= <- <-].
  split; [by rewrite length_fit32|apply strip_prefix_app].
Qed.
