(* ===== verification/FileSystem.v ===== *)
(** * The part of std::fs that the archive code uses

    A file system maps paths (lists of components) to files and directories.
    Operations thread it through the state and error monad [io]: an operation
    that fails keeps the changes made before it.  Faults of the medium (full
    disk, permissions, concurrent writers) are outside the model. *)

From S2P Require Import Prelude.

Abbreviation path := (list (list ascii)) (only parsing).

Inductive node :=
  | File (content : bytes)
  | Dir.

Abbreviation fs := (gmap (list (list ascii)) node) (only parsing).

Inductive io_error := NotFound | AlreadyExists | NotADirectory | IsADirectory.

Global Instance io_error_eq_dec : EqDecision io_error.
Proof. solve_decision. Defined.

(** The [Display] text of an [std::io::Error]. *)
Class IoText := io_error_text : io_error → bytes.

(** [std::io::Error] values other than the ones of the kinds above carry text. *)
Definition io (E A : Type) : Type := fs → result E A * fs.

Global Instance io_ret E : MRet (io E) := λ A a s, (Ok a, s).
Global Instance io_bind E : MBind (io E) := λ A B f m s,
  match m s with
  | (Ok a, s') => f a s'
  | (Err e, s') => (Err e, s')
  end.

Definition io_lift {E A} (r : result E A) : io E A := λ s, (r, s).
Definition io_read {E A} (f : fs → result E A) : io E A := λ s, (f s, s).
Definition io_map_err {E F A} (g : E → F) (m : io E A) : io F A := λ s,
  let '(r, s') := m s in (map_err g r, s').
(** The loop [for x in l { body?; }] with a body that changes the files. *)
Fixpoint io_for_each {E A} (f : A → io E unit) (l : list A) : io E unit :=
  match l with
  | [] => mret tt
  | x :: l' => f x ≫= λ _, io_for_each f l'
  end.

(** Whether every proper ancestor of [p] is a directory. *)
Definition ancestors (p : path) : list path := (λ n, take n p) <$> seq 1 (length p - 1).

(** Why [p] cannot be reached, if so. *)
Definition ancestor_error (p : path) (s : fs) : option io_error :=
  match List.find (λ q, match s !! q with Some Dir => false | _ => true end) (ancestors p) with
  | Some q => match s !! q with Some (File _) => Some NotADirectory | _ => Some NotFound end
  | None => None
  end.

(** [fs::create_dir_all] *)
Definition mkdir (p : path) (s : fs) : result io_error unit * fs :=
  match s !! p with
  | Some Dir => (Ok tt, s)
  | Some (File _) => (Err AlreadyExists, s)
  | None => (Ok tt, <[p := Dir]> s)
  end.
Definition create_dir_all (p : path) : io io_error unit :=
  io_for_each mkdir (ancestors p ++ [p]).

(** [File::create(p)] followed by [write_all(data)]. *)
Definition create_write (p : path) (data : bytes) : io io_error unit := λ s,
  match ancestor_error p s with
  | Some e => (Err e, s)
  | None =>
      match s !! p with
      | Some Dir => (Err IsADirectory, s)
      | _ => (Ok tt, <[p := File data]> s)
      end
  end.

(** Opening [p] and reading it to the end. *)
Definition read_file (p : path) (s : fs) : result io_error bytes :=
  match ancestor_error p s with
  | Some e => Err e
  | None =>
      match s !! p with
      | Some (File c) => Ok c
      | Some Dir => Err IsADirectory
      | None => Err NotFound
      end
  end.

(** [fs::rename(p, q)] for a file [p]: [q] is replaced in one step. *)
Definition rename (p q : path) : io io_error unit := λ s,
  match ancestor_error p s, ancestor_error q s with
  | Some e, _ | None, Some e => (Err e, s)
  | None, None =>
      match s !! p, s !! q with
      | None, _ => (Err NotFound, s)
      | Some (File _), Some Dir => (Err IsADirectory, s)
      | Some Dir, Some (File _) => (Err NotADirectory, s)
      | Some n, _ => (Ok tt, <[q := n]> (delete p s))
      end
  end.

(** The path beside [p] whose name has [suffix] appended. *)
Definition sibling (suffix : bytes) (p : path) : path :=
  match last p with
  | Some name => take (length p - 1) p ++ [name ++ suffix]
  | None => [suffix]
  end.

(** [write_all] on the open file [p]. *)
Definition append_write (p : path) (data : bytes) : io io_error unit := λ s,
  match s !! p with
  | Some (File c) => (Ok tt, <[p := File (c ++ data)]> s)
  | Some Dir => (Err IsADirectory, s)
  | None => (Err NotFound, s)
  end.

(** [fs::remove_file] *)
Definition remove_file (p : path) : io io_error unit := λ s,
  match ancestor_error p s, s !! p with
  | Some e, _ => (Err e, s)
  | None, Some (File _) => (Ok tt, delete p s)
  | None, Some Dir => (Err IsADirectory, s)
  | None, None => (Err NotFound, s)
  end.

(** [fs::metadata(p)?.len()]; the length of a directory depends on the medium. *)
Definition metadata_len (dir_len : N) (p : path) (s : fs) : result io_error N :=
  match ancestor_error p s, s !! p with
  | Some e, _ => Err e
  | None, Some (File c) => Ok (N.of_nat (length c))
  | None, Some Dir => Ok dir_len
  | None, None => Err NotFound
  end.

Definition is_dir (p : path) (s : fs) : bool :=
  match s !! p with Some Dir => true | _ => false end.

Definition is_file (p : path) (s : fs) : bool :=
  match s !! p with Some (File _) => true | _ => false end.
Definition path_exists (p : path) (s : fs) : bool :=
  match s !! p with Some _ => true | None => false end.

(** The names of the entries of directory [p]. *)
Definition read_dir (p : path) (s : fs) : list bytes :=
  omap (λ kv : path * node,
    if decide (take (length p) kv.1 = p) then
      match drop (length p) kv.1 with [name] => Some name | _ => None end
    else None) (map_to_list s).

(** [r.take(n).read_to_end()] *)
Fixpoint take_N (n : N) (l : bytes) : bytes :=
  match l with
  | [] => []
  | b :: l' => if (n =? 0)%N then [] else b :: take_N (N.pred n) l'
  end.
Fixpoint drop_N (n : N) (l : bytes) : bytes :=
  match l with
  | [] => []
  | b :: l' => if (n =? 0)%N then l else drop_N (N.pred n) l'
  end.
Definition len_N (l : bytes) : N := N.of_nat (length l).

(** ** Lemmas *)

Lemma io_bind_ok {E A B} (m : io E A) (f : A → io E B) s b s' :
  (m ≫= f) s = (Ok b, s') ↔ ∃ a s1, m s = (Ok a, s1) ∧ f a s1 = (Ok b, s').
Proof. unfold mbind, io_bind. destruct (m s) as [[a|e] s1]; naive_solver. Qed.

Lemma io_bind_err {E A B} (m : io E A) (f : A → io E B) s e s' :
  m s = (Err e, s') → (m ≫= f) s = (Err e, s').
Proof. unfold mbind, io_bind. by intros ->. Qed.

Lemma take_drop_N n l : take_N n l ++ drop_N n l = l.
Proof.
  revert n; induction l as [|b l IH]; intros n; simpl; [done|].
  destruct (n =? 0)%N; [done|]. simpl. by rewrite IH.
Qed.

Lemma take_N_all n l : (len_N l ≤ n)%N → take_N n l = l.
Proof.
  unfold len_N. revert n; induction l as [|b l IH]; intros n; simpl; [done|]. intros Hn.
  destruct (N.eqb_spec n 0); [lia|]. f_equal. apply IH. lia.
Qed.

Lemma len_take_N n l : len_N (take_N n l) = N.min n (len_N l).
Proof.
  unfold len_N. revert n; induction l as [|b l IH]; intros n; simpl; [lia|].
  destruct (N.eqb_spec n 0) as [->|]; [done|]. simpl. specialize (IH (N.pred n)). lia.
Qed.

Lemma len_drop_N n l : len_N (drop_N n l) = (len_N l - n)%N.
Proof.
  unfold len_N. revert n; induction l as [|b l IH]; intros n; simpl; [lia|].
  destruct (N.eqb_spec n 0) as [->|]; [simpl; lia|]. rewrite IH. lia.
Qed.

Lemma len_N_app l1 l2 : len_N (l1 ++ l2) = (len_N l1 + len_N l2)%N.
Proof. unfold len_N. rewrite length_app. lia. Qed.

Lemma io_lift_ok {E A} (r : result E A) s a s' : io_lift r s = (Ok a, s') ↔ r = Ok a ∧ s' = s.
Proof. unfold io_lift. split; [by intros [= -> ->]|by intros [-> ->]]. Qed.
Lemma io_read_ok {E A} (f : fs → result E A) s a s' : io_read f s = (Ok a, s') ↔ f s = Ok a ∧ s' = s.
Proof. unfold io_read. split; [by intros [= -> ->]|by intros [-> ->]]. Qed.
Lemma io_map_err_ok {E F A} (g : E → F) (m : io E A) s a s' :
  io_map_err g m s = (Ok a, s') ↔ m s = (Ok a, s').
Proof.
  unfold io_map_err. destruct (m s) as [[b|e] s1]; cbn; split; intros [=]; congruence.
Qed.
Lemma io_ret_ok {E A} (x : A) s a s' : (mret x : io E A) s = (Ok a, s') ↔ a = x ∧ s' = s.
Proof. unfold mret, io_ret. split; [by intros [= -> ->]|by intros [-> ->]]. Qed.

(** Split the hypotheses that say a composed operation succeeded. *)
Ltac inv_io :=
  repeat match goal with
  | H : (_ ≫= _) ?s = (Ok _, _) |- _ =>
      let Hm := fresh "Hm" in apply io_bind_ok in H as (? & ? & Hm & H)
  | H : io_lift _ _ = (Ok _, _) |- _ => apply io_lift_ok in H as [H ->]
  | H : io_read _ _ = (Ok _, _) |- _ => apply io_read_ok in H as [H ->]
  | H : io_map_err _ _ _ = (Ok _, _) |- _ => apply io_map_err_ok in H
  | H : mret _ _ = (Ok _, _) |- _ => apply io_ret_ok in H as [H ->]
  end.

(** ** Paths *)

Lemma ancestors_snoc p a : p ≠ [] → ancestors (p ++ [a]) = ancestors p ++ [p].
Proof.
  intros Hp. assert (0 < length p) by (destruct p; simpl; [done|lia]).
  unfold ancestors. rewrite length_app. change (length [a]) with 1.
  replace (length p + 1 - 1) with (S (length p - 1)) by lia.
  rewrite seq_S, fmap_app. f_equal.
  - apply list_fmap_ext. intros i n Hn. apply lookup_seq in Hn as [-> ?].
    by rewrite take_app_le by lia.
  - simpl. replace (S (length p - 1)) with (length p) by lia. by rewrite take_app_length.
Qed.

Lemma ancestor_error_None p s :
  ancestor_error p s = None ↔ ∀ q, q ∈ ancestors p → s !! q = Some Dir.
Proof.
  unfold ancestor_error. split.
  - case_match eqn:E; [by repeat case_match|]. intros _ q Hq.
    apply list_elem_of_In in Hq. apply (List.find_none _ _ E) in Hq. by repeat case_match.
  - intros Hall. case_match eqn:E; [|done]. exfalso.
    apply List.find_some in E as [Hin Hbad]. rewrite Hall in Hbad by by apply list_elem_of_In.
    done.
Qed.

Lemma ancestors_shorter p q : q ∈ ancestors p → length q < length p.
Proof.
  unfold ancestors. rewrite list_elem_of_fmap. intros (n & -> & Hn).
  apply elem_of_seq in Hn. rewrite length_take. lia.
Qed.

Lemma read_file_ok p s c : ancestor_error p s = None → s !! p = Some (File c) → read_file p s = Ok c.
Proof. unfold read_file. by intros -> ->. Qed.

Lemma create_write_new p c s :
  ancestor_error p s = None → s !! p ≠ Some Dir → create_write p c s = (Ok tt, <[p := File c]> s).
Proof. unfold create_write. intros -> Hp. by repeat case_match. Qed.

(** Creating the directories of a path whose ancestors are directories or absent. *)
Lemma create_dirs_ok l s :
  (∀ q, q ∈ l → s !! q = Some Dir ∨ s !! q = None) →
  ∃ s', io_for_each mkdir l s = (Ok tt, s')
      ∧ (∀ q, q ∈ l → s' !! q = Some Dir) ∧ (∀ q, q ∉ l → s' !! q = s !! q).
Proof.
  revert s; induction l as [|p l IH]; intros s Hl.
  { exists s. split_and!; [done|set_solver|done]. }
  assert (∃ s1, mkdir p s = (Ok tt, s1) ∧ s1 !! p = Some Dir ∧ ∀ q, q ≠ p → s1 !! q = s !! q)
    as (s1 & Hm & Hp & Hne).
  { unfold mkdir. destruct (Hl p) as [Hd|Hn]; [set_solver|..].
    - exists s. by rewrite Hd.
    - exists (<[p:=Dir]> s). rewrite Hn, lookup_insert_eq. split_and!; [done..|].
      intros. by rewrite lookup_insert_ne. }
  destruct (IH s1) as (s' & Hs' & Hin & Hout).
  { intros q Hq. destruct (decide (q = p)) as [->|]; [by left|].
    rewrite Hne by done. apply Hl. set_solver. }
  exists s'. cbn [io_for_each]. unfold mbind, io_bind. rewrite Hm. split_and!; [done|..].
  - intros q [->|Hq]%elem_of_cons; [|auto].
    destruct (decide (p ∈ l)); [auto|]. by rewrite Hout.
  - intros q Hq. rewrite Hout, Hne by set_solver. done.
Qed.

(** Reachability and reading depend only on the path and its ancestors. *)
Lemma ancestor_error_ext (p : path) (s s' : fs) :
  (∀ q, q ∈ ancestors p → s' !! q = s !! q) → ancestor_error p s' = ancestor_error p s.
Proof.
  intros Hq. unfold ancestor_error.
  assert (List.find (λ q, match s' !! q with Some Dir => false | _ => true end) (ancestors p)
    = List.find (λ q, match s !! q with Some Dir => false | _ => true end) (ancestors p)) as Hf.
  { clear -Hq. induction (ancestors p) as [|q l IH]; [done|]. cbn [List.find].
    rewrite (Hq q) by set_solver. rewrite IH by set_solver. reflexivity. }
  rewrite Hf. clear Hf. case_match eqn:E; [|done].
  apply List.find_some in E as [Hin _]. by rewrite Hq by by apply list_elem_of_In.
Qed.

Lemma read_file_ext (p : path) (s s' : fs) :
  s' !! p = s !! p → (∀ q, q ∈ ancestors p → s' !! q = s !! q) → read_file p s' = read_file p s.
Proof. intros Hp Ha. unfold read_file. by rewrite Hp, (ancestor_error_ext p s s'). Qed.

Lemma sibling_ne suffix (p : path) : suffix ≠ [] → sibling suffix p ≠ p.
Proof.
  intros Hs. unfold sibling. destruct p as [|name p _] using rev_ind; [by destruct suffix|].
  rewrite last_snoc, length_app, take_app_le, take_ge by (simpl; lia).
  intros [_ [= Heq]]%app_inj_2; [|done].
  apply (f_equal length) in Heq. rewrite length_app in Heq. destruct suffix; [done|simpl in Heq; lia].
Qed.

Lemma length_sibling suffix (p : path) : length p ≤ length (sibling suffix p).
Proof.
  unfold sibling. destruct p as [|name p _] using rev_ind; [simpl; lia|].
  rewrite last_snoc, !length_app, length_take, length_app. simpl. lia.
Qed.

Lemma last_sibling suffix (p : path) : ∃ name, last (sibling suffix p) = Some (name ++ suffix).
Proof.
  unfold sibling. destruct (last p) as [name|]; [exists name; by rewrite last_snoc|by exists []].
Qed.

Lemma sibling_ancestors suffix (p q : path) : q ∈ ancestors p → q ≠ p ∧ q ≠ sibling suffix p.
Proof.
  intros Hq%ancestors_shorter. pose proof (length_sibling suffix p).
  split; intros ->; lia.
Qed.

(** ** What success says *)

Lemma create_write_inv (p : path) (c : bytes) (s s' : fs) (u : unit) :
  create_write p c s = (Ok u, s') →
  s' = <[p := File c]> s ∧ s !! p ≠ Some Dir ∧ ancestor_error p s = None.
Proof. unfold create_write. repeat case_match; intros [=]; by subst. Qed.

Lemma rename_inv (p q : path) (c : bytes) (s s' : fs) (u : unit) :
  s !! p = Some (File c) → rename p q s = (Ok u, s') →
  s' = <[q := File c]> (delete p s) ∧ s !! q ≠ Some Dir ∧ ancestor_error q s = None.
Proof. intros Hp. unfold rename. rewrite Hp. repeat case_match; intros [=]; by subst. Qed.

Lemma create_dirs_inv (l : list path) (s s' : fs) (u : unit) :
  io_for_each mkdir l s = (Ok u, s') → ∀ q, q ∈ l → s !! q = Some Dir ∨ s !! q = None.
Proof.
  revert s; induction l as [|p l IH]; intros s; cbn [io_for_each]; [set_solver|].
  intros (u1 & s1 & Hm & Hl)%io_bind_ok q [->|Hq]%elem_of_cons.
  - unfold mkdir in Hm. repeat case_match; naive_solver.
  - apply (IH s1 Hl) in Hq. unfold mkdir in Hm.
    destruct (decide (p = q)) as [->|]; repeat case_match; simplify_eq; auto.
    by rewrite lookup_insert_ne in Hq.
Qed.

Lemma ancestors_sibling suffix (p : path) : p ≠ [] → ancestors (sibling suffix p) = ancestors p.
Proof.
  intros Hp. unfold sibling. destruct p as [|name p _] using rev_ind; [done|].
  rewrite last_snoc, length_app. replace (length p + length [name] - 1) with (length p) by (simpl; lia).
  rewrite take_app_length. destruct (decide (p = [])) as [->|]; [done|].
  by rewrite !ancestors_snoc.
Qed.

(** A file that is written or moved leaves the directories where they are. *)
Lemma insert_keeps_dir (p q : path) (c : bytes) (s : fs) :
  s !! p ≠ Some Dir → s !! q = Some Dir → <[p := File c]> s !! q = Some Dir.
Proof. intros Hp Hq. by rewrite lookup_insert_ne by congruence. Qed.
