(* ===== verification/Format.v ===== *)
(** * The record format

    crates/core/src/format.rs: algorithm identifiers, the file header and its 66 bytes, the
    associated data of a chunk, the stream preamble with the migration of version 1 headers,
    and domain-separated manifest signatures.  bincode is a parameter; an [anyhow] error is
    its [Display] text, the outermost context. *)

From S2P Require Import Prelude External.

(** ** bincode

    [deserialize_from] returns what it has not consumed; [bincode::deserialize] allows
    trailing bytes. *)

Class Bincode (A : Type) := {
  serialize : A → result bytes bytes;
  deserialize_from : bytes → result bytes (A * bytes);
}.
Class BincodeLaws A `{Bincode A} : Prop :=
  deserialize_serialize (x : A) b r : serialize x = Ok b → deserialize_from (b ++ r) = Ok (x, r).

Definition deserialize {A} `{Bincode A} (b : bytes) : result bytes A := fst <$> deserialize_from b.

(** [.context(msg)] *)
Definition in_context {E A} (msg : string) (r : result E A) : result bytes A :=
  map_err (λ _, lit msg) r.

(** ** Constants and algorithms *)

Definition NONCE_LEN : nat := 12.
Definition AAD_LEN : nat := 32 + 8 + NONCE_LEN + 32 + 4.
Definition HEADER_LEN : nat := 66.
Definition MAGIC : bytes := lit "SEAL".
Definition VERSION : N := 2.
Definition MANIFEST_DOMAIN_SEP : bytes := lit "sealedge.manifest.v1".

Inductive AeadAlgorithm := AeadAes256Gcm | AeadChaCha20Poly1305 | AeadAes256Siv.
Inductive SignatureAlgorithm :=
  | SigEd25519 | SigEcdsaP256 | SigEcdsaP384 | SigRsaPss2048 | SigRsaPss4096 | SigDilithium3
  | SigFalcon512.
Inductive HashAlgorithm :=
  | HashBlake3 | HashSha256 | HashSha384 | HashSha512 | HashSha3_256 | HashSha3_512.
Inductive KdfAlgorithm := KdfPbkdf2Sha256 | KdfArgon2id | KdfScrypt | KdfHkdf.

(** [alg as u8] *)
Definition aead_u8 (a : AeadAlgorithm) : N :=
  match a with AeadAes256Gcm => 1 | AeadChaCha20Poly1305 => 2 | AeadAes256Siv => 3 end.
Definition sig_u8 (a : SignatureAlgorithm) : N :=
  match a with
  | SigEd25519 => 1 | SigEcdsaP256 => 2 | SigEcdsaP384 => 3 | SigRsaPss2048 => 4
  | SigRsaPss4096 => 5 | SigDilithium3 => 6 | SigFalcon512 => 7
  end.
Definition hash_u8 (a : HashAlgorithm) : N :=
  match a with
  | HashBlake3 => 1 | HashSha256 => 2 | HashSha384 => 3 | HashSha512 => 4 | HashSha3_256 => 5
  | HashSha3_512 => 6
  end.
Definition kdf_u8 (a : KdfAlgorithm) : N :=
  match a with KdfPbkdf2Sha256 => 1 | KdfArgon2id => 2 | KdfScrypt => 3 | KdfHkdf => 4 end.

(** [try_from(value)] *)
Definition aead_try_from (v : N) : result bytes AeadAlgorithm :=
  match v with
  | 1 => Ok AeadAes256Gcm
  | 2 => Ok AeadChaCha20Poly1305
  | 3 => Ok AeadAes256Siv
  | _ => Err (lit "Unsupported AEAD algorithm: " ++ fmt_N v)
  end%N.
Definition sig_try_from (v : N) : result bytes SignatureAlgorithm :=
  match v with
  | 1 => Ok SigEd25519
  | 2 => Ok SigEcdsaP256
  | 3 => Ok SigEcdsaP384
  | 4 => Ok SigRsaPss2048
  | 5 => Ok SigRsaPss4096
  | 6 => Ok SigDilithium3
  | 7 => Ok SigFalcon512
  | _ => Err (lit "Unsupported signature algorithm: " ++ fmt_N v)
  end%N.
Definition hash_try_from (v : N) : result bytes HashAlgorithm :=
  match v with
  | 1 => Ok HashBlake3
  | 2 => Ok HashSha256
  | 3 => Ok HashSha384
  | 4 => Ok HashSha512
  | 5 => Ok HashSha3_256
  | 6 => Ok HashSha3_512
  | _ => Err (lit "Unsupported hash algorithm: " ++ fmt_N v)
  end%N.
Definition kdf_try_from (v : N) : result bytes KdfAlgorithm :=
  match v with
  | 1 => Ok KdfPbkdf2Sha256
  | 2 => Ok KdfArgon2id
  | 3 => Ok KdfScrypt
  | 4 => Ok KdfHkdf
  | _ => Err (lit "Unsupported KDF algorithm: " ++ fmt_N v)
  end%N.

(** ** The file header *)

Record FileHeader := mkFileHeader {
  fh_version : N; (* u8 *)
  fh_aead_alg : N; (* u8 *)
  fh_sig_alg : N; (* u8 *)
  fh_hash_alg : N; (* u8 *)
  fh_kdf_alg : N; (* u8 *)
  fh_reserved : bytes; (* [u8; 3] *)
  fh_key_id : bytes; (* [u8; 16] *)
  fh_device_id_hash : bytes; (* [u8; 32] *)
  fh_nonce_prefix : bytes; (* [u8; 4] *)
  fh_chunk_size : N; (* u32 *)
}.

(** The fields take 64 of the [HEADER_LEN] bytes; the rest stays zero. *)
Definition header_to_bytes (h : FileHeader) : bytes :=
  [byte_of_N (fh_version h); byte_of_N (fh_aead_alg h); byte_of_N (fh_sig_alg h);
   byte_of_N (fh_hash_alg h); byte_of_N (fh_kdf_alg h)]
  ++ fh_reserved h ++ fh_key_id h ++ fh_device_id_hash h ++ fh_nonce_prefix h
  ++ be_bytes 4 (fh_chunk_size h) ++ replicate 2 (byte_of_N 0).

(** [bytes[i]] and [bytes[lo..hi]] of an array that is long enough *)
Definition u8_at (i : nat) (b : bytes) : N := default 0%N (N_of_byte <$> b !! i).
Definition slice (lo hi : nat) (b : bytes) : bytes := take (hi - lo) (drop lo b).

Definition header_from_bytes (b : bytes) : result bytes FileHeader :=
  _ ← in_context "Invalid AEAD algorithm" (aead_try_from (u8_at 1 b));
  _ ← in_context "Invalid signature algorithm" (sig_try_from (u8_at 2 b));
  _ ← in_context "Invalid hash algorithm" (hash_try_from (u8_at 3 b));
  _ ← in_context "Invalid KDF algorithm" (kdf_try_from (u8_at 4 b));
  Ok (mkFileHeader (u8_at 0 b) (u8_at 1 b) (u8_at 2 b) (u8_at 3 b) (u8_at 4 b)
        (slice 5 8 b) (slice 8 24 b) (slice 24 56 b) (slice 56 60 b)
        (of_be_bytes (slice 60 64 b))).

Definition new_with_defaults : FileHeader :=
  mkFileHeader VERSION (aead_u8 AeadAes256Gcm) (sig_u8 SigEd25519) (hash_u8 HashBlake3)
    (kdf_u8 KdfPbkdf2Sha256) (replicate 3 (byte_of_N 0)) (replicate 16 (byte_of_N 0))
    (replicate 32 (byte_of_N 0)) (replicate 4 (byte_of_N 0)) 0.

(** ** Signed manifests and associated data *)

Record SignedManifest := mkSignedManifest {
  sm_manifest : bytes;
  sm_sig : bytes;
  sm_pubkey : bytes;
}.

Definition build_aad (header_hash : bytes) (seq : N) (nonce manifest_hash : bytes) (chunk_len : N)
    : bytes :=
  header_hash ++ be_bytes 8 seq ++ nonce ++ manifest_hash ++ be_bytes 4 chunk_len.

Section Signing.
Context `{Ed25519}.

Definition sign_manifest_with_domain (sk manifest_bytes : bytes) : bytes :=
  ed_sign sk (MANIFEST_DOMAIN_SEP ++ manifest_bytes).

Definition verify_manifest_with_domain (key manifest_bytes signature : bytes) : result bytes unit :=
  ensure (ed_verify key (MANIFEST_DOMAIN_SEP ++ manifest_bytes) signature)
    (lit "Domain-separated manifest signature verification failed: signature error").
End Signing.

(** ** The stream preamble *)

Record StreamHeader := mkStreamHeader {
  sh_v : N; (* u8 *)
  sh_header : bytes;
  sh_header_hash : bytes; (* [u8; 32] *)
}.

(** The same three fields in a version 1 stream, where the header has 58 bytes. *)
Record StreamHeaderV1 := mkStreamHeaderV1 {
  sh1_v : N;
  sh1_header : bytes;
  sh1_header_hash : bytes;
}.

Record FileHeaderV1 := mkFileHeaderV1 {
  fh1_version : N;
  fh1_alg : N;
  fh1_key_id : bytes;
  fh1_device_id_hash : bytes;
  fh1_nonce_prefix : bytes;
  fh1_chunk_size : N;
}.

Definition header_v1_from_bytes (b : bytes) : FileHeaderV1 :=
  mkFileHeaderV1 (u8_at 0 b) (u8_at 1 b) (slice 2 18 b) (slice 18 50 b) (slice 50 54 b)
    (of_be_bytes (slice 54 58 b)).

Section Stream.
Context `{Blake3} `{Bincode StreamHeader} `{Bincode StreamHeaderV1}.

(** What was written before a failure is not returned: the caller gives the stream up. *)
Definition write_stream_header (sh : StreamHeader) (out : bytes) : result bytes bytes :=
  b ← in_context "write stream header" (serialize sh);
  Ok (out ++ MAGIC ++ [byte_of_N VERSION] ++ b).

Definition migrate_v1_to_v2 (v1 : StreamHeaderV1) : result bytes StreamHeader :=
  ensure (length (sh1_header v1) =? 58)%nat
    (lit "Invalid V1 header length: " ++ fmt_nat (length (sh1_header v1))) ≫= λ _,
  let h := header_v1_from_bytes (sh1_header v1) in
  let v2_bytes := header_to_bytes
    (mkFileHeader 2 (fh1_alg h) (sig_u8 SigEd25519) (hash_u8 HashBlake3) (kdf_u8 KdfPbkdf2Sha256)
       (replicate 3 (byte_of_N 0)) (fh1_key_id h) (fh1_device_id_hash h) (fh1_nonce_prefix h)
       (fh1_chunk_size h)) in
  Ok (mkStreamHeader 2 v2_bytes (blake3 v2_bytes)).

(** [r.read_exact] of [n] bytes *)
Definition read_exact (n : nat) (r : bytes) : option (bytes * bytes) :=
  if (n <=? length r)%nat then Some (take n r, drop n r) else None.

Definition read_preamble_and_header (r : bytes) : result bytes (StreamHeader * bytes) :=
  '(magic, r) ← ok_or (read_exact 4 r) (lit "read magic");
  ensure (bool_decide (magic = MAGIC)) (lit "bad magic") ≫= λ _,
  '(ver, r) ← ok_or (read_exact 1 r) (lit "read version");
  match u8_at 0 ver with
  | 1 =>
      '(sh_v1, r) ← in_context "read V1 stream header" (deserialize_from (A:=StreamHeaderV1) r);
      sh ← migrate_v1_to_v2 sh_v1;
      Ok (sh, r)
  | 2 => in_context "read V2 stream header" (deserialize_from (A:=StreamHeader) r)
  | v => Err (lit "Unsupported version: " ++ fmt_N v)
  end%N.
End Stream.

(** * Lemmas *)

(** A value that was serialised reads back; the encoding is injective. *)
Lemma deserialize_ok {A} `{BincodeLaws A} (x : A) b : serialize x = Ok b → deserialize b = Ok x.
Proof.
  intros Hs. unfold deserialize. apply (deserialize_serialize x b []) in Hs.
  rewrite app_nil_r in Hs. by rewrite Hs.
Qed.

Lemma serialize_inj {A} `{BincodeLaws A} (x y : A) b : serialize x = Ok b → serialize y = Ok b → x = y.
Proof. intros Hx%deserialize_ok Hy%deserialize_ok. rewrite Hx in Hy. by apply Ok_inj in Hy. Qed.

Lemma in_context_ok {E A} msg (r : result E A) a : in_context msg r = Ok a ↔ r = Ok a.
Proof. apply map_err_ok. Qed.

(** ** Headers *)

(** Every field within its type. *)
Record wf_header (h : FileHeader) : Prop := {
  wf_fh_u8 : Forall (λ n, n < 256)%N
    [fh_version h; fh_aead_alg h; fh_sig_alg h; fh_hash_alg h; fh_kdf_alg h];
  wf_fh_reserved : length (fh_reserved h) = 3;
  wf_fh_key_id : length (fh_key_id h) = 16;
  wf_fh_device_id_hash : length (fh_device_id_hash h) = 32;
  wf_fh_nonce_prefix : length (fh_nonce_prefix h) = 4;
  wf_fh_chunk_size : (fh_chunk_size h ≤ u32_max)%N;
}.

(** Every algorithm identifier known. *)
Definition known_algorithms (h : FileHeader) : bool :=
  is_ok (aead_try_from (fh_aead_alg h)) && is_ok (sig_try_from (fh_sig_alg h))
  && is_ok (hash_try_from (fh_hash_alg h)) && is_ok (kdf_try_from (fh_kdf_alg h)).

Lemma is_ok_true {E A} (r : result E A) : is_ok r = true ↔ ∃ a, r = Ok a.
Proof. destruct r; split; [eauto|done|done|]. by intros [? ?]. Qed.

Lemma header_from_bytes_ok b h :
  header_from_bytes b = Ok h ↔
  known_algorithms h = true
  ∧ h = mkFileHeader (u8_at 0 b) (u8_at 1 b) (u8_at 2 b) (u8_at 3 b) (u8_at 4 b)
          (slice 5 8 b) (slice 8 24 b) (slice 24 56 b) (slice 56 60 b) (of_be_bytes (slice 60 64 b)).
Proof.
  unfold header_from_bytes, known_algorithms. rewrite !andb_true_iff, !is_ok_true. split.
  - intros Hh. inv_ok. repeat match goal with E : in_context _ _ = Ok _ |- _ => apply in_context_ok in E end.
    eauto 10.
  - intros [[[[[? Ha] [? Hs]] [? Hh]] [? Hk]] Heq]. subst h. cbn in Ha, Hs, Hh, Hk.
    rewrite Ha, Hs, Hh, Hk. done.
Qed.

Lemma length_header_to_bytes h : wf_header h → length (header_to_bytes h) = HEADER_LEN.
Proof.
  intros [_ Hr Hk Hd Hn _]. unfold header_to_bytes. rewrite !length_app, Hr, Hk, Hd, Hn, length_be_bytes.
  done.
Qed.

Lemma slice_middle (a b c : bytes) lo hi :
  length a = lo → length b = hi - lo → slice lo hi (a ++ b ++ c) = b.
Proof. intros <- Hb. unfold slice. by rewrite drop_app_length, <-Hb, take_app_length. Qed.

(** The field of an array of concatenated fields. *)
Ltac slice_field :=
  repeat first
    [apply slice_middle; [rewrite ?length_app, ?length_be_bytes; cbn [length]; lia
                         |rewrite ?length_be_bytes; cbn; lia]
    |rewrite app_assoc].

Lemma header_roundtrip h :
  wf_header h → known_algorithms h = true → header_from_bytes (header_to_bytes h) = Ok h.
Proof.
  intros [Hu Hr Hk Hd Hn Hc] Halg. apply header_from_bytes_ok. split; [done|].
  destruct h as [v a s ha k res kid did np cs]. cbn in Hu, Hr, Hk, Hd, Hn, Hc.
  rewrite !Forall_cons in Hu. destruct Hu as (? & ? & ? & ? & ? & _).
  unfold header_to_bytes. cbn [fh_version fh_aead_alg fh_sig_alg fh_hash_alg fh_kdf_alg fh_reserved
    fh_key_id fh_device_id_hash fh_nonce_prefix fh_chunk_size].
  symmetry. f_equal; try (unfold u8_at; cbn -[N_of_byte byte_of_N];
    rewrite N_of_byte_of_N; by apply N.mod_small); try solve [slice_field].
  etrans; [apply (f_equal of_be_bytes (y:=be_bytes 4 cs)); slice_field|].
  apply of_be_bytes_be_bytes. unfold u32_max in Hc. cbn in *. lia.
Qed.

(** A parsed array is the array of the header, up to the two bytes after its fields. *)
Lemma u8_at_byte i b : i < length b → byte_of_N (u8_at i b) :: drop (S i) b = drop i b.
Proof.
  intros [x Hx]%lookup_lt_is_Some. unfold u8_at. rewrite Hx, (drop_S _ _ _ Hx). f_equal.
  apply byte_of_N_of_byte.
Qed.
Lemma slice_drop lo hi (b : bytes) : lo ≤ hi → slice lo hi b ++ drop hi b = drop lo b.
Proof. intros ?. unfold slice. rewrite <-(take_drop (hi - lo) (drop lo b)) at 2. rewrite drop_drop. do 2 f_equal; lia. Qed.
Lemma length_slice lo hi (b : bytes) : hi ≤ length b → length (slice lo hi b) = hi - lo.
Proof. intros ?. unfold slice. rewrite length_take, length_drop. lia. Qed.
Lemma u8_at_lt i b : (u8_at i b < 256)%N.
Proof. unfold u8_at. destruct (b !! i); cbn; [apply N_of_byte_lt|lia]. Qed.

Lemma header_from_bytes_typed b h :
  length b = HEADER_LEN → header_from_bytes b = Ok h →
  wf_header h ∧ known_algorithms h = true ∧ header_to_bytes h = take 64 b ++ replicate 2 (byte_of_N 0).
Proof.
  intros Hl [Hk ->]%header_from_bytes_ok. unfold HEADER_LEN in Hl. split_and!; [|done|].
  - split; cbn -[u8_at slice of_be_bytes]; try (rewrite length_slice by lia; done).
    + repeat constructor; apply u8_at_lt.
    + pose proof (of_be_bytes_lt (slice 60 64 b)) as Hc. rewrite length_slice in Hc by lia.
      unfold u32_max. cbn in *. lia.
  - unfold header_to_bytes. cbn [fh_version fh_aead_alg fh_sig_alg fh_hash_alg fh_kdf_alg fh_reserved
      fh_key_id fh_device_id_hash fh_nonce_prefix fh_chunk_size].
    replace (be_bytes 4 (of_be_bytes (slice 60 64 b))) with (slice 60 64 b).
    2: { rewrite <-(be_bytes_of_be_bytes (slice 60 64 b)) at 1. by rewrite length_slice by lia. }
    rewrite !app_assoc. f_equal.
    apply (app_inv_tail (drop 64 b)). rewrite take_drop, <-!app_assoc, !slice_drop by lia.
    cbn [app]. by rewrite !u8_at_byte by lia.
Qed.

Lemma header_from_bytes_exact b h :
  length b = HEADER_LEN →
  header_from_bytes b = Ok h ↔
  wf_header h ∧ known_algorithms h = true ∧ header_to_bytes h = take 64 b ++ replicate 2 (byte_of_N 0).
Proof.
  intros Hl. split; [by apply header_from_bytes_typed|]. intros (Hw & Hk & Hb).
  rewrite <-(header_roundtrip h) by done. rewrite Hb. unfold HEADER_LEN in Hl.
  do 64 (destruct b as [|? b]; [done|]). done.
Qed.

(** ** Associated data *)

(** The associated data determines what it binds. *)
Lemma build_aad_inj hh seq n mh len hh' seq' n' mh' len' :
  length hh = length hh' → length n = length n' → length mh = length mh' →
  (seq ≤ u64_max)%N → (seq' ≤ u64_max)%N → (len ≤ u32_max)%N → (len' ≤ u32_max)%N →
  build_aad hh seq n mh len = build_aad hh' seq' n' mh' len' →
  hh = hh' ∧ seq = seq' ∧ n = n' ∧ mh = mh' ∧ len = len'.
Proof.
  intros Hh Hn Hm ???? Heq. unfold build_aad in Heq.
  apply app_inj_1 in Heq as [-> Heq]; [|done].
  apply app_inj_1 in Heq as [Hseq Heq]; [|by rewrite !length_be_bytes].
  apply app_inj_1 in Heq as [-> Heq]; [|done]. apply app_inj_1 in Heq as [-> Hlen]; [|done].
  apply be_bytes_inj in Hseq, Hlen; unfold u64_max, u32_max in *; cbn in *; try lia. done.
Qed.

(** ** The preamble *)

Lemma read_exact_app n a r : length a = n → read_exact n (a ++ r) = Some (a, r).
Proof.
  intros <-. unfold read_exact. rewrite (proj2 (Nat.leb_le _ _)) by (rewrite length_app; lia).
  by rewrite take_app_length, drop_app_length.
Qed.

Lemma read_exact_Some n r a r' : read_exact n r = Some (a, r') → r = a ++ r' ∧ length a = n.
Proof.
  unfold read_exact. case_match eqn:E; [|done]. apply Nat.leb_le in E. intros [= <- <-].
  split; [by rewrite take_drop|rewrite length_take; lia].
Qed.

Section StreamLemmas.
Context `{Blake3} `{BincodeLaws StreamHeader} `{BincodeLaws StreamHeaderV1}.

(** What is written reads back, and the records behind it are left to the reader. *)
Lemma stream_header_roundtrip sh b r :
  write_stream_header sh [] = Ok b → read_preamble_and_header (b ++ r) = Ok (sh, r).
Proof.
  unfold write_stream_header. intros Hw. inv_ok.
  match goal with E : in_context _ _ = Ok _ |- _ => apply in_context_ok in E as Hs end.
  unfold read_preamble_and_header. rewrite app_nil_l, <-app_assoc, (read_exact_app 4) by done.
  cbn [ok_or mbind result_bind]. rewrite bool_decide_true by done. cbn [ensure mbind result_bind].
  rewrite <-app_assoc, (read_exact_app 1) by done. cbn [ok_or mbind result_bind].
  change (u8_at 0 [byte_of_N VERSION]) with 2%N. cbv iota.
  apply in_context_ok. by apply deserialize_serialize.
Qed.

End StreamLemmas.
