(* ===== verification/Backends.v ===== *)
(** * Key derivation backends

    crates/core/src/backends: the context of a derivation and the range of its iteration
    count (traits.rs, universal.rs), the registry by name (mod.rs) and the keyring backend
    (keyring.rs).  The keyring of the operating system is a parameter, and so is whether the
    build has the [keyring] feature. *)

From S2P Require Import Prelude External.
From S2P Require Import FileSystem.

Inductive BackendError :=
  | UnsupportedOperation (m : bytes)
  | KeyNotFound (m : bytes)
  | InitializationFailed (m : bytes)
  | HardwareError (m : bytes)
  | OperationFailed (m : bytes).

Definition backend_error_text (e : BackendError) : bytes :=
  match e with
  | UnsupportedOperation m => lit "Backend operation not supported: " ++ m
  | KeyNotFound m => lit "Key not found: " ++ m
  | InitializationFailed m => lit "Backend initialization failed: " ++ m
  | HardwareError m => lit "Hardware backend error: " ++ m
  | OperationFailed m => lit "Backend operation failed: " ++ m
  end.

(** ** Iteration counts *)

Definition PBKDF2_MIN_ITERATIONS : N := 300000.
Definition PBKDF2_MAX_ITERATIONS : N := 10000000.

Definition validate_pbkdf2_iterations (iterations : N) : result BackendError unit :=
  ensure (negb (iterations <? PBKDF2_MIN_ITERATIONS)%N)
    (OperationFailed (lit "PBKDF2 iterations " ++ fmt_N iterations ++ lit " is below the minimum of "
      ++ fmt_N PBKDF2_MIN_ITERATIONS)) ≫= λ _,
  ensure (negb (PBKDF2_MAX_ITERATIONS <? iterations)%N)
    (OperationFailed (lit "PBKDF2 iterations " ++ fmt_N iterations ++ lit " exceeds the maximum of "
      ++ fmt_N PBKDF2_MAX_ITERATIONS)).

Record KeyContext := mkKeyContext {
  kc_salt : bytes;
  kc_additional_data : bytes;
  kc_iterations : option N; (* u32 *)
}.

Definition key_context_new (salt : bytes) : KeyContext := mkKeyContext salt [] (Some 600000%N).
Definition with_additional_data (c : KeyContext) (data : bytes) : KeyContext :=
  mkKeyContext (kc_salt c) data (kc_iterations c).
Definition with_iterations (c : KeyContext) (n : N) : result BackendError KeyContext :=
  _ ← validate_pbkdf2_iterations n;
  Ok (mkKeyContext (kc_salt c) (kc_additional_data c) (Some n)).

(** ** The keyring backend *)

Record KeyringBackend := mkKeyringBackend {
  kb_service_name : bytes;
  kb_username : bytes;
}.

(** [Entry::new(service, user)?.get_password()?] *)
Class OsKeyring := keyring_password : bytes → bytes → result bytes bytes.

Definition keyring_new : KeyringBackend :=
  mkKeyringBackend (lit "sealedge") (lit "encryption_key").

Section Keyring.
Context `{Kdf} `{OsKeyring}.

Definition get_passphrase (k : KeyringBackend) : result bytes bytes :=
  keyring_password (kb_service_name k) (kb_username k).

Definition keyring_derive_key (k : KeyringBackend) (key_id : bytes) (c : KeyContext)
    : result BackendError bytes :=
  ensure (length (kc_salt c) =? 32)%nat
    (OperationFailed (lit "Salt must be exactly 32 bytes for keyring backend")) ≫= λ _,
  passphrase ← map_err (λ e, OperationFailed (lit "Failed to get passphrase from keyring: " ++ e))
    (get_passphrase k);
  let iterations := default 600000%N (kc_iterations c) in
  validate_pbkdf2_iterations iterations ≫= λ _,
  Ok (pbkdf2 (passphrase ++ key_id ++ kc_additional_data c) (kc_salt c) iterations).

Definition keyring_store_key (k : KeyringBackend) (key_id data : bytes) : result BackendError unit :=
  Err (UnsupportedOperation (lit "Keyring backend does not support storing raw keys")).
Definition keyring_rotate_key (k : KeyringBackend) (old_id new_id : bytes)
    : result BackendError unit :=
  Err (UnsupportedOperation (lit "Keyring backend does not support automatic key rotation")).
End Keyring.

(** ** The registry

    [keyring_feature]: built with the keyring feature. *)

Definition pubky_text : bytes :=
  lit "❌ Pubky backend not available in sealedge-core.

🔗 Use the separate 'sealedge-pubky' binary for Pubky operations:

● Generate identity:
sealedge-pubky generate --output my-key.txt

● Encrypt for someone:
sealedge-pubky encrypt --input <file> --output <envelope> --recipient <pubky-id>

● Decrypt received file:
sealedge-pubky decrypt --input <envelope> --output <file> --key <private-key>

● Resolve Pubky ID:
sealedge-pubky resolve <pubky-id> --info

● Get help:
sealedge-pubky --help".

Definition create_backend (keyring_feature : bool) (backend_type : bytes)
    : result bytes KeyringBackend :=
  if bool_decide (backend_type = lit "keyring") then
    if keyring_feature then Ok keyring_new
    else Err (lit "Keyring backend requires the 'keyring' feature. Build with: --features keyring")
  else if bool_decide (backend_type = lit "pubky") then Err pubky_text
  else Err (lit "Unknown backend type: " ++ backend_type).

Definition list_available_backends (keyring_feature : bool) : list bytes :=
  if keyring_feature then [lit "keyring"] else [].

(** * Lemmas *)

Lemma validate_pbkdf2_iterations_ok n :
  validate_pbkdf2_iterations n = Ok tt ↔ (PBKDF2_MIN_ITERATIONS ≤ n ≤ PBKDF2_MAX_ITERATIONS)%N.
Proof.
  unfold validate_pbkdf2_iterations. rewrite bind_unit_ok, !ensure_ok, !negb_true_iff, !N.ltb_ge. lia.
Qed.

Section KeyringLemmas.
Context `{Kdf} `{OsKeyring}.

(** A derivation runs exactly on a 32-byte salt, a stored passphrase and an iteration count in
    the accepted range, whatever built the context. *)
Lemma keyring_derive_key_ok k id c key :
  keyring_derive_key k id c = Ok key ↔
  length (kc_salt c) = 32 ∧
  (PBKDF2_MIN_ITERATIONS ≤ default 600000 (kc_iterations c) ≤ PBKDF2_MAX_ITERATIONS)%N ∧
  ∃ p, get_passphrase k = Ok p
    ∧ key = pbkdf2 (p ++ id ++ kc_additional_data c) (kc_salt c) (default 600000%N (kc_iterations c)).
Proof.
  unfold keyring_derive_key. split.
  - intros Hk. inv_ok. split; [by apply Nat.eqb_eq|split; [|by eauto]].
    destruct x1. by apply validate_pbkdf2_iterations_ok.
  - intros (Hs & Hi & p & Hp & ->). rewrite (proj2 (Nat.eqb_eq _ _) Hs), Hp. cbn.
    by rewrite (proj2 (validate_pbkdf2_iterations_ok _) Hi).
Qed.
End KeyringLemmas.

(** ** Universal backends and their registry

    crates/core/src/backends: operations, results and capabilities (universal.rs), the registry
    that selects a backend for an operation (universal_registry.rs) and the keyring as a
    universal backend (universal_keyring.rs).

    A backend is a record of its trait methods; [perform_operation] may change files.  A
    [HashMap] of backends is an association list in the order in which the map iterates. *)

(** ** Algorithms, operations, results *)

Inductive SymmetricAlgorithm := USymAes256Gcm | USymChaCha20Poly1305.
Inductive AsymmetricAlgorithm := UEd25519 | UEcdsaP256 | URsa2048 | URsa4096.
Inductive USignatureAlgorithm := USigEd25519 | USigEcdsaP256 | USigRsaPkcs1v15 | USigRsaPss.
Inductive UHashAlgorithm := USha256 | USha384 | USha512.

Global Instance symmetric_eq_dec : EqDecision SymmetricAlgorithm.
Proof. solve_decision. Defined.
Global Instance asymmetric_eq_dec : EqDecision AsymmetricAlgorithm.
Proof. solve_decision. Defined.
Global Instance usignature_eq_dec : EqDecision USignatureAlgorithm.
Proof. solve_decision. Defined.
Global Instance uhash_eq_dec : EqDecision UHashAlgorithm.
Proof. solve_decision. Defined.

(** [{:?}] of the derived [Debug] *)
Definition asymmetric_debug (a : AsymmetricAlgorithm) : bytes :=
  lit (match a with UEd25519 => "Ed25519" | UEcdsaP256 => "EcdsaP256" | URsa2048 => "Rsa2048"
       | URsa4096 => "Rsa4096" end).
Definition signature_debug (a : USignatureAlgorithm) : bytes :=
  lit (match a with USigEd25519 => "Ed25519" | USigEcdsaP256 => "EcdsaP256"
       | USigRsaPkcs1v15 => "RsaPkcs1v15" | USigRsaPss => "RsaPss" end).
Definition symmetric_debug (a : SymmetricAlgorithm) : bytes :=
  lit (match a with USymAes256Gcm => "Aes256Gcm" | USymChaCha20Poly1305 => "ChaCha20Poly1305" end).

Record KeyDerivationContext := mkKeyDerivationContext {
  kd_salt : bytes;
  kd_additional_data : bytes;
  kd_iterations : option N; (* u32 *)
  kd_hash_algorithm : option UHashAlgorithm;
}.

Definition derivation_context_new (salt : bytes) : KeyDerivationContext :=
  mkKeyDerivationContext salt [] (Some 600000%N) (Some USha256).
Definition derivation_with_additional_data (c : KeyDerivationContext) (data : bytes)
    : KeyDerivationContext :=
  mkKeyDerivationContext (kd_salt c) data (kd_iterations c) (kd_hash_algorithm c).
Definition derivation_with_iterations (c : KeyDerivationContext) (n : N)
    : result BackendError KeyDerivationContext :=
  _ ← validate_pbkdf2_iterations n;
  Ok (mkKeyDerivationContext (kd_salt c) (kd_additional_data c) (Some n) (kd_hash_algorithm c)).
Definition derivation_with_hash_algorithm (c : KeyDerivationContext) (a : UHashAlgorithm)
    : KeyDerivationContext :=
  mkKeyDerivationContext (kd_salt c) (kd_additional_data c) (kd_iterations c) (Some a).

Inductive CryptoOperation :=
  | OpEncrypt (plaintext : bytes) (algorithm : SymmetricAlgorithm)
  | OpDecrypt (ciphertext : bytes) (algorithm : SymmetricAlgorithm)
  | OpSign (data : bytes) (algorithm : USignatureAlgorithm)
  | OpVerify (data signature : bytes) (algorithm : USignatureAlgorithm)
  | OpDeriveKey (context : KeyDerivationContext)
  | OpGenerateKeyPair (algorithm : AsymmetricAlgorithm)
  | OpGetPublicKey
  | OpKeyExchange (peer_public_key : bytes) (algorithm : AsymmetricAlgorithm)
  | OpAttest (challenge : bytes)
  | OpHash (data : bytes) (algorithm : UHashAlgorithm).

Inductive CryptoResult :=
  | Encrypted (b : bytes)
  | Decrypted (b : bytes)
  | Signed (b : bytes)
  | VerificationResult (b : bool)
  | DerivedKey (b : bytes)
  | KeyPair (public_key private_key_id : bytes)
  | PublicKey (b : bytes)
  | SharedSecret (b : bytes)
  | AttestationProof (b : bytes)
  | HashResult (b : bytes).

Record BackendCapabilities := mkBackendCapabilities {
  bc_symmetric_algorithms : list SymmetricAlgorithm;
  bc_asymmetric_algorithms : list AsymmetricAlgorithm;
  bc_signature_algorithms : list USignatureAlgorithm;
  bc_hash_algorithms : list UHashAlgorithm;
  bc_hardware_backed : bool;
  bc_supports_key_derivation : bool;
  bc_supports_key_generation : bool;
  bc_supports_attestation : bool;
  bc_max_key_size : option N; (* u32 *)
}.

Definition software_only : BackendCapabilities :=
  mkBackendCapabilities [USymAes256Gcm] [] [] [USha256; USha512] false true false false None.
Definition hardware_security_module : BackendCapabilities :=
  mkBackendCapabilities [USymAes256Gcm] [UEd25519; UEcdsaP256; URsa2048]
    [USigEd25519; USigEcdsaP256; USigRsaPkcs1v15] [USha256; USha384; USha512] true true true true
    (Some 4096%N).

Definition operation_type_supported (c : BackendCapabilities) (op : CryptoOperation) : bool :=
  match op with
  | OpEncrypt _ a | OpDecrypt _ a => bool_decide (a ∈ bc_symmetric_algorithms c)
  | OpSign _ a | OpVerify _ _ a => bool_decide (a ∈ bc_signature_algorithms c)
  | OpDeriveKey _ => bc_supports_key_derivation c
  | OpGenerateKeyPair a =>
      bc_supports_key_generation c && bool_decide (a ∈ bc_asymmetric_algorithms c)
  | OpGetPublicKey => bc_supports_key_generation c
  | OpKeyExchange _ a => bool_decide (a ∈ bc_asymmetric_algorithms c)
  | OpAttest _ => bc_supports_attestation c
  | OpHash _ a => bool_decide (a ∈ bc_hash_algorithms c)
  end.

(** ** The trait *)

Record UniversalBackend := mkUniversalBackend {
  ub_perform_operation : bytes → CryptoOperation → io BackendError CryptoResult;
  ub_supports_operation : CryptoOperation → bool;
  ub_get_capabilities : BackendCapabilities;
  ub_name : bytes; (* backend_info().name *)
}.

(** [{:?}] of an operation, and [type_name_of_val] of one, in quotes *)
Class OperationDebug := {
  op_debug : CryptoOperation → bytes;
  op_type_name : bytes;
}.

(** The SHA-2 digests. *)
Class Sha2 := sha2_digest : UHashAlgorithm → bytes → bytes.
(** PBKDF2 over HMAC with the chosen hash, 32 bytes of output. *)
Class Pbkdf2With := pbkdf2_with : UHashAlgorithm → bytes → bytes → N → bytes.

(** ** The registry *)

Record BackendPreferences := mkBackendPreferences {
  bp_prefer_hardware_backed : bool;
  bp_prefer_attestation : bool;
  bp_excluded_backends : list bytes;
  bp_preferred_backends : list bytes;
}.

Definition preferences_new : BackendPreferences := mkBackendPreferences false false [] [].
Definition hardware_preferred : BackendPreferences :=
  mkBackendPreferences true true [] [lit "yubikey"; lit "tpm"; lit "hsm"].
Definition maximum_compatibility : BackendPreferences :=
  mkBackendPreferences false false [] [lit "keyring"].

Abbreviation registry := (list (list ascii * UniversalBackend)) (only parsing).

Definition register_backend (r : registry) (name : bytes) (b : UniversalBackend) : registry :=
  filter (λ kv, kv.1 ≠ name) r ++ [(name, b)].
Definition get_backend (r : registry) (name : bytes) : option UniversalBackend :=
  snd <$> List.find (λ kv, bool_decide (kv.1 = name)) r.

Definition find_all_backends_for_operation (r : registry) (op : CryptoOperation) : registry :=
  List.filter (λ kv, ub_supports_operation kv.2 op) r.
Definition find_backend_for_operation (r : registry) (op : CryptoOperation)
    : option UniversalBackend :=
  snd <$> List.find (λ kv, ub_supports_operation kv.2 op) r.
Definition list_backend_names (r : registry) : list bytes := r.*1.
Definition get_all_capabilities (r : registry) : list (bytes * BackendCapabilities) :=
  (λ kv : bytes * UniversalBackend, (kv.1, ub_get_capabilities kv.2)) <$> r.

(** How many algorithms a backend has. *)
Definition score (c : BackendCapabilities) : nat :=
  length (bc_symmetric_algorithms c) + length (bc_asymmetric_algorithms c)
  + length (bc_signature_algorithms c).

(** The comparison of [find_preferred_backend]: [Lt] is preferred. *)
Definition compare_backends (p : BackendPreferences) (a b : UniversalBackend) : comparison :=
  let ca := ub_get_capabilities a in
  let cb := ub_get_capabilities b in
  match bp_prefer_hardware_backed p, bc_hardware_backed ca, bc_hardware_backed cb with
  | true, true, false => Lt
  | true, false, true => Gt
  | _, _, _ => Nat.compare (score cb) (score ca)
  end.

(** [v.sort_by(cmp)], a stable sort *)
Fixpoint insert_by {A} (cmp : A → A → comparison) (x : A) (l : list A) : list A :=
  match l with
  | [] => [x]
  | y :: l' => match cmp x y with Gt => y :: insert_by cmp x l' | _ => x :: l end
  end.
Definition sort_by {A} (cmp : A → A → comparison) (l : list A) : list A := foldr (insert_by cmp) [] l.

(** The best candidate is looked up again by the name it gives itself. *)
Definition find_preferred_backend (r : registry) (op : CryptoOperation) (p : BackendPreferences)
    : option UniversalBackend :=
  kv ← head (sort_by (λ a b : bytes * UniversalBackend, compare_backends p a.2 b.2)
               (find_all_backends_for_operation r op));
  get_backend r (ub_name kv.2).

Section Registry.
Context `{OperationDebug}.

Definition registry_perform_operation (r : registry) (key_id : bytes) (op : CryptoOperation)
    (preferences : option BackendPreferences) : io BackendError CryptoResult :=
  match
    match preferences with
    | Some p => find_preferred_backend r op p
    | None => find_backend_for_operation r op
    end
  with
  | Some b => ub_perform_operation b key_id op
  | None =>
      io_lift (Err (UnsupportedOperation
        (lit "No backend supports the requested operation: " ++ op_debug op)))
  end.
End Registry.

(** ** The keyring as a universal backend *)

Section UniversalKeyring.
Context `{Kdf} `{OsKeyring} `{Pbkdf2With} `{Sha2} `{OperationDebug}.

(** The inner errors have become text. *)
Definition derive_key_internal (k : KeyringBackend) (key_id : bytes) (c : KeyDerivationContext)
    : result bytes bytes :=
  ensure (length (kd_salt c) =? 32)%nat (lit "Salt must be exactly 32 bytes for keyring backend") ≫= λ _,
  let iterations := default 600000%N (kd_iterations c) in
  map_err backend_error_text (validate_pbkdf2_iterations iterations) ≫= λ _,
  passphrase ← map_err (λ e, lit "Failed to get passphrase from keyring: " ++ e) (get_passphrase k);
  Ok (pbkdf2_with (default USha256 (kd_hash_algorithm c))
        (passphrase ++ key_id ++ kd_additional_data c) (kd_salt c) iterations).

Definition symmetric_unsupported (a : SymmetricAlgorithm) : BackendError :=
  UnsupportedOperation (lit "Symmetric algorithm " ++ symmetric_debug a
    ++ lit " not supported by keyring backend").

Definition keyring_perform (k : KeyringBackend) (key_id : bytes) (op : CryptoOperation)
    : result BackendError CryptoResult :=
  match op with
  | OpDeriveKey c =>
      key ← map_err (λ e, OperationFailed (lit "Key derivation failed: " ++ e))
        (derive_key_internal k key_id c);
      Ok (DerivedKey key)
  | OpEncrypt _ USymAes256Gcm =>
      Err (UnsupportedOperation (lit "Encryption requires key derivation context. Use DeriveKey first, then use the raw key."))
  | OpDecrypt _ USymAes256Gcm =>
      Err (UnsupportedOperation (lit "Decryption requires key derivation context. Use DeriveKey first, then use the raw key."))
  | OpEncrypt _ a | OpDecrypt _ a => Err (symmetric_unsupported a)
  | OpHash data a => Ok (HashResult (sha2_digest a data))
  | _ => Err (UnsupportedOperation (lit "Operation " ++ op_debug op ++ lit " not supported by keyring backend"))
  end.

Definition keyring_supports (op : CryptoOperation) : bool :=
  match op with OpDeriveKey _ | OpHash _ _ => true | _ => false end.

Definition keyring_capabilities : BackendCapabilities :=
  mkBackendCapabilities [] [] [] [USha256; USha384; USha512] false true false false None.

Definition keyring_universal (k : KeyringBackend) : UniversalBackend :=
  mkUniversalBackend (λ id op, io_lift (keyring_perform k id op)) keyring_supports
    keyring_capabilities (lit "keyring").
End UniversalKeyring.
