(* ===== verification/Hsm.v ===== *)
(** * The software HSM

    crates/core/src/backends/software_hsm.rs: key pairs in a directory, the private ones
    encrypted under the passphrase, with a metadata file; signing, verification and the
    [UniversalBackend] interface; and the default registry of universal_registry.rs, built
    without the yubikey feature.

    Random draws and the clock are arguments.  A [HashMap] of metadata is a [gmap]. *)

From S2P Require Import Prelude External Utf8 FileSystem Format Backends.

Definition PBKDF2_ITERATIONS : N := 600000.
Definition SALT_LEN : nat := 32.
Definition AES_NONCE_LEN : nat := 12.

Record SoftwareHsmConfig := mkHsmConfig {
  hc_key_store_path : path;
  hc_default_passphrase : bytes;
  hc_metadata_file : path;
}.

(** [SoftwareHsmConfigBuilder]; [build] fills in what was not set. *)
Record SoftwareHsmConfigBuilder := mkHsmBuilder {
  hb_key_store_path : option (list (list ascii));
  hb_default_passphrase : bytes;
  hb_metadata_file : option (list (list ascii));
}.
Definition build_config (b : SoftwareHsmConfigBuilder) : SoftwareHsmConfig :=
  let store := default [lit "software_hsm_keys"] (hb_key_store_path b) in
  mkHsmConfig store (hb_default_passphrase b)
    (default (store ++ [lit "metadata.json"]) (hb_metadata_file b)).

Record SoftwareHsmKeyMetadata := mkHsmKeyMetadata {
  hm_key_id : bytes;
  hm_algorithm : AsymmetricAlgorithm;
  hm_private_key_path : path;
  hm_public_key_path : path;
  hm_created_at : N; (* u64 *)
  hm_last_used : option N; (* u64 *)
  hm_description : bytes;
}.

Abbreviation key_table := (gmap (list ascii) SoftwareHsmKeyMetadata) (only parsing).

Record SoftwareHsmBackend := mkHsm {
  hsm_config : SoftwareHsmConfig;
  hsm_key_metadata : gmap (list ascii) SoftwareHsmKeyMetadata;
}.

(** [serde_json] of the metadata: the file, and one entry of [list_keys] *)
Class HsmJson := {
  keys_to_string_pretty : gmap (list ascii) SoftwareHsmKeyMetadata → result bytes bytes;
  keys_from_str : bytes → result bytes (gmap (list ascii) SoftwareHsmKeyMetadata);
  key_to_vec : SoftwareHsmKeyMetadata → result bytes bytes;
}.
(** Paths serialise when they are UTF-8. *)
Definition text_table (t : key_table) : Prop :=
  map_Forall (λ _ m, Forall (λ c, utf8_valid c = true) (hm_private_key_path m ++ hm_public_key_path m)) t.
Class HsmJsonLaws `{HsmJson} : Prop := {
  keys_roundtrip k j : keys_to_string_pretty k = Ok j → keys_from_str j = Ok k ∧ utf8_valid j = true;
  keys_serialize k : text_table k → ∃ j, keys_to_string_pretty k = Ok j;
}.

(** The p256 crate: a secret key is its 32 bytes, a public key its uncompressed point. *)
Class P256Keys := {
  p256_secret_ok : bytes → bool; (* SecretKey::from_bytes *)
  p256_public : bytes → bytes;
  p256_sign : bytes → bytes → bytes; (* DER *)
  p256_point_ok : bytes → bool; (* EncodedPoint::from_bytes *)
}.
Class P256KeysLaws `{P256Keys} `{P256} : Prop := {
  p256_public_ok sk : p256_secret_ok sk = true →
    p256_point_ok (p256_public sk) = true ∧ p256_key_ok (p256_public sk) = true;
  p256_verify_sign sk m : p256_secret_ok sk = true →
    p256_sig_ok (p256_sign sk m) = true ∧ p256_verify (p256_public sk) m (p256_sign sk m) = true;
}.

(** What generating a key draws, and the time in seconds. *)
Record HsmDraws := mkHsmDraws {
  hd_secret : bytes; (* SigningKey::generate, SecretKey::random *)
  hd_salt : bytes;
  hd_nonce : bytes;
  hd_now : N;
}.

(** ** Paths

    [PathBuf::join], with [.] and [..] resolved in the text: symbolic links are outside the
    model. *)
Definition push_component (p : path) (c : bytes) : path :=
  if is_empty c || bool_decide (c = lit ".") then p
  else if bool_decide (c = lit "..") then take (length p - 1) p
  else p ++ [c].
Definition path_join (p : path) (name : bytes) : path :=
  foldl push_component (if starts_with (lit "/") name then [] else p) (split_on "/"%char name).

Definition private_key_path (c : SoftwareHsmConfig) (key_id : bytes) : path :=
  path_join (hc_key_store_path c) (key_id ++ lit "_private.key").
Definition public_key_path (c : SoftwareHsmConfig) (key_id : bytes) : path :=
  path_join (hc_key_store_path c) (key_id ++ lit "_public.key").

(** [.context(msg)] on an operation that changes files *)
Definition fs_context {E A} (msg : string) (m : io E A) : io bytes A := io_map_err (λ _, lit msg) m.

Section Hsm.
Context `{Ed25519} `{P256} `{P256Keys} `{Aead} `{Kdf} `{HsmJson} `{Sha2} `{OperationDebug}.

(** ** Metadata *)

(** The table after [load_metadata] on a backend whose table is empty. *)
Definition load_metadata (c : SoftwareHsmConfig) (s : fs) : result bytes key_table :=
  if path_exists (hc_metadata_file c) s then
    content ← in_context "Failed to read metadata file" (read_file (hc_metadata_file c) s);
    ensure (utf8_valid content) (lit "Failed to read metadata file") ≫= λ _,
    in_context "Failed to parse metadata file" (keys_from_str content)
  else Ok ∅.

Definition with_config (c : SoftwareHsmConfig) : io bytes SoftwareHsmBackend :=
  fs_context "Failed to create key store directory" (create_dir_all (hc_key_store_path c)) ≫= λ _,
  keys ← io_read (load_metadata c);
  mret (mkHsm c keys).

Definition save_metadata (b : SoftwareHsmBackend) : io bytes unit :=
  json ← io_lift (in_context "Failed to serialize metadata" (keys_to_string_pretty (hsm_key_metadata b)));
  fs_context "Failed to write metadata file" (create_write (hc_metadata_file (hsm_config b)) json).

(** ** Private keys *)

Definition encrypt_private_key (b : SoftwareHsmBackend) (p : path) (key_bytes salt nonce : bytes)
    : io bytes unit :=
  let derived_key := pbkdf2 (hc_default_passphrase (hsm_config b)) salt PBKDF2_ITERATIONS in
  ciphertext ← io_lift (ok_or (aead_encrypt Aes256Gcm derived_key nonce [] key_bytes)
    (lit "Failed to encrypt private key: " ++ aead_error));
  fs_context "Failed to write encrypted private key" (create_write p (salt ++ nonce ++ ciphertext)).

Definition decrypt_private_key (b : SoftwareHsmBackend) (p : path) (s : fs) : result bytes bytes :=
  data ← in_context "Failed to read private key file" (read_file p s);
  let min_len := SALT_LEN + AES_NONCE_LEN + 16 in
  ensure (min_len <=? length data)%nat
    (lit "Encrypted key file too short (" ++ fmt_nat (length data) ++ lit " bytes, minimum "
      ++ fmt_nat min_len ++ lit ")") ≫= λ _,
  let derived_key := pbkdf2 (hc_default_passphrase (hsm_config b)) (take SALT_LEN data) PBKDF2_ITERATIONS in
  ok_or (aead_decrypt Aes256Gcm derived_key (slice SALT_LEN (SALT_LEN + AES_NONCE_LEN) data) []
           (drop (SALT_LEN + AES_NONCE_LEN) data))
    (lit "Failed to decrypt private key (wrong passphrase?): " ++ aead_error).

(** ** Generation *)

Definition write_key_pair (b : SoftwareHsmBackend) (key_id : bytes) (alg : AsymmetricAlgorithm)
    (d : HsmDraws) : io bytes unit :=
  let private := private_key_path (hsm_config b) key_id in
  let public := public_key_path (hsm_config b) key_id in
  match alg with
  | UEd25519 =>
      fs_context "Failed to write Ed25519 private key"
        (encrypt_private_key b private (hd_secret d) (hd_salt d) (hd_nonce d)) ≫= λ _,
      fs_context "Failed to write Ed25519 public key" (create_write public (ed_public (hd_secret d)))
  | UEcdsaP256 =>
      fs_context "Failed to write P256 private key"
        (encrypt_private_key b private (hd_secret d) (hd_salt d) (hd_nonce d)) ≫= λ _,
      fs_context "Failed to write P256 public key" (create_write public (p256_public (hd_secret d)))
  | _ =>
      io_lift (Err (lit "Unsupported algorithm for Software HSM: " ++ asymmetric_debug alg
        ++ lit ". Use Ed25519 or EcdsaP256."))
  end.

Definition insert_key (b : SoftwareHsmBackend) (key_id : bytes) (m : SoftwareHsmKeyMetadata)
    : SoftwareHsmBackend :=
  mkHsm (hsm_config b) (<[key_id := m]> (hsm_key_metadata b)).

(** The backend as the call leaves it, an error included. *)
Definition generate_key_pair (b : SoftwareHsmBackend) (key_id : bytes) (alg : AsymmetricAlgorithm)
    (description : option bytes) (d : HsmDraws) (s : fs) : result bytes unit * SoftwareHsmBackend * fs :=
  match write_key_pair b key_id alg d s with
  | (Err e, s') => (Err e, b, s')
  | (Ok _, s') =>
      let m := mkHsmKeyMetadata key_id alg (private_key_path (hsm_config b) key_id)
        (public_key_path (hsm_config b) key_id) (hd_now d) None
        (default (asymmetric_debug alg ++ lit " key") description) in
      let b' := insert_key b key_id m in
      let '(r, s'') := save_metadata b' s' in (r, b', s'')
  end.

(** ** Use *)

Definition key_not_found (key_id : bytes) : bytes := lit "Key not found: " ++ key_id.

Definition load_private_key (b : SoftwareHsmBackend) (key_id : bytes) (s : fs) : result bytes bytes :=
  m ← ok_or (hsm_key_metadata b !! key_id) (key_not_found key_id);
  map_err (λ _, lit "Failed to read private key: " ++ key_id)
    (decrypt_private_key b (hm_private_key_path m) s).

Definition load_public_key (b : SoftwareHsmBackend) (key_id : bytes) (s : fs) : result bytes bytes :=
  m ← ok_or (hsm_key_metadata b !! key_id) (key_not_found key_id);
  map_err (λ _, lit "Failed to read public key: " ++ key_id) (read_file (hm_public_key_path m) s).

Definition touch (now : N) (m : SoftwareHsmKeyMetadata) : SoftwareHsmKeyMetadata :=
  mkHsmKeyMetadata (hm_key_id m) (hm_algorithm m) (hm_private_key_path m) (hm_public_key_path m)
    (hm_created_at m) (Some now) (hm_description m).

Definition update_key_usage (b : SoftwareHsmBackend) (key_id : bytes) (now : N) (s : fs)
    : result bytes unit * SoftwareHsmBackend * fs :=
  match hsm_key_metadata b !! key_id with
  | Some m =>
      let b' := insert_key b key_id (touch now m) in
      let '(r, s') := save_metadata b' s in (r, b', s')
  | None => (Ok tt, b, s)
  end.

Definition incompatible {A} (m : SoftwareHsmKeyMetadata) (alg : USignatureAlgorithm) : result bytes A :=
  Err (lit "Incompatible key algorithm " ++ asymmetric_debug (hm_algorithm m)
    ++ lit " with signature algorithm " ++ signature_debug alg).

(** The signature, before the usage is recorded. *)
Definition compute_signature (b : SoftwareHsmBackend) (key_id data : bytes) (alg : USignatureAlgorithm)
    (s : fs) : result bytes bytes :=
  m ← ok_or (hsm_key_metadata b !! key_id) (key_not_found key_id);
  match hm_algorithm m, alg with
  | UEd25519, USigEd25519 =>
      sk ← load_private_key b key_id s;
      ensure (length sk =? 32)%nat (lit "Invalid Ed25519 private key length") ≫= λ _,
      Ok (ed_sign sk data)
  | UEcdsaP256, USigEcdsaP256 =>
      sk ← load_private_key b key_id s;
      ensure (length sk =? 32)%nat (lit "Invalid P256 private key length") ≫= λ _,
      ensure (p256_secret_ok sk) (lit "Failed to parse P256 private key: " ++ p256_error sk) ≫= λ _,
      Ok (p256_sign sk data)
  | _, _ => incompatible m alg
  end.

Definition sign_data (b : SoftwareHsmBackend) (key_id data : bytes) (alg : USignatureAlgorithm)
    (now : N) (s : fs) : result bytes bytes * SoftwareHsmBackend * fs :=
  match compute_signature b key_id data alg s with
  | Err e => (Err e, b, s)
  | Ok sig =>
      let '(r, b', s') := update_key_usage b key_id now s in
      ((λ _, sig) <$> r, b', s')
  end.

Definition hsm_verify_signature (b : SoftwareHsmBackend) (key_id data signature : bytes)
    (alg : USignatureAlgorithm) (s : fs) : result bytes bool :=
  m ← ok_or (hsm_key_metadata b !! key_id) (key_not_found key_id);
  match hm_algorithm m, alg with
  | UEd25519, USigEd25519 =>
      pk ← load_public_key b key_id s;
      ensure (length pk =? 32)%nat (lit "Invalid Ed25519 public key length") ≫= λ _,
      ensure (ed_key_ok pk) (lit "Invalid Ed25519 public key: " ++ ed_key_error pk) ≫= λ _,
      ensure (length signature =? 64)%nat (lit "Invalid Ed25519 signature length") ≫= λ _,
      Ok (ed_verify pk data signature)
  | UEcdsaP256, USigEcdsaP256 =>
      pk ← load_public_key b key_id s;
      ensure (p256_point_ok pk) (lit "Invalid P256 public key encoding: " ++ p256_error pk) ≫= λ _,
      ensure (p256_key_ok pk) (lit "Invalid P256 public key") ≫= λ _,
      ensure (p256_sig_ok signature) (lit "Failed to parse P256 signature: " ++ p256_error signature) ≫= λ _,
      Ok (p256_verify pk data signature)
  | _, _ => incompatible m alg
  end.

Definition hash_data (data : bytes) (alg : UHashAlgorithm) : result bytes bytes :=
  Ok (sha2_digest alg data).

(** ** The universal interface *)

(** [s.contains(pat)] *)
Fixpoint contains (pat s : bytes) : bool :=
  starts_with pat s || match s with [] => false | _ :: s' => contains pat s' end.

(** Signing goes through a second backend that is loaded from the files and thrown away. *)
Definition sign_with (clone : SoftwareHsmBackend) (key_id data : bytes) (alg : USignatureAlgorithm)
    (now : N) : io BackendError CryptoResult := λ s,
  let '(r, _, s') := sign_data clone key_id data alg now s in
  (Signed <$> map_err (λ e, OperationFailed (lit "Signing failed: " ++ e)) r, s').
Definition perform_sign (b : SoftwareHsmBackend) (key_id data : bytes) (alg : USignatureAlgorithm)
    (now : N) : io BackendError CryptoResult :=
  clone ← io_map_err (λ e, OperationFailed (lit "Failed to clone backend: " ++ e)) (with_config (hsm_config b));
  sign_with clone key_id data alg now.

Definition hsm_perform (now : N) (b : SoftwareHsmBackend) (key_id : bytes) (op : CryptoOperation)
    : io BackendError CryptoResult :=
  match op with
  | OpSign data alg => perform_sign b key_id data alg now
  | OpVerify data signature alg =>
      io_read (λ s, VerificationResult <$>
        map_err (λ e, OperationFailed (lit "Verification failed: " ++ e))
          (hsm_verify_signature b key_id data signature alg s))
  | OpGetPublicKey =>
      io_read (λ s, PublicKey <$>
        map_err (λ e, if contains (lit "Key not found") e then KeyNotFound key_id
                      else OperationFailed (lit "Failed to load public key: " ++ e))
          (load_public_key b key_id s))
  | OpGenerateKeyPair _ =>
      io_lift (Err (UnsupportedOperation (lit "Key generation requires mutable backend - use generate_key_pair() method directly")))
  | OpHash data alg =>
      io_lift (HashResult <$>
        map_err (λ e, OperationFailed (lit "Hash operation failed: " ++ e)) (hash_data data alg))
  | _ =>
      io_lift (Err (UnsupportedOperation (lit "Operation not supported by Software HSM: " ++ op_type_name)))
  end.

Definition hsm_supports (op : CryptoOperation) : bool :=
  match op with
  | OpSign _ a | OpVerify _ _ a => match a with USigEd25519 | USigEcdsaP256 => true | _ => false end
  | OpGetPublicKey => true
  | OpGenerateKeyPair a => match a with UEd25519 | UEcdsaP256 => true | _ => false end
  | OpHash _ _ => true
  | _ => false
  end.

Definition hsm_capabilities : BackendCapabilities :=
  mkBackendCapabilities [] [UEd25519; UEcdsaP256] [USigEd25519; USigEcdsaP256]
    [USha256; USha384; USha512] false false true false (Some 256%N).

Definition hsm_universal (now : N) (b : SoftwareHsmBackend) : UniversalBackend :=
  mkUniversalBackend (hsm_perform now b) hsm_supports hsm_capabilities (lit "software_hsm").

(** An entry of [list_keys]: an identifier that is not 16 bytes long becomes zeros. *)
Record KeyMetadata := mkKeyMetadata {
  km_key_id : bytes; (* [u8; 16] *)
  km_description : bytes;
  km_created_at : N;
  km_last_used : option N;
  km_backend_data : bytes;
}.
Definition list_entry (kv : bytes * SoftwareHsmKeyMetadata) : result BackendError KeyMetadata :=
  data ← map_err (λ e, OperationFailed (lit "Failed to serialize key metadata: " ++ e)) (key_to_vec kv.2);
  Ok (mkKeyMetadata (if (length kv.1 =? 16)%nat then kv.1 else replicate 16 (byte_of_N 0))
        (hm_description kv.2) (hm_created_at kv.2) (hm_last_used kv.2) data).
Definition hsm_list_keys (b : SoftwareHsmBackend) : result BackendError (list KeyMetadata) :=
  map_res list_entry (map_to_list (hsm_key_metadata b)).

(** ** The default registry *)

Definition discovery_config : SoftwareHsmConfig :=
  build_config (mkHsmBuilder None (lit "registry-auto-discovery") None).

Definition registry_with_defaults `{OsKeyring} `{Pbkdf2With} (keyring_feature : bool) (now : N)
    : io bytes (list (list ascii * UniversalBackend)) := λ s,
  let r := if keyring_feature then register_backend [] (lit "keyring") (keyring_universal keyring_new)
           else [] in
  match with_config discovery_config s with
  | (Ok b, s') => (Ok (register_backend r (lit "software_hsm") (hsm_universal now b)), s')
  | (Err _, s') => (Ok r, s')
  end.
End Hsm.

(** * The software HSM implements a table of keys

    The abstract store maps identifiers to an algorithm and a secret.  [hsm_rep] says how a
    backend and its files represent it; every operation keeps the relation and returns what
    the abstract store returns. *)

(** ** Paths *)

Lemma split_on_plain c s : c ∉ s → split_on c s = [s].
Proof.
  induction s as [|b s IH]; intros Hc; [done|]. cbn. rewrite not_elem_of_cons in Hc. destruct Hc as [Hb Hc].
  rewrite decide_False, IH by done. done.
Qed.

Lemma path_join_plain (p : path) (n : bytes) :
  "/"%char ∉ n → 2 < length n → path_join p n = p ++ [n].
Proof.
  intros Hs Hl. unfold path_join. rewrite split_on_plain by done.
  assert (starts_with (lit "/") n = false) as ->.
  { destruct (starts_with (lit "/") n) eqn:E; [|done]. apply starts_with_spec in E as [r ->].
    cbn in Hs. set_solver. }
  cbn. unfold push_component. destruct n as [|a [|b [|c n]]]; simpl in Hl; try lia.
  cbn [is_empty orb]. rewrite !bool_decide_false; [done|discriminate..].
Qed.

(** An identifier that names files of the store. *)
Record plain_id (id : bytes) : Prop := {
  pi_slash : "/"%char ∉ id;
  pi_text : utf8_valid (id ++ lit "_private.key") = true ∧ utf8_valid (id ++ lit "_public.key") = true;
}.

Lemma key_paths_plain c id :
  plain_id id →
  private_key_path c id = hc_key_store_path c ++ [id ++ lit "_private.key"]
  ∧ public_key_path c id = hc_key_store_path c ++ [id ++ lit "_public.key"].
Proof.
  intros [Hs _]. unfold private_key_path, public_key_path.
  split; apply path_join_plain; rewrite ?length_app; cbn; try lia; set_solver.
Qed.

(** The files of a store are different files. *)
Lemma name_suffix_ne (a b : bytes) : a ++ lit "_private.key" ≠ b ++ lit "_public.key".
Proof. intros He. apply (f_equal reverse) in He. rewrite !reverse_app in He. discriminate He. Qed.
Lemma private_name_ne_meta a : a ++ lit "_private.key" ≠ lit "metadata.json".
Proof. intros He. apply (f_equal reverse) in He. rewrite reverse_app in He. discriminate He. Qed.
Lemma public_name_ne_meta a : a ++ lit "_public.key" ≠ lit "metadata.json".
Proof. intros He. apply (f_equal reverse) in He. rewrite reverse_app in He. discriminate He. Qed.

(** ** The representation *)

Record AKey := mkAKey {
  ak_algorithm : AsymmetricAlgorithm;
  ak_secret : bytes;
}.

(** A store directory that exists, with its metadata in the default place. *)
Record store_ready (c : SoftwareHsmConfig) (s : fs) : Prop := {
  sr_nonempty : hc_key_store_path c ≠ [];
  sr_dirs q : q ∈ ancestors (hc_key_store_path c) ++ [hc_key_store_path c] → s !! q = Some Dir;
  sr_meta : hc_metadata_file c = hc_key_store_path c ++ [lit "metadata.json"];
  sr_text : Forall (λ x, utf8_valid x = true) (hc_key_store_path c);
}.

Definition forget_usage (m : SoftwareHsmKeyMetadata) : SoftwareHsmKeyMetadata :=
  mkHsmKeyMetadata (hm_key_id m) (hm_algorithm m) (hm_private_key_path m) (hm_public_key_path m)
    (hm_created_at m) None (hm_description m).

Lemma forget_touch now m : forget_usage (touch now m) = forget_usage m.
Proof. done. Qed.

Lemma store_ancestor c s n : store_ready c s → ancestor_error (hc_key_store_path c ++ [n]) s = None.
Proof.
  intros [Hne Hd _ _]. apply ancestor_error_None. intros q Hq. apply Hd. by rewrite <-(ancestors_snoc _ n).
Qed.

Lemma store_ready_insert c s n f :
  store_ready c s → store_ready c (<[hc_key_store_path c ++ [n] := File f]> s).
Proof.
  intros [Hne Hd Hm Ht]. split; try done. intros q Hq. rewrite lookup_insert_ne; [by apply Hd|].
  intros <-. rewrite elem_of_app, list_elem_of_singleton in Hq.
  destruct Hq as [Hq%ancestors_shorter|Hq%(f_equal length)]; rewrite length_app in Hq; simpl in Hq; lia.
Qed.

Lemma mkdirs_existing (l : list path) (s : fs) :
  (∀ q, q ∈ l → s !! q = Some Dir) → io_for_each mkdir l s = (Ok tt, s).
Proof.
  induction l as [|q l IH]; intros Hd; [done|]. cbn [io_for_each]. unfold mbind, io_bind, mkdir at 1.
  rewrite (Hd q) by set_solver. apply IH. set_solver.
Qed.

Section HsmLemmas.
Context `{Ed25519Laws} `{P256} `{P256Keys} `{!P256KeysLaws} `{AeadLaws} `{KdfLaws} `{HsmJson} `{!HsmJsonLaws}
  `{Sha2} `{OperationDebug}.

Definition public_of (k : AKey) : bytes :=
  match ak_algorithm k with UEd25519 => ed_public (ak_secret k) | _ => p256_public (ak_secret k) end.

Record good_key (k : AKey) : Prop := {
  gk_length : length (ak_secret k) = 32;
  gk_algorithm : ak_algorithm k = UEd25519
    ∨ ak_algorithm k = UEcdsaP256 ∧ p256_secret_ok (ak_secret k) = true;
}.

(** The files of one key. *)
Record key_rep (c : SoftwareHsmConfig) (s : fs) (id : bytes) (m : SoftwareHsmKeyMetadata) (k : AKey) : Prop := {
  kr_plain : plain_id id;
  kr_good : good_key k;
  kr_meta : hm_algorithm m = ak_algorithm k ∧ hm_private_key_path m = private_key_path c id
    ∧ hm_public_key_path m = public_key_path c id;
  kr_private : ∃ salt nonce ct, length salt = 32 ∧ length nonce = 12
    ∧ s !! private_key_path c id = Some (File (salt ++ nonce ++ ct))
    ∧ length ct = length (ak_secret k) + 16
    ∧ aead_decrypt Aes256Gcm (pbkdf2 (hc_default_passphrase c) salt PBKDF2_ITERATIONS) nonce [] ct
      = Some (ak_secret k);
  kr_public : s !! public_key_path c id = Some (File (public_of k));
}.

(** The metadata on disk agrees with a table except for when the keys were used. *)
Definition disk_agrees (c : SoftwareHsmConfig) (s : fs) (t : gmap (list ascii) SoftwareHsmKeyMetadata) : Prop :=
  match s !! hc_metadata_file c with
  | Some (File j) => utf8_valid j = true ∧ ∃ t', keys_from_str j = Ok t' ∧ forget_usage <$> t' = forget_usage <$> t
  | Some Dir => False
  | None => t = ∅
  end.

Definition keys_rep (c : SoftwareHsmConfig) (s : fs) (t : gmap (list ascii) SoftwareHsmKeyMetadata)
    (A : gmap (list ascii) AKey) : Prop :=
  ∀ id, match t !! id, A !! id with
        | Some m, Some k => key_rep c s id m k
        | None, None => True
        | _, _ => False
        end.

Record hsm_rep (b : SoftwareHsmBackend) (s : fs) (A : gmap (list ascii) AKey) : Prop := {
  hr_store : store_ready (hsm_config b) s;
  hr_keys : keys_rep (hsm_config b) s (hsm_key_metadata b) A;
  hr_disk : disk_agrees (hsm_config b) s (hsm_key_metadata b);
}.

(** The same backend up to usage. *)
Definition same_table (b b' : SoftwareHsmBackend) : Prop :=
  hsm_config b' = hsm_config b
  ∧ forget_usage <$> hsm_key_metadata b' = forget_usage <$> hsm_key_metadata b.

(** A representation looks at the metadata up to usage. *)
Lemma key_rep_forget c s id m m' k :
  forget_usage m = forget_usage m' → key_rep c s id m k → key_rep c s id m' k.
Proof.
  intros Hf [Hp Hg (Ha & Hpr & Hpu) Hpriv Hpub]. injection Hf as ??????.
  split; [done|done| |done|done]. split_and!; congruence.
Qed.

Lemma keys_rep_forget c s t t' A :
  forget_usage <$> t = forget_usage <$> t' → keys_rep c s t A → keys_rep c s t' A.
Proof.
  intros Hf Ht id. specialize (Ht id). assert (forget_usage <$> t !! id = forget_usage <$> t' !! id) as Hid.
  { by rewrite <-!lookup_fmap, Hf. }
  destruct (t !! id) as [m|], (t' !! id) as [m'|]; cbn in Hid; try done.
  destruct (A !! id); [|done]. eapply key_rep_forget; [|done]. congruence.
Qed.

(** Files that are not those of a key do not matter to it. *)
Lemma key_rep_insert c s id m k p f :
  p ≠ private_key_path c id → p ≠ public_key_path c id →
  key_rep c s id m k → key_rep c (<[p := File f]> s) id m k.
Proof. intros ?? []. split; rewrite ?lookup_insert_ne by done; done. Qed.

Lemma forget_empty (t : gmap (list ascii) SoftwareHsmKeyMetadata) : forget_usage <$> t = ∅ → t = ∅.
Proof. apply fmap_empty_inv. Qed.

Lemma hsm_rep_same b b' s A : same_table b b' → hsm_rep b' s A → hsm_rep b s A.
Proof.
  intros [Hc Hf] [Hs Hk Hd]. rewrite Hc in *. split; [done|by eapply keys_rep_forget|].
  unfold disk_agrees in *. repeat case_match; try done.
  - destruct Hd as (Hv & t' & Hj & Ht'). split; [done|]. exists t'. split; [done|]. congruence.
  - rewrite Hd, fmap_empty in Hf. by apply forget_empty.
Qed.

Lemma keys_rep_meta c s t A f :
  store_ready c s → keys_rep c s t A → keys_rep c (<[hc_metadata_file c := File f]> s) t A.
Proof.
  intros Hs Ht id. specialize (Ht id). repeat case_match; try done.
  pose proof (key_paths_plain c id (kr_plain _ _ _ _ _ Ht)) as [Hpr Hpu].
  rewrite (sr_meta _ _ Hs). apply key_rep_insert; [..|done]; rewrite ?Hpr, ?Hpu;
    intros [_ [= He]]%app_inj_2; try done; symmetry in He;
    [by apply private_name_ne_meta in He|by apply public_name_ne_meta in He].
Qed.

Lemma rep_text b s A : hsm_rep b s A → text_table (hsm_key_metadata b).
Proof.
  intros [Hs Hk _] id m Hm. specialize (Hk id). rewrite Hm in Hk. case_match; [|done].
  destruct Hk as [Hp _ (_ & -> & ->) _ _]. destruct (key_paths_plain (hsm_config b) id Hp) as [-> ->].
  pose proof (sr_text _ _ Hs). destruct Hp as [_ [??]]. rewrite !Forall_app, !Forall_singleton. done.
Qed.

(** ** Saving and loading *)

Lemma save_metadata_rep b s A :
  store_ready (hsm_config b) s → s !! hc_metadata_file (hsm_config b) ≠ Some Dir →
  keys_rep (hsm_config b) s (hsm_key_metadata b) A → text_table (hsm_key_metadata b) →
  ∃ s', save_metadata b s = (Ok tt, s') ∧ hsm_rep b s' A.
Proof.
  intros Hs Hd Hk Ht. destruct (keys_serialize _ Ht) as [j Hj].
  exists (<[hc_metadata_file (hsm_config b) := File j]> s). split.
  - unfold save_metadata, fs_context, mbind, io_bind, io_lift, io_map_err. rewrite Hj. cbn [in_context map_err].
    rewrite create_write_new; [done| |done]. rewrite (sr_meta _ _ Hs). by apply store_ancestor.
  - split.
    + rewrite (sr_meta _ _ Hs). by apply store_ready_insert.
    + by apply keys_rep_meta.
    + unfold disk_agrees. rewrite lookup_insert_eq. destruct (keys_roundtrip _ _ Hj) as [Hr Hv]. eauto.
Qed.

(** A backend loaded from the files represents the same keys. *)
Lemma with_config_rep b s A :
  hsm_rep b s A → ∃ b', with_config (hsm_config b) s = (Ok b', s) ∧ same_table b b' ∧ hsm_rep b' s A.
Proof.
  intros [Hs Hk Hd]. unfold with_config, fs_context, mbind, io_bind, io_map_err, create_dir_all, io_read.
  rewrite (mkdirs_existing _ s (sr_dirs _ _ Hs)). cbn [map_err].
  assert (∃ t, load_metadata (hsm_config b) s = Ok t ∧ forget_usage <$> t = forget_usage <$> hsm_key_metadata b)
    as (t & Hl & Ht).
  { unfold load_metadata, path_exists. unfold disk_agrees in Hd.
    destruct (s !! hc_metadata_file (hsm_config b)) as [[j|]|] eqn:Hf; [|done|].
    - destruct Hd as (Hv & t & Hj & Ht). exists t. split; [|done].
      rewrite (read_file_ok _ _ j) by (by rewrite ?(sr_meta _ _ Hs); first [apply store_ancestor|rewrite <-(sr_meta _ _ Hs)]).
      cbn [in_context map_err mbind result_bind]. by rewrite Hv, Hj.
    - exists ∅. by rewrite Hd. }
  rewrite Hl. exists (mkHsm (hsm_config b) t). split_and!; [done..|].
  apply (hsm_rep_same _ b); [by split|]. by split.
Qed.

(** ** Reading keys *)

Lemma load_private_key_rep b s A id k :
  hsm_rep b s A → A !! id = Some k → load_private_key b id s = Ok (ak_secret k).
Proof.
  intros [Hs Hk _] HA. specialize (Hk id). rewrite HA in Hk. case_match eqn:Hm; [|done].
  destruct Hk as [Hp _ (_ & Hpath & _) (salt & nonce & ct & Hl & Hn & Hf & Hlct & Hd) _].
  unfold load_private_key. rewrite Hm. cbn [ok_or mbind result_bind]. unfold decrypt_private_key.
  rewrite Hpath, (read_file_ok _ _ (salt ++ nonce ++ ct)); [| |done].
  2: { rewrite (proj1 (key_paths_plain _ _ Hp)). by apply store_ancestor. }
  cbn [in_context map_err mbind result_bind]. rewrite (proj2 (Nat.leb_le _ _)).
  2: { rewrite !length_app. unfold SALT_LEN, AES_NONCE_LEN. lia. }
  cbn [ensure mbind result_bind]. rewrite take_app_length' by done. unfold slice.
  rewrite drop_app_length' by done. rewrite take_app_length' by (rewrite Hn; done).
  rewrite app_assoc, drop_app_length' by (rewrite length_app, Hl, Hn; done).
  by rewrite Hd.
Qed.

Lemma load_public_key_rep b s A id k :
  hsm_rep b s A → A !! id = Some k → load_public_key b id s = Ok (public_of k).
Proof.
  intros [Hs Hk _] HA. specialize (Hk id). rewrite HA in Hk. case_match eqn:Hm; [|done].
  destruct Hk as [Hp _ (_ & _ & Hpath) _ Hf].
  unfold load_public_key. rewrite Hm. cbn [ok_or mbind result_bind].
  rewrite Hpath, (read_file_ok _ _ (public_of k)); [done| |done].
  rewrite (proj2 (key_paths_plain _ _ Hp)). by apply store_ancestor.
Qed.

Lemma rep_lookup b s A id k :
  hsm_rep b s A → A !! id = Some k →
  ∃ m, hsm_key_metadata b !! id = Some m ∧ hm_algorithm m = ak_algorithm k ∧ good_key k.
Proof.
  intros [_ Hk _] HA. specialize (Hk id). rewrite HA in Hk. case_match; [|done].
  destruct Hk as [_ Hg (Ha & _) _ _]. eauto.
Qed.
Lemma rep_lookup_None b s A id : hsm_rep b s A → A !! id = None → hsm_key_metadata b !! id = None.
Proof. intros [_ Hk _] HA. specialize (Hk id). rewrite HA in Hk. by case_match. Qed.

(** ** The abstract store *)

(** Signing and verifying with a key; [None] for an algorithm that is not the key's, or a
    signature that does not parse. *)
Definition abs_sign (k : AKey) (data : bytes) (alg : USignatureAlgorithm) : option bytes :=
  match ak_algorithm k, alg with
  | UEd25519, USigEd25519 => Some (ed_sign (ak_secret k) data)
  | UEcdsaP256, USigEcdsaP256 => Some (p256_sign (ak_secret k) data)
  | _, _ => None
  end.
Definition abs_verify (k : AKey) (data sig : bytes) (alg : USignatureAlgorithm) : option bool :=
  match ak_algorithm k, alg with
  | UEd25519, USigEd25519 =>
      if (length sig =? 64)%nat then Some (ed_verify (public_of k) data sig) else None
  | UEcdsaP256, USigEcdsaP256 =>
      if p256_sig_ok sig then Some (p256_verify (public_of k) data sig) else None
  | _, _ => None
  end.

Lemma compute_signature_rep b s A id data alg :
  hsm_rep b s A →
  result_ok (compute_signature b id data alg s) = (k ← A !! id; abs_sign k data alg).
Proof.
  intros Hr. unfold compute_signature. destruct (A !! id) as [k|] eqn:HA.
  - destruct (rep_lookup _ _ _ _ _ Hr HA) as (m & Hm & Ha & [Hl Hg]).
    pose proof (load_private_key_rep _ _ _ _ _ Hr HA) as Hlp. rewrite Hm. cbn [ok_or mbind result_bind option_bind].
    unfold abs_sign. rewrite <-Ha in *. destruct (hm_algorithm m), alg; try done; rewrite Hlp; cbn;
      rewrite Hl; cbn [Nat.eqb]; [done|]. destruct Hg as [?|[_ Hg]]; [done|]. by rewrite Hg.
  - by rewrite (rep_lookup_None _ _ _ _ Hr HA).
Qed.

Lemma verify_signature_rep b s A id data sig alg :
  hsm_rep b s A →
  result_ok (hsm_verify_signature b id data sig alg s) = (k ← A !! id; abs_verify k data sig alg).
Proof.
  intros Hr. unfold hsm_verify_signature. destruct (A !! id) as [k|] eqn:HA.
  - destruct (rep_lookup _ _ _ _ _ Hr HA) as (m & Hm & Ha & [Hl Hg]).
    pose proof (load_public_key_rep _ _ _ _ _ Hr HA) as Hlp. rewrite Hm. cbn [ok_or mbind result_bind option_bind].
    unfold abs_verify. rewrite Ha. destruct (ak_algorithm k) eqn:Hak, alg; try done; rewrite Hlp;
      unfold public_of; rewrite Hak; cbn.
    + rewrite length_ed_public, ed_public_ok. cbn. by destruct (length sig =? 64).
    + destruct Hg as [?|[_ Hg]]; [done|]. destruct (p256_public_ok _ Hg) as [-> ->]. cbn.
      by destruct (p256_sig_ok sig).
  - by rewrite (rep_lookup_None _ _ _ _ Hr HA).
Qed.

(** A signature of a key verifies under it. *)
Lemma abs_sign_verifies k data alg sig :
  good_key k → abs_sign k data alg = Some sig → abs_verify k data sig alg = Some true.
Proof.
  intros [Hl Hg] Hs. unfold abs_sign in Hs. unfold abs_verify, public_of.
  destruct (ak_algorithm k), alg; simplify_eq.
  - by rewrite length_ed_sign, ed_verify_sign.
  - destruct Hg as [?|[_ Hg]]; [done|]. by destruct (p256_verify_sign _ data Hg) as [-> ->].
Qed.

(** ** Recording a use *)

Lemma update_key_usage_rep b s A id now :
  hsm_rep b s A →
  ∃ b' s', update_key_usage b id now s = (Ok tt, b', s') ∧ same_table b b' ∧ hsm_rep b' s' A.
Proof.
  intros Hr. unfold update_key_usage. destruct (hsm_key_metadata b !! id) as [m|] eqn:Hm.
  2: { exists b, s. by split_and!. }
  set (b' := insert_key b id (touch now m)).
  assert (forget_usage <$> hsm_key_metadata b = forget_usage <$> hsm_key_metadata b') as Hf.
  { cbn. rewrite fmap_insert, forget_touch. symmetry. apply insert_id. by rewrite lookup_fmap, Hm. }
  destruct (save_metadata_rep b' s A) as (s' & Hs' & Hr').
  - apply Hr.
  - destruct Hr as [_ _ Hd]. unfold disk_agrees in Hd. cbn. intros Hdir. by rewrite Hdir in Hd.
  - eapply keys_rep_forget; [exact Hf|]. apply Hr.
  - pose proof (rep_text _ _ _ Hr) as Ht. cbn. apply map_Forall_insert_2; [|done]. exact (Ht id m Hm).
  - rewrite Hs'. exists b', s'. by split_and!.
Qed.

(** ** Generation *)

(** What a generation needs of its draws and of the files. *)
Record can_generate (c : SoftwareHsmConfig) (s : fs) (id : bytes) (k : AKey) (d : HsmDraws) : Prop := {
  cg_plain : plain_id id;
  cg_good : good_key k;
  cg_secret : ak_secret k = hd_secret d;
  cg_draws : length (hd_salt d) = 32 ∧ length (hd_nonce d) = 12;
  cg_encrypts : is_Some (aead_encrypt Aes256Gcm
    (pbkdf2 (hc_default_passphrase c) (hd_salt d) PBKDF2_ITERATIONS) (hd_nonce d) [] (hd_secret d));
  cg_files : s !! private_key_path c id ≠ Some Dir ∧ s !! public_key_path c id ≠ Some Dir;
}.

Lemma write_key_pair_run b s id k d :
  store_ready (hsm_config b) s → can_generate (hsm_config b) s id k d →
  ∃ ct, aead_encrypt Aes256Gcm (pbkdf2 (hc_default_passphrase (hsm_config b)) (hd_salt d) PBKDF2_ITERATIONS)
          (hd_nonce d) [] (hd_secret d) = Some ct
    ∧ write_key_pair b id (ak_algorithm k) d s =
      (Ok tt, <[public_key_path (hsm_config b) id := File (public_of k)]>
        (<[private_key_path (hsm_config b) id := File (hd_salt d ++ hd_nonce d ++ ct)]> s)).
Proof.
  intros Hs [Hp [_ Hg] Hsec _ [ct Hct] [Hf1 Hf2]]. exists ct. split; [done|].
  destruct (key_paths_plain (hsm_config b) id Hp) as [Hpr Hpu].
  assert (private_key_path (hsm_config b) id ≠ public_key_path (hsm_config b) id) as Hne.
  { rewrite Hpr, Hpu. intros [_ [= He]]%app_inj_2; [|done]. by apply name_suffix_ne in He. }
  assert (∀ m, encrypt_private_key b (private_key_path (hsm_config b) id) (hd_secret d) (hd_salt d) (hd_nonce d) s = m →
    m = (Ok tt, <[private_key_path (hsm_config b) id := File (hd_salt d ++ hd_nonce d ++ ct)]> s)) as Henc.
  { intros m <-. unfold encrypt_private_key, fs_context, mbind, io_bind, io_lift, io_map_err. rewrite Hct. cbn [ok_or].
    rewrite create_write_new; [done| |done]. rewrite Hpr. by apply store_ancestor. }
  assert (create_write (public_key_path (hsm_config b) id) (public_of k)
    (<[private_key_path (hsm_config b) id := File (hd_salt d ++ hd_nonce d ++ ct)]> s)
    = (Ok tt, <[public_key_path (hsm_config b) id := File (public_of k)]>
        (<[private_key_path (hsm_config b) id := File (hd_salt d ++ hd_nonce d ++ ct)]> s))) as Hpub.
  { apply create_write_new; [|by rewrite lookup_insert_ne]. rewrite Hpu. apply store_ancestor.
    rewrite Hpr. by apply store_ready_insert. }
  unfold write_key_pair, fs_context, mbind, io_bind, io_map_err. unfold public_of in *. rewrite Hsec in *.
  destruct Hg as [Ha|[Ha _]]; rewrite Ha in *; rewrite (Henc _ eq_refl); cbn [map_err]; by rewrite Hpub.
Qed.

Lemma generate_key_pair_rep b s A id k desc d :
  hsm_rep b s A → can_generate (hsm_config b) s id k d →
  ∃ b' s', generate_key_pair b id (ak_algorithm k) desc d s = (Ok tt, b', s')
    ∧ hsm_config b' = hsm_config b ∧ hsm_rep b' s' (<[id := k]> A).
Proof.
  intros Hr Hc. destruct (write_key_pair_run b s id k d (hr_store _ _ _ Hr) Hc) as (ct & Hct & Hw).
  unfold generate_key_pair. rewrite Hw.
  set (m := mkHsmKeyMetadata _ _ _ _ _ _ _). set (b' := insert_key b id m). set (s1 := <[_ := File _]> _).
  destruct Hc as [Hp Hg Hsec [Hls Hln] _ _]. pose proof (key_paths_plain (hsm_config b) id Hp) as [Hpr Hpu].
  assert (private_key_path (hsm_config b) id ≠ public_key_path (hsm_config b) id) as Hne.
  { rewrite Hpr, Hpu. intros [_ [= He]]%app_inj_2; [|done]. by apply name_suffix_ne in He. }
  assert (store_ready (hsm_config b) s1) as Hs1.
  { unfold s1. rewrite Hpr, Hpu. do 2 apply store_ready_insert. apply Hr. }
  destruct (save_metadata_rep b' s1 (<[id := k]> A)) as (s' & Hs' & Hr').
  - done.
  - cbn. unfold s1. rewrite (sr_meta _ _ Hs1), !lookup_insert_ne.
    + destruct Hr as [_ _ Hd]. unfold disk_agrees in Hd. rewrite (sr_meta _ _ Hs1) in Hd.
      intros Hdir. by rewrite Hdir in Hd.
    + rewrite Hpr. intros [_ [= He]]%app_inj_2; [|done]. by apply private_name_ne_meta in He.
    + rewrite Hpu. intros [_ [= He]]%app_inj_2; [|done]. by apply public_name_ne_meta in He.
  - intros id'. cbn. destruct (decide (id' = id)) as [->|Hid].
    + rewrite !lookup_insert_eq. split; [done|done|done| |].
      * exists (hd_salt d), (hd_nonce d), ct. unfold s1. rewrite lookup_insert_ne, lookup_insert_eq by done.
        rewrite Hsec. split_and!; [done..|by eapply length_aead_encrypt|by eapply aead_decrypt_encrypt].
      * unfold s1. by rewrite lookup_insert_eq.
    + rewrite !lookup_insert_ne by done. pose proof (hr_keys _ _ _ Hr id') as Hk. repeat case_match; try done.
      destruct (key_paths_plain (hsm_config b) id' (kr_plain _ _ _ _ _ Hk)) as [Hpr' Hpu'].
      unfold s1. apply key_rep_insert; [..|apply key_rep_insert; [..|done]];
        rewrite ?Hpr, ?Hpu, ?Hpr', ?Hpu'; intros [_ [= He]]%app_inj_2; try done.
      * symmetry in He. by apply name_suffix_ne in He.
      * apply app_inj_2 in He as [? _]; [done|done].
      * apply app_inj_2 in He as [? _]; [done|done].
      * by apply name_suffix_ne in He.
  - cbn. apply map_Forall_insert_2; [|apply (rep_text _ _ _ Hr)]. cbn. rewrite Hpr, Hpu.
    pose proof (sr_text _ _ (hr_store _ _ _ Hr)). destruct Hp as [_ [??]].
    rewrite !Forall_app, !Forall_singleton. done.
  - rewrite Hs'. eauto.
Qed.
End HsmLemmas.
