(* ===== verification/Hybrid.v ===== *)
(** * Asymmetric keys and hybrid encryption

    crates/core/src/asymmetric.rs and hybrid.rs: key pairs and their identifiers, key exchange,
    wrapping of a session key, and envelopes for one recipient.  RSA, the agreement on P-256 and
    bincode are parameters; random bytes are arguments. *)

From S2P Require Import Prelude External Format Backends Hsm.

(** ** Parameters *)

(** rsa: generated keys as PKCS#8 documents, and OAEP with SHA-256 *)
Class Rsa := {
  rsa_generate (bits : N) (random : bytes) : option (bytes * bytes); (* private, public *)
  rsa_public_ok : bytes → bool;
  rsa_private_ok : bytes → bool;
  rsa_encrypt (public random msg : bytes) : option bytes;
  rsa_decrypt (private ct : bytes) : option bytes;
  rsa_key_error : bytes → bytes;
  rsa_encrypt_error : bytes → bytes;
  rsa_decrypt_error : bytes → bytes → bytes;
}.
(** For the two sizes in use: a generated pair can be read, and its public key encrypts a message
    that is short enough for 2048 bits (190 bytes of the 256, less two hashes and two bytes) to
    what its private key decrypts. *)
Class RsaLaws `{Rsa} : Prop := {
  rsa_pair bits random sk pk : (bits = 2048 ∨ bits = 4096)%N → rsa_generate bits random = Some (sk, pk) →
    rsa_public_ok pk = true ∧ rsa_private_ok sk = true;
  rsa_decrypt_encrypt bits random sk pk r msg : (bits = 2048 ∨ bits = 4096)%N →
    rsa_generate bits random = Some (sk, pk) → length msg ≤ 190 → ∃ ct, rsa_encrypt pk r msg = Some ct ∧ rsa_decrypt sk ct = Some msg;
}.

(** p256::ecdh; the texts of the errors for keys that are not *)
Class P256Ecdh := {
  p256_dh (secret public : bytes) : bytes;
  p256_secret_error : bytes → bytes;
  p256_encoded_error : bytes → bytes;
  p256_on_curve : bytes → bool; (* PublicKey::from_encoded_point *)
}.
Class P256EcdhLaws `{P256Keys} `{P256Ecdh} : Prop := {
  p256_dh_comm a b : p256_secret_ok a = true → p256_secret_ok b = true →
    p256_dh a (p256_public b) = p256_dh b (p256_public a);
  p256_public_encoded sk : p256_secret_ok sk = true →
    p256_point_ok (p256_public sk) = true ∧ p256_on_curve (p256_public sk) = true;
}.

(** ** Keys *)

Inductive AsymmetricError :=
  | UnsupportedAlgorithm (a : AsymmetricAlgorithm)
  | AsymInvalidKeyFormat (msg : bytes)
  | KeyExchangeFailed (msg : bytes)
  | AsymBackendError (msg : bytes).

Definition asymmetric_error_text (e : AsymmetricError) : bytes :=
  match e with
  | UnsupportedAlgorithm a => lit "Unsupported algorithm: " ++ asymmetric_debug a
  | AsymInvalidKeyFormat m => lit "Invalid key format: " ++ m
  | KeyExchangeFailed m => lit "Key exchange failed: " ++ m
  | AsymBackendError m => lit "Backend error: " ++ m
  end.

Record PublicKey := mkPublicKey {
  pk_algorithm : AsymmetricAlgorithm;
  pk_bytes : bytes;
  pk_key_id : option bytes;
}.
Record PrivateKey := mkPrivateKey {
  sk_algorithm : AsymmetricAlgorithm;
  sk_bytes : bytes;
  sk_key_id : option bytes;
}.
Record KeyPair := mkKeyPair {
  kp_public : PublicKey;
  kp_private : PrivateKey;
}.

Section Asymmetric.
Context `{Blake3} `{Hex} `{Ed25519} `{Rsa} `{P256Keys} `{P256Ecdh} `{Bincode PublicKey}.

Definition PublicKey_new (a : AsymmetricAlgorithm) (b : bytes) : PublicKey := mkPublicKey a b None.
Definition PublicKey_with_id (a : AsymmetricAlgorithm) (b id : bytes) : PublicKey := mkPublicKey a b (Some id).
Definition PrivateKey_new (a : AsymmetricAlgorithm) (b : bytes) : PrivateKey := mkPrivateKey a b None.
Definition PrivateKey_with_id (a : AsymmetricAlgorithm) (b id : bytes) : PrivateKey := mkPrivateKey a b (Some id).

Definition id_of_bytes (b : bytes) : bytes := hex_encode (take 16 (blake3 b)).
Definition public_id (k : PublicKey) : bytes := default (id_of_bytes (pk_bytes k)) (pk_key_id k).
Definition private_id (k : PrivateKey) : bytes := default (id_of_bytes (sk_bytes k)) (sk_key_id k).

Definition public_to_bytes (k : PublicKey) : result bytes bytes :=
  in_context "Failed to serialize public key" (serialize k).
Definition public_from_bytes (b : bytes) : result bytes PublicKey :=
  in_context "Failed to deserialize public key" (deserialize b).

(** [random] is the secret that is drawn. *)
Definition generate_ed25519 (random : bytes) : KeyPair :=
  mkKeyPair (PublicKey_new UEd25519 (ed_public random)) (PrivateKey_new UEd25519 random).
Definition generate_ecdsa_p256 (random : bytes) : KeyPair :=
  mkKeyPair (PublicKey_new UEcdsaP256 (p256_public random)) (PrivateKey_new UEcdsaP256 random).
Definition generate_rsa (bits : N) (random : bytes) : result bytes KeyPair :=
  '(private_der, public_der) ← ok_or (rsa_generate bits random) (lit "Failed to generate RSA private key");
  algorithm ← (if (bits =? 2048)%N then Ok URsa2048
               else if (bits =? 4096)%N then Ok URsa4096
               else Err (lit "Unsupported RSA key size: " ++ fmt_N bits));
  Ok (mkKeyPair (PublicKey_new algorithm public_der) (PrivateKey_new algorithm private_der)).

Definition KeyPair_generate (algorithm : AsymmetricAlgorithm) (random : bytes) : result bytes KeyPair :=
  match algorithm with
  | UEd25519 => Ok (generate_ed25519 random)
  | UEcdsaP256 => Ok (generate_ecdsa_p256 random)
  | URsa2048 => generate_rsa 2048 random
  | URsa4096 => generate_rsa 4096 random
  end.

(** ** Key exchange *)

Definition ecdh_p256 (private_key : PrivateKey) (public_key : PublicKey) : result AsymmetricError bytes :=
  ensure (p256_secret_ok (sk_bytes private_key))
    (AsymInvalidKeyFormat (lit "Invalid private key: " ++ p256_secret_error (sk_bytes private_key))) ≫= λ _,
  ensure (p256_point_ok (pk_bytes public_key))
    (AsymInvalidKeyFormat (lit "Invalid public key: " ++ p256_encoded_error (pk_bytes public_key))) ≫= λ _,
  ensure (p256_on_curve (pk_bytes public_key)) (AsymInvalidKeyFormat (lit "Invalid public key point")) ≫= λ _,
  Ok (p256_dh (sk_bytes private_key) (pk_bytes public_key)).

Definition key_exchange (my_private_key : PrivateKey) (peer_public_key : PublicKey)
    : result AsymmetricError bytes :=
  match sk_algorithm my_private_key, pk_algorithm peer_public_key with
  | UEcdsaP256, UEcdsaP256 => ecdh_p256 my_private_key peer_public_key
  | a, _ => Err (UnsupportedAlgorithm a)
  end.

(** ** Session keys *)

Definition rsa_encrypt_key (random session_key : bytes) (k : PublicKey) : result AsymmetricError bytes :=
  ensure (rsa_public_ok (pk_bytes k))
    (AsymInvalidKeyFormat (lit "Invalid RSA public key: " ++ rsa_key_error (pk_bytes k))) ≫= λ _,
  ok_or (rsa_encrypt (pk_bytes k) random session_key)
    (KeyExchangeFailed (lit "RSA encryption failed: " ++ rsa_encrypt_error (pk_bytes k))).

Definition rsa_decrypt_key (encrypted_key : bytes) (k : PrivateKey) : result AsymmetricError bytes :=
  ensure (rsa_private_ok (sk_bytes k))
    (AsymInvalidKeyFormat (lit "Invalid RSA private key: " ++ rsa_key_error (sk_bytes k))) ≫= λ _,
  decrypted ← ok_or (rsa_decrypt (sk_bytes k) encrypted_key)
    (KeyExchangeFailed (lit "RSA decryption failed: " ++ rsa_decrypt_error (sk_bytes k) encrypted_key));
  ensure (length decrypted =? 32)%nat
    (KeyExchangeFailed (lit "Invalid session key length: expected 32, got " ++ fmt_nat (length decrypted))) ≫= λ _,
  Ok decrypted.

Definition encrypt_key_asymmetric (random session_key : bytes) (k : PublicKey) : result AsymmetricError bytes :=
  match pk_algorithm k with
  | URsa2048 | URsa4096 => rsa_encrypt_key random session_key k
  | a => Err (UnsupportedAlgorithm a)
  end.
Definition decrypt_key_asymmetric (encrypted_key : bytes) (k : PrivateKey) : result AsymmetricError bytes :=
  match sk_algorithm k with
  | URsa2048 | URsa4096 => rsa_decrypt_key encrypted_key k
  | a => Err (UnsupportedAlgorithm a)
  end.
End Asymmetric.

(** ** Envelopes *)

Inductive HybridEncryptionError :=
  | EncryptionFailed (msg : bytes)
  | DecryptionFailed (msg : bytes)
  | InvalidEnvelope (msg : bytes)
  | HyAsymmetricError (e : AsymmetricError)
  | SerializationError (msg : bytes)
  | HyInternalError (msg : bytes).

Definition hybrid_error_text (e : HybridEncryptionError) : bytes :=
  match e with
  | EncryptionFailed m => lit "Encryption failed: " ++ m
  | DecryptionFailed m => lit "Decryption failed: " ++ m
  | InvalidEnvelope m => lit "Invalid envelope format: " ++ m
  | HyAsymmetricError e => lit "Asymmetric operation failed: " ++ asymmetric_error_text e
  | SerializationError m => lit "Serialization failed: " ++ m
  | HyInternalError m => lit "Internal error: " ++ m
  end.

Record HybridEnvelope := mkHybridEnvelope {
  hy_magic : bytes; (* [u8; 4] *)
  hy_version : N; (* u8 *)
  hy_recipient_key_id : bytes;
  hy_encrypted_session_key : bytes;
  hy_encrypted_payload : bytes;
  hy_nonce : bytes; (* [u8; 12] *)
  hy_algorithm : N; (* u8 *)
}.

Definition HYBRID_MAGIC : bytes := lit "TRHY".
Definition HYBRID_VERSION : N := 1.

(** The random bytes of one envelope: session key, nonce, padding *)
Record HybridDraws := mkHybridDraws {
  hyd_session_key : bytes; (* [u8; 32] *)
  hyd_nonce : bytes; (* [u8; 12] *)
  hyd_padding : bytes;
}.

Section Hybrid.
Context `{Blake3} `{Hex} `{Rsa} `{Aead} `{Bincode HybridEnvelope}.

Definition encrypt_symmetric (nonce data key : bytes) : result HybridEncryptionError bytes :=
  ok_or (aead_encrypt Aes256Gcm key nonce [] data)
    (EncryptionFailed (lit "AES-GCM encryption failed: " ++ aead_error)).
Definition decrypt_symmetric (ciphertext nonce key : bytes) : result HybridEncryptionError bytes :=
  ok_or (aead_decrypt Aes256Gcm key nonce [] ciphertext)
    (DecryptionFailed (lit "AES-GCM decryption failed: " ++ aead_error)).

Definition assemble_envelope (recipient_key_id encrypted_session_key encrypted_payload nonce : bytes)
    : result HybridEncryptionError bytes :=
  map_err SerializationError (serialize (mkHybridEnvelope HYBRID_MAGIC HYBRID_VERSION recipient_key_id
    encrypted_session_key encrypted_payload nonce (aead_u8 AeadAes256Gcm))).

Definition parse_envelope (envelope_bytes : bytes) : result HybridEncryptionError HybridEnvelope :=
  envelope ← map_err (λ e, InvalidEnvelope (lit "Deserialization failed: " ++ e)) (deserialize envelope_bytes);
  ensure (bool_decide (hy_magic envelope = HYBRID_MAGIC)) (InvalidEnvelope (lit "Invalid magic number")) ≫= λ _,
  ensure (hy_version envelope =? HYBRID_VERSION)%N
    (InvalidEnvelope (lit "Unsupported version: " ++ fmt_N (hy_version envelope))) ≫= λ _,
  Ok envelope.

Definition seal_for_recipient (d : HybridDraws) (data : bytes) (recipient : PublicKey)
    : result HybridEncryptionError bytes :=
  ciphertext ← encrypt_symmetric (hyd_nonce d) data (hyd_session_key d);
  encrypted_session_key ←
    map_err (λ e, EncryptionFailed (lit "Key encryption failed: " ++ asymmetric_error_text e))
      (encrypt_key_asymmetric (hyd_padding d) (hyd_session_key d) recipient);
  assemble_envelope (public_id recipient) encrypted_session_key ciphertext (hyd_nonce d).

Definition open_envelope (envelope : bytes) (my_private_key : PrivateKey)
    : result HybridEncryptionError bytes :=
  parsed ← parse_envelope envelope;
  session_key ←
    map_err (λ e, DecryptionFailed (lit "Key decryption failed: " ++ asymmetric_error_text e))
      (decrypt_key_asymmetric (hy_encrypted_session_key parsed) my_private_key);
  decrypt_symmetric (hy_encrypted_payload parsed) (hy_nonce parsed) session_key.
End Hybrid.
