(* ===== verification/Envelope.v ===== *)
(** * Envelopes

    crates/core/src/envelope.rs, with [NetworkChunk] of crates/core/src/lib.rs: a payload is
    cut into 64 KiB chunks, each encrypted under one key derived by X25519 and HKDF with a
    counter nonce, each with a signed manifest.  The clock and the random salt are
    arguments. *)

From S2P Require Import Prelude External Format.

(** ** Key agreement between Ed25519 keys

    [to_scalar] is [SigningKey::to_scalar_bytes], [to_montgomery] the X25519 form of a
    [VerifyingKey]; [diffie_hellman] is x25519-dalek's. *)

Class KeyAgreement := {
  to_scalar : bytes → bytes;
  to_montgomery : bytes → bytes;
  diffie_hellman : bytes → bytes → bytes;
}.
Class KeyAgreementLaws `{Ed25519} `{KeyAgreement} : Prop := {
  length_diffie_hellman a b : length (diffie_hellman a b) = 32;
  diffie_hellman_comm a b :
    diffie_hellman (to_scalar a) (to_montgomery (ed_public b)) =
    diffie_hellman (to_scalar b) (to_montgomery (ed_public a));
}.

(** [Hkdf::<Sha256>::new(Some(salt), ikm).expand(info, &mut [0; n])]: fails when [n] is more
    than 255 blocks of 32 bytes. *)
Class HkdfExpand := hkdf_expand (salt ikm info : bytes) (n : nat) : option bytes.
Class HkdfExpandLaws `{HkdfExpand} : Prop :=
  hkdf_expand_some salt ikm info n : (n ≤ 255 * 32) →
    ∃ okm, hkdf_expand salt ikm info n = Some okm ∧ length okm = n.

(** ** Data *)

Record NetworkChunk := mkNetworkChunk {
  nc_sequence : N; (* u64 *)
  nc_data : bytes;
  nc_manifest : bytes;
  nc_nonce : bytes; (* [u8; NONCE_LEN] *)
  nc_timestamp : N; (* u64 *)
}.

(** [NetworkChunk::new]; [now] is the clock, which counts as zero before the epoch. *)
Definition chunk_new (seq : N) (encrypted_data manifest_bytes nonce : bytes) (now : option N)
    : NetworkChunk :=
  mkNetworkChunk seq encrypted_data manifest_bytes nonce (default 0%N now).

Definition chunk_validate (now : option N) (c : NetworkChunk) : result bytes unit :=
  ensure (negb (is_empty (nc_data c))) (lit "Chunk data is empty") ≫= λ _,
  ensure (negb (is_empty (nc_manifest c))) (lit "Manifest is empty") ≫= λ _,
  now ← ok_or now (lit "Time error: second time provided was later than self");
  ensure (negb (wrapping_add64 now 300 <? nc_timestamp c)%N)
    (lit "Chunk timestamp is too far in the future").

Record ChunkManifest := mkChunkManifest {
  cm_sequence : N; (* u64 *)
  cm_chunk_size : N; (* u32 *)
  cm_timestamp : N; (* u64 *)
  cm_format_hint : bytes;
  cm_key_derivation_salt : bytes; (* [u8; 32] *)
  cm_pbkdf2_iterations : N; (* u32 *)
}.

Record EnvelopeMetadata := mkEnvelopeMetadata {
  em_created_at : N; (* u64 *)
  em_payload_size : N; (* u64 *)
  em_chunk_count : N; (* u32 *)
  em_aead_algorithm : N; (* u8 *)
  em_signature_algorithm : N; (* u8 *)
  em_hash_algorithm : N; (* u8 *)
}.

Record Envelope := mkEnvelope {
  env_version : N; (* u8 *)
  env_hkdf_salt : bytes; (* [u8; 32] *)
  env_chunks : list NetworkChunk;
  env_verifying_key : bytes; (* [u8; 32] *)
  env_beneficiary_key : bytes; (* [u8; 32] *)
  env_metadata : EnvelopeMetadata;
}.

Definition DEFAULT_CHUNK_SIZE : N := 64 * 1024.
Definition MAX_CHUNK_INDEX : N := 16777215.
Definition ENVELOPE_VERSION_V2 : N := 2.

(** [payload.chunks(size)], with the length of the payload as fuel. *)
Fixpoint slice_chunks_go (fuel size : nat) (l : bytes) : list bytes :=
  match fuel, l with
  | _, [] => []
  | 0, _ => []
  | S f, _ => take size l :: slice_chunks_go f size (drop size l)
  end.
Definition slice_chunks (size : nat) (l : bytes) : list bytes := slice_chunks_go (length l) size l.

(** [a.div_ceil(b)] *)
Definition div_ceil (a b : N) : N := ((a + b - 1) / b)%N.

(** What [seal] reads from its environment. *)
Record SealEnv := mkSealEnv {
  se_now : option N; (* seconds since the epoch; [None] before it *)
  se_salt : bytes; (* 32 random bytes *)
  se_chunk_clock : nat → option N; (* the clock when chunk [i] is built *)
}.

Section Envelope.
Context `{Blake3} `{Ed25519} `{Aead} `{KeyAgreement} `{HkdfExpand}
  `{Bincode ChunkManifest} `{Bincode SignedManifest} `{Bincode Envelope}.

(** [bytes.iter().all(|&b| b == 0)] *)
Definition all_zero (b : bytes) : bool := forallb (λ c, bool_decide (c = byte_of_N 0)) b.

Definition derive_shared_encryption_key (my_private_key their_public_key salt : bytes)
    : result bytes (bytes * bytes) :=
  let shared_secret := diffie_hellman (to_scalar my_private_key) (to_montgomery their_public_key) in
  ensure (negb (all_zero shared_secret)) (lit "ECDH produced zero shared secret") ≫= λ _,
  okm ← ok_or (hkdf_expand salt shared_secret (lit "SEALEDGE_ENVELOPE_V1") 40)
    (lit "HKDF expand failed");
  Ok (slice 0 32 okm, slice 32 40 okm).

(** The nonce: the prefix, the low three bytes of the index, the last-chunk flag. *)
Definition chunk_nonce (nonce_prefix : bytes) (sequence : N) (is_last_chunk : bool) : bytes :=
  nonce_prefix ++ slice 1 4 (be_bytes 4 (as_u32 sequence))
  ++ [byte_of_N (if is_last_chunk then 255 else 0)].

Definition chunk_index_error : bytes :=
  lit "Chunk index exceeds maximum (16,777,215) — envelope too large for current nonce format".

Definition create_encrypted_chunk (sequence : N) (chunk_data signing_key encryption_key nonce_prefix : bytes)
    (is_last_chunk : bool) (metadata : EnvelopeMetadata) (now : option N)
    : result bytes NetworkChunk :=
  ensure (negb (MAX_CHUNK_INDEX <? sequence)%N) chunk_index_error ≫= λ _,
  let nonce := chunk_nonce nonce_prefix sequence is_last_chunk in
  let chunk_len := as_u32 (N.of_nat (length chunk_data)) in
  let manifest := mkChunkManifest sequence chunk_len (em_created_at metadata)
    (lit "application/octet-stream") (replicate 32 (byte_of_N 0)) 0 in
  manifest_bytes ← in_context "Failed to serialize manifest" (serialize manifest);
  let manifest_hash := blake3 manifest_bytes in
  let signed_manifest := mkSignedManifest manifest_bytes (ed_sign signing_key manifest_hash)
    (ed_public signing_key) in
  let aad := build_aad (blake3 (lit "ENVELOPE_V1")) sequence nonce manifest_hash chunk_len in
  ensure (length encryption_key =? 32)%nat (lit "Failed to create cipher") ≫= λ _,
  ciphertext ← ok_or (aead_encrypt Aes256Gcm encryption_key nonce aad chunk_data)
    (lit "Encryption failed: Error");
  signed_manifest_bytes ← in_context "Failed to serialize signed manifest" (serialize signed_manifest);
  Ok (chunk_new sequence ciphertext signed_manifest_bytes nonce now).

Definition seal (env : SealEnv) (payload signing_key beneficiary_key : bytes) : result bytes Envelope :=
  timestamp ← ok_or (se_now env) (lit "Failed to get current timestamp");
  let payload_len := N.of_nat (length payload) in
  let metadata := mkEnvelopeMetadata timestamp payload_len
    (as_u32 (div_ceil payload_len DEFAULT_CHUNK_SIZE))
    (aead_u8 AeadAes256Gcm) (sig_u8 SigEd25519) (hash_u8 HashBlake3) in
  '(encryption_key, nonce_prefix) ←
    derive_shared_encryption_key signing_key beneficiary_key (se_salt env);
  let pieces := slice_chunks (N.to_nat DEFAULT_CHUNK_SIZE) payload in
  let total_chunks := length pieces in
  chunks ← map_res (λ '(i, chunk_data),
      create_encrypted_chunk (N.of_nat i) chunk_data signing_key encryption_key nonce_prefix
        (i =? total_chunks - 1)%nat metadata (se_chunk_clock env i))
    (enumerate pieces);
  Ok (mkEnvelope ENVELOPE_VERSION_V2 (se_salt env) chunks (ed_public signing_key) beneficiary_key
        metadata).

Definition verify_chunk_signature (verifying_key : bytes) (chunk : NetworkChunk) : bool :=
  match deserialize (A:=SignedManifest) (nc_manifest chunk) with
  | Err _ => false
  | Ok signed_manifest =>
      (length (sm_sig signed_manifest) =? 64)%nat && ed_key_ok verifying_key
      && ed_verify verifying_key (blake3 (sm_manifest signed_manifest)) (sm_sig signed_manifest)
  end.

Definition verify_chunk_sequence (e : Envelope) : bool :=
  let chunk_count := em_chunk_count (env_metadata e) in
  if negb (N.of_nat (length (env_chunks e)) =? chunk_count)%N then false
  else
    let sequences := sort_by_key id (nc_sequence <$> env_chunks e) in
    forallb (λ '(expected, actual), (expected =? actual)%N)
      (zip (N.of_nat <$> seq 0 (N.to_nat chunk_count)) sequences).

Definition verify (e : Envelope) : bool :=
  bool_decide (env_version e = ENVELOPE_VERSION_V2)
  && forallb (verify_chunk_signature (env_verifying_key e)) (env_chunks e)
  && verify_chunk_sequence e.

Definition decrypt_chunk_v2 (chunk : NetworkChunk) (encryption_key nonce_prefix : bytes)
    (is_last_chunk : bool) : result bytes bytes :=
  signed_manifest ← in_context "Failed to deserialize signed manifest"
    (deserialize (A:=SignedManifest) (nc_manifest chunk));
  manifest ← in_context "Failed to deserialize chunk manifest"
    (deserialize (A:=ChunkManifest) (sm_manifest signed_manifest));
  ensure (negb (MAX_CHUNK_INDEX <? cm_sequence manifest)%N) chunk_index_error ≫= λ _,
  let nonce := chunk_nonce nonce_prefix (cm_sequence manifest) is_last_chunk in
  let aad := build_aad (blake3 (lit "ENVELOPE_V1")) (cm_sequence manifest) nonce
    (blake3 (sm_manifest signed_manifest)) (cm_chunk_size manifest) in
  ensure (length encryption_key =? 32)%nat (lit "Failed to create cipher for v2 decryption") ≫= λ _,
  ok_or (aead_decrypt Aes256Gcm encryption_key nonce aad (nc_data chunk))
    (lit "V2 decryption failed: Error").

Definition unseal (e : Envelope) (decryption_key : bytes) : result bytes bytes :=
  ensure (bool_decide (env_version e = ENVELOPE_VERSION_V2))
    (lit "Unsupported envelope version " ++ fmt_N (env_version e)
      ++ lit ": this build understands only v2") ≫= λ _,
  ensure (verify e) (lit "Envelope verification failed") ≫= λ _,
  let sorted_chunks := sort_by_key nc_sequence (env_chunks e) in
  let total_chunks := length sorted_chunks in
  ensure (ed_key_ok (env_verifying_key e)) (lit "Invalid sender public key in envelope") ≫= λ _,
  '(encryption_key, nonce_prefix) ←
    derive_shared_encryption_key decryption_key (env_verifying_key e) (env_hkdf_salt e);
  decrypted ← map_res (λ '(i, chunk),
      decrypt_chunk_v2 chunk encryption_key nonce_prefix (i =? total_chunks - 1)%nat)
    (enumerate sorted_chunks);
  let payload := concat decrypted in
  let size := em_payload_size (env_metadata e) in
  ensure (N.of_nat (length payload) =? size)%N
    (lit "Payload size mismatch: expected " ++ fmt_N size ++ lit ", got "
      ++ fmt_nat (length payload)) ≫= λ _,
  Ok payload.

(** [Envelope::hash] *)
Definition env_hash (e : Envelope) : result bytes bytes :=
  envelope_bytes ← map_err (λ err, lit "Failed to serialize envelope for hashing: " ++ err)
    (serialize e);
  Ok (blake3 envelope_bytes).

Definition beneficiary (e : Envelope) : result bytes bytes :=
  ensure (ed_key_ok (env_beneficiary_key e))
    (lit "Invalid beneficiary key bytes: " ++ ed_key_error (env_beneficiary_key e)) ≫= λ _,
  Ok (env_beneficiary_key e).

Definition issuer (e : Envelope) : result bytes bytes :=
  ensure (ed_key_ok (env_verifying_key e))
    (lit "Invalid issuer key bytes: " ++ ed_key_error (env_verifying_key e)) ≫= λ _,
  Ok (env_verifying_key e).
End Envelope.

(** * Envelopes: lemmas

    Cutting a payload, the nonces of an envelope, what a chunk that [seal] built contains,
    and what [verify] and [unseal] make of chunks selected from a sealed envelope. *)

(** ** Cutting *)

Lemma slice_chunks_go_concat fuel size l :
  0 < size → length l ≤ fuel → concat (slice_chunks_go fuel size l) = l.
Proof.
  intros Hs. revert l. induction fuel as [|f IH]; intros [|x l] Hf; cbn in *; try done; [lia|].
  rewrite IH; [|rewrite length_drop; cbn; lia]. apply take_drop.
Qed.

Lemma slice_chunks_go_length fuel size l :
  0 < size → length l ≤ fuel →
  N.of_nat (length (slice_chunks_go fuel size l)) = div_ceil (N.of_nat (length l)) (N.of_nat size).
Proof.
  intros Hs. revert l. unfold div_ceil. induction fuel as [|f IH]; intros [|x l] Hf.
  - cbn. symmetry. apply N.div_small. lia.
  - cbn in Hf. lia.
  - cbn. symmetry. apply N.div_small. lia.
  - cbn [slice_chunks_go length]. rewrite Nat2N.inj_succ, IH, length_drop by (rewrite length_drop; cbn in *; lia).
    destruct (decide (length (x :: l) ≤ size)) as [Hle|Hgt].
    + replace (length (x :: l) - size) with 0 by lia.
      rewrite (N.div_small (N.of_nat 0 + _ - _)) by lia.
      apply (N.div_unique _ _ _ (N.of_nat (length l))); cbn [length] in *; lia.
    + cbn [length] in *.
      replace (N.of_nat (S (length l)) + N.of_nat size - 1)%N
        with (N.of_nat (S (length l) - size) + N.of_nat size - 1 + 1 * N.of_nat size)%N by lia.
      rewrite N.div_add by lia. lia.
Qed.

Lemma slice_chunks_concat size l : 0 < size → concat (slice_chunks size l) = l.
Proof. intros. by apply slice_chunks_go_concat. Qed.
Lemma slice_chunks_length size l :
  0 < size → N.of_nat (length (slice_chunks size l)) = div_ceil (N.of_nat (length l)) (N.of_nat size).
Proof. intros. by apply slice_chunks_go_length. Qed.

Lemma slice_chunks_piece size l p : p ∈ slice_chunks size l → length p ≤ size.
Proof.
  unfold slice_chunks. generalize (length l) as fuel. intros fuel. revert l.
  induction fuel as [|f IH]; intros [|x l]; cbn; try (by intros ?%not_elem_of_nil).
  rewrite elem_of_cons. intros [->|Hp]; [|by eapply IH]. rewrite length_take. lia.
Qed.

Lemma chunk_size_pos : 0 < N.to_nat DEFAULT_CHUNK_SIZE.
Proof. unfold DEFAULT_CHUNK_SIZE. lia. Qed.
#[export] Hint Resolve chunk_size_pos : sealedge.

(** ** Nonces *)

Lemma chunk_nonce_inj prefix i j b b' :
  (i ≤ MAX_CHUNK_INDEX)%N → (j ≤ MAX_CHUNK_INDEX)%N →
  chunk_nonce prefix i b = chunk_nonce prefix j b' → i = j ∧ b = b'.
Proof.
  unfold MAX_CHUNK_INDEX, chunk_nonce. intros Hi Hj Heq. apply app_inv_head in Heq.
  assert (∀ k, slice 1 4 (be_bytes 4 k) = be_bytes 3 k) as Hs by done.
  rewrite !Hs in Heq. apply app_inj_1 in Heq as [Hk Hb]; [|by rewrite !length_be_bytes].
  unfold as_u32 in Hk. rewrite !N.mod_small in Hk by lia.
  apply be_bytes_inj in Hk; [|cbn; lia..]. split; [done|]. by destruct b, b'.
Qed.

(** ** Sorted labels *)

Lemma sort_seq_id n k :
  sort_by_key id (N.of_nat <$> seq k n) = N.of_nat <$> seq k n.
Proof.
  apply sort_by_key_id. revert k. induction n as [|n IH]; intros k; cbn; constructor; [apply IH|].
  apply Forall_fmap, Forall_seq. intros j ?. cbn. lia.
Qed.

Lemma StronglySorted_fmap_key {A} (key : A → N) l :
  StronglySorted (λ x y : N, (x ≤ y)%N) (key <$> l) → StronglySorted (key_le key) l.
Proof.
  induction l as [|x l IH]; cbn; [constructor|]. inversion_clear 1 as [|? ? Hs Hf].
  constructor; [by apply IH|]. apply (Forall_fmap key) in Hf. exact Hf.
Qed.

(** Chunks labelled 0, 1, ... are in order. *)
Lemma sort_labelled (cs : list NetworkChunk) :
  nc_sequence <$> cs = N.of_nat <$> seq 0 (length cs) → sort_by_key nc_sequence cs = cs.
Proof.
  intros Hl. apply sort_by_key_id, StronglySorted_fmap_key. rewrite Hl.
  rewrite <-(sort_seq_id (length cs) 0). apply (sort_by_key_sorted id).
Qed.

Lemma forallb_zip_eq (l : list N) : forallb (λ '(x, y), (x =? y)%N) (zip l l) = true.
Proof. induction l as [|x l IH]; [done|]. cbn. by rewrite N.eqb_refl. Qed.

Lemma verify_chunk_sequence_labelled e :
  nc_sequence <$> env_chunks e = N.of_nat <$> seq 0 (length (env_chunks e)) →
  N.of_nat (length (env_chunks e)) = em_chunk_count (env_metadata e) →
  verify_chunk_sequence e = true.
Proof.
  intros Hl Hc. unfold verify_chunk_sequence. rewrite <-Hc, N.eqb_refl, Nat2N.id, Hl, sort_seq_id.
  apply forallb_zip_eq.
Qed.

Section Envelope.
Context `{Blake3} `{Ed25519Laws} `{AeadLaws} `{!KeyAgreement} `{!KeyAgreementLaws} `{HkdfExpandLaws}
  `{BincodeLaws ChunkManifest} `{BincodeLaws SignedManifest} `{Bincode Envelope}.

(** ** Keys *)

Lemma derive_symmetric a b salt :
  derive_shared_encryption_key a (ed_public b) salt = derive_shared_encryption_key b (ed_public a) salt.
Proof. unfold derive_shared_encryption_key. by rewrite diffie_hellman_comm. Qed.

Lemma derive_length a p salt key prefix :
  derive_shared_encryption_key a p salt = Ok (key, prefix) → length key = 32 ∧ length prefix = 8.
Proof.
  unfold derive_shared_encryption_key. intros Hd. inv_ok.
  match goal with E : (_, _) = _ |- _ => injection E as <- <- end.
  match goal with E : hkdf_expand ?s ?i ?x 40 = Some _ |- _ =>
    destruct (hkdf_expand_some s i x 40) as (okm & Ho & Hl); [lia|];
    rewrite Ho in E; injection E as <- end.
  unfold slice. rewrite !length_take, !length_drop, Hl. done.
Qed.

(** ** One chunk *)

(** [c] carries [data] as chunk [i] under the key: signed by [sk], decrypted only from its
    manifest and its ciphertext. *)
Record carries (sk key prefix : bytes) (i : N) (last : bool) (data : bytes) (c : NetworkChunk) : Prop := {
  carries_signed : verify_chunk_signature (ed_public sk) c = true;
  carries_decrypts : decrypt_chunk_v2 c key prefix last = Ok data;
  carries_nonce : nc_nonce c = chunk_nonce prefix i last;
  carries_sequence : nc_sequence c = i;
  carries_index : (i ≤ MAX_CHUNK_INDEX)%N;
}.

Lemma create_carries i data sk key prefix last meta now c :
  create_encrypted_chunk i data sk key prefix last meta now = Ok c → carries sk key prefix i last data c.
Proof.
  unfold create_encrypted_chunk. intros Hc. inv_ok. rewrite negb_true_iff, N.ltb_ge in *.
  repeat match goal with E : in_context _ _ = Ok _ |- _ => apply in_context_ok in E end.
  match goal with E : serialize (mkChunkManifest _ _ _ _ _ _) = Ok _ |- _ =>
    apply deserialize_ok in E as Hm end.
  match goal with E : serialize (mkSignedManifest _ _ _) = Ok _ |- _ =>
    apply deserialize_ok in E as Hsm end.
  match goal with E : aead_encrypt _ _ _ _ _ = Some _ |- _ => apply aead_decrypt_encrypt in E as Hd end.
  constructor; cbn [nc_nonce nc_sequence chunk_new]; try done.
  - unfold verify_chunk_signature. cbn [nc_manifest chunk_new]. rewrite Hsm. cbn [sm_sig sm_manifest].
    by rewrite length_ed_sign, ed_public_ok, ed_verify_sign.
  - unfold decrypt_chunk_v2. cbn [nc_manifest chunk_new nc_data]. rewrite Hsm.
    cbn [in_context map_err mbind result_bind sm_manifest]. rewrite Hm.
    cbn [in_context map_err mbind result_bind cm_sequence cm_chunk_size].
    rewrite (proj2 (N.ltb_ge _ _)) by done. cbn [negb ensure mbind result_bind].
    match goal with E : (length key =? 32)%nat = true |- _ => rewrite E end.
    cbn [ensure mbind result_bind]. by rewrite Hd.
Qed.

(** ** The chunks of a sealed envelope *)

Record sealed (env : SealEnv) (payload sk ben : bytes) (pieces : list bytes) (key prefix : bytes)
    (e : Envelope) : Prop := {
  sealed_pieces : pieces = slice_chunks (N.to_nat DEFAULT_CHUNK_SIZE) payload;
  sealed_key : derive_shared_encryption_key sk ben (se_salt env) = Ok (key, prefix);
  sealed_length : length (env_chunks e) = length pieces;
  sealed_chunk i p : pieces !! i = Some p → ∃ c, env_chunks e !! i = Some c
    ∧ carries sk key prefix (N.of_nat i) (i =? length pieces - 1)%nat p c;
  sealed_version : env_version e = ENVELOPE_VERSION_V2;
  sealed_salt : env_hkdf_salt e = se_salt env;
  sealed_signer : env_verifying_key e = ed_public sk;
  sealed_beneficiary : env_beneficiary_key e = ben;
  sealed_size : em_payload_size (env_metadata e) = N.of_nat (length payload);
  sealed_count : em_chunk_count (env_metadata e) = N.of_nat (length pieces);
}.

Lemma seal_sealed env payload sk ben e :
  seal env payload sk ben = Ok e → ∃ pieces key prefix, sealed env payload sk ben pieces key prefix e.
Proof.
  unfold seal. intros (t & _ & Hs)%bind_ok. apply bind_ok in Hs as ([key prefix] & Hd & Hs).
  apply bind_ok in Hs as (cs & Hcs%map_res_ok & Hs). apply Ok_inj in Hs as <-.
  set (pieces := slice_chunks (N.to_nat DEFAULT_CHUNK_SIZE) payload) in *.
  assert (length cs = length pieces) as Hlen
    by (apply Forall2_length in Hcs; unfold enumerate in Hcs;
        by rewrite length_enumerate_from in Hcs).
  assert (∀ i p, pieces !! i = Some p → ∃ c, cs !! i = Some c
    ∧ carries sk key prefix (N.of_nat i) (i =? length pieces - 1)%nat p c) as Hchunk.
  { intros i p Hp. assert (enumerate pieces !! i = Some (i, p)) as Hi
      by (unfold enumerate; by rewrite lookup_enumerate_from, Hp).
    destruct (Forall2_lookup_l _ _ _ _ _ Hcs Hi) as (c & Hc & Hcr). eauto using create_carries. }
  exists pieces, key, prefix. constructor; try done.
  assert (div_ceil (N.of_nat (length payload)) DEFAULT_CHUNK_SIZE = N.of_nat (length pieces)) as Hdiv
    by (unfold pieces; rewrite slice_chunks_length by auto with sealedge; by rewrite N2Nat.id).
  cbn [em_chunk_count env_metadata]. rewrite Hdiv. unfold as_u32. apply N.mod_small.
  destruct (decide (length pieces = 0)) as [->|Hne]; [done|].
  destruct (lookup_lt_is_Some_2 pieces (length pieces - 1)) as [p Hp]; [lia|].
  destruct (Hchunk _ _ Hp) as (c & _ & [_ _ _ _ Hi]). unfold MAX_CHUNK_INDEX in Hi. lia.
Qed.

(** ** Verifying and unsealing labelled chunks *)

(** Chunks with labels 0, 1, ... that are each signed and each decrypt at their position:
    nothing else decides. *)
Lemma unseal_labelled e sk bk key prefix ds :
  env_version e = ENVELOPE_VERSION_V2 → env_verifying_key e = ed_public sk →
  derive_shared_encryption_key bk (ed_public sk) (env_hkdf_salt e) = Ok (key, prefix) →
  length (env_chunks e) = length ds →
  nc_sequence <$> env_chunks e = N.of_nat <$> seq 0 (length ds) →
  em_chunk_count (env_metadata e) = N.of_nat (length ds) →
  em_payload_size (env_metadata e) = N.of_nat (length (concat ds)) →
  (∀ i c, env_chunks e !! i = Some c → verify_chunk_signature (ed_public sk) c = true
    ∧ ∃ d, ds !! i = Some d ∧ decrypt_chunk_v2 c key prefix (i =? length ds - 1)%nat = Ok d) →
  verify e = true ∧ unseal e bk = Ok (concat ds).
Proof.
  intros Hv Hk Hd Hlen Hlab Hcount Hsize Hc.
  assert (verify e = true) as Hver.
  { unfold verify. rewrite bool_decide_true, Hk by done.
    rewrite verify_chunk_sequence_labelled by congruence. rewrite andb_true_r.
    apply forallb_Forall, Forall_lookup. intros i c Hi. by destruct (Hc _ _ Hi). }
  split; [done|]. unfold unseal. rewrite bool_decide_true by done. cbn [ensure mbind result_bind].
  rewrite Hver. cbn [ensure mbind result_bind]. rewrite Hk, ed_public_ok. cbn [ensure mbind result_bind].
  rewrite Hd. cbn [mbind result_bind]. rewrite sort_labelled by congruence.
  rewrite (proj2 (map_res_ok _ _ ds)); cbn [mbind result_bind].
  - by rewrite Hsize, N.eqb_refl.
  - apply Forall2_same_length_lookup_2; [unfold enumerate; by rewrite length_enumerate_from|].
    intros i [j c] d Hi Hdi. unfold enumerate in Hi. rewrite lookup_enumerate_from in Hi.
    apply fmap_Some in Hi as (c' & Hci & [= -> ->]). rewrite Hlen.
    destruct (Hc _ _ Hci) as (_ & d' & Hd' & Hdec). cbn. congruence.
Qed.

(** A sealed envelope verifies, and its beneficiary gets the payload back. *)
Lemma sealed_unseals env payload sk bk pieces key prefix e :
  sealed env payload sk (ed_public bk) pieces key prefix e →
  verify e = true ∧ unseal e bk = Ok payload.
Proof.
  intros [Hp Hkey Hlen Hch Hv Hsalt Hk _ Hsize Hcount].
  assert (concat pieces = payload) as Hcat by (subst pieces; auto using slice_chunks_concat with sealedge).
  rewrite <-Hcat. apply (unseal_labelled e sk bk key prefix pieces); try done.
  - by rewrite Hsalt, derive_symmetric.
  - apply list_eq. intros i. rewrite !list_lookup_fmap. destruct (decide (i < length pieces)) as [Hi|Hi].
    + destruct (lookup_lt_is_Some_2 pieces i Hi) as [p Hpi].
      destruct (Hch _ _ Hpi) as (c & -> & Hc). rewrite lookup_seq_lt by done. cbn.
      f_equal. apply (carries_sequence _ _ _ _ _ _ _ Hc).
    + by rewrite !lookup_ge_None_2 by (rewrite ?length_seq; lia).
  - by rewrite Hcat.
  - intros i c Hi. destruct (lookup_lt_is_Some_2 pieces i) as [p Hpi].
    { rewrite <-Hlen. by eapply lookup_lt_Some. }
    destruct (Hch _ _ Hpi) as (c' & Hc' & Hcar). assert (c' = c) as -> by congruence.
    destruct Hcar. eauto.
Qed.

(** ** Chunks selected from a sealed envelope

    [spliced e cs n] has the chunks [cs] under new labels and the counts to match; nothing of
    this is signed. *)

Definition relabel (k : N) (c : NetworkChunk) : NetworkChunk :=
  mkNetworkChunk k (nc_data c) (nc_manifest c) (nc_nonce c) (nc_timestamp c).
Definition spliced (e : Envelope) (cs : list NetworkChunk) (size : N) : Envelope :=
  let m := env_metadata e in
  mkEnvelope (env_version e) (env_hkdf_salt e) (imap (λ k c, relabel (N.of_nat k) c) cs)
    (env_verifying_key e) (env_beneficiary_key e)
    (mkEnvelopeMetadata (em_created_at m) size (as_u32 (N.of_nat (length cs)))
       (em_aead_algorithm m) (em_signature_algorithm m) (em_hash_algorithm m)).
(** The elements at the given positions. *)
Definition select {A} (l : list A) (js : list nat) : list A := omap (λ j, l !! j) js.

Lemma select_lookup {A} (l : list A) js :
  Forall (λ j, j < length l) js →
  length (select l js) = length js ∧
  ∀ k j, js !! k = Some j → select l js !! k = l !! j.
Proof.
  unfold select. induction 1 as [|j js Hj Hjs [IHl IH]]; [done|].
  destruct (lookup_lt_is_Some_2 l j Hj) as [x Hx]. cbn. rewrite Hx. cbn. split; [by rewrite IHl|].
  intros [|k] i; cbn; [intros [= <-]; done|apply IH].
Qed.

(** In such a selection the last chunk, and no other, is at the last position. *)
Lemma last_position n body : Forall (λ j, j < n) body → ∀ k j, (body ++ [n]) !! k = Some j →
  (k =? length (body ++ [n]) - 1)%nat = (j =? n)%nat.
Proof.
  intros Hb k j Hk. rewrite length_app, Nat.add_sub. apply eq_true_iff_eq. rewrite !Nat.eqb_eq.
  apply lookup_app_Some in Hk as [Hk|[Hle Hk]].
  - pose proof (Forall_lookup_1 _ _ _ _ Hb Hk) as Hj. cbn in Hj. apply lookup_lt_Some in Hk. lia.
  - apply list_lookup_singleton_Some in Hk as [? <-]. lia.
Qed.

Lemma spliced_unseals env payload sk bk pieces key prefix e body :
  sealed env payload sk (ed_public bk) pieces key prefix e → pieces ≠ [] →
  Forall (λ j, j < length pieces - 1) body →
  let js := body ++ [length pieces - 1] in
  (N.of_nat (length js) ≤ u32_max)%N →
  let data := concat (select pieces js) in
  let e' := spliced e (select (env_chunks e) js) (N.of_nat (length data)) in
  verify e' = true ∧ unseal e' bk = Ok data.
Proof.
  intros [_ Hkey Hlen Hch Hv Hsalt Hk _ _ _] Hne Hbody js Hmax data e'.
  assert (0 < length pieces) as Hpos by (destruct pieces; [done|cbn; lia]).
  assert (Forall (λ j, j < length pieces) js) as Hjs.
  { apply Forall_app. split; [|by constructor; [lia|]].
    eapply Forall_impl; [exact Hbody|]. cbn. lia. }
  destruct (select_lookup pieces js Hjs) as [Hpl Hpk].
  destruct (select_lookup (env_chunks e) js) as [Hcl Hck]; [by rewrite Hlen|].
  apply (unseal_labelled e' sk bk key prefix (select pieces js)); cbn; try done.
  - by rewrite Hsalt, derive_symmetric.
  - by rewrite length_imap, Hcl, Hpl.
  - rewrite Hpl, <-Hcl. apply list_eq. intros k.
    rewrite !list_lookup_fmap, list_lookup_imap. destruct (select (env_chunks e) js !! k) as [c|] eqn:E; cbn.
    + by rewrite lookup_seq_lt by by eapply lookup_lt_Some.
    + apply lookup_ge_None in E. by rewrite lookup_ge_None_2 by by rewrite length_seq.
  - rewrite Hcl, Hpl. apply N.mod_small. unfold u32_max in Hmax. lia.
  - intros k c Hc. rewrite list_lookup_imap in Hc. apply fmap_Some in Hc as (c0 & Hc0 & ->).
    destruct (lookup_lt_is_Some_2 js k) as [j Hj]; [rewrite <-Hcl; by eapply lookup_lt_Some|].
    rewrite (Hck _ _ Hj) in Hc0. rewrite (Hpk _ _ Hj).
    destruct (lookup_lt_is_Some_2 pieces j) as [p Hp];
      [by apply (Forall_lookup_1 _ _ _ _ Hjs Hj)|].
    destruct (Hch _ _ Hp) as (c' & Hc' & Hcar). assert (c' = c0) as -> by congruence.
    rewrite Hpl. destruct Hcar as [Hs Hd _ _ _]. split; [exact Hs|]. exists p. split; [done|].
    pose proof (last_position _ _ Hbody _ _ Hj) as Hlast. fold js in Hlast. rewrite Hlast. exact Hd.
Qed.

(** ** Nonces are not reused *)

Lemma sealed_nonces_unique env payload sk ben pieces key prefix e :
  sealed env payload sk ben pieces key prefix e → NoDup (nc_nonce <$> env_chunks e).
Proof.
  intros [_ _ Hlen Hch _ _ _ _ _ _]. apply NoDup_alt. intros i j n Hi Hj.
  assert (∀ k x, (nc_nonce <$> env_chunks e) !! k = Some x → ∃ last,
    x = chunk_nonce prefix (N.of_nat k) last ∧ (N.of_nat k ≤ MAX_CHUNK_INDEX)%N) as Hk.
  { intros k x Hk. rewrite list_lookup_fmap in Hk. apply fmap_Some in Hk as (c & Hc & ->).
    destruct (lookup_lt_is_Some_2 pieces k) as [p Hp]; [rewrite <-Hlen; by eapply lookup_lt_Some|].
    destruct (Hch _ _ Hp) as (c' & Hc' & [_ _ Hn _ Hm]). assert (c' = c) as -> by congruence. eauto. }
  destruct (Hk _ _ Hi) as (b & -> & Hbi), (Hk _ _ Hj) as (b' & Heq & Hbj).
  apply chunk_nonce_inj in Heq as [Heq _]; [|done..]. lia.
Qed.

(** ** What verification accepts *)

Lemma forallb_zip_inv (l l' : list N) :
  length l = length l' → forallb (λ '(x, y), (x =? y)%N) (zip l l') = true → l = l'.
Proof.
  revert l'. induction l as [|x l IH]; intros [|y l'] Hlen; try done. cbn.
  rewrite andb_true_iff, N.eqb_eq. intros [-> Hz]. f_equal. apply IH; [by injection Hlen|done].
Qed.

Lemma verify_chunk_sequence_ok e :
  verify_chunk_sequence e = true ↔
  em_chunk_count (env_metadata e) = N.of_nat (length (env_chunks e))
  ∧ nc_sequence <$> env_chunks e ≡ₚ N.of_nat <$> seq 0 (length (env_chunks e)).
Proof.
  unfold verify_chunk_sequence. destruct (N.of_nat (length (env_chunks e)) =? _)%N eqn:E; cbn [negb].
  2: { apply N.eqb_neq in E. split; [done|]. intros [? _]. congruence. }
  apply N.eqb_eq in E. rewrite <-E, Nat2N.id. split.
  - intros Hz. split; [done|]. apply forallb_zip_inv in Hz; [by rewrite Hz, sort_by_key_perm|].
    rewrite (sort_by_key_perm id). by rewrite !length_fmap, length_seq.
  - intros [_ Hp]. replace (sort_by_key id (nc_sequence <$> env_chunks e))
      with (N.of_nat <$> seq 0 (length (env_chunks e))); [apply forallb_zip_eq|].
    apply (StronglySorted_unique (λ x y, x ≤ y)%N).
    + rewrite <-(sort_seq_id _ 0). apply (sort_by_key_sorted id).
    + apply (sort_by_key_sorted id).
    + by rewrite (sort_by_key_perm id), Hp.
Qed.

(** The signed manifest inside a chunk. *)
Definition chunk_signed (key : bytes) (c : NetworkChunk) : Prop :=
  ∃ sm, deserialize (A:=SignedManifest) (nc_manifest c) = Ok sm ∧ length (sm_sig sm) = 64
    ∧ ed_key_ok key = true ∧ ed_verify key (blake3 (sm_manifest sm)) (sm_sig sm) = true.

Lemma verify_chunk_signature_ok key c : verify_chunk_signature key c = true ↔ chunk_signed key c.
Proof.
  unfold verify_chunk_signature, chunk_signed. split.
  - case_match; [|done]. rewrite !andb_true_iff, Nat.eqb_eq. naive_solver.
  - intros (sm & -> & Hl & Hk & Hv). by rewrite Hl, Hk, Hv.
Qed.

Lemma verify_ok e :
  verify e = true ↔
  env_version e = ENVELOPE_VERSION_V2
  ∧ Forall (chunk_signed (env_verifying_key e)) (env_chunks e)
  ∧ em_chunk_count (env_metadata e) = N.of_nat (length (env_chunks e))
  ∧ nc_sequence <$> env_chunks e ≡ₚ N.of_nat <$> seq 0 (length (env_chunks e)).
Proof.
  unfold verify. rewrite !andb_true_iff, bool_decide_eq_true, verify_chunk_sequence_ok, forallb_Forall.
  setoid_rewrite verify_chunk_signature_ok. tauto.
Qed.

(** ** When sealing succeeds *)

Lemma create_chunk_is_ok i data sk key prefix last meta now :
  (∀ m : ChunkManifest, is_ok (serialize m) = true) →
  (∀ m : SignedManifest, is_ok (serialize m) = true) →
  (∀ nonce aad, is_Some (aead_encrypt Aes256Gcm key nonce aad data)) → length key = 32 →
  is_ok (create_encrypted_chunk i data sk key prefix last meta now) = true ↔ (i ≤ MAX_CHUNK_INDEX)%N.
Proof.
  intros Hm Hsm Henc Hkey. unfold create_encrypted_chunk. split.
  - intros [c Hc]%is_ok_true. inv_ok. by rewrite negb_true_iff, N.ltb_ge in *.
  - intros Hi. rewrite (proj2 (N.ltb_ge _ _)) by done. cbn [negb ensure mbind result_bind].
    match goal with |- context [in_context _ (serialize ?m)] =>
      destruct (proj1 (is_ok_true _) (Hm m)) as [mb ->] end.
    cbn [in_context map_err mbind result_bind]. rewrite Hkey. cbn [Nat.eqb ensure mbind result_bind].
    match goal with |- context [aead_encrypt _ _ ?n ?a _] => destruct (Henc n a) as [ct ->] end.
    cbn [ok_or mbind result_bind].
    match goal with |- context [in_context _ (serialize ?m)] =>
      destruct (proj1 (is_ok_true _) (Hsm m)) as [smb ->] end. done.
Qed.

Lemma map_res_is_ok {E A B} (f : A → result E B) l :
  is_ok (map_res f l) = true ↔ Forall (λ x, is_ok (f x) = true) l.
Proof.
  induction l as [|x l IH]; cbn; [split; constructor|]. rewrite Forall_cons, <-IH.
  destruct (f x); cbn; [|naive_solver]. destruct (map_res f l); cbn; naive_solver.
Qed.

(** With primitives that do not fail, [seal] refuses exactly the payloads of more than
    2^24 chunks. *)
Lemma seal_is_ok env payload sk ben key prefix t :
  (∀ m : ChunkManifest, is_ok (serialize m) = true) →
  (∀ m : SignedManifest, is_ok (serialize m) = true) →
  (∀ k n a m, length k = 32 → length m ≤ N.to_nat DEFAULT_CHUNK_SIZE →
    is_Some (aead_encrypt Aes256Gcm k n a m)) →
  se_now env = Some t → derive_shared_encryption_key sk ben (se_salt env) = Ok (key, prefix) →
  is_ok (seal env payload sk ben) = true ↔
  (N.of_nat (length payload) ≤ (MAX_CHUNK_INDEX + 1) * DEFAULT_CHUNK_SIZE)%N.
Proof.
  intros Hm Hsm Henc Ht Hd. destruct (derive_length _ _ _ _ _ Hd) as [Hkey _].
  unfold seal. rewrite Ht, Hd. cbn [ok_or mbind result_bind].
  set (pieces := slice_chunks _ payload). set (f := λ '(i, d), create_encrypted_chunk _ _ _ _ _ _ _ _).
  transitivity (is_ok (map_res f (enumerate pieces)) = true).
  { by destruct (map_res f (enumerate pieces)). }
  rewrite map_res_is_ok. unfold enumerate. rewrite Forall_enumerate_from.
  assert (N.of_nat (length pieces) = div_ceil (N.of_nat (length payload)) DEFAULT_CHUNK_SIZE) as Hlen
    by (unfold pieces; rewrite slice_chunks_length by auto with sealedge; by rewrite N2Nat.id).
  transitivity (N.of_nat (length pieces) ≤ MAX_CHUNK_INDEX + 1)%N.
  - split.
    + intros Hall. destruct (decide (length pieces = 0)) as [->|Hne]; [done|].
      destruct (lookup_lt_is_Some_2 pieces (length pieces - 1)) as [p Hp]; [lia|].
      specialize (Hall _ _ Hp). cbn in Hall. apply create_chunk_is_ok in Hall; [lia|done|done| |done].
      intros. apply Henc; [done|]. eapply slice_chunks_piece. by eapply list_elem_of_lookup_2.
    + intros Hle i p Hp. cbn. apply create_chunk_is_ok; [done|done| |done|].
      * intros. apply Henc; [done|]. eapply slice_chunks_piece. by eapply list_elem_of_lookup_2.
      * apply lookup_lt_Some in Hp. lia.
  - rewrite Hlen. unfold div_ceil, MAX_CHUNK_INDEX, DEFAULT_CHUNK_SIZE. split; intros Hb.
    + apply N.lt_succ_r, N.lt_succ_r in Hb.
      assert (N.of_nat (length payload) + 64 * 1024 - 1 < 64 * 1024 * N.succ (16777215 + 1))%N; [|lia].
      eapply N.lt_le_trans; [apply (N.mul_succ_div_gt _ (64 * 1024)); lia|]. apply N.mul_le_mono_l. lia.
    + apply N.lt_succ_r, N.Div0.div_lt_upper_bound. lia.
Qed.
End Envelope.
