(* ===== verification/Receipts.v ===== *)
(** * Ownership receipts

    crates/core/src/applications/receipts/mod.rs: a receipt is the payload of an envelope from
    the current owner to the next, linked to the previous envelope by its hash.  serde_json on
    receipts is a parameter, the clock an argument. *)

From S2P Require Import Prelude External Format Envelope.
From S2P Require Import Envelope.

Record OwnershipReceipt := mkOwnershipReceipt {
  or_issuer : bytes; (* [u8; 32] *)
  or_beneficiary : bytes; (* [u8; 32] *)
  or_amount : N; (* u64 *)
  or_prev_envelope_hash : option bytes;
  or_description : option bytes;
  or_created_at : N; (* u64 *)
}.

(** [serde_json::to_vec] and [from_slice] on a receipt *)
Class ReceiptJson := {
  receipt_to_vec : OwnershipReceipt → result bytes bytes;
  receipt_from_slice : bytes → result bytes OwnershipReceipt;
}.
Class ReceiptJsonLaws `{ReceiptJson} : Prop :=
  receipt_from_to r b : receipt_to_vec r = Ok b → receipt_from_slice b = Ok r.

(** What making a receipt reads: the clock when the receipt is stamped, when it is
    validated, and the environment of [seal]. *)
Record ReceiptEnv := mkReceiptEnv {
  re_stamp : option N;
  re_validate : option N;
  re_seal : SealEnv;
}.

Section Receipts.
Context `{Blake3} `{Ed25519} `{Aead} `{KeyAgreement} `{HkdfExpand}
  `{Bincode ChunkManifest} `{Bincode SignedManifest} `{!Bincode Envelope} `{!ReceiptJson}.

Definition new_origin (now : option N) (issuer_key beneficiary_key : bytes) (amount : N)
    (description : option bytes) : OwnershipReceipt :=
  mkOwnershipReceipt (ed_public issuer_key) beneficiary_key amount None description (default 0%N now).

Definition new_assignment (now : option N) (issuer_key beneficiary_key : bytes) (amount : N)
    (prev_envelope_hash : bytes) (description : option bytes) : OwnershipReceipt :=
  mkOwnershipReceipt (ed_public issuer_key) beneficiary_key amount (Some prev_envelope_hash)
    description (default 0%N now).

(** [VerifyingKey::from_bytes] with the message of [issuer_key], [beneficiary_key]. *)
Definition receipt_issuer_key (r : OwnershipReceipt) : result bytes bytes :=
  ensure (ed_key_ok (or_issuer r)) (lit "Invalid issuer key: " ++ ed_key_error (or_issuer r)) ≫= λ _,
  Ok (or_issuer r).
Definition receipt_beneficiary_key (r : OwnershipReceipt) : result bytes bytes :=
  ensure (ed_key_ok (or_beneficiary r))
    (lit "Invalid beneficiary key: " ++ ed_key_error (or_beneficiary r)) ≫= λ _,
  Ok (or_beneficiary r).

Definition is_origin (r : OwnershipReceipt) : bool := bool_decide (or_prev_envelope_hash r = None).

Definition receipt_validate (now : option N) (r : OwnershipReceipt) : result bytes unit :=
  ensure (negb (or_amount r =? 0)%N) (lit "OwnershipReceipt amount cannot be zero") ≫= λ _,
  _ ← in_context "Invalid issuer key" (receipt_issuer_key r);
  _ ← in_context "Invalid beneficiary key" (receipt_beneficiary_key r);
  ensure (negb (wrapping_add64 (default 0%N now) 300 <? or_created_at r)%N)
    (lit "OwnershipReceipt timestamp is too far in the future").

Definition create_receipt (env : ReceiptEnv) (issuer_key beneficiary_key : bytes) (amount : N)
    (description : option bytes) : result bytes Envelope :=
  let receipt := new_origin (re_stamp env) issuer_key beneficiary_key amount description in
  _ ← in_context "OwnershipReceipt validation failed" (receipt_validate (re_validate env) receipt);
  payload ← in_context "Failed to serialize receipt" (receipt_to_vec receipt);
  in_context "Failed to seal receipt in envelope"
    (seal (re_seal env) payload issuer_key beneficiary_key).

Definition assign_receipt (env : ReceiptEnv) (previous_envelope : Envelope)
    (assigner_key new_beneficiary_key : bytes) (description : option bytes) : result bytes Envelope :=
  ensure (verify previous_envelope) (lit "Previous envelope signature is invalid") ≫= λ _,
  previous_beneficiary ← beneficiary previous_envelope;
  ensure (bool_decide (previous_beneficiary = ed_public assigner_key))
    (lit "Assigner key does not match previous beneficiary") ≫= λ _,
  previous_payload ←
    in_context "Failed to unseal previous envelope - assigner key may be invalid"
      (unseal previous_envelope assigner_key);
  previous_receipt ← in_context "Failed to deserialize previous receipt"
    (receipt_from_slice previous_payload);
  prev_hash ← env_hash previous_envelope;
  let assignment := new_assignment (re_stamp env) assigner_key new_beneficiary_key
    (or_amount previous_receipt) prev_hash description in
  _ ← in_context "Assignment receipt validation failed" (receipt_validate (re_validate env) assignment);
  payload ← in_context "Failed to serialize assignment receipt" (receipt_to_vec assignment);
  in_context "Failed to seal assignment receipt in envelope"
    (seal (re_seal env) payload assigner_key new_beneficiary_key).

Definition extract_receipt (now : option N) (e : Envelope) (decryption_key : bytes)
    : result bytes OwnershipReceipt :=
  payload ← in_context "Failed to unseal envelope" (unseal e decryption_key);
  receipt ← in_context "Failed to deserialize receipt from payload" (receipt_from_slice payload);
  _ ← in_context "Extracted receipt validation failed" (receipt_validate now receipt);
  Ok receipt.

(** [for i in 1..envelopes.len()] over neighbours *)
Definition linked_by (link : Envelope → Envelope → bool) (envelopes : list Envelope) : bool :=
  forallb (λ '(prev, current), link prev current) (zip envelopes (tail envelopes)).

Definition verify_signature_chain (envelopes : list Envelope) : bool :=
  match envelopes with
  | [] => false
  | _ =>
      forallb verify envelopes
      && linked_by (λ prev current,
           match issuer current, beneficiary prev with
           | Ok current_issuer, Ok prev_beneficiary =>
               bool_decide (current_issuer = prev_beneficiary)
           | _, _ => false
           end) envelopes
  end.

(** [.with_context(|| format!("envelope {i}: {msg}"))] *)
Definition at_envelope {A} (i : nat) (msg : string) (r : result bytes A) : result bytes A :=
  map_err (λ _, lit "envelope " ++ fmt_nat i ++ lit ": " ++ lit msg) r.
Definition envelope_error (i : nat) (msg : bytes) : bytes :=
  lit "envelope " ++ fmt_nat i ++ lit ": " ++ msg.

(** The checks on receipt [i], which has the predecessor [(prev_env, prev)]. *)
Definition check_link (i : nat) (prev_env : Envelope) (prev receipt : OwnershipReceipt)
    : result bytes unit :=
  prev_hash ← at_envelope (i - 1) "hash failed" (env_hash prev_env);
  ensure (bool_decide (or_prev_envelope_hash receipt = Some prev_hash))
    (envelope_error i (lit "prev_envelope_hash does not match envelope " ++ fmt_nat (i - 1)
      ++ lit "'s hash")) ≫= λ _,
  ensure (bool_decide (or_issuer receipt = or_beneficiary prev))
    (envelope_error i (lit "issuer does not match previous beneficiary")) ≫= λ _,
  ensure (or_amount receipt =? or_amount prev)%N
    (envelope_error i (lit "amount " ++ fmt_N (or_amount receipt) ++ lit " != previous amount "
      ++ fmt_N (or_amount prev))).

Definition check_parties (i : nat) (e : Envelope) (receipt : OwnershipReceipt) : result bytes unit :=
  iss ← at_envelope i "invalid issuer key" (issuer e);
  ensure (bool_decide (or_issuer receipt = iss))
    (envelope_error i (lit "receipt issuer does not match the signing key")) ≫= λ _,
  ben ← at_envelope i "invalid beneficiary key" (beneficiary e);
  ensure (bool_decide (or_beneficiary receipt = ben))
    (envelope_error i (lit "receipt beneficiary does not match the envelope beneficiary")).

(** [clock i] is the time when envelope [i] is extracted.  The loop over [1..len] reads
    [envelopes[i - 1]], [receipts[i - 1]] and [receipts[i]]: neighbours, counted from 1. *)
Definition verify_receipt_chain_with_keys (clock : nat → option N) (envelopes : list Envelope)
    (keys : list bytes) : result bytes unit :=
  ensure (negb (bool_decide (envelopes = []))) (lit "empty receipt chain") ≫= λ _,
  ensure (length keys =? length envelopes)%nat
    (lit "need one beneficiary key per envelope: " ++ fmt_nat (length keys) ++ lit " keys for "
      ++ fmt_nat (length envelopes) ++ lit " envelopes") ≫= λ _,
  receipts ← map_res (λ '(i, (e, key)),
      at_envelope i "unseal/extract failed" (extract_receipt (clock i) e key))
    (enumerate (zip envelopes keys));
  ensure (match receipts with r :: _ => is_origin r | [] => false end)
    (lit "envelope 0 is not an origin receipt (prev_envelope_hash must be None)") ≫= λ _,
  for_each (λ '(i, ((prev_env, prev), receipt)), check_link (S i) prev_env prev receipt)
    (enumerate (zip (zip envelopes receipts) (tail receipts))) ≫= λ _,
  for_each (λ '(i, (e, receipt)), check_parties i e receipt) (enumerate (zip envelopes receipts)).
End Receipts.

(** * Ownership receipts: lemmas

    What keyed chain verification accepts, how creating and assigning a receipt extend an
    accepted chain, and that the last envelope of a chain determines it. *)

Section Receipts.
Context `{Blake3} `{Ed25519Laws} `{AeadLaws} `{!KeyAgreement} `{!KeyAgreementLaws} `{HkdfExpandLaws}
  `{BincodeLaws ChunkManifest} `{BincodeLaws SignedManifest} `{BincodeLaws Envelope}
  `{!ReceiptJson} `{!ReceiptJsonLaws}.

(** ** Single receipts *)

(** The envelope holds the receipt for the holder of [key]. *)
Definition holds (e : Envelope) (key : bytes) (r : OwnershipReceipt) : Prop :=
  ∃ payload, unseal e key = Ok payload ∧ receipt_from_slice payload = Ok r.

Lemma holds_unique e key r r' : holds e key r → holds e key r' → r = r'.
Proof.
  intros (p & Hp & Hr) (p' & Hp' & Hr'). rewrite Hp in Hp'. apply Ok_inj in Hp' as <-.
  rewrite Hr in Hr'. by apply Ok_inj in Hr'.
Qed.

(** The rules on the contents. *)
Record acceptable (now : option N) (r : OwnershipReceipt) : Prop := {
  acc_amount : or_amount r ≠ 0%N;
  acc_issuer : ed_key_ok (or_issuer r) = true;
  acc_beneficiary : ed_key_ok (or_beneficiary r) = true;
  acc_time : (or_created_at r ≤ wrapping_add64 (default 0%N now) 300)%N;
}.

Lemma receipt_validate_ok now r : receipt_validate now r = Ok tt ↔ acceptable now r.
Proof.
  unfold receipt_validate, receipt_issuer_key, receipt_beneficiary_key. split.
  - intros Hv. inv_ok. repeat match goal with E : in_context _ _ = Ok _ |- _ => apply in_context_ok in E end.
    inv_ok. rewrite negb_true_iff, ?N.eqb_neq, ?N.ltb_ge in *. by constructor.
  - intros [Ha%N.eqb_neq Hi Hb Ht%N.ltb_ge]. rewrite Ha, Hi, Hb, Ht. done.
Qed.

Lemma extract_receipt_ok now e key r :
  extract_receipt now e key = Ok r ↔ holds e key r ∧ acceptable now r.
Proof.
  unfold extract_receipt, holds. split.
  - intros Hx. inv_ok. repeat match goal with E : in_context _ _ = Ok _ |- _ => apply in_context_ok in E end.
    match goal with E : receipt_validate _ _ = Ok ?u |- _ => destruct u; apply receipt_validate_ok in E end.
    eauto.
  - intros ((p & Hp & Hr) & Hv%receipt_validate_ok). rewrite Hp. cbn. rewrite Hr. cbn. by rewrite Hv.
Qed.

Lemma beneficiary_ok e k : beneficiary e = Ok k ↔ k = env_beneficiary_key e ∧ ed_key_ok k = true.
Proof. unfold beneficiary. destruct (ed_key_ok _) eqn:E; cbn; naive_solver congruence. Qed.
Lemma issuer_ok e k : issuer e = Ok k ↔ k = env_verifying_key e ∧ ed_key_ok k = true.
Proof. unfold issuer. destruct (ed_key_ok _) eqn:E; cbn; naive_solver congruence. Qed.

Lemma env_hash_inj e e' h : env_hash e = Ok h → env_hash e' = Ok h → e = e' ∨ Collision.
Proof.
  unfold env_hash. intros He He'. inv_ok.
  match goal with E : blake3 _ = blake3 _ |- _ => apply blake3_inj_or_collision in E as [->|?] end;
    [left|by right]. by eapply serialize_inj.
Qed.

(** ** Chains *)

Record ownership_chain (clock : nat → option N) (es : list Envelope) (ks : list bytes)
    (rs : list OwnershipReceipt) : Prop := {
  vc_nonempty : es ≠ [];
  vc_keys : length ks = length es;
  vc_receipts : length rs = length es;
  vc_holds i e k r : es !! i = Some e → ks !! i = Some k → rs !! i = Some r →
    holds e k r ∧ acceptable (clock i) r;
  vc_origin r : rs !! 0 = Some r → or_prev_envelope_hash r = None;
  vc_link i e r r' : es !! i = Some e → rs !! i = Some r → rs !! S i = Some r' →
    (∃ h, env_hash e = Ok h ∧ or_prev_envelope_hash r' = Some h)
    ∧ or_issuer r' = or_beneficiary r ∧ or_amount r' = or_amount r;
  vc_parties i e r : es !! i = Some e → rs !! i = Some r →
    issuer e = Ok (or_issuer r) ∧ beneficiary e = Ok (or_beneficiary r);
}.

Lemma check_link_ok i e prev r :
  check_link i e prev r = Ok tt ↔
  (∃ h, env_hash e = Ok h ∧ or_prev_envelope_hash r = Some h)
  ∧ or_issuer r = or_beneficiary prev ∧ or_amount r = or_amount prev.
Proof.
  unfold check_link, at_envelope. split.
  - intros Hc. inv_ok. rewrite ?bool_decide_eq_true, ?N.eqb_eq in *. eauto.
  - intros ((h & -> & Hp) & Hi & Ha). cbn. rewrite !bool_decide_true by done. cbn. by rewrite Ha, N.eqb_refl.
Qed.

Lemma check_parties_ok i e r :
  check_parties i e r = Ok tt ↔ issuer e = Ok (or_issuer r) ∧ beneficiary e = Ok (or_beneficiary r).
Proof.
  unfold check_parties, at_envelope. split.
  - intros Hc. inv_ok. rewrite ?bool_decide_eq_true in *. by subst.
  - intros [-> ->]. cbn. by rewrite !bool_decide_true by done.
Qed.

Lemma for_each_zip_ok {E A B} (f : nat * (A * B) → result E unit) (l : list A) (k : list B) :
  for_each f (enumerate (zip l k)) = Ok tt ↔
  ∀ i a b, l !! i = Some a → k !! i = Some b → f (i, (a, b)) = Ok tt.
Proof.
  rewrite for_each_ok. unfold enumerate. rewrite Forall_enumerate_from. split.
  - intros Hf i a b Ha Hb. apply (Hf i (a, b)). apply lookup_zip_with_Some. eauto.
  - intros Hf i [a b] Hi. apply lookup_zip_with_Some in Hi as (? & ? & [= <- <-] & ? & ?). by apply Hf.
Qed.

Lemma lookup_zip_Some {A B} (l : list A) (k : list B) i a b :
  zip l k !! i = Some (a, b) ↔ l !! i = Some a ∧ k !! i = Some b.
Proof.
  rewrite lookup_zip_with_Some. split; [by intros (? & ? & [= <- <-] & ? & ?)|].
  intros [? ?]. by exists a, b.
Qed.

Lemma verify_receipt_chain_ok clock es ks :
  verify_receipt_chain_with_keys clock es ks = Ok tt ↔ ∃ rs, ownership_chain clock es ks rs.
Proof.
  unfold verify_receipt_chain_with_keys. split.
  - intros Hv. apply bind_unit_ok in Hv as [Hne%ensure_ok Hv].
    apply bind_unit_ok in Hv as [Hl%ensure_ok Hv]. apply Nat.eqb_eq in Hl.
    apply bind_ok in Hv as (rs & Hrs%map_res_ok & Hv). apply bind_unit_ok in Hv as [Ho%ensure_ok Hv].
    apply bind_unit_ok in Hv as [Hlink Hpart].
    assert (length rs = length es) as Hlr.
    { apply Forall2_length in Hrs. unfold enumerate in Hrs.
      rewrite length_enumerate_from, length_zip_with in Hrs. lia. }
    exists rs. constructor; [|done|done| | | |].
    + intros ->. done.
    + intros i e k r He Hk Hr. apply extract_receipt_ok.
      assert (enumerate (zip es ks) !! i = Some (i, (e, k))) as Hi.
      { unfold enumerate. rewrite lookup_enumerate_from.
        by rewrite (proj2 (lookup_zip_Some es ks i e k)). }
      apply (Forall2_lookup_lr _ _ _ _ _ _ Hrs Hi) in Hr. by apply map_err_ok in Hr.
    + intros r Hr. destruct rs as [|r0 rs]; [done|]. injection Hr as ->.
      by apply bool_decide_eq_true in Ho.
    + intros i e r r' He Hr Hr'. rewrite for_each_zip_ok in Hlink.
      apply (check_link_ok (S i)), (Hlink i (e, r) r'); [by apply lookup_zip_Some|].
      by rewrite lookup_tail.
    + intros i e r He Hr. rewrite for_each_zip_ok in Hpart. by apply (check_parties_ok i), (Hpart i e r).
  - intros (rs & [Hne Hl Hlr Hh Ho Hlink Hpart]).
    rewrite bool_decide_false by done. cbn [negb ensure mbind result_bind].
    rewrite (proj2 (Nat.eqb_eq _ _) Hl). cbn [ensure mbind result_bind].
    rewrite (proj2 (map_res_ok _ _ rs)); cbn [mbind result_bind].
    + destruct rs as [|r0 rs]; [destruct es; done|].
      unfold is_origin. rewrite bool_decide_true by by apply Ho. cbn [ensure mbind result_bind].
      apply bind_unit_ok. rewrite !for_each_zip_ok. split.
      * intros i [e r] r' [He Hr]%lookup_zip_Some Hr'. apply check_link_ok.
        rewrite lookup_tail in Hr'. eauto.
      * intros i e r He Hr. apply check_parties_ok. eauto.
    + apply Forall2_same_length_lookup_2.
      { unfold enumerate. rewrite length_enumerate_from, length_zip_with. lia. }
      intros i [j [e k]] r Hi Hr. unfold enumerate in Hi. rewrite lookup_enumerate_from in Hi.
      apply fmap_Some in Hi as ([e' k'] & [He Hk]%lookup_zip_Some & [= -> -> ->]).
      apply map_err_ok, extract_receipt_ok. cbn. eauto.
Qed.

(** ** Making receipts *)

(** An envelope that [seal] made of a receipt. *)
Lemma seal_receipt env r b sk bk e :
  receipt_to_vec r = Ok b → seal env b sk (ed_public bk) = Ok e →
  verify e = true ∧ holds e bk r ∧ issuer e = Ok (ed_public sk) ∧ beneficiary e = Ok (ed_public bk).
Proof.
  intros Hr (pieces & key & prefix & Hs)%seal_sealed. destruct (sealed_unseals _ _ _ _ _ _ _ _ Hs) as [Hv Hu].
  split_and!; [done|by exists b; eauto using receipt_from_to| |].
  - apply issuer_ok. rewrite (sealed_signer _ _ _ _ _ _ _ _ Hs). auto using ed_public_ok.
  - apply beneficiary_ok. rewrite (sealed_beneficiary _ _ _ _ _ _ _ _ Hs). auto using ed_public_ok.
Qed.

(** The envelope [e] holds [r], from [sk] to [bk]. *)
Record receipt_made (now : option N) (r : OwnershipReceipt) (sk bk : bytes) (e : Envelope) : Prop := {
  rm_verify : verify e = true;
  rm_holds : holds e bk r;
  rm_acceptable : acceptable now r;
  rm_issuer : issuer e = Ok (or_issuer r) ∧ or_issuer r = ed_public sk;
  rm_beneficiary : beneficiary e = Ok (or_beneficiary r) ∧ or_beneficiary r = ed_public bk;
}.

Lemma create_receipt_made env sk bk amount desc e :
  create_receipt env sk (ed_public bk) amount desc = Ok e →
  receipt_made (re_validate env) (new_origin (re_stamp env) sk (ed_public bk) amount desc) sk bk e.
Proof.
  unfold create_receipt. intros Hc. inv_ok.
  repeat match goal with E : in_context _ _ = Ok _ |- _ => apply in_context_ok in E end.
  match goal with E : receipt_validate _ _ = Ok ?u |- _ => destruct u; apply receipt_validate_ok in E end.
  match goal with E : seal _ _ _ _ = Ok _ |- _ =>
    eapply seal_receipt in E as (? & ? & ? & ?); [|done] end.
  by constructor.
Qed.

Lemma assign_receipt_made env prev k bk desc e :
  assign_receipt env prev k (ed_public bk) desc = Ok e →
  ∃ r h, holds prev k r ∧ env_hash prev = Ok h ∧ beneficiary prev = Ok (ed_public k)
    ∧ receipt_made (re_validate env)
        (new_assignment (re_stamp env) k (ed_public bk) (or_amount r) h desc) k bk e.
Proof.
  unfold assign_receipt. intros Ha. apply bind_ok in Ha as ([] & _ & Ha).
  apply bind_ok in Ha as (b & Hb & Ha). apply bind_ok in Ha as ([] & Hk%ensure_ok & Ha).
  apply bool_decide_eq_true in Hk as ->. apply bind_ok in Ha as (p & Hp%in_context_ok & Ha).
  apply bind_ok in Ha as (r & Hr%in_context_ok & Ha). apply bind_ok in Ha as (h & Hh & Ha).
  apply bind_ok in Ha as ([] & Hv%in_context_ok & Ha). apply receipt_validate_ok in Hv.
  apply bind_ok in Ha as (b' & Hb'%in_context_ok & Ha%in_context_ok).
  eapply seal_receipt in Ha as (? & ? & ? & ?); [|done]. exists r, h.
  split_and!; [by exists p|done|done|by constructor].
Qed.

(** ** Extending a chain *)

Lemma acceptable_later now now' r :
  acceptable now r → (or_created_at r ≤ wrapping_add64 (default 0%N now') 300)%N → acceptable now' r.
Proof. intros [? ? ? _] ?. by constructor. Qed.

Lemma create_starts_chain clock env sk bk amount desc e :
  create_receipt env sk (ed_public bk) amount desc = Ok e →
  (default 0%N (re_stamp env) ≤ wrapping_add64 (default 0%N (clock 0%nat)) 300)%N →
  ownership_chain clock [e] [bk] [new_origin (re_stamp env) sk (ed_public bk) amount desc].
Proof.
  intros [Hv Hh Hacc [Hi _] [Hb _]]%create_receipt_made Ht.
  constructor; try done.
  - intros [|i] e' k r [= <-] [= <-] [= <-]. split; [done|]. by eapply acceptable_later.
  - by intros r [= <-].
  - intros [|i] e' r [= <-] [= <-]. done.
Qed.

Lemma lookup_last {A} (l : list A) x n : n = length l → (l ++ [x]) !! n = Some x.
Proof. intros ->. apply lookup_snoc_Some. by right. Qed.

Lemma snoc_of_length {A} (l : list A) n : length l = S n → ∃ l' x, l = l' ++ [x] ∧ length l' = n.
Proof.
  destruct l as [|x l' _] using rev_ind; [done|]. rewrite length_app, Nat.add_1_r. intros [= <-]. eauto.
Qed.

Lemma assign_extends_chain clock env es ks rs e k bk desc e' :
  ownership_chain clock (es ++ [e]) (ks ++ [k]) rs →
  assign_receipt env e k (ed_public bk) desc = Ok e' →
  (default 0%N (re_stamp env) ≤ wrapping_add64 (default 0%N (clock (S (length es))%nat)) 300)%N →
  ∃ r', ownership_chain clock (es ++ [e; e']) (ks ++ [k; bk]) (rs ++ [r'])
    ∧ ∀ r, last rs = Some r → or_amount r' = or_amount r.
Proof.
  intros [_ Hlk Hlr Hh Ho Hlink Hpart] (r & h & Hhold & Hhash & Hbe & [Hv' Hh' Hacc [Hi' _] [Hb' _]])%assign_receipt_made Ht.
  set (r' := new_assignment _ _ _ _ _ _) in *. exists r'.
  rewrite ?length_app in Hlr. rewrite length_app, (length_app es) in Hlk. cbn in Hlk, Hlr.
  assert (length ks = length es) as Hlk' by lia.
  destruct (snoc_of_length rs (length es)) as (rs0 & r0 & -> & Hl0); [lia|].
  assert (r0 = r) as ->.
  { eapply holds_unique; [|exact Hhold]. apply (Hh (length es)); by apply lookup_last. }
  assert (or_beneficiary r = ed_public k) as Hbr.
  { destruct (Hpart (length es) e r) as [_ Hb]; [by apply lookup_last..|].
    rewrite Hbe in Hb. by apply Ok_inj in Hb. }
  split; [|by intros r1; rewrite last_snoc; intros [= <-]].
  rewrite !(cons_middle _ _ [_]), !(app_assoc _ [_] [_]).
  assert (length (rs0 ++ [r]) = length (es ++ [e]) ∧ length (ks ++ [k]) = length (es ++ [e])
    ∧ length (es ++ [e]) = S (length es)) as (Hla & Hlb & Hlc)
    by (rewrite !length_app; cbn; lia).
  constructor.
  - by destruct es.
  - rewrite length_app, (length_app (es ++ _)), Hlb. done.
  - rewrite length_app, (length_app (es ++ _)), Hla. done.
  - intros i x kx rx. rewrite !(lookup_snoc_Some _ (_ ++ [_])), Hla, Hlb.
    intros [[? Hx]|[-> <-]] [[? Hk]|[? <-]] [[? Hr]|[? <-]]; try lia; [by eapply Hh|].
    split; [done|]. eapply acceptable_later; [done|]. by rewrite Hlc.
  - intros rx. rewrite lookup_snoc_Some. intros [[_ Hr]|[? _]]; [by apply Ho|]. lia.
  - intros i x rx ry. rewrite !(lookup_snoc_Some _ (_ ++ [_])), Hla.
    intros [[? Hx]|[-> <-]] [[? Hr]|[? <-]] [[? Hr']|[Hi <-]]; try lia; [by eapply Hlink|].
    assert (i = length es) as -> by lia. rewrite lookup_last in Hx by done. rewrite lookup_last in Hr by done.
    injection Hx as <-. injection Hr as <-. split_and!; [by exists h|done|done].
  - intros i x rx. rewrite !(lookup_snoc_Some _ (_ ++ [_])), Hla.
    intros [[? Hx]|[-> <-]] [[? Hr]|[? <-]]; try lia; [by eapply Hpart|done].
Qed.

(** ** What an accepted chain fixes *)

Lemma chain_amount clock es ks rs i r r0 :
  ownership_chain clock es ks rs → rs !! 0 = Some r0 → rs !! i = Some r → or_amount r = or_amount r0.
Proof.
  intros Hc Hr0. revert r. induction i as [|i IH]; intros r Hr; [congruence|].
  destruct (lookup_lt_is_Some_2 rs i) as [r1 Hr1]; [apply lookup_lt_Some in Hr; lia|].
  destruct (lookup_lt_is_Some_2 es i) as [e He].
  { apply lookup_lt_Some in Hr. rewrite <-(vc_receipts _ _ _ _ Hc). lia. }
  destruct (vc_link _ _ _ _ Hc i e r1 r) as (_ & _ & ->); [done..|]. by apply IH.
Qed.

Lemma ownership_chain_init clock es e ks k rs r :
  es ≠ [] → ownership_chain clock (es ++ [e]) (ks ++ [k]) (rs ++ [r]) → ownership_chain clock es ks rs.
Proof.
  intros Hne [_ Hlk Hlr Hh Ho Hlink Hpart]. rewrite length_app, (length_app es) in Hlk, Hlr. cbn in *.
  constructor; [done|lia|lia|..]; intros *.
  - intros. apply Hh; by apply lookup_app_l_Some.
  - intros. apply Ho. by apply lookup_app_l_Some.
  - intros. apply (Hlink i); by apply lookup_app_l_Some.
  - intros. apply (Hpart i); by apply lookup_app_l_Some.
Qed.

(** The keys of a verifier who looks them up by beneficiary. *)
Definition keys_for (dir : bytes → bytes) (es : list Envelope) : list bytes :=
  (λ e, dir (env_beneficiary_key e)) <$> es.

(** The last receipt is the origin, or names the envelope before it. *)
Lemma chain_predecessor clock es e ks k rs r :
  length rs = length es → ownership_chain clock (es ++ [e]) (ks ++ [k]) (rs ++ [r]) →
  (es = [] ∧ or_prev_envelope_hash r = None)
  ∨ ∃ x h, last es = Some x ∧ env_hash x = Ok h ∧ or_prev_envelope_hash r = Some h.
Proof.
  intros Hl Hc. destruct es as [|x es _] using rev_ind.
  - left. destruct rs; [|done]. split; [done|]. by apply (vc_origin _ _ _ _ Hc).
  - right. rewrite length_app, Nat.add_1_r in Hl. apply snoc_of_length in Hl as (rs0 & r0 & -> & Hl).
    destruct (vc_link _ _ _ _ Hc (length es) x r0 r) as ((h & Hh & Hp) & _).
    + apply lookup_app_l_Some. by apply lookup_last.
    + apply lookup_app_l_Some. by apply lookup_last.
    + apply lookup_last. rewrite length_app. cbn. lia.
    + exists x, h. by rewrite last_snoc.
Qed.

Lemma chain_determined dir clock clock' es es' rs rs' :
  ownership_chain clock es (keys_for dir es) rs → ownership_chain clock' es' (keys_for dir es') rs' →
  last es = last es' → es = es' ∨ Collision.
Proof.
  revert es' rs rs'. induction es as [|e es IH] using rev_ind; intros es' rs rs' Hc Hc' Hlast.
  { by destruct (vc_nonempty _ _ _ _ Hc). }
  destruct es' as [|e1 es' _] using rev_ind; [by destruct (vc_nonempty _ _ _ _ Hc')|].
  rewrite !last_snoc in Hlast. injection Hlast as <-.
  pose proof (vc_receipts _ _ _ _ Hc) as Hl. pose proof (vc_receipts _ _ _ _ Hc') as Hl'.
  rewrite length_app, Nat.add_1_r in Hl, Hl'.
  apply snoc_of_length in Hl as (rs0 & r & -> & Hl), Hl' as (rs0' & r' & -> & Hl').
  unfold keys_for in Hc, Hc'. rewrite fmap_app in Hc, Hc'. cbn [fmap list_fmap] in Hc, Hc'.
  fold (keys_for dir es) in Hc. fold (keys_for dir es') in Hc'.
  assert (length (keys_for dir es) = length es) as Hk by apply length_fmap.
  assert (length (keys_for dir es') = length es') as Hk' by apply length_fmap.
  assert (r = r') as <-.
  { destruct (vc_holds _ _ _ _ Hc (length es) e (dir (env_beneficiary_key e)) r) as [Hh _];
      [by apply lookup_last..|].
    destruct (vc_holds _ _ _ _ Hc' (length es') e (dir (env_beneficiary_key e)) r') as [Hh' _];
      [by apply lookup_last..|]. by eapply holds_unique. }
  destruct (chain_predecessor _ _ _ _ _ _ _ Hl Hc) as [(-> & Hn)|(x & h & Hx & Hh & Hp)];
    destruct (chain_predecessor _ _ _ _ _ _ _ Hl' Hc') as [(-> & Hn')|(x' & h' & Hx' & Hh' & Hp')];
    try congruence; [by left|].
  assert (h' = h) as -> by congruence. destruct (env_hash_inj x x' h Hh Hh') as [->|?]; [|by right].
  destruct (IH es' rs0 rs0') as [->|?]; [..|by left|by right].
  - eapply ownership_chain_init; [|exact Hc]. by intros ->.
  - eapply ownership_chain_init; [|exact Hc']. by intros ->.
  - congruence.
Qed.

(** Every accepted chain passes the public screen. *)
Lemma chain_public clock es ks rs : ownership_chain clock es ks rs → verify_signature_chain es = true.
Proof.
  intros [Hne Hlk Hlr Hh Ho Hlink Hpart]. unfold verify_signature_chain. destruct es as [|e0 es0] eqn:Ees; [done|].
  rewrite <-Ees in *. clear Hne. apply andb_true_iff. split.
  - apply forallb_Forall, Forall_lookup. intros i e He.
    destruct (lookup_lt_is_Some_2 ks i) as [k Hk]; [rewrite Hlk; by eapply lookup_lt_Some|].
    destruct (lookup_lt_is_Some_2 rs i) as [r Hr]; [rewrite Hlr; by eapply lookup_lt_Some|].
    destruct (Hh _ _ _ _ He Hk Hr) as [(p & Hu & _) _]. unfold unseal in Hu. by inv_ok.
  - unfold linked_by. apply forallb_Forall, Forall_lookup. intros i [p c] [Hp Hc]%lookup_zip_Some.
    rewrite lookup_tail in Hc.
    destruct (lookup_lt_is_Some_2 rs i) as [r Hr]; [rewrite Hlr; by eapply lookup_lt_Some|].
    destruct (lookup_lt_is_Some_2 rs (S i)) as [r' Hr']; [rewrite Hlr; by eapply lookup_lt_Some|].
    destruct (Hpart _ _ _ Hp Hr) as [_ ->], (Hpart _ _ _ Hc Hr') as [-> _].
    apply bool_decide_eq_true. by destruct (Hlink _ _ _ _ Hp Hr Hr') as (_ & ? & _).
Qed.
End Receipts.
