(* ===== verification/Manifest.v ===== *)
(** * The archive manifest

    crates/seal-protocols/src/archive/manifest.rs: the manifest types, the
    constructors for each profile, the canonical serialization that is signed
    and hashed ([to_canonical_bytes]), and the structural validation
    ([validate]).  Record fields carry a prefix per struct; [BTreeMap] labels
    are their key/value pairs in iteration (key) order. *)

From S2P Require Import Prelude Json Float64.

Inductive ManifestFormatError :=
  | Serialization (msg : bytes)
  | InvalidField (msg : bytes).

(** ** Profile metadata *)

Abbreviation labels_map := (list (bytes * bytes)) (only parsing).

Record GenericMetadata := mkGenericMetadata {
  gm_started_at : bytes;
  gm_ended_at : bytes;
  gm_data_type : option bytes;
  gm_source : option bytes;
  gm_description : option bytes;
  gm_mime_type : option bytes;
  gm_labels : labels_map;
}.

Record CamVideoMetadata := mkCamVideoMetadata {
  cv_started_at : bytes;
  cv_ended_at : bytes;
  cv_timezone : bytes;
  cv_fps : f64;
  cv_resolution : bytes;
  cv_codec : bytes;
}.

Record SensorMetadata := mkSensorMetadata {
  sn_started_at : bytes;
  sn_ended_at : bytes;
  sn_sample_rate_hz : f64;
  sn_unit : bytes;
  sn_sensor_model : bytes;
  sn_latitude : option f64;
  sn_longitude : option f64;
  sn_altitude : option f64;
  sn_labels : labels_map;
}.

Record AudioMetadata := mkAudioMetadata {
  au_started_at : bytes;
  au_ended_at : bytes;
  au_sample_rate_hz : N; (* u32 *)
  au_bit_depth : N; (* u16 *)
  au_channels : N; (* u8 *)
  au_codec : bytes;
}.

Record LogMetadata := mkLogMetadata {
  lg_started_at : bytes;
  lg_ended_at : bytes;
  lg_application : bytes;
  lg_host : bytes;
  lg_log_level : bytes;
  lg_log_format : bytes;
}.

Inductive ProfileMetadata :=
  | CamVideo (m : CamVideoMetadata)
  | Sensor (m : SensorMetadata)
  | Audio (m : AudioMetadata)
  | Log (m : LogMetadata)
  | Generic (m : GenericMetadata).

(** ** Supporting structs *)

Record DeviceInfo := mkDeviceInfo {
  dev_id : bytes;
  dev_model : bytes;
  dev_firmware_version : bytes;
  dev_public_key : bytes;
  dev_key_agreement_public : option bytes;
  dev_key_epoch : option N; (* u32 *)
}.

Record ChunkInfo := mkChunkInfo {
  size_bytes : N; (* u64 *)
  chunk_duration_seconds : f64;
}.

Record SegmentInfo := mkSegmentInfo {
  chunk_file : bytes;
  blake3_hash : bytes;
  start_time : bytes;
  duration_seconds : f64;
  continuity_hash : bytes;
}.

Record HpkeSuite := mkHpkeSuite {
  hpke_kem : bytes;
  hpke_kdf : bytes;
  hpke_aead : bytes;
}.

Record RecipientEntry := mkRecipientEntry {
  recipient_id : bytes;
  recipient_pub : bytes;
  enc : bytes;
  wrapped_cek : bytes;
}.

Record EncryptionBlock := mkEncryptionBlock {
  content_aead : bytes;
  hpke : HpkeSuite;
  recipients : list RecipientEntry;
}.

Record TrstManifest := mkTrstManifest {
  trst_version : bytes;
  profile : bytes;
  device : DeviceInfo;
  metadata : ProfileMetadata;
  chunk : ChunkInfo;
  segments : list SegmentInfo;
  claims : list bytes;
  encryption : option EncryptionBlock;
  sequence : option N; (* u64 *)
  prev_archive_hash : option bytes;
  signature : option bytes;
}.

(** Manifests are compared field by field. *)
Global Instance generic_metadata_eq_dec : EqDecision GenericMetadata.
Proof. solve_decision. Defined.
Global Instance cam_video_metadata_eq_dec : EqDecision CamVideoMetadata.
Proof. solve_decision. Defined.
Global Instance sensor_metadata_eq_dec : EqDecision SensorMetadata.
Proof. solve_decision. Defined.
Global Instance audio_metadata_eq_dec : EqDecision AudioMetadata.
Proof. solve_decision. Defined.
Global Instance log_metadata_eq_dec : EqDecision LogMetadata.
Proof. solve_decision. Defined.
Global Instance profile_metadata_eq_dec : EqDecision ProfileMetadata.
Proof. solve_decision. Defined.
Global Instance device_info_eq_dec : EqDecision DeviceInfo.
Proof. solve_decision. Defined.
Global Instance chunk_info_eq_dec : EqDecision ChunkInfo.
Proof. solve_decision. Defined.
Global Instance segment_info_eq_dec : EqDecision SegmentInfo.
Proof. solve_decision. Defined.
Global Instance hpke_suite_eq_dec : EqDecision HpkeSuite.
Proof. solve_decision. Defined.
Global Instance recipient_entry_eq_dec : EqDecision RecipientEntry.
Proof. solve_decision. Defined.
Global Instance encryption_block_eq_dec : EqDecision EncryptionBlock.
Proof. solve_decision. Defined.
Global Instance trst_manifest_eq_dec : EqDecision TrstManifest.
Proof. solve_decision. Defined.

(** ** Constructors *)

Definition default_device (model : string) : DeviceInfo :=
  mkDeviceInfo [] (lit model) (lit "1.0.0") [] None None.
Definition default_chunk : ChunkInfo := mkChunkInfo 1048576 (f64_of_Z 2).

Definition new : TrstManifest :=
  mkTrstManifest (lit "0.2.0") (lit "generic") (default_device "TrustEdgeRefCam")
    (Generic (mkGenericMetadata [] [] None None None None []))
    default_chunk [] [] None None None None.

Definition new_cam_video : TrstManifest :=
  mkTrstManifest (lit "0.2.0") (lit "cam.video") (default_device "TrustEdgeRefCam")
    (CamVideo (mkCamVideoMetadata [] [] (lit "UTC") (f64_of_Z 30) (lit "1920x1080") (lit "raw")))
    default_chunk [] [] None None None None.

Definition new_sensor : TrstManifest :=
  mkTrstManifest (lit "0.2.0") (lit "sensor") (default_device "TrustEdgeRefSensor")
    (Sensor (mkSensorMetadata [] [] (f64_of_Z 100) [] [] None None None []))
    default_chunk [] [] None None None None.

Definition new_audio : TrstManifest :=
  mkTrstManifest (lit "0.2.0") (lit "audio") (default_device "TrustEdgeRefAudio")
    (Audio (mkAudioMetadata [] [] 44100 16 2 (lit "pcm")))
    default_chunk [] [] None None None None.

Definition new_log : TrstManifest :=
  mkTrstManifest (lit "0.2.0") (lit "log") (default_device "TrustEdgeRefLog")
    (Log (mkLogMetadata [] [] [] [] (lit "info") (lit "json")))
    default_chunk [] [] None None None None.

Definition set_sig (s : option bytes) (m : TrstManifest) : TrstManifest :=
  mkTrstManifest (trst_version m) (profile m) (device m) (metadata m) (chunk m)
    (segments m) (claims m) (encryption m) (sequence m) (prev_archive_hash m) s.
Definition set_signature (s : bytes) (m : TrstManifest) : TrstManifest := set_sig (Some s) m.

(** ** Canonical serialization *)

(** ["k":] and [,"k":] *)
Definition jkey (k : string) : bytes := dquote :: lit k ++ [dquote; colon].
Definition ckey (k : string) : bytes := comma :: jkey k.

Section Serialize.
Context `{SerdeJson}.

(** [if let Some(v) = o { push ,"k":v }] *)
Definition opt_member {A} (k : string) (f : A → bytes) (o : option A) : bytes :=
  match o with Some v => ckey k ++ f v | None => [] end.

Definition serialize_device (d : DeviceInfo) : bytes :=
  ckey "device" ++ [lbrace]
  ++ jkey "id" ++ json_str (dev_id d)
  ++ ckey "model" ++ json_str (dev_model d)
  ++ ckey "firmware_version" ++ json_str (dev_firmware_version d)
  ++ ckey "public_key" ++ json_str (dev_public_key d)
  ++ opt_member "key_agreement_public" json_str (dev_key_agreement_public d)
  ++ match dev_key_epoch d with
     | Some epoch => if (0 <? epoch)%N then ckey "key_epoch" ++ fmt_N epoch else []
     | None => []
     end
  ++ [rbrace].

(** The sorted label object, omitted when empty. *)
Definition serialize_labels (ls : labels_map) : bytes :=
  match ls with
  | [] => []
  | _ => ckey "labels" ++ [lbrace]
         ++ commas ((λ kv, json_str kv.1 ++ colon :: json_str kv.2) <$> ls) ++ [rbrace]
  end.

Definition serialize_cam_video (m : CamVideoMetadata) : bytes :=
  ckey "metadata" ++ [lbrace]
  ++ jkey "started_at" ++ json_str (cv_started_at m)
  ++ ckey "ended_at" ++ json_str (cv_ended_at m)
  ++ ckey "timezone" ++ json_str (cv_timezone m)
  ++ ckey "fps" ++ fmt_f64 (cv_fps m)
  ++ ckey "resolution" ++ json_str (cv_resolution m)
  ++ ckey "codec" ++ json_str (cv_codec m)
  ++ [rbrace].

Definition serialize_sensor (m : SensorMetadata) : bytes :=
  ckey "metadata" ++ [lbrace]
  ++ jkey "started_at" ++ json_str (sn_started_at m)
  ++ ckey "ended_at" ++ json_str (sn_ended_at m)
  ++ ckey "sample_rate_hz" ++ fmt_f64 (sn_sample_rate_hz m)
  ++ ckey "unit" ++ json_str (sn_unit m)
  ++ ckey "sensor_model" ++ json_str (sn_sensor_model m)
  ++ opt_member "latitude" fmt_f64 (sn_latitude m)
  ++ opt_member "longitude" fmt_f64 (sn_longitude m)
  ++ opt_member "altitude" fmt_f64 (sn_altitude m)
  ++ serialize_labels (sn_labels m)
  ++ [rbrace].

Definition serialize_audio (m : AudioMetadata) : bytes :=
  ckey "metadata" ++ [lbrace]
  ++ jkey "started_at" ++ json_str (au_started_at m)
  ++ ckey "ended_at" ++ json_str (au_ended_at m)
  ++ ckey "sample_rate_hz" ++ fmt_N (au_sample_rate_hz m)
  ++ ckey "bit_depth" ++ fmt_N (au_bit_depth m)
  ++ ckey "channels" ++ fmt_N (au_channels m)
  ++ ckey "codec" ++ json_str (au_codec m)
  ++ [rbrace].

Definition serialize_log (m : LogMetadata) : bytes :=
  ckey "metadata" ++ [lbrace]
  ++ jkey "started_at" ++ json_str (lg_started_at m)
  ++ ckey "ended_at" ++ json_str (lg_ended_at m)
  ++ ckey "application" ++ json_str (lg_application m)
  ++ ckey "host" ++ json_str (lg_host m)
  ++ ckey "log_level" ++ json_str (lg_log_level m)
  ++ ckey "log_format" ++ json_str (lg_log_format m)
  ++ [rbrace].

Definition serialize_generic (m : GenericMetadata) : bytes :=
  ckey "metadata" ++ [lbrace]
  ++ jkey "started_at" ++ json_str (gm_started_at m)
  ++ ckey "ended_at" ++ json_str (gm_ended_at m)
  ++ opt_member "data_type" json_str (gm_data_type m)
  ++ opt_member "source" json_str (gm_source m)
  ++ opt_member "description" json_str (gm_description m)
  ++ opt_member "mime_type" json_str (gm_mime_type m)
  ++ serialize_labels (gm_labels m)
  ++ [rbrace].

Definition serialize_metadata (pm : ProfileMetadata) : bytes :=
  match pm with
  | CamVideo m => serialize_cam_video m
  | Sensor m => serialize_sensor m
  | Audio m => serialize_audio m
  | Log m => serialize_log m
  | Generic m => serialize_generic m
  end.

Definition serialize_chunk (c : ChunkInfo) : bytes :=
  ckey "chunk" ++ [lbrace]
  ++ jkey "size_bytes" ++ fmt_N (size_bytes c)
  ++ ckey "duration_seconds" ++ fmt_f64 (chunk_duration_seconds c)
  ++ [rbrace].

Definition serialize_segment (s : SegmentInfo) : bytes :=
  [lbrace]
  ++ jkey "chunk_file" ++ json_str (chunk_file s)
  ++ ckey "blake3_hash" ++ json_str (blake3_hash s)
  ++ ckey "start_time" ++ json_str (start_time s)
  ++ ckey "duration_seconds" ++ fmt_f64 (duration_seconds s)
  ++ ckey "continuity_hash" ++ json_str (continuity_hash s)
  ++ [rbrace].

Definition serialize_segments (l : list SegmentInfo) : bytes :=
  ckey "segments" ++ [lbracket] ++ commas (serialize_segment <$> l) ++ [rbracket].

Definition serialize_recipient (r : RecipientEntry) : bytes :=
  [lbrace]
  ++ jkey "recipient_id" ++ json_str (recipient_id r)
  ++ ckey "recipient_pub" ++ json_str (recipient_pub r)
  ++ ckey "enc" ++ json_str (enc r)
  ++ ckey "wrapped_cek" ++ json_str (wrapped_cek r)
  ++ [rbrace].

Definition serialize_encryption (e : EncryptionBlock) : bytes :=
  ckey "encryption" ++ [lbrace]
  ++ jkey "content_aead" ++ json_str (content_aead e)
  ++ ckey "hpke" ++ [lbrace]
  ++ jkey "kem" ++ json_str (hpke_kem (hpke e))
  ++ ckey "kdf" ++ json_str (hpke_kdf (hpke e))
  ++ ckey "aead" ++ json_str (hpke_aead (hpke e))
  ++ [rbrace]
  ++ ckey "recipients" ++ [lbracket]
  ++ commas (serialize_recipient <$> recipients e) ++ [rbracket]
  ++ [rbrace].

Definition serialize_canonical (m : TrstManifest) : result ManifestFormatError bytes :=
  Ok ([lbrace]
    ++ jkey "trst_version" ++ json_str (trst_version m)
    ++ ckey "profile" ++ json_str (profile m)
    ++ serialize_device (device m)
    ++ serialize_metadata (metadata m)
    ++ serialize_chunk (chunk m)
    ++ serialize_segments (segments m)
    ++ ckey "claims" ++ json_str_vec (claims m)
    ++ match encryption m with Some e => serialize_encryption e | None => [] end
    ++ opt_member "sequence" fmt_N (sequence m)
    ++ opt_member "prev_archive_hash" json_str (prev_archive_hash m)
    ++ [rbrace]).

Definition to_canonical_bytes (m : TrstManifest) : result ManifestFormatError bytes :=
  serialize_canonical (set_sig None m).
End Serialize.

(** ** Validation *)

Abbreviation invalid_field msg := (InvalidField (lit msg)) (only parsing).

(** [if s.is_empty() { return Err(InvalidField(msg)) }] *)
Definition require (s : bytes) (msg : string) : result ManifestFormatError unit :=
  ensure (negb (is_empty s)) (InvalidField (lit msg)).

Definition known_profiles : list bytes :=
  [lit "generic"; lit "cam.video"; lit "sensor"; lit "audio"; lit "log"].

Definition validate_times (started ended : bytes) : result ManifestFormatError unit :=
  require started "metadata.started_at cannot be empty" ≫= λ _,
  require ended "metadata.ended_at cannot be empty".

Definition validate_metadata (pm : ProfileMetadata) : result ManifestFormatError unit :=
  match pm with
  | CamVideo m => validate_times (cv_started_at m) (cv_ended_at m)
  | Sensor m =>
      validate_times (sn_started_at m) (sn_ended_at m) ≫= λ _,
      ensure (negb (f64_le (sn_sample_rate_hz m) f64_zero))
        (InvalidField (lit "metadata.sample_rate_hz must be > 0")) ≫= λ _,
      require (sn_unit m) "metadata.unit cannot be empty" ≫= λ _,
      require (sn_sensor_model m) "metadata.sensor_model cannot be empty"
  | Audio m =>
      validate_times (au_started_at m) (au_ended_at m) ≫= λ _,
      ensure (negb (au_sample_rate_hz m =? 0)%N)
        (InvalidField (lit "metadata.sample_rate_hz must be > 0")) ≫= λ _,
      ensure (negb (au_bit_depth m =? 0)%N)
        (InvalidField (lit "metadata.bit_depth must be > 0")) ≫= λ _,
      ensure (negb (au_channels m =? 0)%N)
        (InvalidField (lit "metadata.channels must be > 0")) ≫= λ _,
      require (au_codec m) "metadata.codec cannot be empty"
  | Log m =>
      validate_times (lg_started_at m) (lg_ended_at m) ≫= λ _,
      require (lg_application m) "metadata.application cannot be empty" ≫= λ _,
      require (lg_host m) "metadata.host cannot be empty" ≫= λ _,
      require (lg_log_level m) "metadata.log_level cannot be empty" ≫= λ _,
      require (lg_log_format m) "metadata.log_format cannot be empty"
  | Generic m => validate_times (gm_started_at m) (gm_ended_at m)
  end.

Definition segment_msg (i : nat) (rest : string) : bytes :=
  lit "segment[" ++ fmt_nat i ++ lit "]." ++ lit rest.

Definition validate_segment (p : nat * SegmentInfo) : result ManifestFormatError unit :=
  let '(i, s) := p in
  ensure (negb (is_empty (chunk_file s)))
    (InvalidField (segment_msg i "chunk_file cannot be empty")) ≫= λ _,
  ensure (negb (is_empty (blake3_hash s)))
    (InvalidField (segment_msg i "blake3_hash cannot be empty")) ≫= λ _,
  ensure (negb (is_empty (continuity_hash s)))
    (InvalidField (segment_msg i "continuity_hash cannot be empty")).

Definition b3_prefix : bytes := lit "b3:".

(** [b3:] followed by exactly 64 hex digits. *)
Definition prev_hash_well_formed (prev : bytes) : bool :=
  match strip_prefix b3_prefix prev with
  | Some h => (length h =? 64)%nat && forallb is_ascii_hexdigit h
  | None => false
  end.

Definition validate_chronicle (seq : option N) (prev : option bytes)
    : result ManifestFormatError unit :=
  match seq, prev with
  | None, None => Ok tt
  | Some 0%N, None => Ok tt
  | None, Some _ => Err (invalid_field "prev_archive_hash requires a sequence")
  | Some 0%N, Some _ =>
      Err (invalid_field "genesis archive (sequence 0) must not set prev_archive_hash")
  | Some _, None => Err (invalid_field "sequence > 0 requires prev_archive_hash")
  | Some _, Some p =>
      ensure (prev_hash_well_formed p) (invalid_field "prev_archive_hash must be 'b3:<64 hex>'")
  end.

Definition validate (m : TrstManifest) : result ManifestFormatError unit :=
  require (trst_version m) "trst_version cannot be empty" ≫= λ _,
  ensure (bool_decide (profile m ∈ known_profiles))
    (InvalidField
       (lit "profile must be 'generic', 'cam.video', 'sensor', 'audio', or 'log', got '"
        ++ profile m ++ lit "'")) ≫= λ _,
  require (dev_id (device m)) "device.id cannot be empty" ≫= λ _,
  require (dev_public_key (device m)) "device.public_key cannot be empty" ≫= λ _,
  validate_metadata (metadata m) ≫= λ _,
  ensure (match segments m with [] => false | _ => true end)
    (invalid_field "segments cannot be empty") ≫= λ _,
  for_each validate_segment (enumerate (segments m)) ≫= λ _,
  match encryption m with
  | Some e =>
      ensure (match recipients e with [] => false | _ => true end)
        (invalid_field
          "encryption.recipients cannot be empty (use sign-only mode for no encryption)")
  | None => Ok tt
  end ≫= λ _,
  validate_chronicle (sequence m) (prev_archive_hash m) ≫= λ _,
  ensure (bool_decide (dev_key_epoch (device m) ≠ Some 0%N))
    (invalid_field
      "device.key_epoch must be >= 1 when present (epoch 0 is represented by absence)").
