(* ===== verification/ManifestCanon.v ===== *)
(** * The canonical form determines the manifest

    The bytes [to_canonical_bytes] returns are the print of a syntax tree
    ([manifest_json]); trees print injectively (Json.v) and the tree determines
    every field but the signature.  Also the specification of [validate]. *)

From S2P Require Import Prelude Json Float64 Manifest Reference.

(** ** The syntax tree of a manifest *)

Definition jfield {A} (k : string) (f : A → json) (x : A) : list (bytes * json) := [(lit k, f x)].
Definition jopt {A} (k : string) (f : A → json) (o : option A) : list (bytes * json) :=
  match o with Some x => [(lit k, f x)] | None => [] end.
Definition jN (n : N) : json := JTok (fmt_N n).
Definition jF (x : f64) : json := JTok (fmt_f64 x).

Definition epoch_member (o : option N) : option N :=
  match o with Some e => if (0 <? e)%N then Some e else None | None => None end.

Definition device_json (d : DeviceInfo) : json :=
  JObj (jfield "id" JStr (dev_id d) ++ jfield "model" JStr (dev_model d)
    ++ jfield "firmware_version" JStr (dev_firmware_version d)
    ++ jfield "public_key" JStr (dev_public_key d)
    ++ jopt "key_agreement_public" JStr (dev_key_agreement_public d)
    ++ jopt "key_epoch" jN (epoch_member (dev_key_epoch d))).

Definition labels_json (ls : labels_map) : list (bytes * json) :=
  match ls with
  | [] => []
  | _ => [(lit "labels", JObj ((λ kv, (kv.1, JStr kv.2)) <$> ls))]
  end.

Definition metadata_json (pm : ProfileMetadata) : json :=
  match pm with
  | CamVideo m => JObj (
      jfield "started_at" JStr (cv_started_at m) ++ jfield "ended_at" JStr (cv_ended_at m)
      ++ jfield "timezone" JStr (cv_timezone m) ++ jfield "fps" jF (cv_fps m)
      ++ jfield "resolution" JStr (cv_resolution m) ++ jfield "codec" JStr (cv_codec m))
  | Sensor m => JObj (
      jfield "started_at" JStr (sn_started_at m) ++ jfield "ended_at" JStr (sn_ended_at m)
      ++ jfield "sample_rate_hz" jF (sn_sample_rate_hz m) ++ jfield "unit" JStr (sn_unit m)
      ++ jfield "sensor_model" JStr (sn_sensor_model m)
      ++ jopt "latitude" jF (sn_latitude m) ++ jopt "longitude" jF (sn_longitude m)
      ++ jopt "altitude" jF (sn_altitude m) ++ labels_json (sn_labels m))
  | Audio m => JObj (
      jfield "started_at" JStr (au_started_at m) ++ jfield "ended_at" JStr (au_ended_at m)
      ++ jfield "sample_rate_hz" jN (au_sample_rate_hz m) ++ jfield "bit_depth" jN (au_bit_depth m)
      ++ jfield "channels" jN (au_channels m) ++ jfield "codec" JStr (au_codec m))
  | Log m => JObj (
      jfield "started_at" JStr (lg_started_at m) ++ jfield "ended_at" JStr (lg_ended_at m)
      ++ jfield "application" JStr (lg_application m) ++ jfield "host" JStr (lg_host m)
      ++ jfield "log_level" JStr (lg_log_level m) ++ jfield "log_format" JStr (lg_log_format m))
  | Generic m => JObj (
      jfield "started_at" JStr (gm_started_at m) ++ jfield "ended_at" JStr (gm_ended_at m)
      ++ jopt "data_type" JStr (gm_data_type m) ++ jopt "source" JStr (gm_source m)
      ++ jopt "description" JStr (gm_description m) ++ jopt "mime_type" JStr (gm_mime_type m)
      ++ labels_json (gm_labels m))
  end.

Definition chunk_json (c : ChunkInfo) : json :=
  JObj (jfield "size_bytes" jN (size_bytes c)
    ++ jfield "duration_seconds" jF (chunk_duration_seconds c)).

Definition segment_json (s : SegmentInfo) : json :=
  JObj (jfield "chunk_file" JStr (chunk_file s) ++ jfield "blake3_hash" JStr (blake3_hash s)
    ++ jfield "start_time" JStr (start_time s)
    ++ jfield "duration_seconds" jF (duration_seconds s)
    ++ jfield "continuity_hash" JStr (continuity_hash s)).

Definition recipient_json (r : RecipientEntry) : json :=
  JObj (jfield "recipient_id" JStr (recipient_id r) ++ jfield "recipient_pub" JStr (recipient_pub r)
    ++ jfield "enc" JStr (enc r) ++ jfield "wrapped_cek" JStr (wrapped_cek r)).

Definition hpke_json (h : HpkeSuite) : json :=
  JObj (jfield "kem" JStr (hpke_kem h) ++ jfield "kdf" JStr (hpke_kdf h)
    ++ jfield "aead" JStr (hpke_aead h)).

Definition encryption_json (e : EncryptionBlock) : json :=
  JObj (jfield "content_aead" JStr (content_aead e) ++ jfield "hpke" hpke_json (hpke e)
    ++ jfield "recipients" (λ l, JArr (recipient_json <$> l)) (recipients e)).

Definition manifest_json (m : TrstManifest) : json :=
  JObj (jfield "trst_version" JStr (trst_version m) ++ jfield "profile" JStr (profile m)
    ++ jfield "device" device_json (device m) ++ jfield "metadata" metadata_json (metadata m)
    ++ jfield "chunk" chunk_json (chunk m)
    ++ jfield "segments" (λ l, JArr (segment_json <$> l)) (segments m)
    ++ jfield "claims" (λ l, JArr (JStr <$> l)) (claims m)
    ++ jopt "encryption" encryption_json (encryption m)
    ++ jopt "sequence" jN (sequence m)
    ++ jopt "prev_archive_hash" JStr (prev_archive_hash m)).

(** ** The serializer prints that tree *)

(** The members after the first one, each with its comma. *)
Definition tail_members `{SerdeJson} (l : list (bytes * json)) : bytes :=
  mjoin ((λ y, comma :: y) <$> ((λ kv, json_str kv.1 ++ colon :: jprint kv.2) <$> l)).

Section Print.
Context `{SerdeJsonLaws}.

Lemma tail_members_app l1 l2 :
  tail_members (l1 ++ l2) = tail_members l1 ++ tail_members l2.
Proof. unfold tail_members. by rewrite !fmap_app, join_app. Qed.

Lemma jprint_obj k v l :
  jprint (JObj ([(k, v)] ++ l)) =
  lbrace :: (json_str k ++ colon :: jprint v) ++ tail_members l ++ [rbrace].
Proof. cbn [jprint List.map app commas fst snd]. by rewrite <-app_assoc. Qed.

Lemma plain_key k : forallb plain_byte (lit k) = true →
  json_str (lit k) = dquote :: lit k ++ [dquote].
Proof. apply json_str_plain. Qed.

Lemma jkey_app k r : forallb plain_byte (lit k) = true →
  json_str (lit k) ++ colon :: r = jkey k ++ r.
Proof.
  intros. rewrite plain_key by done. unfold jkey. simpl. by rewrite <-!app_assoc.
Qed.

Lemma tail_field {A} k (f : A → json) x : forallb plain_byte (lit k) = true →
  tail_members (jfield k f x) = ckey k ++ jprint (f x).
Proof.
  intros. unfold tail_members, jfield. simpl. rewrite jkey_app by done.
  by rewrite app_nil_r.
Qed.

Lemma tail_opt {A} k (f : A → json) (g : A → bytes) o :
  forallb plain_byte (lit k) = true → (∀ x, jprint (f x) = g x) →
  tail_members (jopt k f o) = opt_member k g o.
Proof.
  intros ? Hg. destruct o as [x|]; [|done].
  change (tail_members (jopt k f (Some x))) with (tail_members (jfield k f x)).
  rewrite tail_field by done. simpl. by rewrite Hg.
Qed.

Lemma obj_first {A} k (f : A → json) x l : forallb plain_byte (lit k) = true →
  jprint (JObj (jfield k f x ++ l)) = lbrace :: jkey k ++ jprint (f x) ++ tail_members l ++ [rbrace].
Proof.
  intros. unfold jfield. rewrite jprint_obj, jkey_app by done. by rewrite <-app_assoc.
Qed.

Lemma tail_labels ls : tail_members (labels_json ls) = serialize_labels ls.
Proof.
  destruct ls as [|kv ls]; [done|]. unfold labels_json, serialize_labels.
  change (tail_members [(lit "labels", ?v)]) with (tail_members (jfield "labels" id v)).
  rewrite tail_field by done. f_equal. unfold id. cbn [jprint]. do 2 f_equal.
  f_equal. induction (kv :: ls) as [|x l IH]; simpl; [done|]. f_equal. apply IH.
Qed.

Lemma jprint_arr {A} (f : A → json) (g : A → bytes) l : (∀ x, jprint (f x) = g x) →
  jprint (JArr (f <$> l)) = lbracket :: commas (g <$> l) ++ [rbracket].
Proof.
  intros Hg. cbn [jprint]. do 2 f_equal. f_equal.
  induction l as [|x l IH]; simpl; [done|]. rewrite Hg. f_equal. apply IH.
Qed.

Lemma jprint_str s : jprint (JStr s) = json_str s.
Proof. done. Qed.
Lemma jprint_tok t : jprint (JTok t) = t.
Proof. done. Qed.
End Print.

(** Rewrite a printed object into the concatenation the sources build. *)
Ltac print_obj :=
  rewrite obj_first by reflexivity;
  repeat (rewrite tail_members_app);
  repeat first
    [ rewrite tail_field by reflexivity
    | rewrite tail_labels
    | erewrite tail_opt by first [reflexivity | intros; reflexivity] ];
  unfold jN, jF; rewrite ?jprint_str, ?jprint_tok, <-?app_assoc.

Section PrintManifest.
Context `{SerdeJsonLaws}.

Lemma device_print d : serialize_device d = ckey "device" ++ jprint (device_json d).
Proof.
  unfold serialize_device, device_json. print_obj. cbn [app].
  do 9 f_equal. f_equal. destruct (dev_key_epoch d) as [e|]; [|done]. simpl.
  by destruct (0 <? e)%N.
Qed.

Lemma metadata_print pm : serialize_metadata pm = ckey "metadata" ++ jprint (metadata_json pm).
Proof.
  destruct pm; unfold serialize_metadata, serialize_cam_video, serialize_sensor,
    serialize_audio, serialize_log, serialize_generic, metadata_json; print_obj; done.
Qed.

Lemma chunk_print c : serialize_chunk c = ckey "chunk" ++ jprint (chunk_json c).
Proof. unfold serialize_chunk, chunk_json. print_obj. done. Qed.

Lemma segment_print s : jprint (segment_json s) = serialize_segment s.
Proof. unfold serialize_segment, segment_json. print_obj. done. Qed.

Lemma recipient_print r : jprint (recipient_json r) = serialize_recipient r.
Proof. unfold serialize_recipient, recipient_json. print_obj. done. Qed.

Lemma encryption_print e : serialize_encryption e = ckey "encryption" ++ jprint (encryption_json e).
Proof.
  unfold serialize_encryption, encryption_json. print_obj.
  rewrite (jprint_arr _ _ _ recipient_print).
  unfold hpke_json. print_obj. cbn [app]. by rewrite <-?app_assoc.
Qed.

Lemma canonical_print m : serialize_canonical m = Ok (jprint (manifest_json m)).
Proof.
  unfold serialize_canonical, manifest_json. f_equal. print_obj.
  rewrite (jprint_arr _ _ _ segment_print), (jprint_arr JStr json_str) by done.
  rewrite <-json_str_vec_spec, device_print, metadata_print, chunk_print.
  unfold serialize_segments. rewrite <-?app_assoc. cbn [app].
  rewrite <-?app_assoc. destruct (encryption m) as [e|]; rewrite ?encryption_print; simpl;
    by rewrite <-?app_assoc.
Qed.

Lemma to_canonical_bytes_print m :
  to_canonical_bytes m = Ok (jprint (manifest_json (set_sig None m))).
Proof. exact (canonical_print (set_sig None m)). Qed.
End PrintManifest.

(** ** The tree determines the fields *)

(** The floats of a manifest, each of which must read back from its print. *)
Definition metadata_floats (pm : ProfileMetadata) : list f64 :=
  match pm with
  | CamVideo m => [cv_fps m]
  | Sensor m =>
      sn_sample_rate_hz m
      :: option_list (sn_latitude m) ++ option_list (sn_longitude m) ++ option_list (sn_altitude m)
  | _ => []
  end.
Definition manifest_floats (m : TrstManifest) : list f64 :=
  metadata_floats (metadata m) ++ [chunk_duration_seconds (chunk m)]
  ++ (duration_seconds <$> segments m).
Definition floats_ok (m : TrstManifest) : bool := forallb f64_reads_back (manifest_floats m).

Definition floats_ok_meta (pm : ProfileMetadata) : bool := forallb f64_reads_back (metadata_floats pm).

(** No member of [l] has key [k]. *)
Definition no_key (k : string) (l : list (bytes * json)) : Prop :=
  Forall (λ kv, kv.1 ≠ lit k) l.

Lemma no_key_nil k : no_key k [].
Proof. constructor. Qed.
Lemma no_key_app k l1 l2 : no_key k l1 → no_key k l2 → no_key k (l1 ++ l2).
Proof. intros. by apply Forall_app. Qed.
Lemma no_key_opt {A} k k' (f : A → json) o : k ≠ k' → no_key k (jopt k' f o).
Proof.
  intros Hne. destruct o; repeat constructor. simpl. intros Heq%lit_inj. congruence.
Qed.
Lemma no_key_labels k ls : k ≠ "labels" → no_key k (labels_json ls).
Proof. intros Hne. destruct ls; repeat constructor. cbn [fst]. intros Heq%lit_inj. congruence. Qed.

Ltac solve_no_key :=
  repeat apply no_key_app; first [apply no_key_nil | by apply no_key_opt | by apply no_key_labels].

Lemma jfield_app_inj {A} k (f : A → json) x y l l' :
  jfield k f x ++ l = jfield k f y ++ l' → f x = f y ∧ l = l'.
Proof. unfold jfield. simpl. intros [= ??]. done. Qed.

Lemma jopt_app_inj {A} k (f : A → json) o o' l l' :
  no_key k l → no_key k l' → jopt k f o ++ l = jopt k f o' ++ l' →
  f <$> o = f <$> o' ∧ l = l'.
Proof.
  intros Hl Hl'. destruct o as [x|], o' as [y|]; simpl; intros Heq.
  - injection Heq as Hf ->. by rewrite Hf.
  - subst. by destruct (proj1 (Forall_cons _ _ _) Hl').
  - subst. by destruct (proj1 (Forall_cons _ _ _) Hl).
  - done.
Qed.

Lemma labels_json_inj ls ls' : labels_json ls = labels_json ls' → ls = ls'.
Proof.
  assert (Inj (=) (=) (λ kv : bytes * bytes, (kv.1, JStr kv.2))) as Hinj.
  { intros [k v] [k' v'] [= -> ->]. done. }
  destruct ls as [|x ls], ls' as [|y ls']; try done.
  intros [= Heq Heq2 Hl]. apply (inj (fmap _)) in Hl. destruct x, y. simpl in *. by subst.
Qed.

Global Instance JStr_inj : Inj (=) (=) JStr.
Proof. by intros ?? [=]. Qed.

Lemma fmap_JStr_inj (o o' : option bytes) : JStr <$> o = JStr <$> o' → o = o'.
Proof. destruct o, o'; simpl; congruence. Qed.
Lemma jN_inj n n' : jN n = jN n' → n = n'.
Proof. unfold jN. intros [= Heq]. by apply (inj fmt_N). Qed.
Lemma fmap_jN_inj (o o' : option N) : jN <$> o = jN <$> o' → o = o'.
Proof. destruct o, o'; simpl; try done. intros [= Heq]. f_equal. by apply (inj fmt_N). Qed.
Lemma jF_inj x y : f64_reads_back x = true → f64_reads_back y = true → jF x = jF y → x = y.
Proof. unfold jF. intros ?? [= Heq]. by apply fmt_f64_inj. Qed.
Lemma fmap_jF_inj (o o' : option f64) :
  Forall (λ x, f64_reads_back x = true) (option_list o) →
  Forall (λ x, f64_reads_back x = true) (option_list o') →
  jF <$> o = jF <$> o' → o = o'.
Proof.
  destruct o, o'; simpl; try done. intros Hx Hy [= Heq]. inv Hx. inv Hy.
  f_equal. by apply fmt_f64_inj.
Qed.

Lemma JObj_inj l l' : JObj l = JObj l' → l ++ [] = l' ++ [].
Proof. congruence. Qed.

(** Take an equation between two member lists apart, first member first. *)
Ltac peel_members H :=
  apply JObj_inj in H; rewrite <-!app_assoc in H;
  repeat first
    [ apply jfield_app_inj in H as [? H]
    | apply jopt_app_inj in H as [? H]; [|solve_no_key..] ].
(** Turn equations between value trees into equations between fields. *)
Ltac field_eqs :=
  repeat match goal with
  | H : JStr _ = JStr _ |- _ => injection H as H
  | H : JStr <$> _ = JStr <$> _ |- _ => apply fmap_JStr_inj in H
  | H : jN _ = jN _ |- _ => apply jN_inj in H
  | H : jN <$> _ = jN <$> _ |- _ => apply fmap_jN_inj in H
  | H : jF _ = jF _ |- _ => apply jF_inj in H; [|done..]
  | H : jF <$> _ = jF <$> _ |- _ => apply fmap_jF_inj in H; [|done..]
  | H : labels_json _ ++ [] = labels_json _ ++ [] |- _ =>
      rewrite !app_nil_r in H; apply labels_json_inj in H
  end.

Lemma epoch_member_inj o o' :
  o ≠ Some 0%N → o' ≠ Some 0%N → epoch_member o = epoch_member o' → o = o'.
Proof.
  intros Ho Ho'. assert (∀ p, p ≠ Some 0%N → epoch_member p = p) as Hid.
  { intros [[|e]|]; done. }
  by rewrite !Hid.
Qed.

Lemma device_json_inj d d' :
  dev_key_epoch d ≠ Some 0%N → dev_key_epoch d' ≠ Some 0%N →
  device_json d = device_json d' → d = d'.
Proof.
  intros He He' Heq. unfold device_json in Heq.
  peel_members Heq. field_eqs. destruct d, d'; simpl in *.
  match goal with H : epoch_member _ = _ |- _ => apply epoch_member_inj in H; [|done..] end.
  by subst.
Qed.

Lemma jfield_no_key {A} k (f : A → json) x l l' :
  no_key k l → jfield k f x ++ l' = l → False.
Proof. intros Hl <-. by apply Forall_cons in Hl as [? _]. Qed.

Lemma no_key_field {A} k k' (f : A → json) x : k ≠ k' → no_key k (jfield k' f x).
Proof. apply (no_key_opt k k' f (Some x)). Qed.

Ltac member_clash H :=
  exfalso; first
    [ eapply jfield_no_key; [|apply H]; repeat apply no_key_app;
      first [apply no_key_nil | by apply no_key_opt | by apply no_key_labels | by apply no_key_field]
    | symmetry in H; eapply jfield_no_key; [|apply H]; repeat apply no_key_app;
      first [apply no_key_nil | by apply no_key_opt | by apply no_key_labels | by apply no_key_field] ].

Lemma metadata_json_inj pm pm' :
  floats_ok_meta pm = true → floats_ok_meta pm' = true →
  metadata_json pm = metadata_json pm' → pm = pm'.
Proof.
  unfold floats_ok_meta. rewrite !forallb_Forall.
  destruct pm as [m|m|m|m|m], pm' as [m'|m'|m'|m'|m']; cbn [metadata_floats metadata_json];
    rewrite ?Forall_cons, ?Forall_app; intros Hf Hf' Heq; destruct_and?;
    peel_members Heq; try (member_clash Heq); field_eqs; f_equal;
    destruct m, m'; simpl in *; by subst.
Qed.

Lemma chunk_json_inj c c' :
  f64_reads_back (chunk_duration_seconds c) = true →
  f64_reads_back (chunk_duration_seconds c') = true →
  chunk_json c = chunk_json c' → c = c'.
Proof.
  intros ?? Heq. unfold chunk_json in Heq. peel_members Heq. field_eqs.
  destruct c, c'; simpl in *. by subst.
Qed.

Lemma segment_json_inj s s' :
  f64_reads_back (duration_seconds s) = true → f64_reads_back (duration_seconds s') = true →
  segment_json s = segment_json s' → s = s'.
Proof.
  intros ?? Heq. unfold segment_json in Heq. peel_members Heq. field_eqs.
  destruct s, s'; simpl in *. by subst.
Qed.

Lemma list_cons_inv {A} (x y : A) l l' : x :: l = y :: l' → x = y ∧ l = l'.
Proof. by intros [= -> ->]. Qed.

Lemma segments_json_inj l l' :
  Forall (λ x, f64_reads_back x = true) (duration_seconds <$> l) →
  Forall (λ x, f64_reads_back x = true) (duration_seconds <$> l') →
  segment_json <$> l = segment_json <$> l' → l = l'.
Proof.
  revert l'; induction l as [|s l IH]; intros [|s' l']; try done.
  rewrite !fmap_cons, !Forall_cons. intros [??] [??] Heq.
  apply list_cons_inv in Heq as [Hs Ht].
  f_equal; [by apply segment_json_inj|by apply IH].
Qed.

Lemma recipient_json_inj : Inj (=) (=) recipient_json.
Proof.
  intros r r' Heq. unfold recipient_json in Heq. peel_members Heq. field_eqs.
  destruct r, r'; simpl in *. by subst.
Qed.

Lemma hpke_json_inj : Inj (=) (=) hpke_json.
Proof.
  intros h h' Heq. unfold hpke_json in Heq. peel_members Heq. field_eqs.
  destruct h, h'; simpl in *. by subst.
Qed.

Lemma encryption_json_inj : Inj (=) (=) encryption_json.
Proof.
  pose proof hpke_json_inj. pose proof recipient_json_inj.
  intros e e' Heq. unfold encryption_json in Heq. peel_members Heq. field_eqs.
  repeat match goal with
  | H : hpke_json _ = hpke_json _ |- _ => apply (inj hpke_json) in H
  | H : JArr _ = JArr _ |- _ => injection H as H; apply (inj (fmap recipient_json)) in H
  end.
  destruct e, e'; simpl in *. by subst.
Qed.

Definition epoch_canonical (m : TrstManifest) : Prop := dev_key_epoch (device m) ≠ Some 0%N.

(** Epoch 0 written out is the same as no epoch. *)
Definition drop_zero_epoch (m : TrstManifest) : TrstManifest :=
  let d := device m in
  mkTrstManifest (trst_version m) (profile m)
    (mkDeviceInfo (dev_id d) (dev_model d) (dev_firmware_version d) (dev_public_key d)
       (dev_key_agreement_public d) (epoch_member (dev_key_epoch d)))
    (metadata m) (chunk m) (segments m) (claims m) (encryption m) (sequence m) (prev_archive_hash m) (signature m).

Lemma drop_zero_epoch_canonical m : epoch_canonical (drop_zero_epoch m).
Proof. unfold epoch_canonical. cbn. destruct (dev_key_epoch (device m)) as [[|e]|]; done. Qed.
Lemma drop_zero_epoch_id m : epoch_canonical m → drop_zero_epoch m = m.
Proof.
  unfold epoch_canonical, drop_zero_epoch. destruct m as [v p [i mo fw pk ka ep] md c sg cl en sq pr sig]. cbn.
  by destruct ep as [[|e]|].
Qed.
Lemma drop_zero_epoch_json m : manifest_json (drop_zero_epoch m) = manifest_json m.
Proof.
  unfold manifest_json, device_json, drop_zero_epoch. cbn. by destruct (dev_key_epoch (device m)) as [[|e]|].
Qed.

Lemma manifest_json_inj m m' :
  floats_ok m = true → floats_ok m' = true → epoch_canonical m → epoch_canonical m' →
  manifest_json m = manifest_json m' → set_sig None m = set_sig None m'.
Proof.
  unfold floats_ok, manifest_floats, epoch_canonical.
  rewrite !forallb_app_true, !forallb_Forall, !Forall_singleton.
  intros (Hm & Hc & Hs) (Hm' & Hc' & Hs') He He' Heq.
  unfold manifest_json in Heq. pose proof encryption_json_inj.
  peel_members Heq. field_eqs.
  repeat match goal with
  | H : device_json _ = _ |- _ => apply device_json_inj in H; [|done..]
  | H : metadata_json _ = _ |- _ =>
      apply metadata_json_inj in H; [|by apply forallb_Forall..]
  | H : chunk_json _ = _ |- _ => apply chunk_json_inj in H; [|done..]
  | H : JArr (segment_json <$> _) = _ |- _ =>
      injection H as H; apply segments_json_inj in H; [|done..]
  | H : JArr (JStr <$> _) = _ |- _ => injection H as H; apply (inj (fmap JStr)) in H
  | H : encryption_json <$> _ = _ |- _ => apply (inj (fmap encryption_json)) in H
  end.
  unfold set_sig. destruct m, m'; simpl in *. by subst.
Qed.

(** Every token of the tree is a number token. *)
Lemma json_wf_obj_app l l' :
  json_wf (JObj (l ++ l')) = json_wf (JObj l) && json_wf (JObj l').
Proof. simpl. apply List.forallb_app. Qed.

Lemma json_wf_field {A} k (f : A → json) x : json_wf (f x) = true → json_wf (JObj (jfield k f x)) = true.
Proof. simpl. by intros ->. Qed.

Lemma json_wf_opt {A} k (f : A → json) o :
  (∀ x, json_wf (f x) = true) → json_wf (JObj (jopt k f o)) = true.
Proof. intros Hf. destruct o; simpl; by rewrite ?Hf. Qed.

Lemma json_wf_arr {A} (f : A → json) l :
  (∀ x, json_wf (f x) = true) → json_wf (JArr (f <$> l)) = true.
Proof. intros Hf. induction l as [|x l IH]; simpl; [done|]. rewrite Hf. apply IH. Qed.

Lemma json_wf_labels ls : json_wf (JObj (labels_json ls)) = true.
Proof.
  destruct ls as [|kv ls]; [done|]. unfold labels_json. simpl. rewrite andb_true_r.
  induction ls; simpl; auto.
Qed.

Lemma json_wf_jN n : json_wf (jN n) = true.
Proof. apply fmt_N_tok. Qed.
Lemma json_wf_jF x : json_wf (jF x) = true.
Proof. apply fmt_f64_tok. Qed.

Ltac solve_wf :=
  intros; rewrite ?json_wf_obj_app, ?andb_true_iff; split_and?;
  repeat first
    [ reflexivity | apply json_wf_jN | apply json_wf_jF | apply json_wf_labels
    | apply json_wf_field | apply json_wf_opt; intros | apply json_wf_arr; intros ].

Lemma device_json_wf d : json_wf (device_json d) = true.
Proof. unfold device_json. solve_wf. Qed.
Lemma metadata_json_wf pm : json_wf (metadata_json pm) = true.
Proof. destruct pm; unfold metadata_json; solve_wf. Qed.
Lemma chunk_json_wf c : json_wf (chunk_json c) = true.
Proof. unfold chunk_json; solve_wf. Qed.
Lemma segment_json_wf s : json_wf (segment_json s) = true.
Proof. unfold segment_json; solve_wf. Qed.
Lemma recipient_json_wf r : json_wf (recipient_json r) = true.
Proof. unfold recipient_json; solve_wf. Qed.
Lemma encryption_json_wf e : json_wf (encryption_json e) = true.
Proof. unfold encryption_json; solve_wf; auto using recipient_json_wf. Qed.
Lemma manifest_json_wf m : json_wf (manifest_json m) = true.
Proof.
  unfold manifest_json; solve_wf;
    auto using device_json_wf, metadata_json_wf, chunk_json_wf, segment_json_wf, encryption_json_wf.
Qed.

(** ** Validation *)

Definition valid_metadata (pm : ProfileMetadata) : Prop :=
  match pm with
  | CamVideo m => cv_started_at m ≠ [] ∧ cv_ended_at m ≠ []
  | Sensor m =>
      sn_started_at m ≠ [] ∧ sn_ended_at m ≠ [] ∧ f64_le (sn_sample_rate_hz m) f64_zero = false
      ∧ sn_unit m ≠ [] ∧ sn_sensor_model m ≠ []
  | Audio m =>
      au_started_at m ≠ [] ∧ au_ended_at m ≠ [] ∧ (au_sample_rate_hz m ≠ 0)%N
      ∧ (au_bit_depth m ≠ 0)%N ∧ (au_channels m ≠ 0)%N ∧ au_codec m ≠ []
  | Log m =>
      lg_started_at m ≠ [] ∧ lg_ended_at m ≠ [] ∧ lg_application m ≠ [] ∧ lg_host m ≠ []
      ∧ lg_log_level m ≠ [] ∧ lg_log_format m ≠ []
  | Generic m => gm_started_at m ≠ [] ∧ gm_ended_at m ≠ []
  end.

(** A standalone archive, a genesis, or a successor with a digest as link. *)
Definition valid_link (seq : option N) (prev : option bytes) : Prop :=
  match seq, prev with
  | None, None => True
  | Some n, None => n = 0%N
  | Some n, Some p => (0 < n)%N ∧ ∃ h, p = b3_prefix ++ h ∧ length h = 64
                      ∧ Forall (λ b, is_ascii_hexdigit b = true) h
  | None, Some _ => False
  end.

Record valid_manifest (m : TrstManifest) : Prop := {
  vm_version : trst_version m ≠ [];
  vm_profile : profile m ∈ known_profiles;
  vm_device_id : dev_id (device m) ≠ [];
  vm_public_key : dev_public_key (device m) ≠ [];
  vm_metadata : valid_metadata (metadata m);
  vm_nonempty : segments m ≠ [];
  vm_segments : Forall (λ s, chunk_file s ≠ [] ∧ blake3_hash s ≠ [] ∧ continuity_hash s ≠ [])
                  (segments m);
  vm_recipients : ∀ e, encryption m = Some e → recipients e ≠ [];
  vm_link : valid_link (sequence m) (prev_archive_hash m);
  vm_epoch : dev_key_epoch (device m) ≠ Some 0%N;
}.

Lemma require_ok s msg : require s msg = Ok tt ↔ s ≠ [].
Proof. unfold require. rewrite ensure_ok, negb_true_iff. apply is_empty_false. Qed.

Lemma validate_metadata_ok pm : validate_metadata pm = Ok tt ↔ valid_metadata pm.
Proof.
  destruct pm; simpl; unfold validate_times;
    rewrite ?bind_unit_ok, ?require_ok, ?ensure_ok, ?negb_true_iff, ?N.eqb_neq; tauto.
Qed.

Lemma validate_segments_ok l :
  for_each validate_segment (enumerate l) = Ok tt ↔
  Forall (λ s, chunk_file s ≠ [] ∧ blake3_hash s ≠ [] ∧ continuity_hash s ≠ []) l.
Proof.
  rewrite for_each_ok. unfold enumerate. rewrite Forall_enumerate_from, Forall_lookup.
  unfold validate_segment.
  setoid_rewrite bind_unit_ok. setoid_rewrite bind_unit_ok. setoid_rewrite ensure_ok.
  setoid_rewrite negb_true_iff. setoid_rewrite is_empty_false. done.
Qed.

Lemma prev_hash_well_formed_ok p :
  prev_hash_well_formed p = true ↔
  ∃ h, p = b3_prefix ++ h ∧ length h = 64 ∧ Forall (λ b, is_ascii_hexdigit b = true) h.
Proof.
  unfold prev_hash_well_formed. split.
  - case_match eqn:E; [|done]. apply strip_prefix_spec in E as ->.
    rewrite andb_true_iff, Nat.eqb_eq, forallb_Forall. naive_solver.
  - intros (h & -> & Hl & Hh). rewrite strip_prefix_app.
    by rewrite andb_true_iff, Nat.eqb_eq, forallb_Forall.
Qed.

Lemma validate_chronicle_ok seq prev : validate_chronicle seq prev = Ok tt ↔ valid_link seq prev.
Proof.
  destruct seq as [[|n]|], prev as [p|]; simpl; try naive_solver lia.
  rewrite ensure_ok, prev_hash_well_formed_ok. naive_solver lia.
Qed.

Lemma validate_ok m : validate m = Ok tt ↔ valid_manifest m.
Proof.
  unfold validate.
  rewrite !bind_unit_ok, !require_ok, !ensure_ok, !bool_decide_eq_true, validate_metadata_ok,
    validate_segments_ok, validate_chronicle_ok.
  assert ((match segments m with [] => false | _ => true end) = true ↔ segments m ≠ []) as ->
    by (destruct (segments m); naive_solver).
  assert (match encryption m with
    | Some e => ensure (match recipients e with [] => false | _ => true end) (invalid_field
        "encryption.recipients cannot be empty (use sign-only mode for no encryption)")
    | None => Ok tt end = Ok tt ↔ ∀ e, encryption m = Some e → recipients e ≠ []) as ->.
  { destruct (encryption m) as [e|]; [|naive_solver]. rewrite ensure_ok.
    destruct (recipients e) eqn:E; [|split; [intros _ ? [= <-]; by rewrite E|done]].
    split; [done|]. intros Hr. by destruct (Hr e eq_refl). }
  split; [intros (?&?&?&?&?&?&?&?&?&?); by constructor|intros []; auto 20].
Qed.
