(* ===== verification/Chain.v ===== *)
(** * The continuity chain

    crates/core/src/chain.rs: the BLAKE3 chain that links the segments of an
    archive, and its validation.  The chain tip commits to the number, the order
    and the content hash of every segment. *)

From S2P Require Import Prelude External.

(** [[u8; 32]] *)
Abbreviation hash32 := (list ascii) (only parsing).

Inductive ChainError :=
  | Gap (i : nat)
  | OutOfOrder (expected found : bytes)
  | EndOfChainTruncated.

Definition GENESIS_SEED : bytes := lit "sealedge:genesis".

Record ChainSegment := mkChainSegment {
  index : nat;
  stored_hash : hash32;
  stored_continuity : hash32;
}.

Section Chain.
Context `{Blake3} `{Hex} `{Base64}.

Definition blake3_hex_or_b64 (b : bytes) : bytes := lit "b3:" ++ base64_encode b.
Definition segment_hash (ciphertext : bytes) : hash32 := blake3 ciphertext.
Definition chain_next (prev curr : hash32) : hash32 := blake3 (prev ++ curr).
Definition genesis : hash32 := blake3 GENESIS_SEED.

(** The loop that looks for gaps. *)
Definition check_index (p : nat * ChainSegment) : result ChainError unit :=
  ensure (index p.2 =? p.1)%nat (Gap p.1).

(** The loop that recomputes the continuity hashes. *)
Fixpoint check_continuity (expected : hash32) (segs : list ChainSegment)
    : result ChainError unit :=
  match segs with
  | [] => Ok tt
  | s :: segs' =>
      let expected' := chain_next expected (stored_hash s) in
      ensure (bool_decide (expected' = stored_continuity s))
        (OutOfOrder (hex_encode expected') (hex_encode (stored_continuity s))) ≫= λ _,
      check_continuity expected' segs'
  end.

Definition validate_chain (segs : list ChainSegment) : result ChainError unit :=
  match segs with
  | [] => Ok tt
  | _ =>
      for_each check_index (enumerate segs) ≫= λ _,
      check_continuity genesis segs
  end.

(** ** Specification: the running hashes *)

(** The continuity hashes of a list of segment hashes, starting from [start]. *)
Fixpoint chain_from (start : hash32) (hs : list hash32) : list hash32 :=
  match hs with
  | [] => []
  | h :: hs' => let c := chain_next start h in c :: chain_from c hs'
  end.
(** The tip: the last continuity hash, or the start. *)
Definition chain_tip (start : hash32) (hs : list hash32) : hash32 :=
  foldl chain_next start hs.

Record valid_chain (segs : list ChainSegment) : Prop := {
  vc_index : ∀ i s, segs !! i = Some s → index s = i;
  vc_continuity : stored_continuity <$> segs = chain_from genesis (stored_hash <$> segs);
}.

Lemma check_continuity_ok start segs :
  check_continuity start segs = Ok tt ↔
  stored_continuity <$> segs = chain_from start (stored_hash <$> segs).
Proof.
  revert start; induction segs as [|s segs IH]; intros start; [done|].
  cbn [check_continuity]. rewrite !fmap_cons. cbn [chain_from].
  rewrite bind_unit_ok, IH, ensure_ok, bool_decide_eq_true. split.
  - intros [Hc Ht]. by rewrite <-Hc, Ht.
  - by intros [= Hc Ht].
Qed.

Lemma check_indices_ok segs :
  for_each check_index (enumerate segs) = Ok tt ↔ ∀ i s, segs !! i = Some s → index s = i.
Proof.
  rewrite for_each_ok. unfold enumerate. rewrite Forall_enumerate_from.
  unfold check_index. setoid_rewrite ensure_ok. by setoid_rewrite Nat.eqb_eq.
Qed.

Lemma validate_chain_ok segs : validate_chain segs = Ok tt ↔ valid_chain segs.
Proof.
  transitivity (for_each check_index (enumerate segs) = Ok tt
    ∧ check_continuity genesis segs = Ok tt).
  { destruct segs; [by simpl|]. unfold validate_chain. by rewrite bind_unit_ok. }
  rewrite check_indices_ok, check_continuity_ok.
  split; [by intros []; constructor|by intros []].
Qed.

Lemma chain_from_app start hs hs' :
  chain_from start (hs ++ hs') = chain_from start hs ++ chain_from (chain_tip start hs) hs'.
Proof.
  revert start; induction hs as [|h hs IH]; intros start; simpl; [done|]. f_equal. apply IH.
Qed.

Lemma chain_tip_app start hs hs' :
  chain_tip start (hs ++ hs') = chain_tip (chain_tip start hs) hs'.
Proof. apply foldl_app. Qed.

Lemma length_chain_from start hs : length (chain_from start hs) = length hs.
Proof. revert start; induction hs; intros; simpl; auto. Qed.

Lemma last_chain_from start hs : hs ≠ [] → last (chain_from start hs) = Some (chain_tip start hs).
Proof.
  induction hs as [|h hs _] using rev_ind; [done|]. intros _.
  rewrite chain_from_app, chain_tip_app. cbn [chain_from]. by rewrite last_snoc.
Qed.
End Chain.

Section Tips.
Context `{Blake3Laws}.

Lemma length_chain_tip hs : length (chain_tip genesis hs) = 32.
Proof.
  destruct hs as [|h hs _] using rev_ind; [apply length_blake3|].
  rewrite chain_tip_app. apply length_blake3.
Qed.

(** The tip commits to the whole list of segment hashes. *)
Lemma chain_tip_inj hs hs' :
  Forall (λ h, length h = 32) hs → Forall (λ h, length h = 32) hs' →
  chain_tip genesis hs = chain_tip genesis hs' → hs = hs' ∨ Collision.
Proof.
  revert hs'; induction hs as [|h hs IH] using rev_ind; intros hs' Hl Hl' Heq.
  - destruct hs' as [|h' hs' _] using rev_ind; [by left|]. right.
    rewrite chain_tip_app in Heq. exists GENESIS_SEED, (chain_tip genesis hs' ++ h').
    split; [|done]. intros Hbad. apply (f_equal length) in Hbad.
    rewrite length_app, length_chain_tip in Hbad. simpl in Hbad. lia.
  - destruct hs' as [|h' hs' _] using rev_ind.
    + right. rewrite chain_tip_app in Heq.
      exists (chain_tip genesis hs ++ h), GENESIS_SEED. split; [|done]. intros Hbad.
      apply (f_equal length) in Hbad. rewrite length_app, length_chain_tip in Hbad.
      simpl in Hbad. lia.
    + rewrite !chain_tip_app in Heq. simpl in Heq. unfold chain_next in Heq.
      apply Forall_app in Hl as [Hl _], Hl' as [Hl' _].
      apply blake3_inj_or_collision in Heq as [Heq|?]; [|by right].
      apply app_inj_1 in Heq as [Heq ->]; [|by rewrite !length_chain_tip].
      destruct (IH hs') as [->|?]; auto.
Qed.
End Tips.
