(* ===== verification/Crypto.v ===== *)
(** * Device keys and signatures

    crates/core/src/crypto.rs: the device key pair and its textual forms, the
    passphrase-encrypted key file, nonces, segment encryption, the associated
    data, and manifest signatures.  Random bytes (OsRng) are arguments. *)

From S2P Require Import Prelude External Utf8 Json Float64 Manifest ManifestCanon.

Inductive CryptoError :=
  | InvalidKeyFormat (msg : bytes)
  | InvalidSignatureFormat (msg : bytes)
  | EncryptionFailed (msg : bytes)
  | DecryptionFailed (msg : bytes)
  | SignatureVerificationFailed
  | KeyGenerationFailed (msg : bytes)
  | InvalidNonceFormat (msg : bytes).

(** The [Display] text. *)
Definition crypto_error_text (e : CryptoError) : bytes :=
  match e with
  | InvalidKeyFormat m => lit "Invalid key format: " ++ m
  | InvalidSignatureFormat m => lit "Invalid signature format: " ++ m
  | EncryptionFailed m => lit "Encryption failed: " ++ m
  | DecryptionFailed m => lit "Decryption failed: " ++ m
  | SignatureVerificationFailed => lit "Signature verification failed"
  | KeyGenerationFailed m => lit "Key generation failed: " ++ m
  | InvalidNonceFormat m => lit "Invalid nonce format: " ++ m
  end.

Definition ENCRYPTED_KEY_HEADER : bytes := lit "SEALEDGE-KEY-V1".
Definition PBKDF2_MIN_ITERATIONS : N := 600000.
Definition PBKDF2_MAX_ITERATIONS : N := 10000000.
Definition newline : byte := byte_of_N 10.

Record DeviceKeypair := mkDeviceKeypair {
  public : bytes;
  secret : bytes; (* [u8; 32] *)
}.

Definition ed_prefix : bytes := lit "ed25519:".
Definition ecdsa_prefix : bytes := lit "ecdsa-p256:".
Definition nonce_prefix : bytes := lit "xchacha20:".

(** [data.iter().position(|&b| b == c)] *)
Fixpoint position (c : byte) (l : bytes) : option nat :=
  match l with
  | [] => None
  | b :: l' => if decide (b = c) then Some 0 else S <$> position c l'
  end.

Section Crypto.
Context `{Blake3} `{Hex} `{Base64} `{Ed25519} `{P256} `{Aead} `{Kdf} `{SerdeJson} `{SerdeValue}.

(** ** Key pairs *)

Definition public_string (sk : bytes) : bytes := ed_prefix ++ base64_encode (ed_public sk).
Definition keypair_of (sk : bytes) : DeviceKeypair := mkDeviceKeypair (public_string sk) sk.

(** [seed] is what [SigningKey::generate] draws from the operating system. *)
Definition generate (seed : bytes) : result CryptoError DeviceKeypair := Ok (keypair_of seed).

Definition export_secret (kp : DeviceKeypair) : bytes := ed_prefix ++ base64_encode (secret kp).

Definition decode_secret (s : bytes) : result CryptoError bytes :=
  match strip_prefix ed_prefix s with
  | Some b64 =>
      ok_or (base64_decode b64) (InvalidKeyFormat (lit "Invalid base64: " ++ base64_error b64))
  | None =>
      if (length s =? 64)%nat then
        ok_or (hex_decode s) (InvalidKeyFormat (lit "Invalid hex: " ++ hex_error s))
      else Err (InvalidKeyFormat (lit "Must be ed25519:BASE64 or 64-char hex"))
  end.

Definition import_secret (s : bytes) : result CryptoError DeviceKeypair :=
  secret_bytes ← decode_secret s;
  ensure (length secret_bytes =? 32)%nat
    (InvalidKeyFormat (lit "Secret key must be 32 bytes")) ≫= λ _,
  Ok (keypair_of secret_bytes).

Definition from_public (s : bytes) : result CryptoError bytes :=
  ensure (starts_with ed_prefix s)
    (InvalidKeyFormat (lit "Public key must start with 'ed25519:'")) ≫= λ _,
  let b64 := drop 8 s in
  pub_bytes ← ok_or (base64_decode b64)
    (InvalidKeyFormat (lit "Invalid base64: " ++ base64_error b64));
  ensure (length pub_bytes =? 32)%nat
    (InvalidKeyFormat (lit "Public key must be 32 bytes")) ≫= λ _,
  ensure (ed_key_ok pub_bytes)
    (InvalidKeyFormat (lit "Invalid public key: " ++ ed_key_error pub_bytes)) ≫= λ _,
  Ok pub_bytes.

(** ** The encrypted key file *)

(** [Aes256Gcm::new_from_slice] *)
Definition aes_key (k : bytes) : result CryptoError bytes :=
  ensure (length k =? 32)%nat (EncryptionFailed (lit "AES key init: Invalid Length")) ≫= λ _, Ok k.

(** The object printed by [json!({..}).to_string()]: keys in alphabetical order. *)
Definition key_metadata (version : N) (salt nonce : bytes) (iterations : N) : json :=
  JObj [(lit "iterations", JTok (fmt_N iterations)); (lit "nonce", JStr (base64_encode nonce));
        (lit "salt", JStr (base64_encode salt)); (lit "version", JTok (fmt_N version))].

(** The common part of the three exporters: PBKDF2, AES-256-GCM, and the output
    [header "\n" metadata "\n" ciphertext]. *)
Definition encrypt_blob (header : bytes) (version : N) (msg passphrase salt nonce_bytes : bytes)
    : result CryptoError bytes :=
  let iterations := PBKDF2_MIN_ITERATIONS in
  cipher ← aes_key (pbkdf2 passphrase salt iterations);
  ciphertext ← ok_or (aead_encrypt Aes256Gcm cipher nonce_bytes [] msg)
    (EncryptionFailed (lit "AES-GCM encrypt: " ++ aead_error));
  Ok (header ++ [newline]
      ++ jprint (key_metadata version salt nonce_bytes iterations) ++ [newline] ++ ciphertext).

Definition export_secret_encrypted (kp : DeviceKeypair) (passphrase salt nonce_bytes : bytes)
    : result CryptoError bytes :=
  encrypt_blob ENCRYPTED_KEY_HEADER 1 (secret kp) passphrase salt nonce_bytes.

(** The header line; what follows it. *)
Definition parse_key_header (expected data : bytes) : result CryptoError bytes :=
  header_end ← ok_or (position newline data) (InvalidKeyFormat (lit "Missing header line"));
  let header := take header_end data in
  ensure (utf8_valid header) (InvalidKeyFormat (lit "Invalid UTF-8 header")) ≫= λ _,
  ensure (bool_decide (header = expected))
    (InvalidKeyFormat (lit "Expected header '" ++ expected ++ lit "', got '"
      ++ header ++ lit "'")) ≫= λ _,
  Ok (drop (S header_end) data).

(** The metadata line; the value it holds and the ciphertext behind it. *)
Definition parse_key_metadata (rest : bytes) : result CryptoError (value * bytes) :=
  meta_end ← ok_or (position newline rest) (InvalidKeyFormat (lit "Missing metadata line"));
  let meta_str := take meta_end rest in
  ensure (utf8_valid meta_str) (InvalidKeyFormat (lit "Invalid UTF-8 metadata")) ≫= λ _,
  meta ← map_err (λ e, InvalidKeyFormat (lit "Invalid JSON metadata: " ++ e))
    (value_from_str meta_str);
  Ok (meta, drop (S meta_end) rest).

Definition decode_field (field : string) (s : bytes) : result CryptoError bytes :=
  ok_or (base64_decode s)
    (InvalidKeyFormat (lit "Invalid " ++ lit field ++ lit " base64: " ++ base64_error s)).

Definition metadata_bytes (meta : value) (field : string) : result CryptoError bytes :=
  s ← ok_or (as_str (value_index meta (lit field)))
    (InvalidKeyFormat (lit "Missing " ++ lit field));
  decode_field field s.

Definition metadata_iterations (noun : string) (meta : value) : result CryptoError N :=
  n ← ok_or (as_u64_value (value_index meta (lit "iterations")))
    (InvalidKeyFormat (lit "Missing iterations"));
  ensure (negb (n <? PBKDF2_MIN_ITERATIONS)%N)
    (InvalidKeyFormat (lit noun ++ lit " uses " ++ fmt_N n
      ++ lit " PBKDF2 iterations, minimum is " ++ fmt_N PBKDF2_MIN_ITERATIONS)) ≫= λ _,
  ensure (negb (PBKDF2_MAX_ITERATIONS <? n)%N)
    (InvalidKeyFormat (lit noun ++ lit " uses " ++ fmt_N n
      ++ lit " PBKDF2 iterations, maximum is " ++ fmt_N PBKDF2_MAX_ITERATIONS)) ≫= λ _,
  ensure (n <=? u32_max)%N (InvalidKeyFormat (lit "iterations value out of range")) ≫= λ _,
  Ok n.

Definition decrypt_blob (what : string) (ciphertext passphrase salt nonce_bytes : bytes)
    (iterations : N) : result CryptoError bytes :=
  ensure (length nonce_bytes =? 12)%nat
    (InvalidKeyFormat (lit "Nonce must be 12 bytes")) ≫= λ _,
  cipher ← aes_key (pbkdf2 passphrase salt iterations);
  ok_or (aead_decrypt Aes256Gcm cipher nonce_bytes [] ciphertext)
    (DecryptionFailed (lit "Wrong passphrase or corrupted " ++ lit what)).

Definition import_secret_encrypted (data passphrase : bytes)
    : result CryptoError DeviceKeypair :=
  rest ← parse_key_header ENCRYPTED_KEY_HEADER data;
  '(meta, ciphertext) ← parse_key_metadata rest;
  salt ← metadata_bytes meta "salt";
  nonce_bytes ← metadata_bytes meta "nonce";
  iterations ← metadata_iterations "Key file" meta;
  plaintext ← decrypt_blob "key file" ciphertext passphrase salt nonce_bytes iterations;
  ensure (length plaintext =? 32)%nat
    (InvalidKeyFormat (lit "Decrypted key must be 32 bytes")) ≫= λ _,
  Ok (keypair_of plaintext).

Definition is_encrypted_key_file (data : bytes) : bool :=
  starts_with (lit "SEALEDGE-KEY-V1" ++ [newline]) data.

(** ** Segments *)

Definition derive_chunk_key (device_secret : bytes) : bytes :=
  hkdf None device_secret (lit "SEALEDGE_SEAL_CHUNK_KEY").

Definition format_nonce (nonce : bytes) : bytes := nonce_prefix ++ base64_encode nonce.

Definition parse_nonce (s : bytes) : result CryptoError bytes :=
  ensure (starts_with nonce_prefix s)
    (InvalidNonceFormat (lit "Nonce must start with 'xchacha20:'")) ≫= λ _,
  let b64 := drop 10 s in
  nonce_bytes ← ok_or (base64_decode b64)
    (InvalidNonceFormat (lit "Invalid base64: " ++ base64_error b64));
  ensure (length nonce_bytes =? 24)%nat
    (InvalidNonceFormat (lit "Nonce must be 24 bytes")) ≫= λ _,
  Ok nonce_bytes.

Definition encrypt_segment (key nonce24 plaintext aad : bytes) : result CryptoError bytes :=
  ok_or (aead_encrypt XChaCha20Poly1305 key nonce24 aad plaintext)
    (EncryptionFailed (lit "XChaCha20Poly1305 encryption failed: " ++ aead_error)).

Definition decrypt_segment (key nonce24 ciphertext aad : bytes) : result CryptoError bytes :=
  ok_or (aead_decrypt XChaCha20Poly1305 key nonce24 aad ciphertext)
    (DecryptionFailed (lit "XChaCha20Poly1305 decryption failed: " ++ aead_error)).

(** serde_json's map keeps its keys sorted. *)
Definition aad_json (version prof device_id started : bytes) : json :=
  JObj [(lit "capture.started_at", JStr started); (lit "device.id", JStr device_id);
        (lit "profile", JStr prof); (lit "trst_version", JStr version)].
Definition generate_aad (version prof device_id started : bytes) : bytes :=
  jprint (aad_json version prof device_id started).

(** ** Manifest signatures *)

Definition sign_manifest (kp : DeviceKeypair) (msg : bytes) : result CryptoError bytes :=
  Ok (ed_prefix ++ base64_encode (ed_sign (secret kp) msg)).

Definition verify_manifest_ecdsa_p256 (device_public msg sig_str : bytes)
    : result CryptoError bool :=
  pub_b64 ← ok_or (strip_prefix ecdsa_prefix device_public)
    (InvalidKeyFormat (lit "ECDSA P-256 public key must start with 'ecdsa-p256:'"));
  pub_bytes ← ok_or (base64_decode pub_b64)
    (InvalidKeyFormat (lit "Invalid base64 in public key: " ++ base64_error pub_b64));
  ensure (p256_key_ok pub_bytes)
    (InvalidKeyFormat (lit "Invalid P-256 public key: " ++ p256_error pub_bytes)) ≫= λ _,
  sig_b64 ← ok_or (strip_prefix ecdsa_prefix sig_str)
    (InvalidSignatureFormat (lit "ECDSA P-256 signature must start with 'ecdsa-p256:'"));
  sig_bytes ← ok_or (base64_decode sig_b64)
    (InvalidSignatureFormat (lit "Invalid base64 in signature: " ++ base64_error sig_b64));
  ensure (p256_sig_ok sig_bytes)
    (InvalidSignatureFormat (lit "Invalid P-256 DER signature: " ++ p256_error sig_bytes)) ≫= λ _,
  Ok (p256_verify pub_bytes msg sig_bytes).

Definition verify_manifest (device_public msg sig_str : bytes) : result CryptoError bool :=
  match strip_prefix ed_prefix sig_str with
  | Some b64 =>
      verifying_key ← from_public device_public;
      sig_bytes ← ok_or (base64_decode b64)
        (InvalidSignatureFormat (lit "Invalid base64: " ++ base64_error b64));
      ensure (length sig_bytes =? 64)%nat
        (InvalidSignatureFormat (lit "Ed25519 signature must be 64 bytes")) ≫= λ _,
      Ok (ed_verify verifying_key msg sig_bytes)
  | None =>
      if starts_with ecdsa_prefix sig_str then
        verify_manifest_ecdsa_p256 device_public msg sig_str
      else
        Err (InvalidSignatureFormat
          (lit "Unsupported signature algorithm. Expected ed25519: or ecdsa-p256: prefix"))
  end.

(** ** Specification of signature checking *)

(** [key] accepts [sig] for [msg] under one of the two algorithms. *)
Inductive signed_by (key msg sig : bytes) : Prop :=
  | signed_ed25519 k s :
      key = ed_prefix ++ base64_encode k → length k = 32 → ed_key_ok k = true →
      sig = ed_prefix ++ base64_encode s → length s = 64 → ed_verify k msg s = true →
      signed_by key msg sig
  | signed_p256 k s :
      key = ecdsa_prefix ++ base64_encode k → p256_key_ok k = true →
      sig = ecdsa_prefix ++ base64_encode s → p256_sig_ok s = true → p256_verify k msg s = true →
      signed_by key msg sig.
End Crypto.

(** ** Keys *)

(** A key pair as [generate] and the importers make it. *)
Definition wf_keypair `{Base64} `{Ed25519} (kp : DeviceKeypair) : Prop :=
  length (secret kp) = 32 ∧ kp = keypair_of (secret kp).

Section Keys.
Context `{Blake3} `{HexLaws} `{Base64Laws} `{Ed25519Laws} `{P256} `{AeadLaws} `{KdfLaws}
  `{SerdeJsonLaws} `{SerdeValue}.

Lemma from_public_ok s k :
  from_public s = Ok k ↔
  s = ed_prefix ++ base64_encode k ∧ length k = 32 ∧ ed_key_ok k = true.
Proof.
  unfold from_public. split.
  - intros Hf. inv_ok. subst.
    match goal with E : starts_with _ s = true |- _ => apply starts_with_spec in E as [r ->] end.
    match goal with E : base64_decode _ = Some _ |- _ => apply base64_encode_decode in E end.
    match goal with E : (_ =? _)%nat = true |- _ => apply Nat.eqb_eq in E end.
    split_and!; [|done|done]. f_equal. by symmetry.
  - intros (-> & Hl & Hk).
    rewrite (proj2 (starts_with_spec _ _)) by eauto. cbn [ensure mbind result_bind].
    change (drop 8 (ed_prefix ++ base64_encode k)) with (base64_encode k).
    rewrite base64_decode_encode. cbn [ok_or mbind result_bind]. rewrite Hl, Hk. done.
Qed.

(** A public key has one textual form. *)
Lemma from_public_inj s s' k : from_public s = Ok k → from_public s' = Ok k → s = s'.
Proof. rewrite !from_public_ok. by intros [-> _] [-> _]. Qed.

Lemma from_public_string sk : from_public (public_string sk) = Ok (ed_public sk).
Proof. apply from_public_ok. split_and!; [done|apply length_ed_public|apply ed_public_ok]. Qed.

Lemma import_export_secret kp : wf_keypair kp → import_secret (export_secret kp) = Ok kp.
Proof.
  intros [Hl Hkp]. unfold import_secret, decode_secret, export_secret.
  rewrite strip_prefix_app, base64_decode_encode. cbn [ok_or mbind result_bind].
  rewrite Hl. cbn. by rewrite <-Hkp.
Qed.

Lemma import_secret_hex sk : length sk = 32 → import_secret (hex_encode sk) = Ok (keypair_of sk).
Proof.
  intros Hl. unfold import_secret, decode_secret. case_match eqn:E.
  { exfalso. apply strip_prefix_spec in E.
    pose proof (hex_encode_lower sk) as Hhex. rewrite E in Hhex.
    by apply (Forall_lookup_1 _ _ 7 colon) in Hhex as [Hbad _]. }
  rewrite length_hex_encode, Hl. cbn [Nat.mul Nat.eqb Nat.add].
  rewrite hex_decode_encode. cbn [ok_or mbind result_bind]. by rewrite Hl.
Qed.

Lemma import_secret_wf s kp : import_secret s = Ok kp → wf_keypair kp.
Proof.
  unfold import_secret. intros Hi. inv_ok.
  match goal with E : (_ =? _)%nat = true |- _ => apply Nat.eqb_eq in E end.
  by split.
Qed.

Lemma parse_format_nonce n : length n = 24 → parse_nonce (format_nonce n) = Ok n.
Proof.
  intros Hl. unfold parse_nonce, format_nonce.
  rewrite (proj2 (starts_with_spec _ _)) by eauto. cbn [ensure mbind result_bind].
  change (drop 10 (nonce_prefix ++ base64_encode n)) with (base64_encode n).
  rewrite base64_decode_encode. cbn [ok_or mbind result_bind]. by rewrite Hl.
Qed.

Lemma parse_nonce_ok s n : parse_nonce s = Ok n ↔ s = format_nonce n ∧ length n = 24.
Proof.
  split; [|intros [-> ?]; by apply parse_format_nonce].
  unfold parse_nonce, format_nonce. intros Hp. inv_ok. subst.
  match goal with E : starts_with _ s = true |- _ => apply starts_with_spec in E as [r ->] end.
  match goal with E : base64_decode _ = Some _ |- _ => apply base64_encode_decode in E end.
  match goal with E : (_ =? _)%nat = true |- _ => apply Nat.eqb_eq in E end.
  split; [|done]. f_equal. by symmetry.
Qed.

(** ** Signatures *)

Lemma sign_verify kp msg : wf_keypair kp →
  ∃ sig, sign_manifest kp msg = Ok sig ∧ verify_manifest (public kp) msg sig = Ok true.
Proof.
  intros [Hl Hkp]. eexists. split; [done|]. unfold verify_manifest.
  rewrite strip_prefix_app, Hkp. cbn [public secret keypair_of].
  rewrite from_public_string. cbn [mbind result_bind].
  rewrite base64_decode_encode. cbn [ok_or mbind result_bind].
  rewrite length_ed_sign. cbn. by rewrite ed_verify_sign.
Qed.

Lemma verify_manifest_ok key msg sig :
  verify_manifest key msg sig = Ok true ↔ signed_by key msg sig.
Proof.
  unfold verify_manifest. split.
  - case_match eqn:E.
    + apply strip_prefix_spec in E as ->. intros Hv. inv_ok.
      match goal with E : from_public _ = Ok _ |- _ => apply from_public_ok in E as (-> & ? & ?) end.
      match goal with E : base64_decode _ = Some _ |- _ => apply base64_encode_decode in E as <- end.
      match goal with E : (_ =? _)%nat = true |- _ => apply Nat.eqb_eq in E end.
      by eapply signed_ed25519.
    + case_match; [|done]. unfold verify_manifest_ecdsa_p256. intros Hv. inv_ok.
      repeat match goal with
      | E : base64_decode _ = Some _ |- _ => apply base64_encode_decode in E; subst
      | E : strip_prefix _ _ = Some _ |- _ => apply strip_prefix_spec in E; subst
      end. by eapply signed_p256.
  - intros [k s -> Hk Hok -> Hs Hv|k s -> Hok -> Hs Hv].
    + rewrite strip_prefix_app.
      rewrite (proj2 (from_public_ok _ k)) by done. cbn [mbind result_bind].
      rewrite base64_decode_encode. cbn [ok_or mbind result_bind]. by rewrite Hs, Hv.
    + change (strip_prefix ed_prefix (ecdsa_prefix ++ base64_encode s)) with (@None bytes).
      cbv iota beta. rewrite (proj2 (starts_with_spec _ _)) by eauto.
      unfold verify_manifest_ecdsa_p256. rewrite !strip_prefix_app. cbn [ok_or mbind result_bind].
      rewrite !base64_decode_encode. cbn [ok_or mbind result_bind]. rewrite Hok, Hs. cbn.
      by rewrite Hv.
Qed.

(** ** The encrypted key file *)

Lemma position_app c l r : Forall (λ b, b ≠ c) l → position c (l ++ c :: r) = Some (length l).
Proof.
  induction 1 as [|b l Hb Hl IH]; simpl; [by rewrite decide_True|].
  rewrite decide_False by done. by rewrite IH.
Qed.

Lemma position_Some c l i :
  position c l = Some i → l = take i l ++ c :: drop (S i) l.
Proof.
  revert i; induction l as [|b l IH]; intros i; [done|]. cbn [position].
  case_decide as Hb; [intros [= <-]; by subst|].
  intros (j & Hj & ->)%fmap_Some. cbn. f_equal. by apply IH.
Qed.

Lemma take_line line rest : take (length line) (line ++ newline :: rest) = line
  ∧ drop (S (length line)) (line ++ newline :: rest) = rest.
Proof.
  rewrite take_app_length, (cons_middle newline), app_assoc.
  replace (S (length line)) with (length (line ++ [newline])) by (rewrite length_app; simpl; lia).
  by rewrite drop_app_length.
Qed.

(** A line of text: no newline, well-formed UTF-8. *)
Definition text_line (line : bytes) : Prop :=
  Forall (λ b, b ≠ newline) line ∧ utf8_valid line = true.

Lemma parse_key_header_ok header rest :
  text_line header → parse_key_header header (header ++ newline :: rest) = Ok rest.
Proof.
  intros [Hline Hutf]. unfold parse_key_header.
  rewrite position_app by done. cbn [ok_or mbind result_bind].
  destruct (take_line header rest) as [-> ->]. rewrite Hutf, bool_decide_true by done. done.
Qed.

Lemma parse_key_header_inv header data rest :
  parse_key_header header data = Ok rest → data = header ++ newline :: rest.
Proof.
  unfold parse_key_header. intros Hp. inv_ok.
  match goal with E : position _ _ = Some _ |- _ => apply position_Some in E as Hd end.
  match goal with E : bool_decide _ = true |- _ => apply bool_decide_eq_true in E as Hh end.
  by rewrite Hh in Hd.
Qed.

Lemma parse_key_metadata_ok line meta rest :
  text_line line → value_from_str line = Ok meta →
  parse_key_metadata (line ++ newline :: rest) = Ok (meta, rest).
Proof.
  intros [Hline Hutf] Hval. unfold parse_key_metadata.
  rewrite position_app by done. cbn [ok_or mbind result_bind].
  destruct (take_line line rest) as [-> ->]. by rewrite Hutf, Hval.
Qed.

Lemma metadata_iterations_ok noun meta n :
  metadata_iterations noun meta = Ok n ↔
  as_u64_value (value_index meta (lit "iterations")) = Some n
  ∧ (PBKDF2_MIN_ITERATIONS ≤ n ≤ PBKDF2_MAX_ITERATIONS)%N.
Proof.
  unfold metadata_iterations. split.
  - intros Hm. inv_ok. rewrite negb_true_iff, N.ltb_ge in *. by subst.
  - intros [-> [Hlo Hhi]]. cbn [ok_or mbind result_bind].
    rewrite (proj2 (N.ltb_ge _ _) Hlo), (proj2 (N.ltb_ge _ _) Hhi). cbn.
    rewrite (proj2 (N.leb_le _ _)); [done|]. etrans; [done|]. done.
Qed.

(** The value serde_json reads back from the metadata line. *)
Definition metadata_value (version : N) (salt nonce : bytes) (iterations : N) : value :=
  VObj [(lit "iterations", VNum (PosInt iterations)); (lit "nonce", VStr (base64_encode nonce));
        (lit "salt", VStr (base64_encode salt)); (lit "version", VNum (PosInt version))].

(** The metadata line is one line of text, and reads back as the value printed. *)
Definition metadata_reads_back (version : N) (salt nonce : bytes) : Prop :=
  let line := jprint (key_metadata version salt nonce PBKDF2_MIN_ITERATIONS) in
  text_line line
  ∧ value_from_str line = Ok (metadata_value version salt nonce PBKDF2_MIN_ITERATIONS).

Lemma decode_field_ok field b : decode_field field (base64_encode b) = Ok b.
Proof. unfold decode_field. by rewrite base64_decode_encode. Qed.

Lemma metadata_bytes_ok meta field b :
  value_index meta (lit field) = VStr (base64_encode b) → metadata_bytes meta field = Ok b.
Proof. unfold metadata_bytes. intros ->. apply decode_field_ok. Qed.

Lemma aes_key_ok p salt n : aes_key (pbkdf2 p salt n) = Ok (pbkdf2 p salt n).
Proof. unfold aes_key. by rewrite length_pbkdf2. Qed.

(** What the importers find in a blob that [encrypt_blob] wrote. *)
Lemma encrypt_blob_ok header version msg passphrase salt nonce data :
  text_line header → metadata_reads_back version salt nonce → length nonce = 12 →
  encrypt_blob header version msg passphrase salt nonce = Ok data →
  ∃ rest ct, parse_key_header header data = Ok rest
    ∧ parse_key_metadata rest = Ok (metadata_value version salt nonce PBKDF2_MIN_ITERATIONS, ct)
    ∧ ∀ what, decrypt_blob what ct passphrase salt nonce PBKDF2_MIN_ITERATIONS = Ok msg.
Proof.
  intros Hh [Hline Hval] Hn. unfold encrypt_blob. rewrite aes_key_ok. cbn [mbind result_bind].
  destruct (aead_encrypt _ _ _ _ _) as [ct|] eqn:Henc; [|done].
  cbn [ok_or mbind result_bind]. intros <-%Ok_inj.
  exists (jprint (key_metadata version salt nonce PBKDF2_MIN_ITERATIONS) ++ newline :: ct), ct.
  split_and!; [by apply parse_key_header_ok|by apply parse_key_metadata_ok|].
  intros what. unfold decrypt_blob. rewrite Hn, aes_key_ok. cbn [Nat.eqb ensure mbind result_bind].
  apply aead_decrypt_encrypt in Henc. by rewrite Henc.
Qed.

Lemma import_export_encrypted kp passphrase salt nonce data :
  wf_keypair kp → length nonce = 12 → metadata_reads_back 1 salt nonce →
  export_secret_encrypted kp passphrase salt nonce = Ok data →
  import_secret_encrypted data passphrase = Ok kp.
Proof.
  intros [Hl Hkp] Hn Hval Hexp. unfold export_secret_encrypted in Hexp.
  apply encrypt_blob_ok in Hexp as (rest & ct & Hrest & Hmeta & Hdec); [|by vm_compute; repeat constructor|done..].
  unfold import_secret_encrypted. rewrite Hrest. cbn [mbind result_bind].
  rewrite Hmeta. cbn [mbind result_bind].
  rewrite (metadata_bytes_ok _ "salt" salt), (metadata_bytes_ok _ "nonce" nonce) by done.
  cbn [mbind result_bind].
  rewrite (proj2 (metadata_iterations_ok _ _ PBKDF2_MIN_ITERATIONS)) by done.
  cbn [mbind result_bind]. rewrite Hdec. cbn [mbind result_bind]. rewrite Hl.
  cbn. by rewrite <-Hkp.
Qed.

Lemma decrypt_blob_inv what ct passphrase salt nonce n msg :
  decrypt_blob what ct passphrase salt nonce n = Ok msg →
  length nonce = 12 ∧ aead_decrypt Aes256Gcm (pbkdf2 passphrase salt n) nonce [] ct = Some msg.
Proof.
  unfold decrypt_blob. rewrite aes_key_ok. intros Hd. inv_ok.
  by match goal with E : (_ =? _)%nat = true |- _ => apply Nat.eqb_eq in E end.
Qed.

(** Only a file with the header, an iteration count in the accepted band and a
    ciphertext that authenticates gives a key, and the key is well formed. *)
Lemma import_encrypted_inv data passphrase kp :
  import_secret_encrypted data passphrase = Ok kp →
  wf_keypair kp ∧ ∃ rest meta ct salt nonce n,
    data = ENCRYPTED_KEY_HEADER ++ newline :: rest
    ∧ parse_key_metadata rest = Ok (meta, ct)
    ∧ as_u64_value (value_index meta (lit "iterations")) = Some n
    ∧ (PBKDF2_MIN_ITERATIONS ≤ n ≤ PBKDF2_MAX_ITERATIONS)%N
    ∧ length nonce = 12
    ∧ aead_decrypt Aes256Gcm (pbkdf2 passphrase salt n) nonce [] ct = Some (secret kp).
Proof.
  unfold import_secret_encrypted. intros (rest & Hrest & Hi)%bind_ok.
  apply parse_key_header_inv in Hrest as ->.
  apply bind_ok in Hi as ([meta ct] & Hmeta & Hi).
  apply bind_ok in Hi as (salt & _ & Hi). apply bind_ok in Hi as (nonce & _ & Hi).
  apply bind_ok in Hi as (n & Hn & Hi). apply metadata_iterations_ok in Hn as [Hn Hb].
  apply bind_ok in Hi as (pt & [Hnonce Hdec]%decrypt_blob_inv & Hi). inv_ok.
  match goal with E : (_ =? _)%nat = true |- _ => apply Nat.eqb_eq in E end.
  split; [by split|]. exists rest, meta, ct, salt, nonce, n.
  split_and!; [done|done|done|apply Hb|apply Hb|done|done].
Qed.

(** ** Associated data *)

Lemma generate_aad_inj v p d t v' p' d' t' :
  generate_aad v p d t = generate_aad v' p' d' t' → v = v' ∧ p = p' ∧ d = d' ∧ t = t'.
Proof.
  intros Heq. apply jprint_inj in Heq; [|done|done]. unfold aad_json in Heq.
  apply JObj_inj in Heq. cbn [app] in Heq. by simplify_list_eq.
Qed.
End Keys.
