(* ===== verification/Keywrap.v ===== *)
(** * Content keys and the device bundle

    crates/core/src/keywrap.rs: secrets sealed at rest, the X25519 key-agreement
    key pair, HPKE wrapping of the content key, the associated data of chunks, and
    the SEALEDGE-KEY-V2 bundle with both device secrets. *)

From S2P Require Import Prelude External Utf8 Json Float64 Manifest ManifestCanon Crypto.

Definition HPKE_KEM_ID : bytes := lit "DHKEM(X25519,HKDF-SHA256)".
Definition HPKE_KDF_ID : bytes := lit "HKDF-SHA256".
Definition HPKE_AEAD_ID : bytes := lit "ChaCha20Poly1305".
Definition CONTENT_AEAD_ID : bytes := lit "XChaCha20Poly1305".
Definition KEY_AGREEMENT_PREFIX : bytes := lit "x25519:".
Definition BUNDLE_HEADER_V2 : bytes := lit "SEALEDGE-KEY-V2".
Definition SEALED_SECRET_HEADER_V1 : bytes := lit "SEALEDGE-SEALED-V1".

Record KeyAgreementKeypair := mkKeyAgreementKeypair {
  ka_secret : bytes; (* [u8; 32] *)
  ka_public : bytes; (* [u8; 32] *)
}.

Record DeviceBundle := mkDeviceBundle {
  signing : DeviceKeypair;
  key_agreement : KeyAgreementKeypair;
}.

Record BundleSecrets := mkBundleSecrets {
  bs_version : N; (* u8 *)
  ed25519_secret : bytes;
  x25519_secret : bytes;
}.

(** [serde_json::from_str::<BundleSecrets>] *)
Class BundleJson := bundle_from_str : bytes → result bytes BundleSecrets.

(** [{:?}] of an [Option<u64>] *)
Definition debug_option_N (o : option N) : bytes :=
  match o with Some n => lit "Some(" ++ fmt_N n ++ lit ")" | None => lit "None" end.

Section Keywrap.
Context `{Blake3} `{Hex} `{Base64} `{Ed25519} `{Aead} `{Kdf} `{Hpke} `{SerdeJson} `{SerdeValue}
  `{BundleJson}.

(** ** Single secrets at rest *)

Definition seal_secret (secret passphrase salt nonce_bytes : bytes) : result CryptoError bytes :=
  encrypt_blob SEALED_SECRET_HEADER_V1 1 secret passphrase salt nonce_bytes.

(** [meta[field].as_str().unwrap_or_default()], decoded *)
Definition metadata_bytes_or_default (meta : value) (field : string) : result CryptoError bytes :=
  decode_field field (default [] (as_str (value_index meta (lit field)))).

Definition check_sealed_version (meta : value) : result CryptoError unit :=
  let v := as_u64_value (value_index meta (lit "version")) in
  ensure (bool_decide (v = Some 1%N))
    (InvalidKeyFormat (lit "Unsupported sealed-secret version " ++ debug_option_N v
      ++ lit " (expected 1)")).

Definition open_secret (data passphrase : bytes) : result CryptoError bytes :=
  rest ← parse_key_header SEALED_SECRET_HEADER_V1 data;
  '(meta, ciphertext) ← parse_key_metadata rest;
  check_sealed_version meta ≫= λ _,
  salt ← metadata_bytes_or_default meta "salt";
  nonce_bytes ← metadata_bytes_or_default meta "nonce";
  iterations ← metadata_iterations "Sealed secret" meta;
  decrypt_blob "sealed secret" ciphertext passphrase salt nonce_bytes iterations.

(** ** X25519 keys *)

Definition ka_of_secret (sk : bytes) : KeyAgreementKeypair :=
  mkKeyAgreementKeypair sk (x25519_public sk).
Definition ka_public_string (k : KeyAgreementKeypair) : bytes :=
  KEY_AGREEMENT_PREFIX ++ base64_encode (ka_public k).
Definition ka_export_secret (k : KeyAgreementKeypair) : bytes :=
  KEY_AGREEMENT_PREFIX ++ base64_encode (ka_secret k).

Definition parse_x25519_bytes (v : bytes) : result CryptoError bytes :=
  b64 ← ok_or (strip_prefix KEY_AGREEMENT_PREFIX v)
    (InvalidKeyFormat (lit "Key-agreement key must start with 'x25519:'"));
  b ← ok_or (base64_decode b64) (InvalidKeyFormat (lit "Invalid base64: " ++ base64_error b64));
  ensure (length b =? 32)%nat (InvalidKeyFormat (lit "X25519 key must be 32 bytes")) ≫= λ _,
  Ok b.

Definition parse_x25519_public (v : bytes) : result CryptoError bytes := parse_x25519_bytes v.

Definition ka_import_secret (s : bytes) : result CryptoError KeyAgreementKeypair :=
  sk ← parse_x25519_bytes s; Ok (ka_of_secret sk).

(** ** Wrapping the content key *)

Definition cek_wrap_info (device_public_key version : bytes) : bytes :=
  lit "sealedge/cek-wrap/v1" ++ device_public_key ++ version.

Definition recipient_id (recipient_public : bytes) : result CryptoError bytes :=
  b ← parse_x25519_bytes recipient_public;
  Ok (lit "b3:" ++ hex_encode (take 8 (blake3 b))).

(** A 32-byte string is always an X25519 public key, so [PublicKey::from_bytes]
    does not fail here. *)
Definition hpke_seal_cek_with_rng (rng recipient_public info aad cek : bytes)
    : result CryptoError (bytes * bytes) :=
  pk ← parse_x25519_bytes recipient_public;
  '(e, ct) ← ok_or (hpke_seal rng pk info aad cek)
    (EncryptionFailed (lit "HPKE seal: " ++ hpke_error));
  Ok (base64_encode e, base64_encode ct).

Definition hpke_open_raw (sk enc_b64 info aad wrapped_b64 : bytes) : result CryptoError bytes :=
  enc_bytes ← ok_or (base64_decode enc_b64)
    (DecryptionFailed (lit "Invalid enc base64: " ++ base64_error enc_b64));
  ensure (hpke_enc_ok enc_bytes)
    (DecryptionFailed (lit "HPKE encapped key: " ++ hpke_error)) ≫= λ _,
  ciphertext ← ok_or (base64_decode wrapped_b64)
    (DecryptionFailed (lit "Invalid wrapped_cek base64: " ++ base64_error wrapped_b64));
  ok_or (hpke_open sk enc_bytes info aad ciphertext)
    (DecryptionFailed (lit "HPKE open: " ++ hpke_error)).

Definition hpke_open_cek (recipient : KeyAgreementKeypair) (enc_b64 info aad wrapped_b64 : bytes)
    : result CryptoError bytes :=
  cek ← hpke_open_raw (ka_secret recipient) enc_b64 info aad wrapped_b64;
  ensure (length cek =? 32)%nat (DecryptionFailed (lit "unwrapped CEK is not 32 bytes")) ≫= λ _,
  Ok cek.

Definition chunk_aad_v2 (device_public_key prof started_at : bytes) : bytes :=
  blake3 (lit "sealedge/aad/v1" ++ device_public_key ++ prof ++ started_at).

(** ** The device bundle *)

Definition bundle_generate (seed x_seed : bytes) : result CryptoError DeviceBundle :=
  kp ← generate seed; Ok (mkDeviceBundle kp (ka_of_secret x_seed)).

Definition public_lines (b : DeviceBundle) : bytes :=
  public (signing b) ++ [newline] ++ ka_public_string (key_agreement b) ++ [newline].

Definition bundle_secrets (b : DeviceBundle) : BundleSecrets :=
  mkBundleSecrets 2 (export_secret (signing b)) (ka_export_secret (key_agreement b)).

(** serde prints the fields in declaration order. *)
Definition to_plaintext (b : DeviceBundle) : bytes :=
  let s := bundle_secrets b in
  jprint (JObj [(lit "version", JTok (fmt_N (bs_version s)));
                (lit "ed25519_secret", JStr (ed25519_secret s));
                (lit "x25519_secret", JStr (x25519_secret s))]).

Definition from_plaintext (s : bytes) : result CryptoError DeviceBundle :=
  secrets ← map_err (λ e, InvalidKeyFormat (lit "Invalid bundle JSON: " ++ e)) (bundle_from_str s);
  ensure (bs_version secrets =? 2)%N
    (InvalidKeyFormat (lit "Unsupported bundle version " ++ fmt_N (bs_version secrets)
      ++ lit " (expected 2)")) ≫= λ _,
  kp ← import_secret (ed25519_secret secrets);
  ka ← ka_import_secret (x25519_secret secrets);
  Ok (mkDeviceBundle kp ka).

Definition export_encrypted (b : DeviceBundle) (passphrase salt nonce_bytes : bytes)
    : result CryptoError bytes :=
  encrypt_blob BUNDLE_HEADER_V2 2 (to_plaintext b) passphrase salt nonce_bytes.

Definition import_encrypted (data passphrase : bytes) : result CryptoError DeviceBundle :=
  rest ← parse_key_header BUNDLE_HEADER_V2 data;
  '(meta, ciphertext) ← parse_key_metadata rest;
  salt ← metadata_bytes_or_default meta "salt";
  nonce_bytes ← metadata_bytes_or_default meta "nonce";
  iterations ← metadata_iterations "Bundle" meta;
  plaintext ← decrypt_blob "bundle" ciphertext passphrase salt nonce_bytes iterations;
  ensure (utf8_valid plaintext)
    (DecryptionFailed (lit "Bundle plaintext not UTF-8")) ≫= λ _,
  from_plaintext plaintext.
End Keywrap.

(** ** Lemmas *)

Section KeywrapLemmas.
Context `{Blake3Laws} `{HexLaws} `{Base64Laws} `{Ed25519Laws} `{AeadLaws} `{KdfLaws} `{HpkeLaws}
  `{SerdeJsonLaws} `{SerdeValue} `{BundleJson}.

Lemma parse_x25519_ok s k :
  parse_x25519_bytes s = Ok k ↔ s = KEY_AGREEMENT_PREFIX ++ base64_encode k ∧ length k = 32.
Proof.
  unfold parse_x25519_bytes. split.
  - intros Hp. inv_ok. subst.
    match goal with E : strip_prefix _ _ = Some _ |- _ => apply strip_prefix_spec in E as -> end.
    match goal with E : base64_decode _ = Some _ |- _ => apply base64_encode_decode in E as <- end.
    by match goal with E : (_ =? _)%nat = true |- _ => apply Nat.eqb_eq in E end.
  - intros [-> Hl]. rewrite strip_prefix_app. cbn [ok_or mbind result_bind].
    rewrite base64_decode_encode. cbn [ok_or mbind result_bind]. by rewrite Hl.
Qed.

(** The device bundle that generation and import make. *)
Definition wf_bundle (b : DeviceBundle) : Prop :=
  wf_keypair (signing b) ∧ length (ka_secret (key_agreement b)) = 32
  ∧ key_agreement b = ka_of_secret (ka_secret (key_agreement b)).

Lemma ka_import_export k :
  length (ka_secret k) = 32 → k = ka_of_secret (ka_secret k) →
  ka_import_secret (ka_export_secret k) = Ok k.
Proof.
  intros Hl Hk. unfold ka_import_secret.
  rewrite (proj2 (parse_x25519_ok _ (ka_secret k))) by done. cbn. by rewrite <-Hk.
Qed.

(** serde reads the bundle back from its own text. *)
Definition bundle_reads_back (b : DeviceBundle) : Prop :=
  bundle_from_str (to_plaintext b) = Ok (bundle_secrets b).

Lemma from_to_plaintext b :
  wf_bundle b → bundle_reads_back b → from_plaintext (to_plaintext b) = Ok b.
Proof.
  intros (Hs & Hl & Hk) Hb. unfold from_plaintext. rewrite Hb. cbn [map_err mbind result_bind].
  cbn [bs_version bundle_secrets ed25519_secret x25519_secret N.eqb Pos.eqb ensure].
  rewrite import_export_secret by done. cbn [mbind result_bind].
  rewrite ka_import_export by done. cbn. by destruct b.
Qed.

Lemma metadata_bytes_or_default_ok meta field b :
  value_index meta (lit field) = VStr (base64_encode b) →
  metadata_bytes_or_default meta field = Ok b.
Proof. unfold metadata_bytes_or_default. intros ->. apply decode_field_ok. Qed.

Lemma bundle_import_export b passphrase salt nonce data :
  wf_bundle b → bundle_reads_back b → utf8_valid (to_plaintext b) = true → length nonce = 12 →
  metadata_reads_back 2 salt nonce →
  export_encrypted b passphrase salt nonce = Ok data →
  import_encrypted data passphrase = Ok b.
Proof.
  intros Hwf Hb Hutf Hn Hval Hexp. unfold export_encrypted in Hexp.
  apply encrypt_blob_ok in Hexp as (rest & ct & Hrest & Hmeta & Hdec);
    [|by vm_compute; repeat constructor|done..].
  unfold import_encrypted. rewrite Hrest. cbn [mbind result_bind].
  rewrite Hmeta. cbn [mbind result_bind].
  rewrite (metadata_bytes_or_default_ok _ "salt" salt),
    (metadata_bytes_or_default_ok _ "nonce" nonce) by done. cbn [mbind result_bind].
  rewrite (proj2 (metadata_iterations_ok _ _ PBKDF2_MIN_ITERATIONS)) by done.
  cbn [mbind result_bind]. rewrite Hdec. cbn [mbind result_bind]. rewrite Hutf.
  by apply from_to_plaintext.
Qed.

Lemma open_seal_secret secret passphrase salt nonce data :
  length nonce = 12 → metadata_reads_back 1 salt nonce →
  seal_secret secret passphrase salt nonce = Ok data → open_secret data passphrase = Ok secret.
Proof.
  intros Hn Hval Hexp. unfold seal_secret in Hexp.
  apply encrypt_blob_ok in Hexp as (rest & ct & Hrest & Hmeta & Hdec);
    [|by vm_compute; repeat constructor|done..].
  unfold open_secret. rewrite Hrest. cbn [mbind result_bind].
  rewrite Hmeta. cbn [mbind result_bind].
  change (check_sealed_version _) with (@Ok CryptoError unit tt). cbn [mbind result_bind].
  rewrite (metadata_bytes_or_default_ok _ "salt" salt),
    (metadata_bytes_or_default_ok _ "nonce" nonce) by done. cbn [mbind result_bind].
  rewrite (proj2 (metadata_iterations_ok _ _ PBKDF2_MIN_ITERATIONS)) by done.
  cbn [mbind result_bind]. apply Hdec.
Qed.

(** The three kinds of key file are told apart by their header line. *)
Lemma headers_disjoint h h' data rest rest' :
  parse_key_header h data = Ok rest → parse_key_header h' data = Ok rest' →
  h ∈ [ENCRYPTED_KEY_HEADER; BUNDLE_HEADER_V2; SEALED_SECRET_HEADER_V1] →
  h' ∈ [ENCRYPTED_KEY_HEADER; BUNDLE_HEADER_V2; SEALED_SECRET_HEADER_V1] → h = h'.
Proof.
  intros ->%parse_key_header_inv Heq%parse_key_header_inv Hh Hh'.
  rewrite !elem_of_cons, elem_of_nil in Hh, Hh'.
  destruct Hh as [->|[->|[->|[]]]], Hh' as [->|[->|[->|[]]]]; done.
Qed.

Lemma hpke_open_seal_cek rng k info aad cek e w :
  length cek = 32 → k = ka_of_secret (ka_secret k) →
  hpke_seal_cek_with_rng rng (ka_public_string k) info aad cek = Ok (e, w) →
  hpke_open_cek k e info aad w = Ok cek.
Proof.
  intros Hl Hk. unfold hpke_seal_cek_with_rng.
  rewrite (proj2 (parse_x25519_ok _ (ka_public k)));
    [|rewrite Hk; split; [done|apply length_x25519_public]].
  cbn [mbind result_bind]. destruct (hpke_seal _ _ _ _ _) as [[en ct]|] eqn:Hseal; [|done].
  cbn. intros [= <- <-]. rewrite Hk in Hseal. cbn in Hseal.
  apply hpke_open_seal in Hseal as [Hok Hopen].
  unfold hpke_open_cek, hpke_open_raw. rewrite !base64_decode_encode. cbn [ok_or mbind result_bind].
  rewrite Hok. cbn [ensure ok_or mbind result_bind].
  rewrite Hopen. cbn. by rewrite Hl.
Qed.

(** ** What the associated data of a chunk commits to *)

Lemma length_public s k : from_public s = Ok k → length s = 52.
Proof.
  rewrite from_public_ok. intros (-> & Hl & _).
  by rewrite length_app, length_base64_encode, Hl.
Qed.

(** No profile name is a prefix of another. *)
Lemma known_profiles_prefix_free p p' t t' :
  p ∈ known_profiles → p' ∈ known_profiles → p ++ t = p' ++ t' → p = p' ∧ t = t'.
Proof.
  unfold known_profiles. rewrite !elem_of_cons, !elem_of_nil.
  intros Hp Hp' Heq. destruct_or? Hp; destruct_or? Hp'; subst; done || (split; [done|by simplify_list_eq]).
Qed.

Lemma chunk_aad_binds pk pk' k k' p p' t t' :
  from_public pk = Ok k → from_public pk' = Ok k' → p ∈ known_profiles → p' ∈ known_profiles →
  chunk_aad_v2 pk p t = chunk_aad_v2 pk' p' t' →
  (pk = pk' ∧ p = p' ∧ t = t') ∨ Collision.
Proof.
  intros Hpk%length_public Hpk'%length_public Hp Hp' Heq. unfold chunk_aad_v2 in Heq.
  apply blake3_inj_or_collision in Heq as [Heq|?]; [left|by right].
  apply app_inv_head in Heq. apply app_inj_1 in Heq as [-> Heq]; [|congruence].
  by apply known_profiles_prefix_free in Heq as [-> ->].
Qed.

Lemma cek_wrap_info_inj pk pk' k k' v v' :
  from_public pk = Ok k → from_public pk' = Ok k' →
  cek_wrap_info pk v = cek_wrap_info pk' v' → pk = pk' ∧ v = v'.
Proof.
  intros Hpk%length_public Hpk'%length_public Heq. unfold cek_wrap_info in Heq.
  apply app_inv_head in Heq. apply app_inj_1 in Heq; [done|congruence].
Qed.
End KeywrapLemmas.
