(* ===== verification/Chronicle.v ===== *)
(** * The device chronicle

    crates/core/src/chronicle.rs: archive digests, the local state file of a
    chronicle, signed witness requests, and co-signed rotation records. *)

From S2P Require Import Prelude External Utf8 FileSystem Json Float64 Manifest ManifestCanon.
From S2P Require Import Chain Crypto Keywrap.

Section Digests.
Context `{Blake3} `{Hex} `{SerdeJson}.

Definition archive_digest (m : TrstManifest) : result ManifestFormatError bytes :=
  b ← to_canonical_bytes m; Ok (segment_hash b).

Definition format_archive_id (digest : bytes) : bytes := b3_prefix ++ hex_encode digest.
End Digests.

(** ** The state file *)

Record ChronicleState := mkChronicleState {
  cs_device_pub : bytes;
  cs_sequence : N; (* u64 *)
  cs_tip : bytes;
  cs_key_epoch : N; (* u32 *)
  cs_updated_at : bytes;
}.

(** serde_json on the state type. *)
Class StateJson := {
  state_to_json : ChronicleState → result bytes bytes;
  state_from_json : bytes → result bytes ChronicleState;
}.

(** [std::io::Error], or the parse error wrapped as [InvalidData]. *)
Inductive StateError := StateIo (e : io_error) | InvalidData (msg : bytes).

Definition tmp_sibling (p : path) : path := sibling (lit ".tmp") p.

Section State.
Context `{StateJson}.

Definition load (p : path) (s : fs) : result StateError ChronicleState :=
  b ← map_err StateIo (read_file p s);
  map_err InvalidData (state_from_json b).

(** [fs::set_permissions]: the mode is not modelled, the file must exist. *)
Definition set_permissions (p : path) : io io_error unit := λ s,
  match ancestor_error p s, s !! p with
  | Some e, _ => (Err e, s)
  | None, None => (Err NotFound, s)
  | None, Some _ => (Ok tt, s)
  end.

(** The file operations of [save], in order. *)
Definition save_steps (json : bytes) (p : path) : list (io io_error unit) :=
  let tmp := tmp_sibling p in
  [create_write tmp json; set_permissions tmp; rename tmp p].

Definition save (st : ChronicleState) (p : path) : io StateError unit :=
  io_lift (map_err InvalidData (state_to_json st)) ≫= λ json,
  io_map_err StateIo (io_for_each (λ step, step) (save_steps json p)).
End State.

(** ** Rotation records and witness requests *)

Record RotationOld := mkRotationOld {
  old_public_key : bytes;
  old_key_epoch : N; (* u32 *)
}.

Record RotationNew := mkRotationNew {
  new_public_key : bytes;
  new_key_agreement_public : bytes;
  new_key_epoch : N; (* u32 *)
}.

Record RotationRecord := mkRotationRecord {
  rr_trst_version : bytes;
  rr_kind : bytes;
  rr_sequence : N; (* u64 *)
  rr_prev_archive_hash : bytes;
  rr_old : RotationOld;
  rr_new : RotationNew;
  rr_rotated_at : bytes;
  sig_old : bytes;
  sig_new : bytes;
}.

Definition ROTATION_KIND : bytes := lit "rotation".

Record WitnessRequest := mkWitnessRequest {
  wr_device_pub : bytes;
  wr_sequence : N; (* u64 *)
  wr_tip : bytes;
  wr_signed_at : bytes;
  wr_signature : bytes;
  wr_rotation : option RotationRecord;
}.

Section Records.
Context `{Blake3} `{Hex} `{Base64} `{Ed25519} `{P256} `{Hpke} `{SerdeJson}.

Definition witness_signing_bytes (r : WitnessRequest) : bytes :=
  [lbrace]
  ++ jkey "device_pub" ++ json_str (wr_device_pub r)
  ++ ckey "sequence" ++ fmt_N (wr_sequence r)
  ++ ckey "tip" ++ json_str (wr_tip r)
  ++ ckey "signed_at" ++ json_str (wr_signed_at r)
  ++ [rbrace].

Definition witness_create_signed (kp : DeviceKeypair) (sequence : N) (tip signed_at : bytes)
    : result CryptoError WitnessRequest :=
  let req := mkWitnessRequest (public kp) sequence tip signed_at [] None in
  sig ← sign_manifest kp (witness_signing_bytes req);
  Ok (mkWitnessRequest (public kp) sequence tip signed_at sig None).

(** [verify_manifest(..).unwrap_or(false)] *)
Definition verifies (key msg sig : bytes) : bool :=
  match verify_manifest key msg sig with Ok b => b | Err _ => false end.

Definition witness_verify (r : WitnessRequest) : bool :=
  verifies (wr_device_pub r) (witness_signing_bytes r) (wr_signature r).

Definition rotation_signing_bytes (r : RotationRecord) : bytes :=
  [lbrace]
  ++ jkey "trst_version" ++ json_str (rr_trst_version r)
  ++ ckey "kind" ++ json_str (rr_kind r)
  ++ ckey "sequence" ++ fmt_N (rr_sequence r)
  ++ ckey "prev_archive_hash" ++ json_str (rr_prev_archive_hash r)
  ++ ckey "old" ++ [lbrace]
  ++ jkey "public_key" ++ json_str (old_public_key (rr_old r))
  ++ ckey "key_epoch" ++ fmt_N (old_key_epoch (rr_old r)) ++ [rbrace]
  ++ ckey "new" ++ [lbrace]
  ++ jkey "public_key" ++ json_str (new_public_key (rr_new r))
  ++ ckey "key_agreement_public" ++ json_str (new_key_agreement_public (rr_new r))
  ++ ckey "key_epoch" ++ fmt_N (new_key_epoch (rr_new r)) ++ [rbrace]
  ++ ckey "rotated_at" ++ json_str (rr_rotated_at r)
  ++ [rbrace].

Definition rotation_digest (r : RotationRecord) : bytes := segment_hash (rotation_signing_bytes r).

Definition set_sigs (o n : bytes) (r : RotationRecord) : RotationRecord :=
  mkRotationRecord (rr_trst_version r) (rr_kind r) (rr_sequence r) (rr_prev_archive_hash r)
    (rr_old r) (rr_new r) (rr_rotated_at r) o n.

Definition rotation_create_signed (old_signing : DeviceKeypair) (old_epoch : N)
    (new_bundle : DeviceBundle) (sequence : N) (prev rotated_at : bytes)
    : result CryptoError RotationRecord :=
  let rec := mkRotationRecord (lit "0.2.0") ROTATION_KIND sequence prev
    (mkRotationOld (public old_signing) old_epoch)
    (mkRotationNew (public (signing new_bundle)) (ka_public_string (key_agreement new_bundle))
       (wrapping_add32 old_epoch 1))
    rotated_at [] [] in
  let b := rotation_signing_bytes rec in
  so ← sign_manifest old_signing b;
  sn ← sign_manifest (signing new_bundle) b;
  Ok (set_sigs so sn rec).

Definition rotation_verify (r : RotationRecord) : bool :=
  if negb (bool_decide (rr_kind r = ROTATION_KIND)) then false
  else if negb (bool_decide
    (checked_add32 (old_key_epoch (rr_old r)) 1 = Some (new_key_epoch (rr_new r)))) then false
  else
    let b := rotation_signing_bytes r in
    let old_ok := verifies (old_public_key (rr_old r)) b (sig_old r) in
    let new_ok := verifies (new_public_key (rr_new r)) b (sig_new r) in
    old_ok && new_ok.
End Records.

(** ** The signed documents as syntax trees *)

Definition witness_json (r : WitnessRequest) : json :=
  JObj (jfield "device_pub" JStr (wr_device_pub r) ++ jfield "sequence" jN (wr_sequence r)
    ++ jfield "tip" JStr (wr_tip r) ++ jfield "signed_at" JStr (wr_signed_at r)).

Definition old_json (o : RotationOld) : json :=
  JObj (jfield "public_key" JStr (old_public_key o) ++ jfield "key_epoch" jN (old_key_epoch o)).
Definition new_json (n : RotationNew) : json :=
  JObj (jfield "public_key" JStr (new_public_key n)
    ++ jfield "key_agreement_public" JStr (new_key_agreement_public n)
    ++ jfield "key_epoch" jN (new_key_epoch n)).
Definition rotation_json (r : RotationRecord) : json :=
  JObj (jfield "trst_version" JStr (rr_trst_version r) ++ jfield "kind" JStr (rr_kind r)
    ++ jfield "sequence" jN (rr_sequence r)
    ++ jfield "prev_archive_hash" JStr (rr_prev_archive_hash r)
    ++ jfield "old" old_json (rr_old r) ++ jfield "new" new_json (rr_new r)
    ++ jfield "rotated_at" JStr (rr_rotated_at r)).

Section RecordLemmas.
Context `{Blake3} `{Hex} `{Base64} `{Ed25519} `{P256} `{Hpke} `{SerdeJsonLaws}.

Lemma witness_print r : witness_signing_bytes r = jprint (witness_json r).
Proof. unfold witness_signing_bytes, witness_json. print_obj. done. Qed.

Lemma rotation_print r : rotation_signing_bytes r = jprint (rotation_json r).
Proof.
  unfold rotation_signing_bytes, rotation_json. print_obj.
  unfold old_json, new_json. rewrite !obj_first by reflexivity.
  repeat (rewrite tail_members_app). rewrite !tail_field by reflexivity. unfold jN.
  rewrite ?jprint_str, ?jprint_tok. rewrite <-?app_assoc. cbn [app].
  by rewrite <-?app_assoc.
Qed.

Lemma witness_json_wf r : json_wf (witness_json r) = true.
Proof. unfold witness_json. solve_wf. Qed.
Lemma old_json_wf o : json_wf (old_json o) = true.
Proof. unfold old_json. solve_wf. Qed.
Lemma new_json_wf n : json_wf (new_json n) = true.
Proof. unfold new_json. solve_wf. Qed.
Lemma rotation_json_wf r : json_wf (rotation_json r) = true.
Proof. unfold rotation_json. solve_wf; auto using old_json_wf, new_json_wf. Qed.

Lemma witness_json_inj r r' : witness_json r = witness_json r' →
  wr_device_pub r = wr_device_pub r' ∧ wr_sequence r = wr_sequence r'
  ∧ wr_tip r = wr_tip r' ∧ wr_signed_at r = wr_signed_at r'.
Proof. intros Heq. unfold witness_json in Heq. peel_members Heq. field_eqs. done. Qed.

Global Instance old_json_inj : Inj (=) (=) old_json.
Proof.
  intros [] [] Heq. unfold old_json in Heq. peel_members Heq. field_eqs. simpl in *. by subst.
Qed.
Global Instance new_json_inj : Inj (=) (=) new_json.
Proof.
  intros [] [] Heq. unfold new_json in Heq. peel_members Heq. field_eqs. simpl in *. by subst.
Qed.

Lemma rotation_json_inj r r' :
  rotation_json r = rotation_json r' → set_sigs [] [] r = set_sigs [] [] r'.
Proof.
  intros Heq. unfold rotation_json in Heq. peel_members Heq. field_eqs.
  repeat match goal with
  | E : old_json _ = old_json _ |- _ => apply (inj old_json) in E
  | E : new_json _ = new_json _ |- _ => apply (inj new_json) in E
  end. unfold set_sigs. destruct r, r'; simpl in *. by subst.
Qed.

(** The signed bytes determine everything but the signatures. *)
Lemma witness_bytes_inj r r' : witness_signing_bytes r = witness_signing_bytes r' →
  wr_device_pub r = wr_device_pub r' ∧ wr_sequence r = wr_sequence r'
  ∧ wr_tip r = wr_tip r' ∧ wr_signed_at r = wr_signed_at r'.
Proof.
  rewrite !witness_print. intros Heq%jprint_inj; auto using witness_json_wf.
  by apply witness_json_inj.
Qed.

Lemma rotation_bytes_inj r r' :
  rotation_signing_bytes r = rotation_signing_bytes r' → set_sigs [] [] r = set_sigs [] [] r'.
Proof.
  rewrite !rotation_print. intros Heq%jprint_inj; auto using rotation_json_wf.
  by apply rotation_json_inj.
Qed.

(** ** Signatures of one document type do not verify for another *)

Lemma witness_rotation_disjoint w r : witness_signing_bytes w ≠ rotation_signing_bytes r.
Proof.
  rewrite witness_print, rotation_print. intros Heq%jprint_inj;
    [|apply witness_json_wf|apply rotation_json_wf].
  apply JObj_inj in Heq. rewrite <-!app_assoc in Heq. member_clash Heq.
Qed.

Lemma witness_manifest_disjoint w m b :
  to_canonical_bytes m = Ok b → witness_signing_bytes w ≠ b.
Proof.
  rewrite to_canonical_bytes_print, witness_print.
  intros <-%Ok_inj Heq%jprint_inj; [|apply witness_json_wf|apply manifest_json_wf].
  apply JObj_inj in Heq. rewrite <-!app_assoc in Heq. member_clash Heq.
Qed.

Lemma rotation_manifest_disjoint r m b :
  to_canonical_bytes m = Ok b → rotation_signing_bytes r ≠ b.
Proof.
  rewrite to_canonical_bytes_print, rotation_print.
  intros <-%Ok_inj Heq%jprint_inj; [|apply rotation_json_wf|apply manifest_json_wf].
  unfold rotation_json, manifest_json in Heq.
  apply JObj_inj in Heq. rewrite <-!app_assoc in Heq.
  apply jfield_app_inj in Heq as [_ Heq]. member_clash Heq.
Qed.
End RecordLemmas.

(** ** Digests *)

Section DigestLemmas.
Context `{Blake3Laws} `{HexLaws} `{SerdeJsonLaws}.

Lemma archive_digest_eq m : archive_digest m = Ok (blake3 (jprint (manifest_json (set_sig None m)))).
Proof. unfold archive_digest. by rewrite to_canonical_bytes_print. Qed.

Lemma format_archive_id_inj d d' : format_archive_id d = format_archive_id d' → d = d'.
Proof. intros Heq%app_inv_head. by apply hex_encode_inj in Heq. Qed.

(** A digest in its textual form is a well-formed chronicle link. *)
Lemma format_archive_id_wf m : prev_hash_well_formed (format_archive_id (blake3 m)) = true.
Proof.
  apply prev_hash_well_formed_ok. exists (hex_encode (blake3 m)). split_and!; [done|..].
  - by rewrite length_hex_encode, length_blake3.
  - eapply Forall_impl; [apply hex_encode_lower|]. by intros c [? _].
Qed.

Lemma archive_digest_binds m m' d :
  floats_ok m = true → floats_ok m' = true → epoch_canonical m → epoch_canonical m' →
  archive_digest m = Ok d → archive_digest m' = Ok d →
  set_sig None m = set_sig None m' ∨ Collision.
Proof.
  intros Hf Hf' He He'. rewrite !archive_digest_eq. intros <-%Ok_inj Heq%Ok_inj.
  apply blake3_inj_or_collision in Heq as [Heq|?]; [left|by right].
  apply jprint_inj in Heq; [|apply manifest_json_wf..].
  by apply manifest_json_inj in Heq.
Qed.

Lemma rotation_digest_binds r r' :
  rotation_digest r = rotation_digest r' → set_sigs [] [] r = set_sigs [] [] r' ∨ Collision.
Proof.
  unfold rotation_digest, segment_hash.
  intros [Heq|?]%blake3_inj_or_collision; [left|by right]. by apply rotation_bytes_inj.
Qed.

(** A rotation and an archive never share a digest. *)
Lemma digest_kinds_disjoint r m : archive_digest m = Ok (rotation_digest r) → Collision.
Proof.
  intros Heq. unfold archive_digest in Heq.
  apply bind_ok in Heq as (b & Hb & Heq). apply Ok_inj in Heq. exists b, (rotation_signing_bytes r).
  split; [|done]. intros ->. by eapply rotation_manifest_disjoint.
Qed.
End DigestLemmas.

(** ** Signing *)

Section SigningLemmas.
Context `{Blake3Laws} `{HexLaws} `{Base64Laws} `{Ed25519Laws} `{P256} `{HpkeLaws} `{SerdeJsonLaws}.

Lemma verifies_ok key msg sig : verifies key msg sig = true ↔ signed_by key msg sig.
Proof.
  rewrite <-verify_manifest_ok. unfold verifies.
  destruct (verify_manifest key msg sig) as [[]|]; naive_solver.
Qed.

Lemma sign_verifies kp msg sig :
  wf_keypair kp → sign_manifest kp msg = Ok sig → verifies (public kp) msg sig = true.
Proof.
  intros Hkp Hs. unfold verifies. destruct (sign_verify kp msg Hkp) as (sig' & Hs' & Hv).
  rewrite Hs in Hs'. injection Hs' as <-. by rewrite Hv.
Qed.

Lemma witness_signed_verifies kp sequence tip signed_at :
  wf_keypair kp →
  ∃ r, witness_create_signed kp sequence tip signed_at = Ok r ∧ witness_verify r = true
    ∧ wr_device_pub r = public kp ∧ wr_sequence r = sequence ∧ wr_tip r = tip
    ∧ wr_rotation r = None.
Proof.
  intros Hkp. unfold witness_create_signed. cbn [mbind result_bind sign_manifest].
  eexists. split; [done|]. split_and!; [|done..]. by apply sign_verifies.
Qed.

Lemma rotation_verify_ok r :
  rotation_verify r = true ↔
  rr_kind r = ROTATION_KIND
  ∧ (new_key_epoch (rr_new r) = old_key_epoch (rr_old r) + 1)%N
  ∧ (new_key_epoch (rr_new r) ≤ u32_max)%N
  ∧ signed_by (old_public_key (rr_old r)) (rotation_signing_bytes r) (sig_old r)
  ∧ signed_by (new_public_key (rr_new r)) (rotation_signing_bytes r) (sig_new r).
Proof.
  unfold rotation_verify. rewrite <-!verifies_ok.
  assert (checked_add32 (old_key_epoch (rr_old r)) 1 = Some (new_key_epoch (rr_new r)) ↔
    (new_key_epoch (rr_new r) = old_key_epoch (rr_old r) + 1)%N
    ∧ (new_key_epoch (rr_new r) ≤ u32_max)%N) as Hadd.
  { unfold checked_add32. destruct (N.leb_spec (old_key_epoch (rr_old r) + 1) u32_max).
    - split; [intros [= <-]; done|intros [-> _]; done].
    - split; [done|]. intros [-> ?]. lia. }
  case_bool_decide as Hk; cbn [negb]; [|naive_solver].
  case_bool_decide as He; cbn [negb].
  - rewrite andb_true_iff. apply Hadd in He. naive_solver.
  - naive_solver.
Qed.

Lemma rotation_signed_verifies old_signing old_epoch b sequence prev rotated_at :
  wf_keypair old_signing → wf_bundle b → (old_epoch < u32_max)%N →
  ∃ r, rotation_create_signed old_signing old_epoch b sequence prev rotated_at = Ok r
    ∧ rotation_verify r = true
    ∧ old_public_key (rr_old r) = public old_signing
    ∧ new_public_key (rr_new r) = public (signing b)
    ∧ new_key_epoch (rr_new r) = (old_epoch + 1)%N
    ∧ rr_sequence r = sequence ∧ rr_prev_archive_hash r = prev.
Proof.
  intros Ho [Hb _] He. unfold rotation_create_signed. cbn [mbind result_bind sign_manifest].
  assert (wrapping_add32 old_epoch 1 = old_epoch + 1)%N as Hadd.
  { unfold wrapping_add32. apply N.mod_small. unfold u32_max in He. lia. }
  eexists. split; [done|]. split_and!; [|done|done|apply Hadd|done|done].
  apply rotation_verify_ok. cbn [rr_kind rr_new rr_old set_sigs new_key_epoch old_key_epoch
    old_public_key new_public_key sig_old sig_new]. rewrite Hadd.
  split_and!; [done|done|unfold u32_max in *; lia|..]; apply verifies_ok, sign_verifies; done.
Qed.

(** At the last epoch the builder's addition wraps to 0, and the checked addition of
    the verifier rejects the record. *)
Lemma rotation_epoch_limit old_signing b sequence prev rotated_at r :
  rotation_create_signed old_signing u32_max b sequence prev rotated_at = Ok r →
  new_key_epoch (rr_new r) = 0%N ∧ rotation_verify r = false.
Proof.
  intros Hr. unfold rotation_create_signed in Hr. cbn [mbind result_bind sign_manifest] in Hr.
  apply Ok_inj in Hr as <-. split; [done|]. apply not_true_is_false.
  rewrite rotation_verify_ok. intros (_ & He & _). done.
Qed.
End SigningLemmas.

(** ** The state file *)

Section StateLemmas.
Context `{StateJson}.

Lemma tmp_sibling_ne p : tmp_sibling p ≠ p.
Proof. by apply sibling_ne. Qed.

Lemma state_path_ancestors p q : q ∈ ancestors p → q ≠ p ∧ q ≠ tmp_sibling p.
Proof. apply sibling_ancestors. Qed.

Lemma load_ext (p : path) (s s' : fs) :
  (∀ q, q ≠ tmp_sibling p → s' !! q = s !! q) → load p s' = load p s.
Proof.
  intros Hq. unfold load. rewrite (read_file_ext p s s'); [done|..].
  - apply Hq. symmetry. apply tmp_sibling_ne.
  - intros q [_ ?]%state_path_ancestors. by apply Hq.
Qed.

Lemma rename_load (p : path) (j : bytes) (st : ChronicleState) (s : fs) r s' :
  s !! tmp_sibling p = Some (File j) → state_from_json j = Ok st →
  rename (tmp_sibling p) p s = (r, s') →
  (s' = s) ∨ (r = Ok tt ∧ load p s' = Ok st).
Proof.
  intros Htmp Hj. unfold rename.
  destruct (ancestor_error (tmp_sibling p) s); [intros [= <- <-]; by left|].
  destruct (ancestor_error p s) eqn:Ha; [intros [= <- <-]; by left|]. rewrite Htmp.
  assert (load p (<[p:=File j]> (delete (tmp_sibling p) s)) = Ok st) as Hload.
  { unfold load. rewrite (read_file_ok p _ j); [by cbn; rewrite Hj| |by rewrite lookup_insert_eq].
    rewrite <-Ha. apply ancestor_error_ext. intros q [? ?]%state_path_ancestors.
    by rewrite lookup_insert_ne, lookup_delete_ne. }
  destruct (s !! p) as [[c|]|]; intros [= <- <-]; auto.
Qed.

(** After any number of the steps of [save], the state file reads as before or as
    the new state. *)
Lemma save_steps_atomic (st : ChronicleState) (p : path) (j : bytes) (s : fs) (k : nat) :
  state_from_json j = Ok st →
  let s' := (io_for_each (λ step, step) (take k (save_steps j p)) s).2 in
  load p s' = load p s ∨ load p s' = Ok st.
Proof.
  intros Hj. cbv zeta. unfold save_steps. destruct k as [|k]; [by left|].
  cbn [take io_for_each]. unfold mbind, io_bind.
  destruct (create_write (tmp_sibling p) j s) as [r1 s1] eqn:E1.
  assert (load p s1 = load p s ∧ (r1 = Ok tt → s1 !! tmp_sibling p = Some (File j)))
    as [Hl1 Ht].
  { unfold create_write in E1. repeat case_match; simplify_eq; (split; [|try done]);
      try done; try (apply load_ext; intros q Hq; by rewrite lookup_insert_ne);
      intros _; apply lookup_insert_eq. }
  destruct r1 as [[]|]; [|by left]. destruct k as [|k]; [by left|].
  cbn [take io_for_each]. unfold mbind, io_bind.
  destruct (set_permissions (tmp_sibling p) s1) as [r2 s2] eqn:E2.
  assert (s2 = s1) as -> by (unfold set_permissions in E2; by repeat case_match; simplify_eq).
  destruct r2 as [[]|]; [|by left]. destruct k as [|k]; [by left|].
  cbn [take io_for_each]. unfold mbind, io_bind.
  destruct (rename (tmp_sibling p) p s1) as [r3 s3] eqn:E3.
  rewrite take_nil. cbn [io_for_each].
  apply (rename_load p j st) in E3 as [->|[-> Hl3]]; [|by right|by apply Ht|done].
  left. by destruct r3 as [[]|].
Qed.

Lemma save_load (st : ChronicleState) (p : path) (j : bytes) (s s' : fs) :
  state_to_json st = Ok j → state_from_json j = Ok st →
  save st p s = (Ok tt, s') → load p s' = Ok st.
Proof.
  intros Hto Hfrom. unfold save, io_lift, io_map_err, mbind, io_bind. rewrite Hto. cbn [map_err].
  destruct (io_for_each (λ step, step) (save_steps j p) s) as [r s2] eqn:E. intros [= Hr ->].
  destruct r as [[]|]; [|done]. unfold save_steps in E. cbn [io_for_each] in E.
  apply io_bind_ok in E as ([] & s3 & E1 & E). apply io_bind_ok in E as ([] & s4 & E2 & E).
  apply io_bind_ok in E as ([] & s5 & E3 & E). injection E as <-.
  assert (s3 !! tmp_sibling p = Some (File j)) as Ht.
  { unfold create_write in E1. repeat case_match; simplify_eq; apply lookup_insert_eq. }
  assert (s4 = s3) as ->.
  { unfold set_permissions in E2. by repeat case_match; simplify_eq. }
  pose proof (rename_load p j st s3 _ _ Ht Hfrom E3) as [->|[_ ?]]; [|done].
  exfalso. unfold rename in E3. rewrite Ht in E3.
  destruct (ancestor_error (tmp_sibling p) s3), (ancestor_error p s3); try done.
  assert (<[p:=File j]> (delete (tmp_sibling p) s3) = s3) as Hbad
    by (destruct (s3 !! p) as [[]|]; congruence).
  apply (f_equal (lookup (tmp_sibling p))) in Hbad.
  rewrite lookup_insert_ne, lookup_delete_eq, Ht in Hbad; [done|].
  intros ?. by apply (tmp_sibling_ne p).
Qed.
End StateLemmas.
