(* ===== verification/Attestation.v ===== *)
(** * Point attestations

    crates/core/src/point_attestation.rs: a signed document that binds two files by
    their BLAKE3 hashes.  The clock, the nonce and the crate version are arguments. *)

From S2P Require Import Prelude External Utf8 FileSystem Json Float64 Manifest ManifestCanon.
From S2P Require Import Chain Crypto Chronicle.

Definition FORMAT_V1 : bytes := lit "te-point-attestation-v1".
Definition NONCE_BYTES : nat := 16.

Record ArtifactRef := mkArtifactRef {
  ar_hash : bytes;
  ar_filename : bytes;
  ar_label : bytes;
}.

Record PointAttestation := mkPointAttestation {
  pa_format : bytes;
  pa_sealedge_version : bytes;
  pa_timestamp : bytes;
  pa_nonce : bytes;
  pa_subject : ArtifactRef;
  pa_evidence : ArtifactRef;
  pa_public_key : bytes;
  pa_signature : option bytes;
}.

Inductive PointAttestationError :=
  | PaIo (e : io_error)
  | PaJson (e : bytes)
  | PaCrypto (e : CryptoError)
  | HashMismatch (artifact expected actual : bytes)
  | MissingSignature.

Definition attestation_error_text `{IoText} (e : PointAttestationError) : bytes :=
  match e with
  | PaIo e => lit "IO error: " ++ io_error_text e
  | PaJson e => lit "JSON serialization error: " ++ e
  | PaCrypto e => lit "Cryptographic error: " ++ crypto_error_text e
  | HashMismatch a x y => lit "Hash mismatch for " ++ a ++ lit ": expected " ++ x ++ lit ", actual " ++ y
  | MissingSignature => lit "Attestation has no signature — sign before verifying"
  end.

(** serde on attestations: pretty printing and parsing *)
Class AttestationJson := {
  attestation_to_json : PointAttestation → result bytes bytes;
  attestation_from_json : bytes → result bytes PointAttestation;
}.

Definition file_name (p : path) : bytes :=
  match last p with Some n => from_utf8_lossy n | None => [] end.

Definition set_pa_signature (s : option bytes) (a : PointAttestation) : PointAttestation :=
  mkPointAttestation (pa_format a) (pa_sealedge_version a) (pa_timestamp a) (pa_nonce a)
    (pa_subject a) (pa_evidence a) (pa_public_key a) s.

(** What serde prints for the unsigned document: the fields in declaration order, the
    missing signature as [null]. *)
Definition artifact_json (r : ArtifactRef) : json :=
  JObj (jfield "hash" JStr (ar_hash r) ++ jfield "filename" JStr (ar_filename r)
    ++ jfield "label" JStr (ar_label r)).
Definition attestation_json (a : PointAttestation) : json :=
  JObj (jfield "format" JStr (pa_format a)
    ++ jfield "sealedge_version" JStr (pa_sealedge_version a)
    ++ jfield "timestamp" JStr (pa_timestamp a) ++ jfield "nonce" JStr (pa_nonce a)
    ++ jfield "subject" artifact_json (pa_subject a)
    ++ jfield "evidence" artifact_json (pa_evidence a)
    ++ jfield "public_key" JStr (pa_public_key a)
    ++ jfield "signature" (λ o, match o with Some s => JStr s | None => JTok (lit "null") end)
         (pa_signature a)).

Section Attestation.
Context `{Blake3} `{Hex} `{Base64} `{Ed25519} `{P256} `{SerdeJson}.

(** [hash_file] reads the whole file through a buffer. *)
Definition hash_file (p : path) (s : fs) : result PointAttestationError bytes :=
  data ← map_err PaIo (read_file p s);
  Ok (lit "b3:" ++ hex_encode (blake3 data)).

Definition canonical_bytes (a : PointAttestation) : result PointAttestationError bytes :=
  Ok (jprint (attestation_json (set_pa_signature None a))).

Definition pa_create (subject : path) (subject_label : bytes) (evidence : path)
    (evidence_label : bytes) (kp : DeviceKeypair) (version now nonce : bytes) (s : fs)
    : result PointAttestationError PointAttestation :=
  subject_hash ← hash_file subject s;
  evidence_hash ← hash_file evidence s;
  let a := mkPointAttestation FORMAT_V1 version now (hex_encode nonce)
    (mkArtifactRef subject_hash (file_name subject) subject_label)
    (mkArtifactRef evidence_hash (file_name evidence) evidence_label)
    (public kp) None in
  canonical ← canonical_bytes a;
  sig ← map_err PaCrypto (sign_manifest kp canonical);
  Ok (set_pa_signature (Some sig) a).

Definition pa_verify_signature (a : PointAttestation) (device_public : bytes)
    : result PointAttestationError bool :=
  sig ← ok_or (pa_signature a) MissingSignature;
  canonical ← canonical_bytes a;
  map_err PaCrypto (verify_manifest device_public canonical sig).

Definition check_artifact (p : option path) (r : ArtifactRef) (s : fs)
    : result PointAttestationError unit :=
  match p with
  | Some p =>
      actual ← hash_file p s;
      ensure (bool_decide (actual = ar_hash r)) (HashMismatch (ar_filename r) (ar_hash r) actual)
  | None => Ok tt
  end.

Definition verify_file_hashes (a : PointAttestation) (subject evidence : option path) (s : fs)
    : result PointAttestationError unit :=
  check_artifact subject (pa_subject a) s ≫= λ _,
  check_artifact evidence (pa_evidence a) s.
End Attestation.

(** ** The document is read uniquely, and is no other signed document *)

Section AttestationLemmas.
Context `{Blake3Laws} `{HexLaws} `{Base64Laws} `{Ed25519Laws} `{P256} `{SerdeJsonLaws}.

Global Instance artifact_json_inj : Inj (=) (=) artifact_json.
Proof.
  intros [] [] Heq. unfold artifact_json in Heq. peel_members Heq. field_eqs. simpl in *. by subst.
Qed.

Lemma artifact_json_wf r : json_wf (artifact_json r) = true.
Proof. unfold artifact_json. solve_wf. Qed.

Lemma attestation_json_wf a : json_wf (attestation_json a) = true.
Proof.
  unfold attestation_json. solve_wf; auto using artifact_json_wf. by destruct (pa_signature a).
Qed.

Lemma canonical_bytes_inj a a' c :
  canonical_bytes a = Ok c → canonical_bytes a' = Ok c →
  set_pa_signature None a = set_pa_signature None a'.
Proof.
  intros Ha%Ok_inj Ha'%Ok_inj. rewrite <-Ha' in Ha.
  apply jprint_inj in Ha; [|apply attestation_json_wf..].
  unfold attestation_json in Ha. peel_members Ha. field_eqs.
  repeat match goal with E : artifact_json _ = artifact_json _ |- _ =>
    apply (inj artifact_json) in E end.
  destruct a, a'. unfold set_pa_signature in *. simpl in *. by subst.
Qed.

Lemma attestation_manifest_disjoint a m c :
  canonical_bytes a = Ok c → to_canonical_bytes m ≠ Ok c.
Proof.
  intros <-%Ok_inj. rewrite to_canonical_bytes_print.
  intros Heq%Ok_inj%jprint_inj; [|apply manifest_json_wf|apply attestation_json_wf].
  apply JObj_inj in Heq. rewrite <-!app_assoc in Heq. unfold jfield in Heq. simplify_list_eq.
Qed.

Lemma attestation_witness_disjoint a w : canonical_bytes a ≠ Ok (witness_signing_bytes w).
Proof.
  intros Heq%Ok_inj. rewrite witness_print in Heq.
  apply jprint_inj in Heq; [|apply attestation_json_wf|apply witness_json_wf].
  apply JObj_inj in Heq. rewrite <-!app_assoc in Heq. unfold jfield in Heq. simplify_list_eq.
Qed.

Lemma attestation_rotation_disjoint a r : canonical_bytes a ≠ Ok (rotation_signing_bytes r).
Proof.
  intros Heq%Ok_inj. rewrite rotation_print in Heq.
  apply jprint_inj in Heq; [|apply attestation_json_wf|apply rotation_json_wf].
  apply JObj_inj in Heq. rewrite <-!app_assoc in Heq. unfold jfield in Heq. simplify_list_eq.
Qed.

(** ** Creating and verifying *)

Lemma hash_file_ok (p : path) (s : fs) (h : bytes) :
  hash_file p s = Ok h ↔ ∃ data, read_file p s = Ok data ∧ h = lit "b3:" ++ hex_encode (blake3 data).
Proof.
  unfold hash_file. rewrite bind_ok. setoid_rewrite map_err_ok. split.
  - intros (d & Hd & Hh%Ok_inj). eauto.
  - intros (d & Hd & ->). eauto.
Qed.

(** The document of [a] names the files at [p] and [q]. *)
Record attests (a : PointAttestation) (p q : path) (s : fs) : Prop := {
  at_subject : hash_file p s = Ok (ar_hash (pa_subject a));
  at_evidence : hash_file q s = Ok (ar_hash (pa_evidence a));
}.

Lemma verify_file_hashes_ok (a : PointAttestation) (p q : path) (s : fs) :
  verify_file_hashes a (Some p) (Some q) s = Ok tt ↔ attests a p q s.
Proof.
  unfold verify_file_hashes, check_artifact. rewrite bind_unit_ok, !bind_ok.
  setoid_rewrite ensure_ok. setoid_rewrite bool_decide_eq_true. split.
  - intros [(h & Hh & ->) (h' & Hh' & ->)]. by constructor.
  - intros [Hp Hq]. split; eexists; (split; [eassumption|done]).
Qed.

Lemma pa_create_ok (p q : path) (lp lq : bytes) (kp : DeviceKeypair) (version now nonce : bytes)
    (s : fs) (a : PointAttestation) :
  wf_keypair kp → pa_create p lp q lq kp version now nonce s = Ok a →
  pa_format a = FORMAT_V1 ∧ pa_public_key a = public kp ∧ attests a p q s
  ∧ pa_verify_signature a (public kp) = Ok true.
Proof.
  intros Hkp Hc. unfold pa_create in Hc.
  apply bind_ok in Hc as (hp & Hp & Hc). apply bind_ok in Hc as (hq & Hq & Hc).
  apply bind_ok in Hc as (c & Hcan & Hc). apply bind_ok in Hc as (sig & Hsig%map_err_ok & Hc).
  apply Ok_inj in Hc as <-. split_and!; [done..|].
  unfold pa_verify_signature. cbn [set_pa_signature pa_signature ok_or mbind result_bind].
  change (canonical_bytes _) with (canonical_bytes (mkPointAttestation FORMAT_V1 version now
    (hex_encode nonce) (mkArtifactRef hp (file_name p) lp) (mkArtifactRef hq (file_name q) lq)
    (public kp) None)). rewrite Hcan. cbn [mbind result_bind].
  destruct (sign_verify kp c Hkp) as (sig' & Hs' & Hv). rewrite Hsig in Hs'.
  apply Ok_inj in Hs' as <-. by rewrite Hv.
Qed.

(** The hashes of the files are the files, up to a collision. *)
Lemma attests_binds (a : PointAttestation) (p q p' q' : path) (s s' : fs) :
  attests a p q s → attests a p' q' s' →
  (read_file p s = read_file p' s' ∧ read_file q s = read_file q' s') ∨ Collision.
Proof.
  intros [H1' H2'] [H3' H4'].
  apply hash_file_ok in H1' as (d1 & -> & E1). apply hash_file_ok in H2' as (d2 & -> & E2).
  apply hash_file_ok in H3' as (d3 & -> & E3). apply hash_file_ok in H4' as (d4 & -> & E4).
  rewrite E1 in E3. rewrite E2 in E4. apply app_inv_head, hex_encode_inj in E3, E4.
  apply blake3_inj_or_collision in E3 as [->|?]; [|by right].
  apply blake3_inj_or_collision in E4 as [->|?]; [|by right]. by left.
Qed.
End AttestationLemmas.
