(* ===== verification/Archive.v ===== *)
(** * Archives on disk

    crates/core/src/archive.rs: the streaming writer ([ArchiveWriter]), the
    collect-everything writer ([write_archive]), the bounded readers
    ([read_manifest], [read_archive]) and the integrity check
    ([validate_archive]).  serde's JSON form of a manifest is a parameter. *)

From S2P Require Import Prelude External Utf8 FileSystem Json Float64 Manifest Chain.

Inductive ArchiveError :=
  | Io (e : io_error)
  | ManifestErr (e : ManifestFormatError)
  | JsonErr (msg : bytes)
  | SchemaMismatch (msg : bytes)
  | MissingChunk (name : bytes)
  | UnreferencedChunk (name : bytes)
  | InvalidChunkIndex (expected found : N)
  | SignatureMismatch
  | ChainErr (e : ChainError)
  | ValidationFailed (msg : bytes).

(** serde_json on the manifest type. *)
Class ManifestJson := {
  manifest_to_json : TrstManifest → result bytes bytes; (* to_string_pretty *)
  manifest_from_json : bytes → result bytes TrstManifest; (* from_slice *)
}.

Definition MANIFEST_MAX_BYTES : N := 8 * 1024 * 1024.
Definition SIG_MAX_BYTES : N := 4 * 1024.
Definition MAX_CHUNK_SIZE_BYTES : N := 256 * 1024 * 1024.
Definition MAX_STORED_CHUNK_BYTES : N := MAX_CHUNK_SIZE_BYTES + 24 + 16.

(** The [Display] text of the errors that are formatted into others. *)
Definition manifest_error_text (e : ManifestFormatError) : bytes :=
  match e with
  | Serialization m => lit "Serialization error: " ++ m
  | InvalidField m => lit "Invalid field value: " ++ m
  end.

Definition chain_error_text (e : ChainError) : bytes :=
  match e with
  | Gap i => lit "Gap in chain at segment index " ++ fmt_nat i
  | OutOfOrder expected found =>
      lit "Segments out of order: expected continuity hash " ++ expected ++ lit ", found " ++ found
  | EndOfChainTruncated => lit "End of chain truncated"
  end.

Definition archive_error_text `{IoText} (e : ArchiveError) : bytes :=
  match e with
  | Io e => lit "IO error: " ++ io_error_text e
  | ManifestErr e => lit "Manifest error: " ++ manifest_error_text e
  | JsonErr m => lit "JSON error: " ++ m
  | SchemaMismatch m => lit "Schema mismatch: " ++ m
  | MissingChunk n => lit "Missing chunk file: " ++ n
  | UnreferencedChunk n => lit "Unreferenced chunk file in archive: " ++ n
  | InvalidChunkIndex a b =>
      lit "Invalid chunk index: expected " ++ fmt_N a ++ lit ", found " ++ fmt_N b
  | SignatureMismatch =>
      lit "Signature mismatch: manifest.signature does not match signatures/manifest.sig"
  | ChainErr e => lit "Continuity chain error: " ++ chain_error_text e
  | ValidationFailed m => lit "Archive validation failed: " ++ m
  end.

Fixpoint path_display (p : path) : bytes :=
  match p with
  | [] => []
  | [c] => c
  | c :: p' => c ++ lit "/" ++ path_display p'
  end.

(** [format!("{:05}.bin", i)] *)
Definition chunk_filename (i : N) : bytes := fmt_05 i ++ lit ".bin".

Definition chunks_path (base : path) : path := base ++ [lit "chunks"].
Definition manifest_path (base : path) : path := base ++ [lit "manifest.json"].
Definition signatures_path (base : path) : path := base ++ [lit "signatures"].
Definition sig_path (base : path) : path := base ++ [lit "signatures"; lit "manifest.sig"].

Record ChunkOutcome := mkChunkOutcome {
  out_index : N;
  out_blake3 : hash32;
  out_continuity : hash32;
  stored_len : nat;
}.

Record ArchiveWriter := mkArchiveWriter {
  base_path : path;
  chunks_dir : path;
  next_index : N; (* u32 *)
  chain_state : hash32;
}.

Section Archive.
Context `{Blake3} `{Hex} `{ManifestJson}.

(** ** Streaming writer *)

Definition create (base : path) : io ArchiveError ArchiveWriter :=
  io_map_err Io (create_dir_all base) ≫= λ _,
  io_map_err Io (create_dir_all (signatures_path base)) ≫= λ _,
  io_map_err Io (create_dir_all (chunks_path base)) ≫= λ _,
  mret (mkArchiveWriter base (chunks_path base) 0 genesis).

Definition push_chunk (w : ArchiveWriter) (stored : bytes)
    : io ArchiveError (ArchiveWriter * ChunkOutcome) :=
  let b3 := segment_hash stored in
  let continuity := chain_next (chain_state w) b3 in
  io_map_err Io (create_write (chunks_dir w ++ [chunk_filename (next_index w)]) stored) ≫= λ _,
  mret (mkArchiveWriter (base_path w) (chunks_dir w) (wrapping_add32 (next_index w) 1) continuity,
        mkChunkOutcome (next_index w) b3 continuity (length stored)).

Definition finalize (w : ArchiveWriter) (m : TrstManifest) (detached_sig : bytes)
    : io ArchiveError unit :=
  io_lift (ensure (N.of_nat (length (segments m)) =? next_index w)%N
    (SchemaMismatch (lit "Chunk count mismatch: " ++ fmt_N (next_index w)
      ++ lit " chunks written, " ++ fmt_nat (length (segments m))
      ++ lit " segments in manifest"))) ≫= λ _,
  io_lift (map_err JsonErr (manifest_to_json m)) ≫= λ json,
  io_lift (ensure (len_N json <=? MANIFEST_MAX_BYTES)%N
    (SchemaMismatch (lit "manifest exceeds the reader cap (" ++ fmt_nat (length json)
      ++ lit " > " ++ fmt_N MANIFEST_MAX_BYTES ++ lit " bytes); increase --chunk-size"))) ≫= λ _,
  io_map_err Io (create_write (manifest_path (base_path w)) json) ≫= λ _,
  io_map_err Io (create_write (sig_path (base_path w)) detached_sig).

(** ** Writing everything at once *)

Definition write_chunk_file (base : path) (p : nat * bytes) : io ArchiveError unit :=
  io_map_err Io (create_write (chunks_path base ++ [chunk_filename (N.of_nat p.1)]) p.2).

Definition write_archive (base : path) (m : TrstManifest) (chunks : list bytes)
    (detached_sig : bytes) : io ArchiveError unit :=
  io_lift (ensure (length chunks =? length (segments m))%nat
    (SchemaMismatch (lit "Chunk count mismatch: " ++ fmt_nat (length chunks)
      ++ lit " chunks provided, " ++ fmt_nat (length (segments m))
      ++ lit " segments in manifest"))) ≫= λ _,
  io_map_err Io (create_dir_all base) ≫= λ _,
  io_map_err Io (create_dir_all (signatures_path base)) ≫= λ _,
  io_map_err Io (create_dir_all (chunks_path base)) ≫= λ _,
  io_lift (map_err JsonErr (manifest_to_json m)) ≫= λ json,
  io_map_err Io (create_write (manifest_path base) json) ≫= λ _,
  io_map_err Io (create_write (sig_path base) detached_sig) ≫= λ _,
  io_for_each (write_chunk_file base) (enumerate chunks).

(** ** Bounded reads *)

Definition read_capped (p : path) (max : N) (s : fs) : result ArchiveError bytes :=
  data ← map_err Io (read_file p s);
  let buf := take_N (max + 1) data in
  ensure (len_N buf <=? max)%N
    (SchemaMismatch (path_display p ++ lit " exceeds the " ++ fmt_N max ++ lit "-byte cap"))
    ≫= λ _, Ok buf.

Definition open_chunk (p : path) (name : bytes) (s : fs) : result ArchiveError bytes :=
  map_err (λ e, match e with NotFound => MissingChunk name | _ => Io e end) (read_file p s).

Definition BUF_SIZE : N := 64 * 1024.

(** The read loop: [total] bytes hashed so far are [acc]. *)
Fixpoint stream_loop (fuel : nat) (name : bytes) (total : N) (acc rest : bytes)
    : option (result ArchiveError hash32) :=
  match fuel with
  | O => None
  | S f =>
      let buf := take_N BUF_SIZE rest in
      match buf with
      | [] => Some (Ok (blake3 acc))
      | _ =>
          let total' := N.min (total + len_N buf) u64_max in
          if (MAX_STORED_CHUNK_BYTES <? total')%N then
            Some (Err (SchemaMismatch (lit "chunk " ++ name ++ lit " exceeds the "
              ++ fmt_N MAX_STORED_CHUNK_BYTES ++ lit "-byte cap")))
          else stream_loop f name total' (acc ++ buf) (drop_N BUF_SIZE rest)
      end
  end.

Definition stream_hash_chunk (p : path) (name : bytes) (s : fs) : result ArchiveError hash32 :=
  data ← open_chunk p name s;
  match stream_loop (S (length data)) name 0 [] data with
  | Some r => r
  | None => Err (Io NotFound) (* not reached: the fuel bounds the number of reads *)
  end.

(** [index_str.parse::<usize>()]: an optional [+], then digits, at most [u64::MAX]. *)
Definition parse_usize (s : bytes) : option N :=
  let ds := match strip_prefix (lit "+") s with Some r => r | None => s end in
  if negb (is_empty ds) && forallb is_digit ds then
    let n := foldl (λ acc b, acc * 10 + digit_val b)%N 0%N ds in
    if (n <=? u64_max)%N then Some n else None
  else None.

Definition parse_chunk_index (name : bytes) : result ArchiveError N :=
  if negb (ends_with (lit ".bin") name) || negb (length name =? 9)%nat then
    Err (SchemaMismatch (lit "Invalid chunk filename format: " ++ name))
  else
    ok_or (parse_usize (take 5 name))
      (SchemaMismatch (lit "Invalid chunk index in filename: " ++ name)).

Definition read_manifest (base : path) (s : fs) : result ArchiveError (TrstManifest * bytes) :=
  manifest_bytes ← read_capped (manifest_path base) MANIFEST_MAX_BYTES s;
  m ← map_err JsonErr (manifest_from_json manifest_bytes);
  detached_sig ← read_capped (sig_path base) SIG_MAX_BYTES s;
  match signature m with
  | Some embedded =>
      ensure (bool_decide (embedded = from_utf8_lossy detached_sig)) SignatureMismatch
  | None => Ok tt
  end ≫= λ _, Ok (m, detached_sig).

(** The declared chunk name must be the one of its position. *)
Definition check_chunk_name (i : nat) (seg : SegmentInfo) : result ArchiveError unit :=
  if decide (chunk_file seg = chunk_filename (N.of_nat i)) then Ok tt
  else found ← parse_chunk_index (chunk_file seg);
       Err (InvalidChunkIndex (N.of_nat i) found).

Definition read_chunk (base : path) (s : fs) (p : nat * SegmentInfo)
    : result ArchiveError (nat * bytes) :=
  let '(i, seg) := p in
  let name := chunk_filename (N.of_nat i) in
  check_chunk_name i seg ≫= λ _,
  data ← open_chunk (chunks_path base ++ [name]) name s;
  let buf := take_N (MAX_STORED_CHUNK_BYTES + 1) data in
  ensure (len_N buf <=? MAX_STORED_CHUNK_BYTES)%N
    (SchemaMismatch (lit "chunk " ++ name ++ lit " exceeds the "
      ++ fmt_N MAX_STORED_CHUNK_BYTES ++ lit "-byte cap")) ≫= λ _,
  Ok (i, buf).

Definition read_archive (base : path) (s : fs)
    : result ArchiveError (TrstManifest * list (nat * bytes)) :=
  '(m, _) ← read_manifest base s;
  chunks ← map_res (read_chunk base s) (enumerate (segments m));
  Ok (m, chunks).

(** ** Integrity check *)

Definition check_unreferenced (expected : gset (list ascii)) (base : path) (s : fs)
    : result ArchiveError unit :=
  if is_dir (chunks_path base) s then
    for_each (λ entry,
      let name := from_utf8_lossy entry in
      ensure (negb (ends_with (lit ".bin") name && bool_decide (name ∉ expected)))
        (UnreferencedChunk name)) (read_dir (chunks_path base) s)
  else Ok tt.

Definition check_segment (base : path) (s : fs) (p : nat * SegmentInfo)
    : result ArchiveError ChainSegment :=
  let '(i, seg) := p in
  let name := chunk_filename (N.of_nat i) in
  check_chunk_name i seg ≫= λ _,
  computed ← stream_hash_chunk (chunks_path base ++ [name]) name s;
  ensure (bool_decide (blake3_hash seg = hex_encode computed))
    (ValidationFailed (lit "Chunk " ++ fmt_nat i ++ lit " hash mismatch: expected "
      ++ blake3_hash seg ++ lit ", computed " ++ hex_encode computed)) ≫= λ _,
  stored ← ok_or (hex_decode (continuity_hash seg))
    (ValidationFailed (lit "Invalid continuity hash format: " ++ continuity_hash seg));
  ensure (length stored =? 32)%nat
    (ValidationFailed (lit "Continuity hash must be 32 bytes, got "
      ++ fmt_nat (length stored))) ≫= λ _,
  Ok (mkChainSegment i computed stored).

Definition validate_archive (base : path) (s : fs) : result ArchiveError unit :=
  '(m, _) ← read_manifest base s;
  check_unreferenced (list_to_set (chunk_file <$> segments m)) base s ≫= λ _,
  map_err (λ e, ValidationFailed
    (lit "Manifest validation failed: " ++ manifest_error_text e)) (validate m) ≫= λ _,
  chain_segments ← map_res (check_segment base s) (enumerate (segments m));
  map_err ChainErr (validate_chain chain_segments).

Definition archive_dir_name (id : bytes) : bytes := lit "clip-" ++ id ++ lit ".seal".
End Archive.
