(* ===== verification/Pubky.v ===== *)
(** * The Pubky adapters

    crates/experimental/pubky-advanced: dual keys and identities (keys.rs), version 2 envelopes
    (envelope.rs), the client that publishes and finds identities (pubky_client.rs); and
    crates/experimental/pubky: the backend that resolves keys (lib.rs), its in-memory double
    (mock.rs) and the command line (bin/sealedge-pubky.rs).

    The Pubky SDK and its network are parameters; clocks and random bytes are arguments. *)

From S2P Require Import Prelude External Utf8 FileSystem Format Backends Hsm Hybrid Envelope Archive.

(** ** Dual keys *)

(** Secrets are their 32 bytes. *)
Record DualKeyPair := mkDualKeyPair {
  dk_ed25519_key : bytes;
  dk_x25519_key : bytes;
}.
Record DualKeyBytes := mkDualKeyBytes {
  db_ed25519_key : bytes; (* [u8; 32] *)
  db_x25519_key : bytes; (* [u8; 32] *)
}.
Record IdentityMetadata := mkIdentityMetadata {
  im_name : option bytes;
  im_created_at : N; (* u64 *)
  im_version : N; (* u8 *)
}.
Record PubkyIdentity := mkPubkyIdentity {
  pi_ed25519_pubkey : bytes; (* [u8; 32] *)
  pi_x25519_pubkey : bytes; (* [u8; 32] *)
  pi_metadata : option IdentityMetadata;
}.

(** Both sides of an X25519 exchange, with the public keys of [Hpke] and the exchange of
    [KeyAgreement], get the same secret. *)
Class X25519Laws `{Hpke} `{KeyAgreement} : Prop :=
  x25519_comm a b : diffie_hellman a (x25519_public b) = diffie_hellman b (x25519_public a).

Section Keys.
Context `{Blake3} `{Hex} `{Ed25519} `{Hpke} `{Bincode PubkyIdentity}.

Definition dual_from_keys (ed x : bytes) : DualKeyPair := mkDualKeyPair ed x.
Definition dual_ed25519_public (k : DualKeyPair) : bytes := ed_public (dk_ed25519_key k).
Definition dual_x25519_public (k : DualKeyPair) : bytes := x25519_public (dk_x25519_key k).
Definition pubky_identity (k : DualKeyPair) : bytes := hex_encode (dual_ed25519_public k).
Definition to_pubky_identity (now : option N) (name : option bytes) (k : DualKeyPair) : PubkyIdentity :=
  mkPubkyIdentity (dual_ed25519_public k) (dual_x25519_public k)
    (Some (mkIdentityMetadata name (default 0%N now) 1)).
Definition dual_to_bytes (k : DualKeyPair) : DualKeyBytes := mkDualKeyBytes (dk_ed25519_key k) (dk_x25519_key k).
Definition dual_from_bytes (b : DualKeyBytes) : result bytes DualKeyPair :=
  Ok (mkDualKeyPair (db_ed25519_key b) (db_x25519_key b)).
Definition derive_x25519_from_ed25519 (ed25519_key : bytes) : bytes :=
  take 32 (blake3 (lit "SEALEDGE_X25519_DERIVATION" ++ ed25519_key)).
Definition from_ed25519_with_derived_x25519 (ed25519_key : bytes) : DualKeyPair :=
  mkDualKeyPair ed25519_key (derive_x25519_from_ed25519 ed25519_key).

Definition identity_pubky_id (i : PubkyIdentity) : bytes := hex_encode (pi_ed25519_pubkey i).
Definition identity_to_bytes (i : PubkyIdentity) : result bytes bytes :=
  in_context "Failed to serialize PubkyIdentity to bytes" (serialize i).
Definition identity_from_bytes (b : bytes) : result bytes PubkyIdentity :=
  in_context "Failed to deserialize PubkyIdentity from bytes" (deserialize b).
Definition identity_verify (i : PubkyIdentity) : bool :=
  if negb (ed_key_ok (pi_ed25519_pubkey i)) then false
  else if negb (length (pi_x25519_pubkey i) =? 32)%nat then false
  else true.
End Keys.

(** ** Version 2 envelopes *)

Inductive KeyExchangeAlgorithm := X25519Ecdh.

Record EnvelopeHeaderV2 := mkEnvelopeHeaderV2 {
  vh_magic : bytes; (* [u8; 4] *)
  vh_version : N; (* u8 *)
  vh_recipient_pubkey_id : bytes;
  vh_key_exchange_algorithm : KeyExchangeAlgorithm;
  vh_sender_ed25519_pubkey : bytes; (* [u8; 32] *)
  vh_sender_x25519_pubkey : bytes; (* [u8; 32] *)
  vh_created_at : N; (* u64 *)
  vh_payload_size : N; (* u64 *)
  vh_chunk_count : N; (* u32 *)
  vh_aead_algorithm : N; (* u8 *)
}.
Record EnvelopeV2 := mkEnvelopeV2 {
  v2_header : EnvelopeHeaderV2;
  v2_encrypted_session_key : bytes;
  v2_chunks : list NetworkChunk;
  v2_signature : bytes;
}.
Record ChunkManifestV2 := mkChunkManifestV2 {
  m2_sequence : N; (* u64 *)
  m2_chunk_size : N; (* u32 *)
}.

Definition ENVELOPE_V2_MAGIC : bytes := lit "TRS2".
Definition ENVELOPE_V2_VERSION : N := 2.
Definition V2_CHUNK_SIZE : N := 64 * 1024.

(** What [seal] draws and the clocks it reads: for the header, and for each chunk. *)
Record V2Draws := mkV2Draws {
  vd_now : option N;
  vd_ephemeral : bytes; (* EphemeralSecret::random_from_rng *)
  vd_session_key : bytes; (* [u8; 32] *)
  vd_wrap_nonce : bytes; (* [u8; 12] *)
  vd_chunk_nonce : nat → bytes; (* [u8; 12] *)
  vd_chunk_clock : nat → option N;
}.

Section EnvelopeV2.
Context `{Blake3} `{Ed25519} `{Hpke} `{KeyAgreement} `{Kdf} `{Aead} `{Bincode ChunkManifestV2}
  `{Bincode EnvelopeV2}.

Definition derive_session_key_encryption_key (shared_secret sender_pubkey recipient_pubkey : bytes) : bytes :=
  hkdf None shared_secret (lit "SEALEDGE_V2_SESSION_KEY" ++ sender_pubkey ++ recipient_pubkey).

Definition encrypt_session_key (nonce session_key encryption_key : bytes) : result bytes bytes :=
  ciphertext ← ok_or (aead_encrypt Aes256Gcm encryption_key nonce [] session_key)
    (lit "Session key encryption failed: Error");
  Ok (nonce ++ ciphertext).

Definition decrypt_session_key (encrypted_data encryption_key : bytes) : result bytes bytes :=
  ensure (negb (length encrypted_data <? 12)%nat) (lit "Encrypted session key too short") ≫= λ _,
  ciphertext ← ok_or (aead_decrypt Aes256Gcm encryption_key (take 12 encrypted_data) [] (drop 12 encrypted_data))
    (lit "Session key decryption failed: Error");
  ensure (length ciphertext =? 32)%nat (lit "Invalid session key length") ≫= λ _,
  Ok ciphertext.

Definition build_chunk_aad (header : EnvelopeHeaderV2) (sequence : N) (nonce : bytes) (chunk_size : N) : bytes :=
  vh_magic header ++ [byte_of_N (vh_version header)] ++ le_bytes 8 sequence ++ nonce
  ++ le_bytes 4 (as_u32 chunk_size).

Definition encrypt_chunk_v2 (d : V2Draws) (session_key : bytes) (header : EnvelopeHeaderV2)
    (i : nat) (chunk_data : bytes) : result bytes NetworkChunk :=
  let nonce := vd_chunk_nonce d i in
  let size := N.of_nat (length chunk_data) in
  let aad := build_chunk_aad header (N.of_nat i) nonce size in
  ciphertext ← ok_or (aead_encrypt Aes256Gcm session_key nonce aad chunk_data)
    (lit "Chunk encryption failed: Error");
  manifest_bytes ← in_context "Failed to serialize chunk manifest"
    (serialize (mkChunkManifestV2 (N.of_nat i) (as_u32 size)));
  Ok (chunk_new (N.of_nat i) ciphertext manifest_bytes nonce (vd_chunk_clock d i)).

Definition encrypt_payload_chunks (d : V2Draws) (payload session_key : bytes) (header : EnvelopeHeaderV2)
    : result bytes (list NetworkChunk) :=
  map_res (λ '(i, chunk_data), encrypt_chunk_v2 d session_key header i chunk_data)
    (enumerate (slice_chunks (N.to_nat V2_CHUNK_SIZE) payload)).

Definition open_chunk_v2 (session_key : bytes) (header : EnvelopeHeaderV2) (chunk : NetworkChunk)
    : result bytes bytes :=
  manifest ← in_context "Failed to deserialize chunk manifest" (deserialize (A:=ChunkManifestV2) (nc_manifest chunk));
  let aad := build_chunk_aad header (m2_sequence manifest) (nc_nonce chunk) (m2_chunk_size manifest) in
  ok_or (aead_decrypt Aes256Gcm session_key (nc_nonce chunk) aad (nc_data chunk))
    (lit "Chunk decryption failed: Error").

Definition decrypt_payload_chunks (chunks : list NetworkChunk) (session_key : bytes) (header : EnvelopeHeaderV2)
    : result bytes bytes :=
  pieces ← map_res (open_chunk_v2 session_key header) (sort_by_key nc_sequence chunks);
  Ok (concat pieces).

(** What is signed: the envelope with an empty signature. *)
Definition unsigned_v2 (e : EnvelopeV2) : EnvelopeV2 :=
  mkEnvelopeV2 (v2_header e) (v2_encrypted_session_key e) (v2_chunks e) [].
Definition compute_hash_for_signing (e : EnvelopeV2) : result bytes bytes :=
  envelope_bytes ← in_context "Failed to serialize envelope for signing" (serialize (unsigned_v2 e));
  Ok (blake3 envelope_bytes).

Definition verify_signature_v2 (e : EnvelopeV2) : bool :=
  match compute_hash_for_signing e with
  | Err _ => false
  | Ok envelope_hash =>
      let sender := vh_sender_ed25519_pubkey (v2_header e) in
      if negb (length (v2_signature e) =? 64)%nat then false
      else if negb (ed_key_ok sender) then false
      else ed_verify sender envelope_hash (v2_signature e)
  end.

Definition verify_header_v2 (e : EnvelopeV2) : bool :=
  let h := v2_header e in
  if negb (bool_decide (vh_magic h = ENVELOPE_V2_MAGIC)) then false
  else if negb (vh_version h =? ENVELOPE_V2_VERSION)%N then false
  else if negb (N.of_nat (length (v2_chunks e)) =? vh_chunk_count h)%N then false
  else true.

Definition verify_chunk_sequence_v2 (e : EnvelopeV2) : bool :=
  let chunk_count := vh_chunk_count (v2_header e) in
  if negb (N.of_nat (length (v2_chunks e)) =? chunk_count)%N then false
  else
    let sequences := sort_by_key id (nc_sequence <$> v2_chunks e) in
    forallb (λ '(expected, actual), (expected =? actual)%N)
      (zip (N.of_nat <$> seq 0 (N.to_nat chunk_count)) sequences).

Definition verify_v2 (e : EnvelopeV2) : bool :=
  if negb (verify_signature_v2 e) then false
  else if negb (verify_header_v2 e) then false
  else if negb (verify_chunk_sequence_v2 e) then false
  else true.

Definition seal_v2 (d : V2Draws) (payload : bytes) (sender_keys : DualKeyPair)
    (recipient_x25519_pubkey recipient_pubky_id : bytes) : result bytes EnvelopeV2 :=
  timestamp ← ok_or (vd_now d) (lit "Failed to get current timestamp");
  let ephemeral_public := x25519_public (vd_ephemeral d) in
  let shared_secret := diffie_hellman (vd_ephemeral d) recipient_x25519_pubkey in
  let key := derive_session_key_encryption_key shared_secret ephemeral_public recipient_x25519_pubkey in
  encrypted_session_key ← encrypt_session_key (vd_wrap_nonce d) (vd_session_key d) key;
  let payload_len := N.of_nat (length payload) in
  let header := mkEnvelopeHeaderV2 ENVELOPE_V2_MAGIC ENVELOPE_V2_VERSION recipient_pubky_id X25519Ecdh
    (dual_ed25519_public sender_keys) ephemeral_public timestamp payload_len
    (as_u32 (div_ceil payload_len V2_CHUNK_SIZE)) (aead_u8 AeadAes256Gcm) in
  chunks ← encrypt_payload_chunks d payload (vd_session_key d) header;
  let envelope := mkEnvelopeV2 header encrypted_session_key chunks [] in
  envelope_hash ← compute_hash_for_signing envelope;
  Ok (mkEnvelopeV2 header encrypted_session_key chunks (ed_sign (dk_ed25519_key sender_keys) envelope_hash)).

Definition unseal_v2 (e : EnvelopeV2) (recipient_keys : DualKeyPair) : result bytes bytes :=
  ensure (verify_v2 e) (lit "Envelope verification failed") ≫= λ _,
  let h := v2_header e in
  let shared_secret := diffie_hellman (dk_x25519_key recipient_keys) (vh_sender_x25519_pubkey h) in
  let key := derive_session_key_encryption_key shared_secret (vh_sender_x25519_pubkey h)
    (dual_x25519_public recipient_keys) in
  session_key ← decrypt_session_key (v2_encrypted_session_key e) key;
  payload ← decrypt_payload_chunks (v2_chunks e) session_key h;
  ensure (N.of_nat (length payload) =? vh_payload_size h)%N
    (lit "Payload size mismatch: expected " ++ fmt_N (vh_payload_size h) ++ lit ", got "
      ++ fmt_nat (length payload)) ≫= λ _,
  Ok payload.

(** [EnvelopeV2::hash]: a failed serialisation counts as no bytes. *)
Definition hash_v2 (e : EnvelopeV2) : bytes :=
  blake3 (match serialize e with Ok b => b | Err _ => [] end).
Definition to_bytes_v2 (e : EnvelopeV2) : result bytes bytes :=
  in_context "Failed to serialize envelope" (serialize e).
Definition from_bytes_v2 (b : bytes) : result bytes EnvelopeV2 :=
  in_context "Failed to deserialize envelope" (deserialize b).
End EnvelopeV2.

(** ** The Pubky network *)

(** The pubky SDK: a client can be built or not, it stores, reads and deletes resources; texts are
    the debug output of its errors.  [net_get] sends the request and then reads the body. *)
Class PubkySdk := {
  network : Type;
  client_build : result bytes unit; (* ClientBuilder::default().build() *)
  runtime_build : result bytes unit; (* tokio's Runtime::new() *)
  net_put (path body : bytes) (n : network) : result bytes unit * network;
  net_get (url : bytes) (n : network) : result bytes (result bytes bytes);
  net_delete (path : bytes) (n : network) : result bytes unit * network;
  pubky_key_try_from : bytes → result bytes bytes; (* PublicKey::try_from(&str) *)
  keypair_public : bytes → bytes;
  utf8_debug : bytes → bytes; (* of the error of String::from_utf8 *)
}.

(** *** Identities: pubky_client.rs *)

Inductive PubkyError :=
  | PkNetwork (m : bytes)
  | PkSerialization (m : bytes)
  | PkClient (m : bytes)
  | PkIdentityNotFound (m : bytes)
  | PkInvalidIdentity (m : bytes).
Definition pubky_error_text (e : PubkyError) : bytes :=
  match e with
  | PkNetwork m => lit "Network error: " ++ m
  | PkSerialization m => lit "Serialization error: " ++ m
  | PkClient m => lit "Pubky client error: " ++ m
  | PkIdentityNotFound m => lit "Identity not found: " ++ m
  | PkInvalidIdentity m => lit "Invalid identity format: " ++ m
  end.

Record SealedgeIdentityRecord := mkIdentityRecord {
  ir_identity : PubkyIdentity;
  ir_created_at : N; (* u64 *)
  ir_version : N; (* u8 *)
  ir_metadata : option (gmap (list ascii) (list ascii));
}.

(** serde_json of the record *)
Class IdentityJson := {
  identity_record_to_string : SealedgeIdentityRecord → result bytes bytes;
  identity_record_from_str : bytes → result bytes SealedgeIdentityRecord;
}.
Class IdentityJsonLaws `{IdentityJson} : Prop :=
  identity_json_roundtrip r j :
    identity_record_to_string r = Ok j → identity_record_from_str j = Ok r ∧ utf8_valid j = true.

Definition record_new (now : option N) (identity : PubkyIdentity) : SealedgeIdentityRecord :=
  mkIdentityRecord identity (default 0%N now) 1 None.
Definition record_with_metadata (r : SealedgeIdentityRecord) (m : gmap (list ascii) (list ascii))
    : SealedgeIdentityRecord :=
  mkIdentityRecord (ir_identity r) (ir_created_at r) (ir_version r) (Some m).
(** [saturating_sub] on u64 *)
Definition age_seconds (now : option N) (r : SealedgeIdentityRecord) : N := (default 0 now - ir_created_at r)%N.
Definition record_is_expired (now : option N) (r : SealedgeIdentityRecord) (max_age_seconds : N) : bool :=
  (max_age_seconds <? age_seconds now r)%N.

Definition identity_path : bytes := lit "/sealedge/identity".

Section Client.
Context `{Hex} `{Ed25519} `{PubkySdk} `{IdentityJson}.

(** [new] and [with_config], which ignores the homeserver; the client is its key pair. *)
Definition pubky_client_new (keypair : bytes) : result bytes bytes :=
  map_err (λ e, pubky_error_text (PkClient (lit "Failed to build client: " ++ e))) client_build ≫= λ _,
  Ok keypair.
Definition pubky_client_with_config (keypair : bytes) (homeserver : option bytes) : result bytes bytes :=
  pubky_client_new keypair.

(** Store a record at the well-known path. *)
Definition store_record (failed : string) (record : SealedgeIdentityRecord) (n : network)
    : result bytes unit * network :=
  match in_context "Failed to serialize identity record" (identity_record_to_string record) with
  | Err e => (Err e, n)
  | Ok record_json =>
      let '(r, n') := net_put identity_path record_json n in
      (map_err (λ e, pubky_error_text (PkClient (lit failed ++ e))) r, n')
  end.
Definition publish_identity (now : option N) (identity : PubkyIdentity) (n : network)
    : result bytes bytes * network :=
  let '(r, n') := store_record "Failed to publish identity: " (record_new now identity) n in
  ((λ _, identity_pubky_id identity) <$> r, n').
Definition update_identity (now : option N) (identity : PubkyIdentity)
    (metadata : option (gmap (list ascii) (list ascii))) (n : network) : result bytes unit * network :=
  store_record "Failed to update identity: " (mkIdentityRecord identity (default 0%N now) 1 metadata) n.
Definition delete_identity (n : network) : result bytes unit * network :=
  let '(r, n') := net_delete identity_path n in
  (map_err (λ e, pubky_error_text (PkClient (lit "Failed to delete identity: " ++ e))) r, n').

Definition pubky_url (pubky_id path : bytes) : bytes := lit "pubky://" ++ pubky_id ++ path.

Definition get_identity (n : network) (pubky_id : bytes) : result bytes PubkyIdentity :=
  _ ← map_err (λ e, pubky_error_text (PkInvalidIdentity (lit "Invalid pubky ID: " ++ e)))
    (pubky_key_try_from pubky_id);
  response ← map_err (λ e, pubky_error_text (PkClient (lit "Failed to retrieve identity: " ++ e)))
    (net_get (pubky_url pubky_id identity_path) n);
  record_bytes ← map_err (λ e, pubky_error_text (PkClient (lit "Failed to read response: " ++ e))) response;
  ensure (utf8_valid record_bytes)
    (pubky_error_text (PkInvalidIdentity (lit "Invalid UTF-8: " ++ utf8_debug record_bytes))) ≫= λ _,
  record ← in_context "Failed to deserialize identity record" (identity_record_from_str record_bytes);
  ensure (identity_verify (ir_identity record))
    (pubky_error_text (PkInvalidIdentity (lit "Identity verification failed"))) ≫= λ _,
  Ok (ir_identity record).

Definition resolve_encryption_key (n : network) (pubky_id : bytes) : result bytes bytes :=
  identity ← get_identity n pubky_id;
  Ok (pi_x25519_pubkey identity).

(** Identifiers that do not resolve are skipped. *)
Definition batch_resolve_encryption_keys (n : network) (pubky_ids : list bytes) : gmap (list ascii) (list ascii) :=
  foldl (λ results pubky_id,
      match resolve_encryption_key n pubky_id with
      | Ok key => <[pubky_id := key]> results
      | Err _ => results
      end) ∅ pubky_ids.
End Client.

(** *** The backend: lib.rs *)

Inductive PubkyAdapterError :=
  | PaNetwork (m : bytes)
  | PaKeyResolutionFailed (id : bytes)
  | PaInvalidPubkyId (m : bytes)
  | PaCoreError (e : HybridEncryptionError)
  | PaSerializationError (m : bytes).
Definition adapter_error_text (e : PubkyAdapterError) : bytes :=
  match e with
  | PaNetwork m => lit "Network error: " ++ m
  | PaKeyResolutionFailed id => lit "Key resolution failed for ID: " ++ id
  | PaInvalidPubkyId m => lit "Invalid Pubky ID format: " ++ m
  | PaCoreError e => lit "Sealedge core error: " ++ hybrid_error_text e
  | PaSerializationError m => lit "Serialization error: " ++ m
  end.

Record PublicKeyData := mkPublicKeyData {
  pd_algorithm : bytes;
  pd_key_bytes : bytes;
  pd_key_id : option bytes;
}.
Record SealedgeKeyRecord := mkKeyRecord {
  kr_public_key : PublicKeyData;
  kr_created_at : N; (* u64 *)
  kr_metadata : option (gmap (list ascii) (list ascii));
}.
Class KeyRecordJson := {
  key_record_to_string : SealedgeKeyRecord → result bytes bytes;
  key_record_from_str : bytes → result bytes SealedgeKeyRecord;
}.
Class KeyRecordJsonLaws `{KeyRecordJson} : Prop :=
  key_record_roundtrip r j :
    key_record_to_string r = Ok j → key_record_from_str j = Ok r ∧ utf8_valid j = true.

Definition public_key_path_pubky : bytes := lit "/sealedge/public_key".

Section Adapter.
Context `{Blake3} `{Hex} `{Rsa} `{Aead} `{Bincode HybridEnvelope} `{PubkySdk} `{KeyRecordJson} `{OperationDebug}.

(** A backend is its key pair: [new] builds the client first, [new_sync] the runtime. *)
Definition network_error (msg : string) (e : bytes) : PubkyAdapterError := PaNetwork (lit msg ++ e).
Definition pubky_backend_new (keypair : bytes) : result PubkyAdapterError bytes :=
  map_err (network_error "Failed to build Pubky client: ") client_build ≫= λ _,
  map_err (network_error "Failed to create async runtime: ") runtime_build ≫= λ _,
  Ok keypair.
Definition pubky_backend_new_sync (keypair : bytes) : result PubkyAdapterError bytes :=
  map_err (network_error "Failed to create async runtime: ") runtime_build ≫= λ _,
  map_err (network_error "Failed to build Pubky client: ") client_build ≫= λ _,
  Ok keypair.
Definition our_pubky_id (keypair : bytes) : bytes := hex_encode (keypair_public keypair).

Definition key_record (now : option N) (k : PublicKey) : SealedgeKeyRecord :=
  mkKeyRecord (mkPublicKeyData (asymmetric_debug (pk_algorithm k)) (hex_encode (pk_bytes k)) (pk_key_id k))
    (default 0%N now) None.

Definition publish_public_key (keypair : bytes) (now : option N) (k : PublicKey) (n : network)
    : result PubkyAdapterError bytes * network :=
  match key_record_to_string (key_record now k) with
  | Err e => (Err (PaSerializationError e), n)
  | Ok record_json =>
      let '(r, n') := net_put public_key_path_pubky record_json n in
      ((λ _, our_pubky_id keypair) <$> map_err (network_error "Failed to publish key: ") r, n')
  end.

Definition algorithm_of_name (s : bytes) : option AsymmetricAlgorithm :=
  if bool_decide (s = lit "Ed25519") then Some UEd25519
  else if bool_decide (s = lit "EcdsaP256") then Some UEcdsaP256
  else if bool_decide (s = lit "Rsa2048") then Some URsa2048
  else if bool_decide (s = lit "Rsa4096") then Some URsa4096
  else None.

(** The key in a record, for the backend and for its double *)
Definition key_of_record (record_json : bytes) : result PubkyAdapterError PublicKey :=
  record ← map_err PaSerializationError (key_record_from_str record_json);
  let data := kr_public_key record in
  algorithm ← ok_or (algorithm_of_name (pd_algorithm data))
    (PaInvalidPubkyId (lit "Unsupported algorithm: " ++ pd_algorithm data));
  key_bytes ← ok_or (hex_decode (pd_key_bytes data))
    (PaInvalidPubkyId (lit "Invalid hex: " ++ hex_error (pd_key_bytes data)));
  Ok (match pd_key_id data with
      | Some key_id => PublicKey_with_id algorithm key_bytes key_id
      | None => PublicKey_new algorithm key_bytes
      end).

Definition resolve_public_key (n : network) (pubky_id : bytes) : result PubkyAdapterError PublicKey :=
  response ← map_err (network_error "Failed to resolve key: ") (net_get (pubky_url pubky_id public_key_path_pubky) n);
  record_bytes ← map_err (network_error "Failed to read response: ") response;
  ensure (utf8_valid record_bytes) (PaInvalidPubkyId (lit "Invalid UTF-8: " ++ utf8_debug record_bytes)) ≫= λ _,
  key_of_record record_bytes.

(** The trait: only [GetPublicKey], with the Pubky identifier as the key identifier *)
Definition pubky_perform (name : string) (resolve : bytes → result PubkyAdapterError PublicKey)
    (key_id : bytes) (op : CryptoOperation) : result BackendError CryptoResult :=
  match op with
  | OpGetPublicKey =>
      public_key ← map_err (λ e, KeyNotFound (lit "Failed to resolve Pubky ID " ++ key_id ++ lit ": "
                     ++ adapter_error_text e)) (resolve key_id);
      Ok (Backends.PublicKey (pk_bytes public_key))
  | _ => Err (UnsupportedOperation (lit "Operation not supported by " ++ lit name ++ lit ": " ++ op_debug op))
  end.
Definition pubky_supports (op : CryptoOperation) : bool :=
  match op with OpGetPublicKey => true | _ => false end.
Definition pubky_capabilities : BackendCapabilities :=
  mkBackendCapabilities [] [UEd25519; UEcdsaP256; URsa2048; URsa4096] [] [] false false false false (Some 4096%N).
Definition pubky_backend (n : network) : UniversalBackend :=
  mkUniversalBackend (λ key_id op, io_lift (pubky_perform "PubkyBackend" (resolve_public_key n) key_id op))
    pubky_supports pubky_capabilities (lit "pubky").

Definition send_to (resolve : bytes → result PubkyAdapterError PublicKey) (d : HybridDraws)
    (data recipient_id : bytes) : result PubkyAdapterError bytes :=
  recipient_public_key ← resolve recipient_id;
  map_err PaCoreError (seal_for_recipient d data recipient_public_key).
Definition send_trusted_data (d : HybridDraws) (n : network) (data recipient_id : bytes)
    : result PubkyAdapterError bytes := send_to (resolve_public_key n) d data recipient_id.
Definition receive_trusted_data (envelope : bytes) (my_private_key : PrivateKey) : result PubkyAdapterError bytes :=
  map_err PaCoreError (open_envelope envelope my_private_key).

(** *** The double: mock.rs

    All doubles share one store, from identifiers to the text of records. *)

Abbreviation mock_storage := (gmap (list ascii) (list ascii)) (only parsing).

Definition mock_publish_public_key (pubky_id : bytes) (now : option N) (k : PublicKey) (storage : mock_storage)
    : result PubkyAdapterError bytes * mock_storage :=
  match key_record_to_string (key_record now k) with
  | Err e => (Err (PaSerializationError e), storage)
  | Ok record_json => (Ok pubky_id, <[pubky_id := record_json]> storage)
  end.
Definition mock_resolve_public_key (storage : mock_storage) (pubky_id : bytes) : result PubkyAdapterError PublicKey :=
  record_json ← ok_or (storage !! pubky_id) (PaKeyResolutionFailed pubky_id);
  key_of_record record_json.
Definition mock_backend (storage : mock_storage) : UniversalBackend :=
  mkUniversalBackend
    (λ key_id op, io_lift (pubky_perform "MockPubkyBackend" (mock_resolve_public_key storage) key_id op))
    pubky_supports pubky_capabilities (lit "mock_pubky").
Definition mock_send_trusted_data (d : HybridDraws) (storage : mock_storage) (data recipient_id : bytes)
    : result PubkyAdapterError bytes := send_to (mock_resolve_public_key storage) d data recipient_id.

(** *** The command line: bin/sealedge-pubky.rs

    What the commands write and how they fail; of what they print, the identifier that
    [generate] shows. *)

Definition seed_of_hex (seed_hex : bytes) : result bytes bytes :=
  ensure (length seed_hex =? 64)%nat
    (lit "❌ Invalid seed length: " ++ fmt_nat (length seed_hex) ++ lit " characters
Expected: 64 hexadecimal characters (32 bytes)
Example: 1234567890abcdef1234567890abcdef1234567890abcdef1234567890abcdef") ≫= λ _,
  seed_bytes ← ok_or (hex_decode seed_hex) (lit "❌ Invalid seed format: not valid hexadecimal
Seed must contain only characters 0-9 and a-f
Provided: " ++ seed_hex);
  ensure (length seed_bytes =? 32)%nat
    (lit "❌ Seed decoded to " ++ fmt_nat (length seed_bytes) ++ lit " bytes, expected 32 bytes
This should not happen with 64 hex characters") ≫= λ _,
  Ok seed_bytes.

Definition generate_keypair (random : bytes) (output : option path) (seed : option bytes) (id_only : bool)
    : io bytes bytes :=
  backend ← io_lift
    match seed with
    | Some seed_hex =>
        seed_bytes ← seed_of_hex (trim seed_hex);
        in_context "❌ Failed to create Pubky backend from seed" (pubky_backend_new_sync seed_bytes)
    | None => in_context "❌ Failed to create random Pubky backend" (pubky_backend_new_sync random)
    end;
  let pubky_id := our_pubky_id backend in
  if id_only then mret pubky_id
  else
    match output with
    | Some output_path =>
        io_map_err (λ _, lit "❌ Failed to write private key to: " ++ path_display output_path ++ lit "
Check that:
• The directory exists
• You have write permissions
• There is sufficient disk space") (create_write output_path (hex_encode backend)) ≫= λ _,
        mret pubky_id
    | None => mret pubky_id
    end.

(** The text that [resolve] writes: serde_json of the four fields *)
Context (resolved_key_json : bytes → PublicKey → result bytes bytes).

Definition resolve_key (random : bytes) (n : network) (pubky_id : bytes) (output : option path) : io bytes unit :=
  _ ← io_lift (in_context "Failed to create Pubky backend" (pubky_backend_new_sync random));
  public_key ← io_lift (in_context "Failed to resolve Pubky ID" (resolve_public_key n pubky_id));
  match output with
  | Some output_path =>
      key_data ← io_lift (resolved_key_json pubky_id public_key);
      fs_context "Failed to write public key file" (create_write output_path key_data)
  | None => mret tt
  end.

Definition check_recipient (recipient : bytes) : result bytes unit :=
  ensure (length recipient =? 64)%nat
    (lit "❌ Invalid recipient Pubky ID length: " ++ fmt_nat (length recipient) ++ lit " characters
Expected: 64 hexadecimal characters
Example: 1234567890abcdef1234567890abcdef1234567890abcdef1234567890abcdef
Provided: " ++ recipient) ≫= λ _,
  ensure (forallb is_ascii_hexdigit recipient)
    (lit "❌ Invalid recipient Pubky ID format: contains non-hexadecimal characters
Pubky ID must contain only characters 0-9 and a-f
Provided: " ++ recipient).

Definition encrypt_data (random : bytes) (d : HybridDraws) (n : network) (input output : path)
    (recipient : bytes) : io bytes unit :=
  let recipient := trim recipient in
  io_lift (check_recipient recipient) ≫= λ _,
  data ← io_read (λ s, map_err (λ _, lit "✖ Failed to read input file: " ++ path_display input ++ lit "
Check that:
• The file exists
• You have read permissions
• The file is not locked by another process") (read_file input s));
  _ ← io_lift (in_context "✖ Failed to create Pubky backend for encryption" (pubky_backend_new_sync random));
  envelope ← io_lift (map_err (λ _, lit "✖ Failed to encrypt data for recipient: " ++ recipient ++ lit "
Possible causes:
• Recipient's Pubky ID not found on network
• Network connectivity issues
• Invalid recipient public key format") (send_trusted_data d n data recipient));
  io_map_err (λ _, lit "✖ Failed to write envelope to: " ++ path_display output ++ lit "
Check that:
• The directory exists
• You have write permissions
• There is sufficient disk space (" ++ fmt_nat (length envelope) ++ lit " bytes needed)")
    (create_write output envelope).

Definition read_private_key (key : path) (s : fs) : result bytes PrivateKey :=
  key_hex ← in_context "Failed to read private key file" (read_file key s);
  ensure (utf8_valid key_hex) (lit "Failed to read private key file") ≫= λ _,
  key_bytes ← ok_or (hex_decode (trim key_hex)) (lit "Invalid private key hex");
  ensure (length key_bytes =? 32)%nat (lit "Private key must be exactly 32 bytes (64 hex characters)") ≫= λ _,
  Ok (PrivateKey_new UEd25519 key_bytes).

Definition decrypt_data (input output key : path) : io bytes unit :=
  envelope ← io_read (λ s, in_context "Failed to read envelope file" (read_file input s));
  private_key ← io_read (read_private_key key);
  decrypted_data ← io_lift (in_context "Failed to decrypt envelope" (receive_trusted_data envelope private_key));
  fs_context "Failed to write decrypted data" (create_write output decrypted_data).
End Adapter.
