(* ===== verification/ArchiveLemmas.v ===== *)
(** * Lemmas about archives on disk

    What the file operations of Archive.v do to the directory of an archive, and
    what its readers see there. *)

From S2P Require Import Prelude External Utf8 FileSystem Json Float64 Manifest ManifestCanon.
From S2P Require Import Chain Archive.

(** ** Chunk file names *)

Definition dec_val (s : bytes) : N := foldl (λ acc b, acc * 10 + digit_val b)%N 0%N s.

Lemma digit_val_pretty n : (n < 10)%N → digit_val (pretty_N_char n) = n.
Proof.
  intros Hn. assert (n = 0 ∨ n = 1 ∨ n = 2 ∨ n = 3 ∨ n = 4 ∨ n = 5 ∨ n = 6 ∨ n = 7
    ∨ n = 8 ∨ n = 9)%N as Hc by lia.
  repeat destruct Hc as [->|Hc]; [done..|by subst].
Qed.

Lemma dec_val_go n s :
  dec_val (lit (pretty_N_go n s)) = foldl (λ acc b, acc * 10 + digit_val b)%N n (lit s).
Proof.
  revert s. induction (N.lt_wf_0 n) as [n _ IH]; intros s.
  destruct (decide (n = 0)%N) as [->|Hn]; [done|].
  rewrite pretty_N_go_step by lia. rewrite IH by (apply N.div_lt; lia).
  simpl. f_equal. rewrite digit_val_pretty by (apply N.mod_lt; lia).
  rewrite (N.div_mod n 10) at 3 by lia. lia.
Qed.

Lemma dec_val_fmt_N n : dec_val (fmt_N n) = n.
Proof.
  unfold fmt_N, pretty, pretty_N. case_decide; [by subst|]. rewrite dec_val_go. done.
Qed.

Lemma dec_val_fmt_05 n : dec_val (fmt_05 n) = n.
Proof.
  unfold fmt_05. transitivity (dec_val (fmt_N n)); [|apply dec_val_fmt_N].
  induction (5 - length (fmt_N n)) as [|k IH]; [done|]. exact IH.
Qed.

Lemma fmt_05_digits n : forallb is_digit (fmt_05 n) = true.
Proof.
  unfold fmt_05. rewrite forallb_app_true, fmt_N_digits. split; [|done].
  induction (5 - length (fmt_N n)); simpl; auto.
Qed.

Global Instance chunk_filename_inj : Inj (=) (=) chunk_filename.
Proof.
  intros i j Heq. unfold chunk_filename in Heq. apply app_inj_2 in Heq as [Heq _]; [|done].
  by rewrite <-(dec_val_fmt_05 i), Heq, dec_val_fmt_05.
Qed.

Lemma chunk_filename_bin i : ends_with (lit ".bin") (chunk_filename i) = true.
Proof.
  unfold ends_with, chunk_filename. rewrite length_app, andb_true_iff, !bool_decide_eq_true.
  split; [lia|]. replace (_ + _ - _) with (length (fmt_05 i)) by lia. apply drop_app_length.
Qed.

(** ** Streaming hash *)

Section Stream.
Context `{Blake3} `{Hex} `{ManifestJson}.

Definition cap_error (name : bytes) : ArchiveError :=
  SchemaMismatch (lit "chunk " ++ name ++ lit " exceeds the "
    ++ fmt_N MAX_STORED_CHUNK_BYTES ++ lit "-byte cap").

(** The loop ends, and hashes the file as a whole unless it is over the cap. *)
Lemma stream_loop_spec name fuel total acc rest :
  length rest < fuel → (total ≤ MAX_STORED_CHUNK_BYTES)%N →
  stream_loop fuel name total acc rest =
  Some (if (total + len_N rest <=? MAX_STORED_CHUNK_BYTES)%N
        then Ok (blake3 (acc ++ rest)) else Err (cap_error name)).
Proof.
  assert (MAX_STORED_CHUNK_BYTES < u64_max)%N as Hmax by done.
  revert total acc rest. induction fuel as [|f IH]; intros total acc rest Hf Ht; [lia|].
  cbn [stream_loop]. destruct (take_N BUF_SIZE rest) as [|b buf] eqn:Hbuf.
  - destruct rest as [|b rest]; [|done]. unfold len_N; simpl.
    rewrite N.add_0_r, (proj2 (N.leb_le _ _)) by done. by rewrite app_nil_r.
  - rewrite <-Hbuf. pose proof (len_take_N BUF_SIZE rest) as Hlt.
    pose proof (len_drop_N BUF_SIZE rest) as Hld.
    pose proof (take_drop_N BUF_SIZE rest) as Htd.
    assert (0 < len_N (take_N BUF_SIZE rest))%N by (rewrite Hbuf; unfold len_N; simpl; lia).
    assert (len_N rest = len_N (take_N BUF_SIZE rest) + len_N (drop_N BUF_SIZE rest))%N as Hlen
      by (rewrite <-len_N_app, Htd; done).
    case_match eqn:Hcap.
    + apply N.ltb_lt in Hcap. rewrite (proj2 (N.leb_gt _ _)); [done|]. lia.
    + apply N.ltb_ge in Hcap.
      assert (total + len_N (take_N BUF_SIZE rest) ≤ MAX_STORED_CHUNK_BYTES)%N by lia.
      rewrite N.min_l by lia. rewrite IH; [|unfold len_N in *; lia|lia].
      rewrite <-app_assoc, Htd, Hlen, N.add_assoc. done.
Qed.

Lemma stream_hash_chunk_spec p name s :
  stream_hash_chunk p name s =
  (open_chunk p name s ≫= λ data,
   if (len_N data <=? MAX_STORED_CHUNK_BYTES)%N then Ok (blake3 data)
   else Err (cap_error name)).
Proof.
  unfold stream_hash_chunk. destruct (open_chunk p name s) as [data|e]; [|done].
  cbn [mbind result_bind]. rewrite stream_loop_spec by (apply N.le_0_l || lia). done.
Qed.
End Stream.

(** ** The directory of an archive *)

(** The directories of the archive at [base] exist. *)
Record archive_dirs (base : path) (s : fs) : Prop := {
  ad_nonroot : base ≠ [];
  ad_ancestors q : q ∈ ancestors base → s !! q = Some Dir;
  ad_base : s !! base = Some Dir;
  ad_sig_dir : s !! signatures_path base = Some Dir;
  ad_chunks_dir : s !! chunks_path base = Some Dir;
}.

(** [s] holds an archive at [base] with the given files; [None] stands for a
    file that is not there (yet). *)
Record is_archive (base : path) (s : fs) (man sig : option bytes) (cs : list bytes) : Prop := {
  ia_dirs : archive_dirs base s;
  ia_manifest : s !! manifest_path base = File <$> man;
  ia_signature : s !! sig_path base = File <$> sig;
  ia_chunk i c : cs !! i = Some c →
    s !! (chunks_path base ++ [chunk_filename (N.of_nat i)]) = Some (File c);
  ia_only name n : s !! (chunks_path base ++ [name]) = Some n →
    ∃ i, i < length cs ∧ name = chunk_filename (N.of_nat i);
}.

(** Nothing exists at or below [base], and [create_dir_all base] can succeed. *)
Record fresh (base : path) (s : fs) : Prop := {
  fr_nonroot : base ≠ [];
  fr_ancestors q : q ∈ ancestors base → s !! q = Some Dir ∨ s !! q = None;
  fr_below q : s !! (base ++ q) = None;
}.

Lemma app_single_ne {A} (base : list A) x y : x ≠ y → base ++ [x] ≠ base ++ [y].
Proof. intros Hne Heq. by apply app_inj_2 in Heq as [_ [= ->]]. Qed.

Lemma shorter_ne {A} (p q : list A) : length p < length q → p ≠ q.
Proof. intros Hlt ->. lia. Qed.

Lemma reach_child base s x :
  base ≠ [] → (∀ q, q ∈ ancestors base → s !! q = Some Dir) → s !! base = Some Dir →
  ancestor_error (base ++ [x]) s = None.
Proof.
  intros Hb Ha Hd. apply ancestor_error_None. intros q. rewrite ancestors_snoc by done.
  rewrite elem_of_app, list_elem_of_singleton. intros [?| ->]; auto.
Qed.

Lemma reach_grandchild base s x y :
  base ≠ [] → (∀ q, q ∈ ancestors base → s !! q = Some Dir) → s !! base = Some Dir →
  s !! (base ++ [x]) = Some Dir → ancestor_error (base ++ [x; y]) s = None.
Proof.
  intros Hb Ha Hd Hx. replace (base ++ [x; y]) with ((base ++ [x]) ++ [y]) by by rewrite <-app_assoc.
  apply reach_child; [by destruct base| |done].
  intros q. rewrite ancestors_snoc by done. rewrite elem_of_app, list_elem_of_singleton.
  intros [?| ->]; auto.
Qed.

Section Writer.
Context `{Blake3} `{Hex} `{ManifestJson}.

(** The writer after the chunks [cs]. *)
Record writer_at (base : path) (w : ArchiveWriter) (cs : list bytes) : Prop := {
  wa_base : base_path w = base;
  wa_chunks : chunks_dir w = chunks_path base;
  wa_index : next_index w = N.of_nat (length cs);
  wa_chain : chain_state w = chain_tip genesis (blake3 <$> cs);
}.

Lemma ancestors_below (base : path) q x : q ∈ ancestors base → q ≠ base ++ x.
Proof. intros Hq ->. apply ancestors_shorter in Hq. rewrite length_app in Hq. lia. Qed.

Lemma not_below (base : path) q x : q ∈ ancestors base ++ [base] → x ≠ [] → q ≠ base ++ x.
Proof.
  rewrite elem_of_app, list_elem_of_singleton. intros [Hq| ->] Hx; [by apply ancestors_below|].
  intros Heq. apply (f_equal length) in Heq. rewrite length_app in Heq.
  destruct x; simpl in *; [done|lia].
Qed.

(** Making one directory below directories that exist. *)
Lemma create_subdir base x s : base ≠ [] →
  (∀ q, q ∈ ancestors base ++ [base] → s !! q = Some Dir) → s !! (base ++ [x]) = None →
  ∃ s', create_dir_all (base ++ [x]) s = (Ok tt, s')
    ∧ s' !! (base ++ [x]) = Some Dir ∧ ∀ q, q ≠ base ++ [x] → s' !! q = s !! q.
Proof.
  intros Hb Hd Hn. unfold create_dir_all. rewrite ancestors_snoc by done.
  destruct (create_dirs_ok ((ancestors base ++ [base]) ++ [base ++ [x]]) s)
    as (s' & Hs' & Hin & Hout).
  { intros q. rewrite elem_of_app, list_elem_of_singleton. intros [?| ->]; auto. }
  exists s'. split_and!; [done|apply Hin; set_solver|]. intros q Hq.
  destruct (decide (q ∈ ancestors base ++ [base])) as [Hq'|]; [|apply Hout; set_solver].
  rewrite Hin, Hd; set_solver.
Qed.

(** The base directory and its two subdirectories. *)
Lemma create_dirs base s : fresh base s →
  ∃ s1 s2 s', create_dir_all base s = (Ok tt, s1)
    ∧ create_dir_all (signatures_path base) s1 = (Ok tt, s2)
    ∧ create_dir_all (chunks_path base) s2 = (Ok tt, s')
    ∧ is_archive base s' None None [].
Proof.
  intros [Hb Ha Hbelow].
  pose proof (Hbelow []) as Hbase. rewrite app_nil_r in Hbase.
  destruct (create_dirs_ok (ancestors base ++ [base]) s) as (s1 & Hs1 & Hin1 & Hout1).
  { intros q. rewrite elem_of_app, list_elem_of_singleton. intros [?| ->]; auto. }
  assert (∀ x, x ≠ [] → s1 !! (base ++ x) = None) as Hbelow1.
  { intros x Hx. rewrite Hout1; [apply Hbelow|]. intros Hq. by eapply not_below in Hq. }
  destruct (create_subdir base (lit "signatures") s1) as (s2 & Hs2 & Hd2 & Hout2);
    [done|done|by apply Hbelow1|].
  assert (∀ q, q ∈ ancestors base ++ [base] → s2 !! q = Some Dir) as Hin2.
  { intros q Hq. rewrite Hout2; [auto|]. by apply not_below. }
  destruct (create_subdir base (lit "chunks") s2) as (s3 & Hs3 & Hd3 & Hout3); [done|done|..].
  { rewrite Hout2 by by apply app_single_ne. by apply Hbelow1. }
  assert (∀ q, q ∈ ancestors base ++ [base] → s3 !! q = Some Dir) as Hin3.
  { intros q Hq. rewrite Hout3; [auto|]. by apply not_below. }
  assert (∀ x, x ≠ [] → x ≠ [lit "signatures"] → x ≠ [lit "chunks"] →
    s3 !! (base ++ x) = None) as Hbelow3.
  { intros x Hx Hx1 Hx2. rewrite Hout3, Hout2; [by apply Hbelow1|..];
      intros Heq; by apply app_inv_head in Heq. }
  exists s1, s2, s3. split_and!; [done..|]. constructor; try done.
  - constructor; try done; [intros q Hq; apply Hin3; set_solver|apply Hin3; set_solver|].
    unfold signatures_path. by rewrite Hout3 by by apply app_single_ne.
  - by apply Hbelow3.
  - by apply Hbelow3.
  - intros name n Hn. unfold chunks_path in Hn. rewrite <-app_assoc in Hn.
    by rewrite Hbelow3 in Hn.
Qed.

Lemma create_ok base s : fresh base s →
  ∃ s' w, create base s = (Ok w, s') ∧ writer_at base w [] ∧ is_archive base s' None None [].
Proof.
  intros (s1 & s2 & s' & E1 & E2 & E3 & Har)%create_dirs.
  exists s', (mkArchiveWriter base (chunks_path base) 0 genesis). split_and!; [|done|done].
  unfold create, mbind, io_bind, io_map_err. by rewrite E1, E2, E3.
Qed.

(** A file below the archive leaves the other paths as they were. *)
Lemma insert_below (base x y : path) (n : node) (s : fs) :
  y ≠ x → <[base ++ x := n]> s !! (base ++ y) = s !! (base ++ y).
Proof. intros Hne. apply lookup_insert_ne. intros Heq. by apply app_inv_head in Heq. Qed.

Lemma archive_dirs_insert (base x : path) (n : node) (s : fs) :
  x ≠ [] → x ≠ [lit "signatures"] → x ≠ [lit "chunks"] →
  archive_dirs base s → archive_dirs base (<[base ++ x := n]> s).
Proof.
  intros Hx Hx1 Hx2 [Hb Ha Hd Hsd Hcd]. constructor; [done|..].
  - intros q Hq. rewrite lookup_insert_ne; [auto|]. intros <-. by eapply ancestors_below.
  - pose proof (insert_below base x [] n s) as E. rewrite app_nil_r in E. by rewrite E by done.
  - unfold signatures_path. by rewrite insert_below.
  - unfold chunks_path. by rewrite insert_below.
Qed.

Lemma chunk_path_app (base : path) name :
  chunks_path base ++ [name] = base ++ [lit "chunks"; name].
Proof. unfold chunks_path. by rewrite <-app_assoc. Qed.

(** Writing one more chunk file. *)
Lemma write_chunk_ok base s man sig cs c : is_archive base s man sig cs →
  ∃ s', create_write (chunks_path base ++ [chunk_filename (N.of_nat (length cs))]) c s
        = (Ok tt, s')
    ∧ is_archive base s' man sig (cs ++ [c]).
Proof.
  intros Har. pose proof Har as [Hdirs Hm Hs Hc Ho]. pose proof Hdirs as [Hb Ha Hd Hsd Hcd].
  setoid_rewrite chunk_path_app in Hc. setoid_rewrite chunk_path_app in Ho.
  rewrite chunk_path_app. eexists. split.
  { apply create_write_new; [by apply reach_grandchild|].
    intros Hbad. apply Ho in Hbad as (i & Hi & Heq). apply (inj chunk_filename) in Heq. lia. }
  constructor; [by apply archive_dirs_insert|..].
  - unfold manifest_path. by rewrite insert_below.
  - unfold sig_path. by rewrite insert_below.
  - intros i c' Hi. rewrite chunk_path_app.
    apply lookup_app_Some in Hi as [Hi|[Hi Hi']].
    + rewrite insert_below; [by apply Hc|]. intros [= Heq]. apply (inj chunk_filename) in Heq.
      apply lookup_lt_Some in Hi. lia.
    + apply list_lookup_singleton_Some in Hi' as [Hz <-].
      replace i with (length cs) by lia. apply lookup_insert_eq.
  - intros name n. rewrite chunk_path_app, length_app. cbn [length].
    destruct (decide (name = chunk_filename (N.of_nat (length cs)))) as [->|Hname].
    + exists (length cs). split; [lia|done].
    + rewrite insert_below by congruence. intros Hn.
      apply Ho in Hn as (i & Hi & ->). exists i. split; [lia|done].
Qed.

Lemma push_chunk_ok base s w cs c man sig :
  (N.of_nat (length cs) < u32_max)%N → writer_at base w cs → is_archive base s man sig cs →
  ∃ s' w' out, push_chunk w c s = (Ok (w', out), s')
    ∧ writer_at base w' (cs ++ [c]) ∧ is_archive base s' man sig (cs ++ [c])
    ∧ out = mkChunkOutcome (N.of_nat (length cs)) (blake3 c)
              (chain_tip genesis (blake3 <$> cs ++ [c])) (length c).
Proof.
  intros Hlen [Hwb Hwc Hwi Hwch] Har.
  destruct (write_chunk_ok base s man sig cs c Har) as (s' & Hs' & Har').
  unfold push_chunk, mbind, io_bind, io_map_err. rewrite Hwc, Hwi, Hs'. cbn.
  eexists s', _, _. split; [reflexivity|].
  rewrite fmap_app, chain_tip_app, Hwch. split_and!; [|done|done].
  constructor; cbn; [done..|rewrite length_app; cbn|].
  - unfold wrapping_add32. rewrite N.mod_small; [lia|]. unfold u32_max in Hlen. lia.
  - by rewrite fmap_app, chain_tip_app.
Qed.

(** The loop of the callers: push every chunk. *)
Fixpoint push_all (w : ArchiveWriter) (cs : list bytes)
    : io ArchiveError (ArchiveWriter * list ChunkOutcome) :=
  match cs with
  | [] => mret (w, [])
  | c :: cs' =>
      '(w', out) ← push_chunk w c;
      '(w'', outs) ← push_all w' cs';
      mret (w'', out :: outs)
  end.

(** What the pushes return for the chunks [cs] after the chunks [pre]. *)
Definition outcomes (pre cs : list bytes) : list ChunkOutcome :=
  (λ p, mkChunkOutcome (N.of_nat (length pre + p.1)) (blake3 p.2)
     (chain_tip genesis (blake3 <$> pre ++ take (S p.1) cs)) (length p.2)) <$> enumerate cs.

Lemma enumerate_from_S {A} i (l : list A) :
  enumerate_from (S i) l = (λ p, (S p.1, p.2)) <$> enumerate_from i l.
Proof. revert i; induction l as [|x l IH]; intros i; simpl; [done|]. by rewrite IH. Qed.

Lemma outcomes_cons pre c cs :
  outcomes pre (c :: cs) =
  mkChunkOutcome (N.of_nat (length pre)) (blake3 c)
    (chain_tip genesis (blake3 <$> pre ++ [c])) (length c) :: outcomes (pre ++ [c]) cs.
Proof.
  unfold outcomes, enumerate. cbn [enumerate_from]. rewrite fmap_cons. cbn [fst snd].
  rewrite Nat.add_0_r. f_equal. rewrite enumerate_from_S, <-list_fmap_compose.
  apply list_fmap_ext. intros i [j x] _. unfold compose. cbn [fst snd].
  rewrite length_app. cbn [length]. rewrite <-app_assoc.
  replace (length pre + S j) with (length pre + 1 + j) by lia. done.
Qed.

Lemma push_all_ok base cs pre s w man sig :
  (N.of_nat (length pre + length cs) ≤ u32_max)%N → writer_at base w pre →
  is_archive base s man sig pre →
  ∃ s' w', push_all w cs s = (Ok (w', outcomes pre cs), s')
    ∧ writer_at base w' (pre ++ cs) ∧ is_archive base s' man sig (pre ++ cs).
Proof.
  revert pre s w. induction cs as [|c cs IH]; intros pre s w Hlen Hw Har.
  { exists s, w. by rewrite app_nil_r. }
  cbn [length] in Hlen.
  destruct (push_chunk_ok base s w pre c man sig) as (s1 & w1 & o & E1 & Hw1 & Har1 & ->); [lia|done..|].
  destruct (IH (pre ++ [c]) s1 w1) as (s2 & w2 & E2 & Hw2 & Har2);
    [rewrite length_app; simpl; lia|done..|].
  rewrite <-app_assoc in Hw2, Har2. exists s2, w2. split_and!; [|done|done].
  cbn [push_all]. unfold mbind, io_bind. rewrite E1, E2. by rewrite outcomes_cons.
Qed.

(** Writing a file outside [chunks/] keeps the chunks. *)
Lemma archive_chunks_insert (base x : path) (n : node) (s : fs) man sig cs :
  (∀ y, x ≠ [lit "chunks"; y]) → is_archive base s man sig cs →
  (∀ i c, cs !! i = Some c → <[base ++ x := n]> s
     !! (chunks_path base ++ [chunk_filename (N.of_nat i)]) = Some (File c))
  ∧ (∀ name n', <[base ++ x := n]> s !! (chunks_path base ++ [name]) = Some n' →
     ∃ i, i < length cs ∧ name = chunk_filename (N.of_nat i)).
Proof.
  intros Hx [_ _ _ Hc Ho]. setoid_rewrite chunk_path_app. setoid_rewrite chunk_path_app in Hc.
  setoid_rewrite chunk_path_app in Ho. split.
  - intros i c Hi. rewrite insert_below by auto. by apply Hc.
  - intros name n'. rewrite insert_below by auto. apply Ho.
Qed.

Lemma write_manifest_ok base s sig cs j :
  is_archive base s None sig cs →
  ∃ s', create_write (manifest_path base) j s = (Ok tt, s')
    ∧ is_archive base s' (Some j) sig cs.
Proof.
  intros Har. pose proof Har as [Hdirs Hm Hs _ _]. pose proof Hdirs as [Hb Ha Hd Hsd Hcd].
  exists (<[manifest_path base := File j]> s). split.
  { apply create_write_new; [by apply reach_child|]. by rewrite Hm. }
  destruct (archive_chunks_insert base [lit "manifest.json"] (File j) s None sig cs); [done..|].
  constructor; [by apply archive_dirs_insert|by rewrite lookup_insert_eq| |done|done].
  unfold sig_path, manifest_path. by rewrite insert_below.
Qed.

Lemma write_sig_ok base s man cs sig :
  is_archive base s man None cs →
  ∃ s', create_write (sig_path base) sig s = (Ok tt, s')
    ∧ is_archive base s' man (Some sig) cs.
Proof.
  intros Har. pose proof Har as [Hdirs Hm Hs _ _]. pose proof Hdirs as [Hb Ha Hd Hsd Hcd].
  exists (<[sig_path base := File sig]> s). split.
  { apply create_write_new; [by apply reach_grandchild|]. by rewrite Hs. }
  destruct (archive_chunks_insert base [lit "signatures"; lit "manifest.sig"] (File sig)
    s man None cs); [done..|].
  constructor; [by apply archive_dirs_insert| |by rewrite lookup_insert_eq|done|done].
  unfold sig_path, manifest_path. by rewrite insert_below.
Qed.

Lemma finalize_ok base s w cs m j sig :
  writer_at base w cs → is_archive base s None None cs → length (segments m) = length cs →
  manifest_to_json m = Ok j → (len_N j ≤ MANIFEST_MAX_BYTES)%N →
  ∃ s', finalize w m sig s = (Ok tt, s') ∧ is_archive base s' (Some j) (Some sig) cs.
Proof.
  intros [Hwb _ Hwi _] Har Hlen Hj Hcap.
  destruct (write_manifest_ok base s None cs j Har) as (s1 & E1 & Har1).
  destruct (write_sig_ok base s1 (Some j) cs sig Har1) as (s2 & E2 & Har2).
  exists s2. split; [|done]. unfold finalize, mbind, io_bind, io_lift, io_map_err.
  rewrite Hwi, Hlen, N.eqb_refl, Hj. cbn [ensure map_err].
  rewrite (proj2 (N.leb_le _ _)) by done. cbn [ensure].
  by rewrite Hwb, E1, E2.
Qed.

Lemma write_all_chunks_ok base cs pre s man sig :
  is_archive base s man sig pre →
  ∃ s', io_for_each (write_chunk_file base) (enumerate_from (length pre) cs) s = (Ok tt, s')
    ∧ is_archive base s' man sig (pre ++ cs).
Proof.
  revert pre s. induction cs as [|c cs IH]; intros pre s Har.
  { exists s. by rewrite app_nil_r. }
  destruct (write_chunk_ok base s man sig pre c Har) as (s1 & E1 & Har1).
  destruct (IH (pre ++ [c]) s1 Har1) as (s2 & E2 & Har2).
  rewrite <-app_assoc in Har2. exists s2. split; [|done].
  cbn [enumerate_from io_for_each]. unfold mbind, io_bind, write_chunk_file at 1, io_map_err.
  cbn [fst snd]. rewrite E1. cbn [map_err].
  rewrite length_app in E2. cbn [length] in E2. rewrite Nat.add_comm in E2. exact E2.
Qed.

Lemma write_archive_ok base s m cs j sig :
  fresh base s → length cs = length (segments m) → manifest_to_json m = Ok j →
  ∃ s', write_archive base m cs sig s = (Ok tt, s')
    ∧ is_archive base s' (Some j) (Some sig) cs.
Proof.
  intros Hf Hlen Hj. destruct (create_dirs base s Hf) as (s1 & s2 & s3 & E1 & E2 & E3 & Har3).
  destruct (write_manifest_ok base s3 None [] j Har3) as (s4 & E4 & Har4).
  destruct (write_sig_ok base s4 (Some j) [] sig Har4) as (s5 & E5 & Har5).
  destruct (write_all_chunks_ok base cs [] s5 _ _ Har5) as (s6 & E6 & Har6).
  exists s6. split; [|done]. unfold write_archive, mbind, io_bind, io_lift, io_map_err.
  rewrite Hlen, Nat.eqb_refl. cbn [ensure]. rewrite E1, E2, E3, Hj. cbn [map_err].
  rewrite E4, E5. exact E6.
Qed.
End Writer.
