(* ===== verification/Auth.v ===== *)
(** * Authentication sessions

    crates/core/src/auth.rs: self-signed server certificates with pinning, the
    challenge-response handshake over a framed stream, session keys by X25519, and the
    session table.  Clocks and random bytes are arguments; an error is its [Display] text. *)

From S2P Require Import Prelude External Format Envelope.
From S2P Require Import Utf8 FileSystem Archive ArchiveLemmas.

Definition SESSION_TIMEOUT : N := 1800.
Definition CHALLENGE_SIZE : nat := 32.
Definition SESSION_ID_SIZE : nat := 16.

(** [blake3::derive_key(context, key_material)] *)
Class Blake3Kdf := blake3_derive_key : bytes → bytes → bytes.

Record ServerCertificate := mkServerCertificate {
  sc_identity : bytes;
  sc_public_key : bytes; (* [u8; 32] *)
  sc_valid_from : N; (* u64 *)
  sc_valid_until : N; (* u64 *)
  sc_signature : bytes; (* [u8; 64] *)
}.

Record AuthChallenge := mkAuthChallenge {
  ac_challenge : bytes; (* [u8; CHALLENGE_SIZE] *)
  ac_server_cert : ServerCertificate;
  ac_timestamp : N; (* u64 *)
}.

Record ClientAuthResponse := mkClientAuthResponse {
  ar_client_public_key : bytes; (* [u8; 32] *)
  ar_challenge_signature : bytes; (* [u8; 64] *)
  ar_client_identity : option bytes;
  ar_timestamp : N; (* u64 *)
}.

Record ServerAuthConfirm := mkServerAuthConfirm {
  sa_session_id : bytes; (* [u8; SESSION_ID_SIZE] *)
  sa_session_expires_at : N; (* u64 *)
  sa_session_signature : bytes; (* [u8; 64] *)
}.

Inductive AuthMessageType := ClientHello | ServerChallenge | ClientAuth | ServerConfirm | AuthError.
#[export] Instance auth_type_eq_dec : EqDecision AuthMessageType.
Proof. solve_decision. Defined.

Record AuthMessage := mkAuthMessage {
  am_msg_type : AuthMessageType;
  am_payload : bytes;
}.

Record ClientAuthResult := mkClientAuthResult {
  cr_session_id : bytes;
  cr_server_certificate : ServerCertificate;
  cr_session_key : bytes;
}.

Record SessionInfo := mkSessionInfo {
  si_session_id : bytes;
  si_client_public_key : bytes;
  si_client_identity : option bytes;
  si_created_at : N; (* u64 *)
  si_expires_at : N; (* u64 *)
  si_authenticated : bool;
  si_session_key : bytes;
}.

Record SessionManager := mkSessionManager {
  sessions : gmap bytes SessionInfo;
  server_signing_key : bytes;
  server_certificate : ServerCertificate;
}.
Definition set_sessions (s : gmap bytes SessionInfo) (m : SessionManager) : SessionManager :=
  mkSessionManager s (server_signing_key m) (server_certificate m).

(** [a < b] on byte arrays: lexicographic *)
Fixpoint bytes_lt (a b : bytes) : bool :=
  match a, b with
  | _, [] => false
  | [], _ :: _ => true
  | x :: a', y :: b' =>
      (N_of_byte x <? N_of_byte y)%N || ((N_of_byte x =? N_of_byte y)%N && bytes_lt a' b')
  end.

(** [SystemTime::now().duration_since(UNIX_EPOCH)?.as_secs()] and with [unwrap_or_default] *)
Definition now_secs (now : option N) : result bytes N :=
  ok_or now (lit "second time provided was later than self").
Definition now_or_default (now : option N) : N := default 0%N now.

(** ** Streams

    [st_in] is what the peer has sent and [st_out] what was written; the peer accepts
    [st_room] more bytes, [None] for any number; [st_error] is the text of an I/O error. *)

Record stream := mkStream {
  st_in : bytes;
  st_out : bytes;
  st_room : option nat;
  st_error : bytes;
}.

(** A part of the handshake on a state [S]: it may fail, and what it did before stays done. *)
Definition handshake (S A : Type) : Type := S → result bytes A * S.
#[export] Instance handshake_ret S : MRet (handshake S) := λ A a s, (Ok a, s).
#[export] Instance handshake_bind S : MBind (handshake S) := λ A B f m s,
  match m s with (Ok a, s') => f a s' | (Err e, s') => (Err e, s') end.
Definition pure_step {S A} (r : result bytes A) : handshake S A := λ s, (r, s).

(** [match m { Ok(a) => .., Err(e) => .. }] *)
Definition on_result {S A B} (m : handshake S A) (ok : A → handshake S B) (err : bytes → handshake S B) : handshake S B :=
  λ s, match m s with (Ok a, s') => ok a s' | (Err e, s') => err e s' end.

Definition stream_read (n : nat) : handshake stream bytes := λ s,
  match read_exact n (st_in s) with
  | Some (b, rest) => (Ok b, mkStream rest (st_out s) (st_room s) (st_error s))
  | None => (Err (st_error s), mkStream [] (st_out s) (st_room s) (st_error s))
  end.

Definition stream_write (b : bytes) : handshake stream unit := λ s,
  match st_room s with
  | None => (Ok tt, mkStream (st_in s) (st_out s ++ b) None (st_error s))
  | Some n =>
      if (length b <=? n)%nat then
        (Ok tt, mkStream (st_in s) (st_out s ++ b) (Some (n - length b)) (st_error s))
      else (Err (st_error s), mkStream (st_in s) (st_out s ++ take n b) (Some 0) (st_error s))
  end.

Definition handshake_context {S A} (msg : string) (m : handshake S A) : handshake S A := λ s,
  match m s with (Ok a, s') => (Ok a, s') | (Err _, s') => (Err (lit msg), s') end.

Section Auth.
Context `{Blake3Kdf} `{Hex} `{Ed25519} `{KeyAgreement}
  `{Bincode AuthMessage} `{Bincode AuthChallenge} `{Bincode ClientAuthResponse}
  `{Bincode ServerAuthConfirm} `{Bincode (list ascii)}.

(** ** Certificates *)

Definition cert_data (identity public_key : bytes) (valid_from valid_until : N) : bytes :=
  identity ++ lit ":" ++ hex_encode public_key ++ lit ":" ++ fmt_N valid_from ++ lit ":"
  ++ fmt_N valid_until.

Definition new_self_signed (now : option N) (identity signing_key : bytes) (validity_days : N)
    : result bytes ServerCertificate :=
  now ← now_secs now;
  let valid_until := wrapping_add64 now (as_u64 (validity_days * 24 * 3600)) in
  let public_key := ed_public signing_key in
  Ok (mkServerCertificate identity public_key now valid_until
        (ed_sign signing_key (cert_data identity public_key now valid_until))).

Definition cert_verify (now : option N) (c : ServerCertificate) : result bytes unit :=
  now ← now_secs now;
  ensure (negb ((now <? sc_valid_from c)%N || (sc_valid_until c <? now)%N))
    (lit "Certificate expired or not yet valid") ≫= λ _,
  ensure (ed_key_ok (sc_public_key c))
    (lit "Invalid public key: " ++ ed_key_error (sc_public_key c)) ≫= λ _,
  ensure (ed_verify (sc_public_key c)
      (cert_data (sc_identity c) (sc_public_key c) (sc_valid_from c) (sc_valid_until c))
      (sc_signature c))
    (lit "Certificate signature verification failed: signature error").

Definition verify_pinned (c : ServerCertificate) (expected_pubkey : bytes) : result bytes unit :=
  ensure (bool_decide (sc_public_key c = expected_pubkey))
    (lit "Server public key mismatch: certificate key does not match pinned key. Possible Man-in-the-Middle attack.").

(** ** Session keys *)

Definition derive_session_key (my_signing_key their_public_key challenge : bytes)
    : result bytes bytes :=
  let shared_secret := diffie_hellman (to_scalar my_signing_key) (to_montgomery their_public_key) in
  ensure (negb (all_zero shared_secret)) (lit "ECDH produced zero shared secret") ≫= λ _,
  let my_pub := ed_public my_signing_key in
  let their_pub := their_public_key in
  let key_material := shared_secret ++ challenge
    ++ (if bytes_lt my_pub their_pub then my_pub ++ their_pub else their_pub ++ my_pub) in
  Ok (blake3_derive_key (lit "SEALEDGE_SESSION_KEY_V1") key_material).

(** ** Messages *)

(** [AuthMessage::new] and [deserialize_payload] *)
Definition message_new {T} `{Bincode T} (msg_type : AuthMessageType) (payload : T)
    : result bytes AuthMessage :=
  payload_bytes ← in_context "Failed to serialize auth message payload" (serialize payload);
  Ok (mkAuthMessage msg_type payload_bytes).
Definition deserialize_payload {T} `{Bincode T} (m : AuthMessage) : result bytes T :=
  in_context "Failed to deserialize auth message payload" (deserialize (am_payload m)).

(** ** The session table *)

Definition is_valid (now : option N) (s : SessionInfo) : bool :=
  si_authenticated s && (now_or_default now <? si_expires_at s)%N.
Definition is_expired (now : option N) (s : SessionInfo) : bool :=
  (si_expires_at s <=? now_or_default now)%N.

(** [seed] is what [SigningKey::generate] draws. *)
Definition with_signing_key (now : option N) (server_identity signing_key : bytes)
    : result bytes SessionManager :=
  cert ← new_self_signed now server_identity signing_key 365;
  Ok (mkSessionManager ∅ signing_key cert).
Definition manager_new (now : option N) (server_identity seed : bytes) : result bytes SessionManager :=
  with_signing_key now server_identity seed.

Definition create_challenge (now : option N) (random : bytes) (m : SessionManager)
    : result bytes AuthChallenge :=
  timestamp ← now_secs now;
  Ok (mkAuthChallenge random (server_certificate m) timestamp).

Definition FUTURE_TOLERANCE_SECS : N := 5.
Definition PAST_TOLERANCE_SECS : N := 300.

(** [session_id] is the 16 random bytes. *)
Definition authenticate_client (now : option N) (session_id : bytes) (challenge : AuthChallenge)
    (response : ClientAuthResponse) : handshake SessionManager SessionInfo := λ m,
  match
    (now ← now_secs now;
     ensure (negb (wrapping_add64 now FUTURE_TOLERANCE_SECS <? ar_timestamp response)%N)
       (lit "Authentication response timestamp too far in the future (response="
         ++ fmt_N (ar_timestamp response) ++ lit ", now=" ++ fmt_N now ++ lit ")") ≫= λ _,
     ensure (negb (PAST_TOLERANCE_SECS <? now - ar_timestamp response)%N)
       (lit "Authentication response timestamp too old (response="
         ++ fmt_N (ar_timestamp response) ++ lit ", now=" ++ fmt_N now ++ lit ")") ≫= λ _,
     ensure (ed_key_ok (ar_client_public_key response))
       (lit "Invalid client public key: " ++ ed_key_error (ar_client_public_key response)) ≫= λ _,
     ensure (ed_verify (ar_client_public_key response) (ac_challenge challenge)
         (ar_challenge_signature response))
       (lit "Client challenge signature verification failed: signature error") ≫= λ _,
     session_key ← derive_session_key (server_signing_key m) (ar_client_public_key response)
       (ac_challenge challenge);
     Ok (mkSessionInfo session_id (ar_client_public_key response) (ar_client_identity response) now
           (wrapping_add64 now SESSION_TIMEOUT) true session_key))
  with
  | Ok session => (Ok session, set_sessions (<[session_id := session]> (sessions m)) m)
  | Err e => (Err e, m)
  end.

Definition session_data (session_id client_public_key : bytes) (expires_at : N) : bytes :=
  hex_encode session_id ++ lit ":" ++ hex_encode client_public_key ++ lit ":" ++ fmt_N expires_at.

Definition create_auth_confirm (m : SessionManager) (s : SessionInfo) : result bytes ServerAuthConfirm :=
  Ok (mkServerAuthConfirm (si_session_id s) (si_expires_at s)
        (ed_sign (server_signing_key m)
          (session_data (si_session_id s) (si_client_public_key s) (si_expires_at s)))).

Definition cleanup_expired_sessions (now : option N) (m : SessionManager) : SessionManager :=
  set_sessions (filter (λ kv, (now_or_default now < si_expires_at kv.2)%N) (sessions m)) m.

(** [now] is read by the cleanup, [now'] by the check that follows. *)
Definition validate_session (now now' : option N) (session_id : bytes)
    : handshake SessionManager SessionInfo := λ m,
  let m' := cleanup_expired_sessions now m in
  (session ← ok_or (sessions m' !! session_id) (lit "Session not found");
   ensure (is_valid now' session) (lit "Session expired or invalid") ≫= λ _,
   Ok session, m').

Definition remove_session (session_id : bytes) (m : SessionManager) : SessionManager :=
  set_sessions (delete session_id (sessions m)) m.

Definition active_session_count (m : SessionManager) : nat := size (sessions m).

(** ** The handshake *)

Definition MAX_MESSAGE : N := 8192.

(** [write_u32_le(len)], [write_all], [flush] *)
Definition write_frame (b : bytes) : handshake stream unit :=
  stream_write (le_bytes 4 (as_u32 (N.of_nat (length b)))) ≫= λ _, stream_write b.

(** The length, the bound, the message; [what] names the message in the errors. *)
Definition read_message (len_msg big_msg read_msg decode_msg : string) : handshake stream AuthMessage :=
  msg_len_buf ← handshake_context len_msg (stream_read 4);
  let msg_len := of_le_bytes msg_len_buf in
  _ ← pure_step (ensure (negb (MAX_MESSAGE <? msg_len)%N) (lit big_msg));
  msg_buf ← handshake_context read_msg (stream_read (N.to_nat msg_len));
  pure_step (in_context decode_msg (deserialize (A:=AuthMessage) msg_buf)).

Definition send_message (m : AuthMessage) : handshake stream unit :=
  b ← pure_step (serialize m); write_frame b.

(** Run a part on one component of the server's state. *)
Definition on_stream {A} (m : handshake stream A) : handshake (stream * SessionManager) A := λ s,
  let (r, c) := m s.1 in (r, (c, s.2)).
Definition on_manager {A} (m : handshake SessionManager A) : handshake (stream * SessionManager) A := λ s,
  let (r, t) := m s.2 in (r, (s.1, t)).

(** What the server reads from its environment. *)
Record ServerEnv := mkServerEnv {
  sv_challenge : bytes; (* CHALLENGE_SIZE random bytes *)
  sv_challenge_time : option N;
  sv_session_id : bytes; (* SESSION_ID_SIZE random bytes *)
  sv_auth_time : option N;
}.

(** Up to the client's response. *)
Definition server_exchange (env : ServerEnv)
    : handshake (stream * SessionManager) (AuthChallenge * ClientAuthResponse) :=
  client_hello ← on_stream (read_message "Failed to read client hello length"
    "Client hello message too large" "Failed to read client hello"
    "Failed to deserialize client hello");
  _ ← pure_step (ensure (bool_decide (am_msg_type client_hello = ClientHello))
    (lit "Expected ClientHello message"));
  challenge ← on_manager (λ m, (create_challenge (sv_challenge_time env) (sv_challenge env) m, m));
  challenge_msg ← pure_step (message_new ServerChallenge challenge);
  _ ← on_stream (send_message challenge_msg);
  client_auth ← on_stream (read_message "Failed to read client auth length"
    "Client auth message too large" "Failed to read client auth"
    "Failed to deserialize client auth");
  _ ← pure_step (ensure (bool_decide (am_msg_type client_auth = ClientAuth))
    (lit "Expected ClientAuth message"));
  auth_response ← pure_step (deserialize_payload (T:=ClientAuthResponse) client_auth);
  mret (challenge, auth_response).

Definition server_confirms (session : SessionInfo) : handshake (stream * SessionManager) SessionInfo :=
  confirm ← on_manager (λ m, (create_auth_confirm m session, m));
  confirm_msg ← pure_step (message_new ServerConfirm confirm);
  _ ← on_stream (send_message confirm_msg);
  mret session.

Definition server_refuses (e : bytes) : handshake (stream * SessionManager) SessionInfo :=
  error_msg ← pure_step (message_new (T:=list ascii) AuthError e);
  _ ← on_stream (send_message error_msg);
  pure_step (Err e).

Definition server_authenticate (env : ServerEnv) : handshake (stream * SessionManager) SessionInfo :=
  exchanged ← server_exchange env;
  on_result (on_manager (authenticate_client (sv_auth_time env) (sv_session_id env) exchanged.1
      exchanged.2)) server_confirms server_refuses.

(** [check] is when the certificate is checked, [stamp] when the response is stamped. *)
Record ClientEnv := mkClientEnv {
  cl_check_time : option N;
  cl_stamp_time : option N;
}.

Definition client_hello_text : bytes := lit "Sealedge Client v1.0".

Definition client_authenticate (env : ClientEnv) (client_signing_key : bytes)
    (client_identity : option bytes) (server_pubkey : bytes) : handshake stream ClientAuthResult :=
  hello_msg ← pure_step (message_new (T:=list ascii) ClientHello client_hello_text);
  _ ← send_message hello_msg;
  challenge_msg ← read_message "Failed to read server challenge length"
    "Server challenge message too large" "Failed to read server challenge"
    "Failed to deserialize server challenge";
  _ ← pure_step (ensure (bool_decide (am_msg_type challenge_msg = ServerChallenge))
    (lit "Expected ServerChallenge message"));
  challenge ← pure_step (deserialize_payload (T:=AuthChallenge) challenge_msg);
  let cert := ac_server_cert challenge in
  _ ← pure_step (in_context "Server certificate verification failed" (cert_verify (cl_check_time env) cert));
  _ ← pure_step (in_context "Server public key pinning failed" (verify_pinned cert server_pubkey));
  timestamp ← pure_step (now_secs (cl_stamp_time env));
  auth_msg ← pure_step (message_new ClientAuth (mkClientAuthResponse (ed_public client_signing_key)
    (ed_sign client_signing_key (ac_challenge challenge)) client_identity timestamp));
  _ ← send_message auth_msg;
  response_msg ← read_message "Failed to read server response length"
    "Server response message too large" "Failed to read server response"
    "Failed to deserialize server response";
  pure_step match am_msg_type response_msg with
  | ServerConfirm =>
      confirm ← deserialize_payload (T:=ServerAuthConfirm) response_msg;
      ensure (ed_key_ok (sc_public_key cert)) (ed_key_error (sc_public_key cert)) ≫= λ _,
      ensure (ed_verify (sc_public_key cert)
          (session_data (sa_session_id confirm) (ed_public client_signing_key)
            (sa_session_expires_at confirm))
          (sa_session_signature confirm))
        (lit "Server session signature verification failed") ≫= λ _,
      session_key ← derive_session_key client_signing_key (sc_public_key cert)
        (ac_challenge challenge);
      Ok (mkClientAuthResult (sa_session_id confirm) cert session_key)
  | AuthError =>
      error_msg ← deserialize_payload (T:=list ascii) response_msg;
      Err (lit "Authentication failed: " ++ error_msg)
  | _ => Err (lit "Unexpected server response type")
  end.
End Auth.

(** * Authentication sessions: lemmas

    Both sides derive one session key; framed messages read back; an honest handshake ends
    with both sides agreeing; what each side checks; the invariant of the session table. *)

(** ** Byte order *)

Lemma bytes_lt_total a b : bytes_lt a b = false → bytes_lt b a = false → a = b.
Proof.
  revert b. induction a as [|x a IH]; intros [|y b]; cbn; try done.
  rewrite !orb_false_iff, !N.ltb_ge. intros [Hyx Ha] [Hxy Hb].
  assert (N_of_byte x = N_of_byte y) as Heq by lia. rewrite Heq, N.eqb_refl in Ha, Hb.
  apply (inj N_of_byte) in Heq as ->. f_equal. by apply IH.
Qed.

Lemma bytes_lt_asym a b : bytes_lt a b = true → bytes_lt b a = false.
Proof.
  revert b. induction a as [|x a IH]; intros [|y b]; cbn; try done.
  rewrite orb_true_iff, andb_true_iff, N.ltb_lt, N.eqb_eq. intros [Hlt|[-> Hab]].
  - rewrite (proj2 (N.ltb_ge _ _)), (proj2 (N.eqb_neq _ _)) by lia. done.
  - rewrite N.ltb_irrefl, N.eqb_refl. cbn. by apply IH.
Qed.

(** ** Steps *)

Lemma handshake_bind_ok {S A B} (m : handshake S A) (f : A → handshake S B) s b s'' :
  (m ≫= f) s = (Ok b, s'') ↔ ∃ a s', m s = (Ok a, s') ∧ f a s' = (Ok b, s'').
Proof.
  unfold mbind, handshake_bind. destruct (m s) as [[a|e] s'] eqn:E.
  - split; [eauto|]. by intros (a' & s1 & [= <- <-] & ?).
  - split; [done|]. by intros (a' & s1 & ? & _).
Qed.

Lemma handshake_bind_run {S A B} (m : handshake S A) (f : A → handshake S B) s a s' :
  m s = (Ok a, s') → (m ≫= f) s = f a s'.
Proof. intros Hm. unfold mbind, handshake_bind. by rewrite Hm. Qed.

Lemma pure_step_ok {S A} (r : result bytes A) (s : S) a s' : pure_step r s = (Ok a, s') ↔ r = Ok a ∧ s' = s.
Proof. unfold pure_step. split; [by intros [= -> ->]|by intros [-> ->]]. Qed.

Lemma handshake_context_ok {S A} msg (m : handshake S A) s a s' :
  handshake_context msg m s = (Ok a, s') ↔ m s = (Ok a, s').
Proof. unfold handshake_context. destruct (m s) as [[?|?] ?]; naive_solver. Qed.

(** ** Frames *)

Definition wire_frame (b : bytes) : bytes := le_bytes 4 (as_u32 (N.of_nat (length b))) ++ b.

(** The stream after reading up to [rest], after writing [b]. *)
Definition after_read (rest : bytes) (s : stream) : stream :=
  mkStream rest (st_out s) (st_room s) (st_error s).
Definition after_write (b : bytes) (s : stream) : stream :=
  mkStream (st_in s) (st_out s ++ b) (st_room s) (st_error s).

Lemma write_frame_ok b s : st_room s = None → write_frame b s = (Ok tt, after_write (wire_frame b) s).
Proof.
  intros Hr. unfold write_frame. rewrite (handshake_bind_run _ _ _ tt (after_write (le_bytes 4 (as_u32 (N.of_nat (length b)))) s)).
  - unfold stream_write, after_write. cbn. rewrite Hr. by rewrite <-app_assoc.
  - unfold stream_write, after_write. by rewrite Hr.
Qed.

Section Auth.
Context `{Blake3Kdf} `{Hex} `{Ed25519Laws} `{!KeyAgreement} `{!KeyAgreementLaws}
  `{!Bincode AuthMessage} `{!BincodeLaws AuthMessage} `{!Bincode AuthChallenge}
  `{!BincodeLaws AuthChallenge} `{!Bincode ClientAuthResponse} `{!BincodeLaws ClientAuthResponse}
  `{!Bincode ServerAuthConfirm} `{!BincodeLaws ServerAuthConfirm} `{!Bincode (list ascii)}.

Lemma derive_session_symmetric a b ch :
  derive_session_key a (ed_public b) ch = derive_session_key b (ed_public a) ch.
Proof.
  unfold derive_session_key. rewrite diffie_hellman_comm.
  destruct (ensure _ _); [|done]. cbn. do 4 f_equal.
  destruct (bytes_lt (ed_public a) (ed_public b)) eqn:Hab.
  - by rewrite (bytes_lt_asym _ _ Hab).
  - destruct (bytes_lt (ed_public b) (ed_public a)) eqn:Hba; [done|].
    by rewrite (bytes_lt_total _ _ Hab Hba).
Qed.

(** The next framed message of an input, if it is within the bound and decodes. *)
Definition next_message (input : bytes) (m : AuthMessage) (rest : bytes) : Prop :=
  ∃ len body, input = len ++ body ++ rest ∧ length len = 4
    ∧ N.of_nat (length body) = of_le_bytes len ∧ (N.of_nat (length body) ≤ MAX_MESSAGE)%N
    ∧ deserialize (A:=AuthMessage) body = Ok m.

Lemma stream_read_ok n s b s' :
  stream_read n s = (Ok b, s') ↔ ∃ rest, st_in s = b ++ rest ∧ length b = n ∧ s' = after_read rest s.
Proof.
  unfold stream_read. split.
  - destruct (read_exact n (st_in s)) as [[x r]|] eqn:E; [|done]. intros [= -> <-].
    apply read_exact_Some in E as [-> <-]. by exists r.
  - intros (rest & -> & Hl & ->). by rewrite read_exact_app.
Qed.

Lemma read_message_ok l1 l2 l3 l4 s m s' :
  read_message l1 l2 l3 l4 s = (Ok m, s') ↔
  ∃ rest, next_message (st_in s) m rest ∧ s' = after_read rest s.
Proof.
  unfold read_message. split.
  - intros (len & s1 & (r1 & Hin & Hl & ->)%handshake_context_ok%stream_read_ok & Hm)%handshake_bind_ok.
    apply handshake_bind_ok in Hm as (u & s2 & [Hb ->]%pure_step_ok & Hm).
    apply handshake_bind_ok in Hm as (body & s3 & (r2 & Hin2 & Hl2 & ->)%handshake_context_ok%stream_read_ok & Hm).
    apply pure_step_ok in Hm as [Hd%in_context_ok ->]. destruct u. apply ensure_ok in Hb.
    rewrite negb_true_iff, N.ltb_ge in Hb. cbn in Hin2. subst r1. exists r2.
    split; [|done]. exists len, body. split_and!; [done|done|lia|lia|done].
  - intros (rest & (len & body & Hin & Hl & Hlb & Hmax & Hd) & ->).
    eapply eq_trans; [eapply handshake_bind_run, handshake_context_ok, stream_read_ok; by eauto|].
    eapply eq_trans; [eapply handshake_bind_run, pure_step_ok; split; [|done]|].
    { apply ensure_ok. rewrite negb_true_iff, N.ltb_ge, <-Hlb. done. }
    eapply eq_trans; [eapply handshake_bind_run, handshake_context_ok, stream_read_ok; eexists; split_and!; [done| |done]|].
    { lia. }
    apply pure_step_ok. split; [by apply in_context_ok|done].
Qed.

Lemma next_message_frame m b rest :
  serialize m = Ok b → (N.of_nat (length b) ≤ MAX_MESSAGE)%N → next_message (wire_frame b ++ rest) m rest.
Proof.
  intros Hs Hb. unfold wire_frame. exists (le_bytes 4 (as_u32 (N.of_nat (length b)))), b.
  split_and!; [by rewrite <-app_assoc|apply length_le_bytes| |done|by apply deserialize_ok].
  rewrite of_le_bytes_le_bytes. unfold as_u32, MAX_MESSAGE in *.
  rewrite (N.mod_small (N.of_nat _)) by lia. symmetry. apply N.mod_small. cbn. lia.
Qed.

Lemma next_message_unique input m rest m' rest' :
  next_message input m rest → next_message input m' rest' → m = m' ∧ rest = rest'.
Proof.
  intros (len & body & -> & Hl & Hb & _ & Hd) (len' & body' & Heq & Hl' & Hb' & _ & Hd').
  apply app_inj_1 in Heq as [<- Heq]; [|congruence].
  apply app_inj_1 in Heq as [<- <-]; [|apply Nat2N.inj; congruence].
  rewrite Hd in Hd'. by apply Ok_inj in Hd'.
Qed.

(** ** Sending *)

(** The bytes of a message. *)
Definition encoded {T} `{Bincode T} (ty : AuthMessageType) (x : T) : result bytes bytes :=
  m ← message_new ty x; serialize m.

Lemma message_new_ok {T} `{BincodeLaws T} ty (x : T) m :
  message_new ty x = Ok m → am_msg_type m = ty ∧ deserialize_payload m = Ok x.
Proof.
  unfold message_new, deserialize_payload. intros Hm. inv_ok. split; [done|].
  match goal with E : in_context _ _ = Ok _ |- _ => apply in_context_ok in E end.
  apply in_context_ok. by apply deserialize_ok.
Qed.

Lemma encoded_ok {T} `{Bincode T} ty (x : T) b :
  encoded ty x = Ok b ↔ ∃ m, message_new ty x = Ok m ∧ serialize m = Ok b.
Proof. unfold encoded. by rewrite bind_ok. Qed.

Lemma send_message_ok m b s :
  serialize m = Ok b → st_room s = None → send_message m s = (Ok tt, after_write (wire_frame b) s).
Proof.
  intros Hs Hr. unfold send_message. erewrite handshake_bind_run by by apply pure_step_ok.
  by apply write_frame_ok.
Qed.

Lemma send_message_in m s s' : send_message m s = (Ok tt, s') → st_in s' = st_in s.
Proof.
  assert (∀ b t t', stream_write b t = (Ok tt, t') → st_in t' = st_in t) as Hw.
  { intros b t t'. unfold stream_write. destruct (st_room t) as [n|]; [case_match|]; by intros [= <-]. }
  unfold send_message, write_frame. intros (b & s1 & [_ ->]%pure_step_ok & Hs)%handshake_bind_ok.
  apply handshake_bind_ok in Hs as ([] & s2 & Hw1%Hw & Hw2%Hw). congruence.
Qed.

(** ** The client *)

(** Everything the client checks: it depends on the bytes it received and on the time at
    which the certificate must be valid. *)
Definition client_accepts (sk pin : bytes) (now : option N) (input : bytes) (r : ClientAuthResult) : Prop :=
  ∃ m1 rest1 ch m2 rest2 confirm,
    next_message input m1 rest1 ∧ am_msg_type m1 = ServerChallenge ∧ deserialize_payload m1 = Ok ch
    ∧ cert_verify now (ac_server_cert ch) = Ok tt ∧ sc_public_key (ac_server_cert ch) = pin
    ∧ next_message rest1 m2 rest2 ∧ am_msg_type m2 = ServerConfirm ∧ deserialize_payload m2 = Ok confirm
    ∧ ed_verify pin (session_data (sa_session_id confirm) (ed_public sk)
        (sa_session_expires_at confirm)) (sa_session_signature confirm) = true
    ∧ derive_session_key sk pin (ac_challenge ch) = Ok (cr_session_key r)
    ∧ cr_session_id r = sa_session_id confirm ∧ cr_server_certificate r = ac_server_cert ch.

Lemma cert_verify_key now c : cert_verify now c = Ok tt → ed_key_ok (sc_public_key c) = true.
Proof. unfold cert_verify. intros Hc. by inv_ok. Qed.

(** A certificate stays valid through its period. *)
Lemma cert_verify_at now t c :
  cert_verify now c = Ok tt → (sc_valid_from c ≤ t ≤ sc_valid_until c)%N → cert_verify (Some t) c = Ok tt.
Proof.
  unfold cert_verify. intros Hc [Hlo Hhi]. inv_ok. cbn [now_secs ok_or mbind result_bind].
  rewrite (proj2 (N.ltb_ge _ _) Hlo), (proj2 (N.ltb_ge _ _) Hhi). cbn [orb negb ensure mbind result_bind].
  repeat match goal with E : ?x = true |- context [?x] => rewrite E end. done.
Qed.

Lemma client_authenticate_sound env sk identity pin s r s' :
  client_authenticate env sk identity pin s = (Ok r, s') →
  client_accepts sk pin (cl_check_time env) (st_in s) r.
Proof.
  unfold client_authenticate. intros (hello & s1 & [_ ->]%pure_step_ok & Hc)%handshake_bind_ok.
  apply handshake_bind_ok in Hc as ([] & s2 & Hin1%send_message_in & Hc).
  apply handshake_bind_ok in Hc as (m1 & s3 & (rest1 & Hm1 & ->)%read_message_ok & Hc).
  apply handshake_bind_ok in Hc as ([] & s4 & [Ht1%ensure_ok ->]%pure_step_ok & Hc).
  apply handshake_bind_ok in Hc as (ch & s5 & [Hch ->]%pure_step_ok & Hc).
  apply handshake_bind_ok in Hc as ([] & s6 & [Hcert%in_context_ok ->]%pure_step_ok & Hc).
  apply handshake_bind_ok in Hc as ([] & s7 & [Hpin%in_context_ok%ensure_ok ->]%pure_step_ok & Hc).
  apply handshake_bind_ok in Hc as (t & s8 & [_ ->]%pure_step_ok & Hc).
  apply handshake_bind_ok in Hc as (auth & s9 & [_ ->]%pure_step_ok & Hc).
  apply handshake_bind_ok in Hc as ([] & s10 & Hin2%send_message_in & Hc).
  apply handshake_bind_ok in Hc as (m2 & s11 & (rest2 & Hm2 & ->)%read_message_ok & Hc).
  apply pure_step_ok in Hc as [Hc _]. rewrite bool_decide_eq_true in Ht1, Hpin.
  rewrite Hin2 in Hm2. cbn in Hm2. rewrite Hin1 in Hm1.
  destruct (am_msg_type m2) eqn:Ht2; try done; [|by inv_ok].
  inv_ok. exists m1, rest1, ch, m2, rest2. eexists. split_and!; done.
Qed.

Lemma client_authenticate_complete env sk identity pin s r t hello :
  st_room s = None → cl_stamp_time env = Some t →
  encoded ClientHello client_hello_text = Ok hello →
  (∀ resp : ClientAuthResponse, is_ok (encoded ClientAuth resp) = true) →
  client_accepts sk pin (cl_check_time env) (st_in s) r →
  ∃ ch auth, encoded ClientAuth (mkClientAuthResponse (ed_public sk) (ed_sign sk (ac_challenge ch)) identity t)
      = Ok auth
    ∧ (∃ m1 rest1, next_message (st_in s) m1 rest1 ∧ deserialize_payload m1 = Ok ch)
    ∧ (client_authenticate env sk identity pin s).1 = Ok r
    ∧ st_out (client_authenticate env sk identity pin s).2 = st_out s ++ wire_frame hello ++ wire_frame auth.
Proof.
  intros Hroom Ht (hm & Hhm & Hhs)%encoded_ok Henc
    (m1 & rest1 & ch & m2 & rest2 & confirm & Hm1 & Ht1 & Hch & Hcert & Hpin & Hm2 & Ht2 & Hconf & Hver
      & Hkey & Hid & Hcr).
  destruct (proj1 (is_ok_true _) (Henc (mkClientAuthResponse (ed_public sk)
    (ed_sign sk (ac_challenge ch)) identity t))) as [auth Hauth].
  exists ch, auth. split_and!; [done|by eauto|..];
    apply encoded_ok in Hauth as (am & Ham & Has).
  all: unfold client_authenticate; erewrite handshake_bind_run by (apply pure_step_ok; split; [exact Hhm|done]);
    erewrite handshake_bind_run by (by apply send_message_ok);
    erewrite handshake_bind_run by (apply read_message_ok; by eauto);
    erewrite handshake_bind_run by (apply pure_step_ok; split; [apply ensure_ok; by apply bool_decide_eq_true|done]);
    erewrite handshake_bind_run by (apply pure_step_ok; split; [exact Hch|done]);
    erewrite handshake_bind_run by (apply pure_step_ok; split; [apply in_context_ok; exact Hcert|done]);
    erewrite handshake_bind_run by (apply pure_step_ok; split;
      [apply in_context_ok, ensure_ok; by apply bool_decide_eq_true|done]);
    erewrite handshake_bind_run by (apply pure_step_ok; split; [unfold now_secs; by rewrite Ht|done]);
    erewrite handshake_bind_run by (apply pure_step_ok; split; [exact Ham|done]);
    erewrite handshake_bind_run by (by apply send_message_ok);
    erewrite handshake_bind_run by (apply read_message_ok; by eauto).
  - cbn [fst pure_step]. rewrite Ht2, Hconf. cbn [mbind result_bind].
    rewrite (cert_verify_key _ _ Hcert), Hpin, Hver. cbn [ensure mbind result_bind]. rewrite Hkey.
    cbn [mbind result_bind]. rewrite <-Hid, <-Hcr. by destruct r.
  - cbn. by rewrite <-?app_assoc.
Qed.

(** ** The server *)

(** A session that the response [resp] to [challenge] earns at time [t]. *)
Record admitted (server_key challenge id : bytes) (resp : ClientAuthResponse) (t : N) (s : SessionInfo)
    : Prop := {
  ad_not_future : (ar_timestamp resp ≤ wrapping_add64 t FUTURE_TOLERANCE_SECS)%N;
  ad_not_stale : (t - ar_timestamp resp ≤ PAST_TOLERANCE_SECS)%N;
  ad_key_ok : ed_key_ok (ar_client_public_key resp) = true;
  ad_signed : ed_verify (ar_client_public_key resp) challenge (ar_challenge_signature resp) = true;
  ad_session_key : derive_session_key server_key (ar_client_public_key resp) challenge
    = Ok (si_session_key s);
  ad_session : s = mkSessionInfo id (ar_client_public_key resp) (ar_client_identity resp) t
    (wrapping_add64 t SESSION_TIMEOUT) true (si_session_key s);
}.

Lemma authenticate_client_ok now id ch resp m s m' :
  authenticate_client now id ch resp m = (Ok s, m') ↔
  ∃ t, now = Some t ∧ admitted (server_signing_key m) (ac_challenge ch) id resp t s
    ∧ m' = set_sessions (<[id := s]> (sessions m)) m.
Proof.
  unfold authenticate_client. split.
  - case_match eqn:E; [|done]. intros [= -> <-]. unfold now_secs in E. inv_ok.
    rewrite negb_true_iff, ?N.ltb_ge in *. eexists. split; [done|]. split; [|done].
    constructor; done.
  - intros (t & -> & [Hf Hp Hk Hs Hd Heq] & ->). cbn [now_secs ok_or mbind result_bind].
    rewrite (proj2 (N.ltb_ge _ _)), (proj2 (N.ltb_ge _ _)) by done. cbn [negb ensure mbind result_bind].
    rewrite Hk, Hs, Hd. cbn [ensure mbind result_bind]. by rewrite <-Heq.
Qed.

Lemma authenticate_client_err now id ch resp m e m' :
  authenticate_client now id ch resp m = (Err e, m') → m' = m.
Proof. unfold authenticate_client. case_match; by intros [=]. Qed.

(** Steps that leave the session table alone. *)
Definition keeps_table {A} (f : handshake (stream * SessionManager) A) : Prop :=
  ∀ s r s', f s = (r, s') → s'.2 = s.2.

Lemma keeps_bind {A B} (f : handshake (stream * SessionManager) A) (g : A → handshake _ B) :
  keeps_table f → (∀ a, keeps_table (g a)) → keeps_table (f ≫= g).
Proof.
  intros Hf Hg s r s'. unfold mbind, handshake_bind. destruct (f s) as [[a|e] s1] eqn:E; apply Hf in E.
  - intros Hs. apply Hg in Hs. congruence.
  - intros [= _ <-]. done.
Qed.
Lemma keeps_lift {A} (r : result bytes A) : keeps_table (pure_step r).
Proof. by intros s r' s' [= _ <-]. Qed.
Lemma keeps_on_stream {A} (f : handshake stream A) : keeps_table (on_stream f).
Proof. intros [c m] r s'. unfold on_stream. destruct (f _). by intros [= _ <-]. Qed.
Lemma keeps_ask {A} (f : SessionManager → result bytes A) : keeps_table (on_manager (λ m, (f m, m))).
Proof. by intros [c m] r s' [= _ <-]. Qed.

Lemma keeps_ret {A} (a : A) : keeps_table (mret a).
Proof. by intros s r s' [= _ <-]. Qed.
Ltac keeps := repeat first [apply keeps_bind; [|intros ?]|apply keeps_lift|apply keeps_on_stream
                           |apply keeps_ask|apply keeps_ret].

Lemma server_exchange_keeps env : keeps_table (server_exchange env).
Proof. unfold server_exchange. keeps. Qed.
Lemma server_confirms_keeps s : keeps_table (server_confirms s).
Proof. unfold server_confirms. keeps. Qed.
Lemma server_refuses_keeps e : keeps_table (server_refuses e).
Proof. unfold server_refuses. keeps. Qed.

Lemma server_exchange_challenge env s x s' :
  server_exchange env s = (Ok x, s') → ac_challenge x.1 = sv_challenge env.
Proof.
  unfold server_exchange. intros (? & ? & _ & Hs)%handshake_bind_ok.
  apply handshake_bind_ok in Hs as (? & s1 & _ & Hs). apply handshake_bind_ok in Hs as (ch & s2 & Hch & Hs).
  do 5 apply handshake_bind_ok in Hs as (? & ? & _ & Hs). injection Hs as <- _.
  unfold on_manager, create_challenge in Hch. injection Hch as Hch _. by inv_ok.
Qed.

Lemma server_confirms_ok s st r st' : server_confirms s st = (Ok r, st') → r = s.
Proof.
  unfold server_confirms. intros (? & ? & _ & Hs)%handshake_bind_ok.
  do 2 apply handshake_bind_ok in Hs as (? & ? & _ & Hs). by injection Hs as <- _.
Qed.
Lemma server_refuses_err e st r st' : server_refuses e st = (r, st') → is_ok r = false.
Proof.
  destruct r as [s|?]; [|done]. unfold server_refuses. intros (? & ? & _ & Hs)%handshake_bind_ok.
  by apply handshake_bind_ok in Hs as (? & ? & _ & [? _]%pure_step_ok).
Qed.

(** The server's table changes only by a session that the client earned with a signature of
    the challenge drawn for this connection. *)
Lemma server_authenticate_table env c m r c' m' :
  server_authenticate env (c, m) = (r, (c', m')) →
  (m' = m ∧ is_ok r = false)
  ∨ ∃ resp t s, sv_auth_time env = Some t
    ∧ admitted (server_signing_key m) (sv_challenge env) (sv_session_id env) resp t s
    ∧ m' = set_sessions (<[sv_session_id env := s]> (sessions m)) m ∧ (∀ s', r = Ok s' → s' = s).
Proof.
  unfold server_authenticate, mbind, handshake_bind. destruct (server_exchange env (c, m)) as [[x|e] s1] eqn:Hx;
    apply server_exchange_keeps in Hx as Hm; cbn in Hm.
  2: { intros [= <- ->]. left. by cbn in Hm. }
  apply server_exchange_challenge in Hx. unfold on_result, on_manager. rewrite Hm.
  destruct (authenticate_client _ _ _ _ _) as [[s|e] m1] eqn:Ha; intros Hs.
  - apply authenticate_client_ok in Ha as (t & Ht & Had & ->). rewrite Hx in Had.
    right. exists x.2, t, s. split_and!; [done|done| |].
    + by apply server_confirms_keeps in Hs.
    + intros s' ->. by apply server_confirms_ok in Hs.
  - apply authenticate_client_err in Ha as ->. left. split.
    + by apply server_refuses_keeps in Hs.
    + by eapply server_refuses_err.
Qed.

(** ** An honest run *)

Lemma on_stream_run {A} (f : handshake stream A) c m a c' :
  f c = (Ok a, c') → on_stream f (c, m) = (Ok a, (c', m)).
Proof. intros Hf. unfold on_stream. cbn. by rewrite Hf. Qed.

(** What an honest server sends and stores when the client has sent [hello] and [auth]. *)
Lemma server_authenticate_run env c m resp t1 s m' hello chal auth conf :
  st_room c = None → sv_challenge_time env = Some t1 →
  encoded ClientHello client_hello_text = Ok hello → (N.of_nat (length hello) ≤ MAX_MESSAGE)%N →
  encoded ClientAuth resp = Ok auth → (N.of_nat (length auth) ≤ MAX_MESSAGE)%N →
  st_in c = wire_frame hello ++ wire_frame auth →
  let ch := mkAuthChallenge (sv_challenge env) (server_certificate m) t1 in
  encoded ServerChallenge ch = Ok chal →
  authenticate_client (sv_auth_time env) (sv_session_id env) ch resp m = (Ok s, m') →
  (confirm ← create_auth_confirm m s; encoded ServerConfirm confirm) = Ok conf →
  server_authenticate env (c, m)
  = (Ok s, (mkStream [] (st_out c ++ wire_frame chal ++ wire_frame conf) None (st_error c), m')).
Proof.
  intros Hroom Ht1 (hm & Hhm & Hhs)%encoded_ok Hhl Hauth Hal Hin ch (cm & Hcm & Hcs)%encoded_ok Ha Hconf.
  apply encoded_ok in Hauth as (am & Ham & Has). apply bind_ok in Hconf as (confirm & Hcf & Hconf).
  apply encoded_ok in Hconf as (fm & Hfm & Hfs).
  destruct (message_new_ok _ _ _ Ham) as [Hamt Hamp].
  assert (am_msg_type hm = ClientHello) as Hhmt by (unfold message_new in Hhm; by inv_ok).
  assert (server_signing_key m' = server_signing_key m) as Hk
    by (by apply authenticate_client_ok in Ha as (? & _ & _ & ->)).
  unfold server_authenticate, server_exchange.
  erewrite handshake_bind_run; cycle 1.
  { erewrite handshake_bind_run by (apply on_stream_run, read_message_ok; eexists; split; [|done];
      rewrite Hin; by apply next_message_frame).
    erewrite handshake_bind_run by (apply pure_step_ok; split; [apply ensure_ok; by apply bool_decide_eq_true|done]).
    erewrite handshake_bind_run by (unfold on_manager, create_challenge, now_secs; rewrite Ht1; reflexivity).
    erewrite handshake_bind_run by (apply pure_step_ok; split; [exact Hcm|done]).
    erewrite handshake_bind_run by (by apply on_stream_run, send_message_ok).
    erewrite handshake_bind_run by (apply on_stream_run, read_message_ok; eexists; split; [|done];
      cbn [st_in after_write after_read]; rewrite <-(app_nil_r (wire_frame auth)); by apply next_message_frame).
    erewrite handshake_bind_run by (apply pure_step_ok; split; [apply ensure_ok; by apply bool_decide_eq_true|done]).
    erewrite handshake_bind_run by (apply pure_step_ok; split; [exact Hamp|done]). done. }
  unfold on_result, on_manager. cbn [fst snd]. fold ch. rewrite Ha. unfold server_confirms.
  erewrite handshake_bind_run by (unfold on_manager, create_auth_confirm in *; cbn [snd fst]; rewrite Hk, Hcf;
    reflexivity).
  erewrite handshake_bind_run by (apply pure_step_ok; split; [exact Hfm|done]).
  erewrite handshake_bind_run by (by apply on_stream_run, send_message_ok).
  unfold after_write, after_read, mret, handshake_ret. cbn [st_in st_out st_room st_error].
  by rewrite <-app_assoc, Hroom.
Qed.

(** A response made with the client's key in time earns a session. *)
Lemma honest_admitted ssk csk challenge id cid t ts key :
  (ts ≤ t + FUTURE_TOLERANCE_SECS)%N → (t ≤ ts + PAST_TOLERANCE_SECS)%N → (t + SESSION_TIMEOUT < 2 ^ 64)%N →
  derive_session_key ssk (ed_public csk) challenge = Ok key →
  admitted ssk challenge id (mkClientAuthResponse (ed_public csk) (ed_sign csk challenge) cid ts) t
    (mkSessionInfo id (ed_public csk) cid t (t + SESSION_TIMEOUT) true key).
Proof.
  unfold FUTURE_TOLERANCE_SECS, SESSION_TIMEOUT. intros Hf Hp Ht Hk.
  constructor; cbn; unfold wrapping_add64, FUTURE_TOLERANCE_SECS, SESSION_TIMEOUT.
  - rewrite N.mod_small; lia.
  - lia.
  - apply ed_public_ok.
  - apply ed_verify_sign.
  - done.
  - by rewrite N.mod_small by lia.
Qed.

(** A client that receives a challenge and a confirmation of the server it pins. *)
Lemma honest_client ce csk cid ssk t1 ts challenge key cert id exp hello chal auth conf err :
  cl_stamp_time ce = Some ts → cert_verify (cl_check_time ce) cert = Ok tt →
  sc_public_key cert = ed_public ssk → derive_session_key csk (ed_public ssk) challenge = Ok key →
  (∀ resp : ClientAuthResponse, is_ok (encoded ClientAuth resp) = true) →
  encoded ClientHello client_hello_text = Ok hello →
  encoded ServerChallenge (mkAuthChallenge challenge cert t1) = Ok chal →
  (N.of_nat (length chal) ≤ MAX_MESSAGE)%N →
  encoded ClientAuth (mkClientAuthResponse (ed_public csk) (ed_sign csk challenge) cid ts) = Ok auth →
  encoded ServerConfirm (mkServerAuthConfirm id exp (ed_sign ssk (session_data id (ed_public csk) exp))) = Ok conf →
  (N.of_nat (length conf) ≤ MAX_MESSAGE)%N →
  let client := client_authenticate ce csk cid (ed_public ssk)
    (mkStream (wire_frame chal ++ wire_frame conf) [] None err) in
  client.1 = Ok (mkClientAuthResult id cert key) ∧ st_out client.2 = wire_frame hello ++ wire_frame auth.
Proof.
  intros Hts Hcv Hck Hkey Htotal Hhello (cm & Hcm & Hcs)%encoded_ok Hcl Hauth (fm & Hfm & Hfs)%encoded_ok Hfl client.
  apply message_new_ok in Hcm as [Hct Hcp], Hfm as [Hft Hfp].
  assert (next_message (wire_frame chal ++ wire_frame conf) cm (wire_frame conf)) as Hn by by apply next_message_frame.
  destruct (client_authenticate_complete ce csk cid (ed_public ssk)
    (mkStream (wire_frame chal ++ wire_frame conf) [] None err) (mkClientAuthResult id cert key) ts hello)
    as (ch & auth' & Hauth' & (m1 & rest1 & Hm1 & Hch) & Hok & Hout); [done|done|done|done| |].
  { eexists cm, (wire_frame conf), _, fm, [], _. split_and!; try done.
    - rewrite <-(app_nil_r (wire_frame conf)). by apply next_message_frame.
    - apply ed_verify_sign. }
  destruct (next_message_unique _ _ _ _ _ Hm1 Hn) as [-> _]. rewrite Hcp in Hch. apply Ok_inj in Hch as <-.
  cbn [ac_challenge] in Hauth'. rewrite Hauth in Hauth'. apply Ok_inj in Hauth' as <-. by split.
Qed.

(** ** The session table *)

(** Everything that happens to a session manager. *)
Inductive table_step : SessionManager → SessionManager → Prop :=
  | ts_authenticate now id ch resp m r m' :
      authenticate_client now id ch resp m = (r, m') → table_step m m'
  | ts_connection env c m r c' m' :
      server_authenticate env (c, m) = (r, (c', m')) → table_step m m'
  | ts_validate now now' id m r m' : validate_session now now' id m = (r, m') → table_step m m'
  | ts_remove id m : table_step m (remove_session id m)
  | ts_cleanup now m : table_step m (cleanup_expired_sessions now m).

(** Every session was earned by a signature of a challenge, and is stored under its id. *)
Record wf_manager (sk : bytes) (cert : ServerCertificate) (m : SessionManager) : Prop := {
  wm_key : server_signing_key m = sk;
  wm_cert : server_certificate m = cert;
  wm_sessions : map_Forall (λ id s, ∃ challenge resp t, admitted sk challenge id resp t s) (sessions m);
}.

Lemma wf_insert sk cert m id ch resp t s :
  wf_manager sk cert m → admitted sk ch id resp t s →
  wf_manager sk cert (set_sessions (<[id := s]> (sessions m)) m).
Proof.
  intros [Hk Hc Hs] Ha. constructor; [done|done|]. apply map_Forall_insert_2; [by eauto|done].
Qed.
Lemma wf_subset sk cert m ss :
  wf_manager sk cert m → ss ⊆ sessions m → wf_manager sk cert (set_sessions ss m).
Proof. intros [Hk Hc Hs] Hsub. constructor; [done|done|]. intros id s Hid. apply Hs. by eapply lookup_weaken. Qed.

Lemma table_step_wf sk cert m m' : table_step m m' → wf_manager sk cert m → wf_manager sk cert m'.
Proof.
  intros Hstep Hwf. destruct Hstep as [now id ch resp m r m' Hs|env c m r c' m' Hs|now now' id m r m' Hs|id m|now m].
  - destruct r as [s|e]; [|by apply authenticate_client_err in Hs as ->].
    apply authenticate_client_ok in Hs as (t & _ & Ha & ->).
    rewrite (wm_key _ _ _ Hwf) in Ha. by eapply wf_insert.
  - apply server_authenticate_table in Hs as [[-> _]|(resp & t & s & _ & Ha & -> & _)]; [done|].
    rewrite (wm_key _ _ _ Hwf) in Ha. by eapply wf_insert.
  - unfold validate_session in Hs. injection Hs as _ <-. apply wf_subset; [done|apply map_filter_subseteq].
  - apply wf_subset; [done|apply delete_subseteq].
  - apply wf_subset; [done|apply map_filter_subseteq].
Qed.

Lemma reachable_wf now identity sk m0 m :
  with_signing_key now identity sk = Ok m0 → rtc table_step m0 m →
  wf_manager sk (server_certificate m0) m.
Proof.
  intros Hn Hr. assert (wf_manager sk (server_certificate m0) m0) as Hm0.
  { unfold with_signing_key in Hn. inv_ok. constructor; [done|done|apply map_Forall_empty]. }
  revert Hm0. generalize (server_certificate m0). clear Hn. induction Hr as [|x y z Hxy Hyz IH]; intros c Hwf; [done|].
  apply IH. by eapply table_step_wf.
Qed.

Lemma validate_session_ok now now' id m s m' :
  validate_session now now' id m = (Ok s, m') ↔
  m' = cleanup_expired_sessions now m ∧ sessions m !! id = Some s ∧ si_authenticated s = true
  ∧ (now_or_default now < si_expires_at s)%N ∧ (now_or_default now' < si_expires_at s)%N.
Proof.
  unfold validate_session. split.
  - intros Hv. injection Hv as Hv <-. inv_ok. unfold is_valid in *. cbn [sessions set_sessions cleanup_expired_sessions] in *.
    rewrite andb_true_iff, N.ltb_lt in *.
    match goal with E : filter _ _ !! _ = Some _ |- _ => apply map_lookup_filter_Some in E as [? ?] end.
    naive_solver.
  - intros (-> & Hs & Hau & Hn & Hn'). f_equal. cbn [sessions set_sessions cleanup_expired_sessions].
    rewrite (proj2 (map_lookup_filter_Some _ _ _ s)) by done. cbn [ok_or mbind result_bind].
    unfold is_valid. rewrite Hau, (proj2 (N.ltb_lt _ _) Hn'). done.
Qed.

(** ** Fresh certificates *)

Lemma new_self_signed_valid t t' identity sk days c :
  new_self_signed (Some t) identity sk days = Ok c → (t + days * 24 * 3600 < 2 ^ 64)%N →
  (t ≤ t' ≤ t + days * 24 * 3600)%N →
  cert_verify (Some t') c = Ok tt ∧ sc_public_key c = ed_public sk.
Proof.
  unfold new_self_signed. cbn [now_secs ok_or mbind result_bind]. intros <-%Ok_inj Hmax [Hlo Hhi].
  split; [|done]. unfold cert_verify.
  cbn [now_secs ok_or mbind result_bind sc_valid_from sc_valid_until sc_public_key sc_identity sc_signature].
  assert (wrapping_add64 t (as_u64 (days * 24 * 3600)) = t + days * 24 * 3600)%N as ->.
  { unfold wrapping_add64, as_u64. rewrite (N.mod_small (days * 24 * 3600)) by lia. by apply N.mod_small. }
  rewrite (proj2 (N.ltb_ge _ _) Hlo), (proj2 (N.ltb_ge _ _) Hhi). cbn [orb negb ensure mbind result_bind].
  by rewrite ed_public_ok, ed_verify_sign.
Qed.
End Auth.

(** ** Certificate files

    crates/core/src/auth.rs: the client certificate and reading and writing certificates as
    JSON files. *)

(** [signing_key] is not serialised; [created_at] is a [SystemTime]. *)
Record ClientCertificate := mkClientCertificate {
  cc_identity : bytes;
  cc_public_key : bytes; (* [u8; 32] *)
  cc_signing_key : option bytes;
  cc_created_at : Z;
}.

(** [serde_json::to_string_pretty] and [from_str]; for a client certificate of the three
    fields that are serialised. *)
Class CertJson := {
  client_cert_to_json (identity public_key : bytes) (created_at : Z) : result bytes bytes;
  server_cert_to_json : ServerCertificate → result bytes bytes;
  server_cert_from_str : bytes → result bytes ServerCertificate;
}.

Section AuthFiles.
Context `{Hex} `{Ed25519} `{CertJson}.

Definition client_generate (identity seed : bytes) (now : Z) : result bytes ClientCertificate :=
  Ok (mkClientCertificate identity (ed_public seed) (Some seed) now).

Definition client_signing_key (c : ClientCertificate) : result bytes bytes :=
  ok_or (cc_signing_key c) (lit "Signing key not available in certificate").

(** [fs::read_to_string] refuses what is not UTF-8. *)
Definition load_server_cert (now : option N) (p : path) (s : fs) : result bytes ServerCertificate :=
  let failed := lit "Failed to read server certificate from " ++ path_display p in
  cert_data ← map_err (λ _, failed) (read_file p s);
  ensure (utf8_valid cert_data) failed ≫= λ _,
  cert ← in_context "Failed to parse server certificate JSON" (server_cert_from_str cert_data);
  cert_verify now cert ≫= λ _,
  Ok cert.

Definition save_client_cert (c : ClientCertificate) (p : path) : io bytes unit :=
  cert_json ← io_lift (in_context "Failed to serialize client certificate"
    (client_cert_to_json (cc_identity c) (cc_public_key c) (cc_created_at c)));
  io_map_err (λ _, lit "Failed to write client certificate to " ++ path_display p)
    (create_write p cert_json).

Definition save_server_cert (c : ServerCertificate) (p : path) : io bytes unit :=
  cert_json ← io_lift (in_context "Failed to serialize server certificate" (server_cert_to_json c));
  io_map_err (λ _, lit "Failed to write server certificate to " ++ path_display p)
    (create_write p cert_json).
End AuthFiles.

Section Lemmas.
Context `{Hex} `{Ed25519Laws} `{CertJson}.
Hypothesis server_cert_reads_back : ∀ c j,
  server_cert_to_json c = Ok j → server_cert_from_str j = Ok c ∧ utf8_valid j = true.

(** An exported certificate loads, to be pinned, through its validity period. *)
Lemma save_load_server_cert (t0 t : N) (identity sk : bytes) (days : N) (c : ServerCertificate)
    (p : path) (s s' : fs) :
  new_self_signed (Some t0) identity sk days = Ok c → (t0 + days * 24 * 3600 < 2 ^ 64)%N →
  (t0 ≤ t ≤ t0 + days * 24 * 3600)%N → save_server_cert c p s = (Ok tt, s') →
  load_server_cert (Some t) p s' = Ok c.
Proof.
  intros Hc Hmax Ht Hs. destruct (new_self_signed_valid _ _ _ _ _ _ Hc Hmax Ht) as [Hv _].
  unfold save_server_cert in Hs. apply io_bind_ok in Hs as (j & s1 & [Hj%in_context_ok ->]%io_lift_ok & Hs).
  apply io_map_err_ok, create_write_inv in Hs as (-> & _ & Ha).
  destruct (server_cert_reads_back _ _ Hj) as [Hj1 Hj2]. unfold load_server_cert.
  rewrite (read_file_ok p _ j).
  - cbn [map_err mbind result_bind]. rewrite Hj2. cbn [ensure mbind result_bind]. rewrite Hj1.
    cbn [in_context map_err mbind result_bind]. by rewrite Hv.
  - rewrite (ancestor_error_ext p s); [done|]. intros q Hq%ancestors_shorter.
    apply lookup_insert_ne. intros ->. lia.
  - apply lookup_insert_eq.
Qed.
End Lemmas.
