(* ===== verification/Transport.v ===== *)
(** * Network transports

    crates/core/src/transport/mod.rs, tcp.rs and quic.rs: the framed TCP transport with its
    counters and limits, and the QUIC transport with its own framing and certificate check.
    The length-delimited codec, the receive stream of quinn, sockets and clocks are parameters
    or arguments.  Instants and durations are nanoseconds. *)

From S2P Require Import Prelude External FileSystem Format Envelope Auth.

(** ** tokio_util: a stream of frames

    [frame_put max] and [frame_get max] are [LengthDelimitedCodec] with [max_frame_length max]
    and the other settings at their defaults: a length of four bytes, big endian. *)

Inductive framed_got := Frame (b rest : bytes) | NeedMore | BadFrame (e : bytes).

Class FrameCodec := {
  frame_put : N → bytes → result bytes bytes;
  frame_get : N → bytes → framed_got;
}.
Class FrameCodecLaws `{FrameCodec} : Prop := {
  frame_put_fits max b : (len_N b ≤ max)%N → (max ≤ u32_max)%N →
    frame_put max b = Ok (be_bytes 4 (len_N b) ++ b);
  frame_put_long max b : (max < len_N b)%N → ∃ e, frame_put max b = Err e;
  frame_get_fits max b rest : (len_N b ≤ max)%N → (max ≤ u32_max)%N →
    frame_get max (be_bytes 4 (len_N b) ++ b ++ rest) = Frame b rest;
  frame_get_inv max r b rest : (max ≤ u32_max)%N → frame_get max r = Frame b rest →
    (len_N b ≤ max)%N ∧ r = be_bytes 4 (len_N b) ++ b ++ rest;
  frame_get_empty max : frame_get max [] = NeedMore;
}.

(** What follows the bytes that arrived: the peer closed the stream, or nothing came until the
    read timed out. *)
Inductive EndOfInput := Closed | Silent.

(** [timeout(.., framed.next()).await] *)
Inductive framed_read := FrameRead (b : bytes) | ReadFailed (e : bytes) | StreamEnded | TimedOut.

Definition set_in (b : bytes) (s : stream) : stream := mkStream b (st_out s) (st_room s) (st_error s).

Definition framed_next `{FrameCodec} (max : N) (fin : EndOfInput) (s : stream) : framed_read * stream :=
  match frame_get max (st_in s) with
  | Frame b rest => (FrameRead b, set_in rest s)
  | BadFrame e => (ReadFailed e, s)
  | NeedMore =>
      match fin with
      | Silent => (TimedOut, s)
      | Closed => if is_empty (st_in s) then (StreamEnded, s)
                  else (ReadFailed (lit "bytes remaining on stream"), set_in [] s)
      end
  end.

(** [framed.send(b).await] *)
Definition framed_send `{FrameCodec} (max : N) (b : bytes) (s : stream) : result bytes unit * stream :=
  match frame_put max b with
  | Err e => (Err e, s)
  | Ok f => stream_write f s
  end.

(** ** Configuration *)

Record TransportConfig := mkTransportConfig {
  connect_timeout_ms : N; (* u64 *)
  read_timeout_ms : N; (* u64 *)
  max_message_size : N; (* usize *)
  keep_alive_ms : N; (* u64 *)
  max_connection_bytes : N; (* u64 *)
  max_connection_chunks : N; (* u64 *)
  connection_idle_timeout_ms : N; (* u64 *)
}.
Definition config_default : TransportConfig :=
  mkTransportConfig 10000 30000 (16 * 1024 * 1024) 0 (1024 * 1024 * 1024) 10000 300000.

(** A failure with the values of its message. *)
Inductive net_error :=
  | NetText (text : bytes)
  | ByteLimit (total max : N)
  | ChunkLimit (total max : N)
  | IdleTimeout (idle max : N)
  | MessageTooLarge (len max : N)
  | ReadTimeout.
Definition net_text (s : string) : net_error := NetText (lit s).

(** What a call returns and the transport after it. *)
Definition after {T A} (r : result net_error A) (t : T) : result net_error A * T := (r, t).

(** ** The TCP transport *)

Record TcpTransport := mkTcpTransport {
  tcp_config : TransportConfig;
  tcp_framed : option stream;
  tcp_bytes_received : N; (* u64 *)
  tcp_bytes_sent : N; (* u64 *)
  tcp_chunks_received : N; (* u64 *)
  tcp_chunks_sent : N; (* u64 *)
  tcp_last_activity : N; (* Instant *)
}.
Definition set_framed (f : option stream) (t : TcpTransport) : TcpTransport :=
  mkTcpTransport (tcp_config t) f (tcp_bytes_received t) (tcp_bytes_sent t)
    (tcp_chunks_received t) (tcp_chunks_sent t) (tcp_last_activity t).
Definition set_last_activity (now : N) (t : TcpTransport) : TcpTransport :=
  mkTcpTransport (tcp_config t) (tcp_framed t) (tcp_bytes_received t) (tcp_bytes_sent t)
    (tcp_chunks_received t) (tcp_chunks_sent t) now.

Definition tcp_new (config : TransportConfig) (now : N) : TcpTransport :=
  mkTcpTransport config None 0 0 0 0 now.

(** [now] is the time at which [elapsed] is read. *)
Definition check_connection_limits (now : N) (t : TcpTransport) : result net_error unit :=
  let c := tcp_config t in
  let total_bytes := wrapping_add64 (tcp_bytes_received t) (tcp_bytes_sent t) in
  ensure (negb ((0 <? max_connection_bytes c) && (max_connection_bytes c <? total_bytes)))%N
    (ByteLimit total_bytes (max_connection_bytes c)) ≫= λ _,
  let total_chunks := wrapping_add64 (tcp_chunks_received t) (tcp_chunks_sent t) in
  ensure (negb ((0 <? max_connection_chunks c) && (max_connection_chunks c <? total_chunks)))%N
    (ChunkLimit total_chunks (max_connection_chunks c)) ≫= λ _,
  let idle := (now - tcp_last_activity t)%N in
  let idle_timeout := (connection_idle_timeout_ms c * 1000000)%N in
  ensure (negb ((0 <? connection_idle_timeout_ms c) && (idle_timeout <? idle)))%N
    (IdleTimeout idle idle_timeout).

(** [now'] is when [elapsed] is read after the update. *)
Definition update_activity (now now' : N) (t : TcpTransport) : result net_error unit * TcpTransport :=
  let t := set_last_activity now t in after (check_connection_limits now' t) t.

(** What the system makes of a connection attempt; [None]: it times out. *)
Definition tcp_connect (attempt : option (result unit stream)) (nodelay_ok : bool) (now now' : N)
    (t : TcpTransport) : result net_error unit * TcpTransport :=
  match attempt with
  | None => after (Err (net_text "Connection timeout")) t
  | Some (Err _) => after (Err (net_text "Failed to connect to server")) t
  | Some (Ok s) =>
      if nodelay_ok then update_activity now now' (set_framed (Some s) t)
      else after (Err (net_text "Failed to set TCP_NODELAY")) t
  end.

Definition tcp_count_sent (len : N) (t : TcpTransport) : TcpTransport :=
  mkTcpTransport (tcp_config t) (tcp_framed t) (tcp_bytes_received t)
    (wrapping_add64 (tcp_bytes_sent t) len) (tcp_chunks_received t)
    (wrapping_add64 (tcp_chunks_sent t) 1) (tcp_last_activity t).
Definition tcp_count_received (len : N) (t : TcpTransport) : TcpTransport :=
  mkTcpTransport (tcp_config t) (tcp_framed t) (wrapping_add64 (tcp_bytes_received t) len)
    (tcp_bytes_sent t) (wrapping_add64 (tcp_chunks_received t) 1) (tcp_chunks_sent t)
    (tcp_last_activity t).

Section Tcp.
Context `{FrameCodec} `{Bincode NetworkChunk}.

(** [now]: when the limits are checked first; [now1], [now2]: the update at the end. *)
Definition tcp_send_chunk (chunk : NetworkChunk) (now now1 now2 : N) (t : TcpTransport)
    : result net_error unit * TcpTransport :=
  match
    check_connection_limits now t ≫= λ _,
    s ← ok_or (tcp_framed t) (net_text "Transport not connected");
    serialized ← map_err (λ _, net_text "Failed to serialize NetworkChunk") (serialize chunk);
    ensure (len_N serialized <=? max_message_size (tcp_config t))%N
      (MessageTooLarge (len_N serialized) (max_message_size (tcp_config t))) ≫= λ _,
    Ok (s, serialized)
  with
  | Err e => after (Err e) t
  | Ok (s, serialized) =>
      match framed_send (max_message_size (tcp_config t)) serialized s with
      | (Err _, s') => after (Err (net_text "Failed to send chunk")) (set_framed (Some s') t)
      | (Ok _, s') =>
          update_activity now1 now2 (tcp_count_sent (len_N serialized) (set_framed (Some s') t))
      end
  end.

Definition tcp_receive_chunk (fin : EndOfInput) (now now1 now2 : N) (t : TcpTransport)
    : result net_error NetworkChunk * TcpTransport :=
  match check_connection_limits now t ≫= λ _,
        ok_or (tcp_framed t) (net_text "Transport not connected") with
  | Err e => after (Err e) t
  | Ok s =>
      let '(got, s') := framed_next (max_message_size (tcp_config t)) fin s in
      let t := set_framed (Some s') t in
      match got with
      | TimedOut => after (Err (net_text "Read timeout while receiving chunk")) t
      | StreamEnded => after (Err (net_text "Connection closed by peer")) t
      | ReadFailed _ => after (Err (net_text "Failed to receive frame")) t
      | FrameRead frame =>
          match deserialize (A:=NetworkChunk) frame with
          | Err _ => after (Err (net_text "Failed to deserialize NetworkChunk")) t
          | Ok chunk =>
              let '(r, t') := update_activity now1 now2 (tcp_count_received (len_N frame) t) in
              after ((λ _, chunk) <$> r) t'
          end
      end
  end.
End Tcp.

(** [shutdown_ok]: whether the system shuts the stream down. *)
Definition tcp_close (shutdown_ok : bool) (t : TcpTransport) : result net_error unit * TcpTransport :=
  match tcp_framed t with
  | None => after (Ok tt) t
  | Some _ =>
      after (ensure shutdown_ok (net_text "Failed to shutdown TCP stream")) (set_framed None t)
  end.

(** ** The QUIC transport

    [read_chunk(max, ordered)] of quinn's receive stream; [None] at the end of the stream. *)

Class Quinn := {
  quic_recv : Type;
  quic_read_chunk : N → bool → quic_recv → result bytes (option bytes) * quic_recv;
  quic_unordered : quic_recv → bool; (* out-of-order reading has been switched on *)
}.
(** "Attempted an ordered read following an unordered read" *)
Class QuinnLaws `{Quinn} : Prop := {
  quic_read_unordered n r x r' :
    quic_read_chunk n false r = (Ok x, r') → quic_unordered r' = true;
  quic_illegal_ordered_read n r : quic_unordered r = true → ∃ e r', quic_read_chunk n true r = (Err e, r');
}.

Section Quic.
Context `{Quinn} `{Bincode NetworkChunk}.

Record QuicTransport := mkQuicTransport {
  quic_config : TransportConfig;
  quic_endpoint : bool;
  quic_connection : bool;
  quic_send_stream : option stream;
  quic_recv_stream : option quic_recv;
}.
Definition set_send (s : stream) (t : QuicTransport) : QuicTransport :=
  mkQuicTransport (quic_config t) (quic_endpoint t) (quic_connection t) (Some s) (quic_recv_stream t).
Definition set_recv (r : quic_recv) (t : QuicTransport) : QuicTransport :=
  mkQuicTransport (quic_config t) (quic_endpoint t) (quic_connection t) (quic_send_stream t) (Some r).

Definition quic_new (config : TransportConfig) : result net_error QuicTransport :=
  Ok (mkQuicTransport config false false None None).

(** [connection.open_bi()] *)
Definition setup_streams (opened : option (stream * quic_recv)) (t : QuicTransport)
    : result net_error unit * QuicTransport :=
  if quic_connection t then
    match opened with
    | None => after (Err (net_text "Failed to open bidirectional stream")) t
    | Some (s, r) =>
        after (Ok tt) (mkQuicTransport (quic_config t) (quic_endpoint t) true (Some s) (Some r))
    end
  else after (Err (net_text "No QUIC connection available")) t.

(** ** Certificates of QUIC servers *)

Record HardwareBackedVerifier := mkHardwareBackedVerifier {
  hv_trusted_certificates : list bytes;
  hv_validate_attestation : bool;
}.
Definition verifier_new (trusted : list bytes) : HardwareBackedVerifier :=
  mkHardwareBackedVerifier trusted true.
Definition accept_any_hardware : HardwareBackedVerifier := mkHardwareBackedVerifier [] false.

Definition validate_hardware_certificate (v : HardwareBackedVerifier) (cert_der : bytes) : bool :=
  if negb (bool_decide (hv_trusted_certificates v = [])) then
    existsb (λ t, bool_decide (t = cert_der)) (hv_trusted_certificates v)
  else if negb (hv_validate_attestation v) then true
  else true.

Definition verify_server_cert (v : HardwareBackedVerifier) (end_entity : bytes) : result bytes unit :=
  ensure (validate_hardware_certificate v end_entity) (lit "NotValidForName").

(** The verifier of the endpoint; [insecure_tls] is the cargo feature. *)
Definition create_hardware_verified_endpoint (insecure_tls : bool) (trusted : list bytes)
    : result net_error HardwareBackedVerifier :=
  if insecure_tls then
    Ok (if bool_decide (trusted = []) then accept_any_hardware else verifier_new trusted)
  else
    ensure (negb (bool_decide (trusted = [])))
      (net_text "trusted_certificates must not be empty in secure builds") ≫= λ _,
    Ok (verifier_new trusted).

(** What becomes of [endpoint.connect(..)?] and of waiting for it: it cannot start, it times out,
    or the peers agree but for the check of the certificate. *)
Inductive quic_attempt := NotStarted (e : bytes) | HandshakeTimeout | Handshake (established : bool).

(** The connection is kept before its streams are opened. *)
Definition quic_connected (opened : option (stream * quic_recv)) (t : QuicTransport)
    : result net_error unit * QuicTransport :=
  let '(r, t') := setup_streams opened (mkQuicTransport (quic_config t) true true
    (quic_send_stream t) (quic_recv_stream t)) in
  after (map_err (λ _, net_text "Failed to setup QUIC streams") r) t'.

(** The connection against the public roots: the check of the certificate is rustls' own. *)
Definition quic_connect (endpoint_ok : bool) (attempt : quic_attempt)
    (opened : option (stream * quic_recv)) (t : QuicTransport) : result net_error unit * QuicTransport :=
  if endpoint_ok then
    match attempt with
    | NotStarted e => after (Err (NetText e)) t
    | HandshakeTimeout => after (Err (net_text "QUIC connection timeout")) t
    | Handshake true => quic_connected opened t
    | Handshake false => after (Err (net_text "Failed to establish QUIC connection")) t
    end
  else after (Err (net_text "Failed to create QUIC client endpoint")) t.

Definition connect_with_hardware_verification (insecure_tls : bool) (trusted : list bytes)
    (server_cert : bytes) (attempt : quic_attempt) (opened : option (stream * quic_recv))
    (t : QuicTransport) : result net_error unit * QuicTransport :=
  match create_hardware_verified_endpoint insecure_tls trusted with
  | Err _ => after (Err (net_text "Failed to create hardware-verified QUIC endpoint")) t
  | Ok v =>
      match attempt with
      | NotStarted e => after (Err (NetText e)) t
      | HandshakeTimeout => after (Err (net_text "QUIC connection timeout")) t
      | Handshake established =>
          if established && is_ok (verify_server_cert v server_cert) then quic_connected opened t
          else after (Err (net_text "Failed to establish hardware-verified QUIC connection")) t
      end
  end.

Definition quic_send_chunk (chunk : NetworkChunk) (flush_ok : bool) (t : QuicTransport)
    : result net_error unit * QuicTransport :=
  match
    s ← ok_or (quic_send_stream t) (net_text "No QUIC send stream available");
    serialized ← map_err (λ _, net_text "Failed to serialize NetworkChunk") (serialize chunk);
    ensure (len_N serialized <=? max_message_size (quic_config t))%N
      (MessageTooLarge (len_N serialized) (max_message_size (quic_config t))) ≫= λ _,
    Ok (s, serialized)
  with
  | Err e => after (Err e) t
  | Ok (s, serialized) =>
      match stream_write (be_bytes 4 (as_u32 (len_N serialized))) s with
      | (Err _, s') => after (Err (net_text "Failed to write message length")) (set_send s' t)
      | (Ok _, s') =>
          match stream_write serialized s' with
          | (Err _, s'') => after (Err (net_text "Failed to write chunk data")) (set_send s'' t)
          | (Ok _, s'') =>
              after (ensure flush_ok (net_text "Failed to flush QUIC stream")) (set_send s'' t)
          end
      end
  end.

(** A read that returns all [n] bytes or fails; the texts are those of the two failures of the
    read and of a short read. *)
Definition quic_read (n : N) (ordered : bool) (failed ended short : string) (r : quic_recv)
    : result net_error bytes * quic_recv :=
  match quic_read_chunk n ordered r with
  | (Err _, r') => after (Err (net_text failed)) r'
  | (Ok None, r') => after (Err (net_text ended)) r'
  | (Ok (Some b), r') => after (ensure (len_N b =? n)%N (net_text short) ≫= λ _, Ok b) r'
  end.

Definition quic_receive_chunk (t : QuicTransport) : result net_error NetworkChunk * QuicTransport :=
  match quic_recv_stream t with
  | None => after (Err (net_text "No QUIC receive stream available")) t
  | Some r =>
      match quic_read 4 false "Read timeout while reading message length"
              "Failed to read message length" "Failed to read complete message length" r with
      | (Err e, r) => after (Err e) (set_recv r t)
      | (Ok len_bytes, r) =>
          let len := of_be_bytes len_bytes in
          if (max_message_size (quic_config t) <? len)%N then
            after (Err (MessageTooLarge len (max_message_size (quic_config t)))) (set_recv r t)
          else
            match quic_read len true "Read timeout while reading message data"
                    "Failed to read message data" "Failed to read complete message data" r with
            | (Err e, r) => after (Err e) (set_recv r t)
            | (Ok message_bytes, r) =>
                after (map_err (λ _, net_text "Failed to deserialize NetworkChunk")
                  (deserialize (A:=NetworkChunk) message_bytes)) (set_recv r t)
            end
      end
  end.

Definition quic_close (t : QuicTransport) : result net_error unit * QuicTransport :=
  after (Ok tt) (mkQuicTransport (quic_config t) false false None None).
End Quic.
