(* ===== verification/Server.v ===== *)
(** * The network server

    crates/core/src/bin/sealedge-server.rs: one connection, from the optional handshake over the
    loop that reads frames to the acknowledgements.  The clock, randomness and the peer are
    arguments; several connections share nothing but the file system. *)

From S2P Require Import Prelude External FileSystem Format Envelope Auth Transport.

(** [blake3::keyed_hash] *)
Class Blake3Keyed := blake3_keyed : bytes → bytes → bytes.

(** [{:?}] of a path *)
Class PathDebug := path_debug : path → bytes.

Definition MAX_FRAME : N := 16 * 1024 * 1024.

(** [last_activity] is read through its [elapsed], an argument of the loop; [output_file] is the
    path of the file that was created. *)
Record ProcessingSession := mkProcessingSession {
  ps_connection_id : N; (* u64 *)
  ps_output_file : option path;
  ps_expected_seq_next : N; (* u64 *)
  ps_stream_nonce_prefix : option bytes; (* [u8; 4] *)
  ps_header_verified : bool;
  ps_header_locked : bool;
  ps_authenticated : bool;
  ps_session_id : option bytes; (* [u8; 16] *)
  ps_client_identity : option bytes;
  ps_session_key : option bytes; (* [u8; 32] *)
  ps_bytes_received : N; (* u64 *)
  ps_chunks_received : N; (* u64 *)
}.

(** The session that [main] makes for an accepted connection. *)
Definition session_start (connection_id : N) (require_auth : bool) : ProcessingSession :=
  mkProcessingSession connection_id None 1 None false false (negb require_auth) None None None 0 0.

Record ConnectionConfig := mkConnectionConfig {
  cn_output_dir : option path;
  cn_decrypt : bool;
  cn_require_auth : bool;
  cn_session_manager : option SessionManager;
  cn_max_connection_bytes : N; (* u64 *)
  cn_max_connection_chunks : N; (* u64 *)
  cn_connection_timeout : N; (* nanoseconds *)
  cn_secure_acks : bool;
}.

(** ** One chunk *)

Definition lock_header (prefix : bytes) (s : ProcessingSession) : ProcessingSession :=
  mkProcessingSession (ps_connection_id s) (ps_output_file s) (ps_expected_seq_next s) (Some prefix)
    true true (ps_authenticated s) (ps_session_id s) (ps_client_identity s) (ps_session_key s)
    (ps_bytes_received s) (ps_chunks_received s).
Definition next_seq (s : ProcessingSession) : ProcessingSession :=
  mkProcessingSession (ps_connection_id s) (ps_output_file s)
    (wrapping_add64 (ps_expected_seq_next s) 1) (ps_stream_nonce_prefix s) (ps_header_verified s)
    (ps_header_locked s) (ps_authenticated s) (ps_session_id s) (ps_client_identity s)
    (ps_session_key s) (ps_bytes_received s) (ps_chunks_received s).
Definition count_frame (len : N) (s : ProcessingSession) : ProcessingSession :=
  mkProcessingSession (ps_connection_id s) (ps_output_file s) (ps_expected_seq_next s)
    (ps_stream_nonce_prefix s) (ps_header_verified s) (ps_header_locked s) (ps_authenticated s)
    (ps_session_id s) (ps_client_identity s) (ps_session_key s)
    (wrapping_add64 (ps_bytes_received s) len) (wrapping_add64 (ps_chunks_received s) 1).

Definition ack_text (seq : N) : bytes := lit "ACK " ++ fmt_N seq.

(** The check of the nonce prefix against the locked header, which the first chunk locks. *)
Definition check_header (prefix : bytes) (s : ProcessingSession) : result bytes ProcessingSession :=
  if negb (ps_header_locked s) then
    Ok (if negb (ps_header_verified s) then lock_header prefix s else s)
  else
    match ps_stream_nonce_prefix s with
    | Some expected_prefix =>
        ensure (bool_decide (prefix = expected_prefix))
          (lit "Nonce prefix mismatch - stream header locked, renegotiation rejected") ≫= λ _, Ok s
    | None => Ok s
    end.

Definition process_chunk_hardened (s : ProcessingSession) (chunk : NetworkChunk)
    : result bytes bytes * ProcessingSession :=
  match check_header (take 4 (nc_nonce chunk)) s with
  | Err e => (Err e, s)
  | Ok s =>
      if (nc_sequence chunk =? ps_expected_seq_next s)%N then
        (Ok (ack_text (nc_sequence chunk)), next_seq s)
      else
        (Err (lit "Sequence mismatch: got " ++ fmt_N (nc_sequence chunk) ++ lit ", expected "
              ++ fmt_N (ps_expected_seq_next s)), s)
  end.

Section Server.
Context `{FrameCodec} `{Bincode NetworkChunk} `{Blake3Keyed} `{Hex}.

Definition create_secure_ack (s : ProcessingSession) (ack_msg : bytes) : bytes :=
  match ps_session_id s with
  | Some session_id =>
      let mac_input := hex_encode session_id ++ lit ":" ++ ack_msg in
      let mac := blake3_keyed (session_id ++ session_id) mac_input in
      ack_msg ++ lit ":MAC:" ++ hex_encode (take 8 mac)
  | None => ack_msg
  end.

(** ** The loop *)

Definition check_limits (config : ConnectionConfig) (elapsed : N) (s : ProcessingSession)
    : result net_error unit :=
  ensure (negb ((0 <? cn_max_connection_bytes config)
                && (cn_max_connection_bytes config <? ps_bytes_received s)))%N
    (ByteLimit (ps_bytes_received s) (cn_max_connection_bytes config)) ≫= λ _,
  ensure (negb ((0 <? cn_max_connection_chunks config)
                && (cn_max_connection_chunks config <? ps_chunks_received s)))%N
    (ChunkLimit (ps_chunks_received s) (cn_max_connection_chunks config)) ≫= λ _,
  ensure (negb (cn_connection_timeout config <? elapsed))%N
    (IdleTimeout elapsed (cn_connection_timeout config)).

(** How a round ends the loop, if it does. *)
Inductive round_end := Continue | Finish | Bail (e : net_error).

(** A frame was read: count it, and answer the chunk in it. *)
Definition handle_frame (config : ConnectionConfig) (frame : bytes) (s : ProcessingSession) (c : stream)
    : round_end * ProcessingSession * stream :=
  let s := count_frame (len_N frame) s in
  match deserialize (A:=NetworkChunk) frame with
  | Err _ => (Continue, s, c)
  | Ok chunk =>
      match process_chunk_hardened s chunk with
      | (Ok ack_msg, s) =>
          let ack_response := if cn_secure_acks config then create_secure_ack s ack_msg else ack_msg in
          match framed_send MAX_FRAME ack_response c with
          | (Ok _, c) => (Continue, s, c)
          | (Err _, c) => (Finish, s, c)
          end
      | (Err e, s) =>
          let '(_, c) := framed_send MAX_FRAME (lit "ERROR: " ++ e) c in (Finish, s, c)
      end
  end.

Definition serve_round (config : ConnectionConfig) (elapsed : N) (fin : EndOfInput)
    (s : ProcessingSession) (c : stream) : round_end * ProcessingSession * stream :=
  match check_limits config elapsed s with
  | Err e => (Bail e, s, c)
  | Ok _ =>
      match framed_next MAX_FRAME fin c with
      | (FrameRead frame, c) => handle_frame config frame s c
      | (ReadFailed e, c) => (Bail (NetText (lit "Frame decode error: " ++ e)), s, c)
      | (StreamEnded, c) => (Finish, s, c)
      | (TimedOut, c) => (Bail ReadTimeout, s, c)
      end
  end.

(** [elapsed k] is [last_activity.elapsed()] at the start of round [k]; [None] as a result: out
    of fuel. *)
Fixpoint serve_loop (config : ConnectionConfig) (elapsed : nat → N) (fin : EndOfInput) (fuel k : nat)
    (s : ProcessingSession) (c : stream)
    : option (result net_error unit) * ProcessingSession * stream :=
  match fuel with
  | O => (None, s, c)
  | S f =>
      match serve_round config (elapsed k) fin s c with
      | (Continue, s, c) => serve_loop config elapsed fin f (S k) s c
      | (Finish, s, c) => (Some (Ok tt), s, c)
      | (Bail e, s, c) => (Some (Err e), s, c)
      end
  end.

(** Every round but the last takes a frame, of four bytes at least, from the input. *)
Definition serve_fuel (c : stream) : nat := S (length (st_in c)).

(** ** The connection *)

Context `{PathDebug} `{Blake3Kdf} `{Ed25519} `{KeyAgreement} `{!Bincode AuthMessage} `{!Bincode AuthChallenge}
  `{!Bincode ClientAuthResponse} `{!Bincode ServerAuthConfirm} `{!Bincode (list ascii)}.

Definition admit_session (a : SessionInfo) (s : ProcessingSession) : ProcessingSession :=
  mkProcessingSession (ps_connection_id s) (ps_output_file s) (ps_expected_seq_next s)
    (ps_stream_nonce_prefix s) (ps_header_verified s) (ps_header_locked s) true
    (Some (si_session_id a)) (si_client_identity a) (Some (si_session_key a))
    (ps_bytes_received s) (ps_chunks_received s).

(** The handshake, when it is required, on a copy of the session manager. *)
Definition authenticate_connection (config : ConnectionConfig) (env : ServerEnv)
    (s : ProcessingSession) (c : stream) : result net_error ProcessingSession * stream :=
  if cn_require_auth config then
    match cn_session_manager config with
    | None =>
        (Err (net_text "Authentication required but no session manager available"), c)
    | Some mgr =>
        match server_authenticate env (c, mgr) with
        | (Ok a, (c, _)) => (Ok (admit_session a s), c)
        | (Err _, (c, _)) => (Err (net_text "Authentication failed"), c)
        end
    end
  else (Ok s, c).

Definition output_name (connection_id : N) : bytes :=
  lit "conn" ++ fmt_N connection_id ++ lit "_decrypted.bin".

(** With [--decrypt] and an output directory, an empty file is created for the connection. *)
Definition create_output (config : ConnectionConfig) (s : ProcessingSession) (files : fs)
    : result net_error ProcessingSession * fs :=
  match cn_decrypt config, cn_output_dir config with
  | true, Some dir =>
      let filepath := dir ++ [output_name (ps_connection_id s)] in
      match create_write filepath [] files with
      | (Ok _, files) =>
          (Ok (mkProcessingSession (ps_connection_id s) (Some filepath) (ps_expected_seq_next s)
             (ps_stream_nonce_prefix s) (ps_header_verified s) (ps_header_locked s)
             (ps_authenticated s) (ps_session_id s) (ps_client_identity s) (ps_session_key s)
             (ps_bytes_received s) (ps_chunks_received s)), files)
      | (Err _, files) => (Err (NetText (lit "Failed to create output file: " ++ path_debug filepath)), files)
      end
  | _, _ => (Ok s, files)
  end.

Definition handle_hardened_connection (config : ConnectionConfig) (env : ServerEnv)
    (elapsed : nat → N) (fin : EndOfInput) (s : ProcessingSession) (c : stream) (files : fs)
    : result net_error unit * ProcessingSession * stream * fs :=
  match authenticate_connection config env s c with
  | (Err e, c) => (Err e, s, c, files)
  | (Ok s, c) =>
      match create_output config s files with
      | (Err e, files) => (Err e, s, c, files)
      | (Ok s, files) =>
          let '(r, s, c) := serve_loop config elapsed fin (serve_fuel c) 0 s c in
          (default (Err (net_text "out of fuel")) r, s, c, files)
      end
  end.

(** The connection as [main] sets it up: the session and a session manager with a key of its
    own, named after the server's. *)
Definition accept_connection (config : ConnectionConfig) (server_identity seed : bytes)
    (now : option N) (env : ServerEnv) (elapsed : nat → N) (fin : EndOfInput) (connection_id : N)
    (c : stream) (files : fs) : result bytes (result net_error unit * ProcessingSession * stream * fs) :=
  mgr ← (if cn_require_auth config then Some <$> manager_new now server_identity seed else Ok None);
  let config := mkConnectionConfig (cn_output_dir config) (cn_decrypt config) (cn_require_auth config)
    mgr (cn_max_connection_bytes config) (cn_max_connection_chunks config)
    (cn_connection_timeout config) (cn_secure_acks config) in
  Ok (handle_hardened_connection config env elapsed fin
        (session_start connection_id (cn_require_auth config)) c files).
End Server.

(** ** The accept loop of [main]

    The handlers run beside the loop; the steps are those of the loop, of the signal and of the
    handlers.  [co_subscribed]: the connection was accepted before the signal was sent, and its
    receiver gets it. *)

Inductive TaskStatus := TaskRunning | TaskCompleted | TaskInterrupted.
Record Connection := mkConnection {
  co_session : ProcessingSession; (* as it was when the handler was spawned *)
  co_subscribed : bool;
  co_status : TaskStatus;
}.
Inductive Phase := Accepting | Draining | Stopped.
Record ServerState := mkServerState {
  sr_connection_id : N; (* u64 *)
  sr_active_connections : list Connection;
  sr_shutdown : bool; (* the signal was sent *)
  sr_phase : Phase;
}.
Definition server_state_start : ServerState := mkServerState 0 [] false Accepting.

Definition on_accept (require_auth : bool) (st : ServerState) : ServerState :=
  let id := wrapping_add64 (sr_connection_id st) 1 in
  mkServerState id
    (sr_active_connections st ++ [mkConnection (session_start id require_auth) (negb (sr_shutdown st)) TaskRunning])
    (sr_shutdown st) (sr_phase st).
Definition task_ends (k : nat) (s : TaskStatus) (st : ServerState) : ServerState :=
  mkServerState (sr_connection_id st)
    (alter (λ c, mkConnection (co_session c) (co_subscribed c) s) k (sr_active_connections st))
    (sr_shutdown st) (sr_phase st).
Definition set_phase (p : Phase) (st : ServerState) : ServerState :=
  mkServerState (sr_connection_id st) (sr_active_connections st) (sr_shutdown st) p.
Definition send_shutdown (st : ServerState) : ServerState :=
  mkServerState (sr_connection_id st) (sr_active_connections st) true (sr_phase st).

(** [select!] takes any branch that is ready: a connection can be accepted after the signal. *)
Inductive server_step (require_auth : bool) : ServerState → ServerState → Prop :=
  | step_accept st : sr_phase st = Accepting → server_step require_auth st (on_accept require_auth st)
  | step_accept_error st : sr_phase st = Accepting → server_step require_auth st st
  | step_signal st : server_step require_auth st (send_shutdown st)
  | step_break st :
      sr_phase st = Accepting → sr_shutdown st = true → server_step require_auth st (set_phase Draining st)
  | step_complete st k c :
      sr_active_connections st !! k = Some c → co_status c = TaskRunning →
      server_step require_auth st (task_ends k TaskCompleted st)
  | step_interrupt st k c :
      sr_active_connections st !! k = Some c → co_status c = TaskRunning → co_subscribed c = true →
      sr_shutdown st = true → server_step require_auth st (task_ends k TaskInterrupted st)
  | step_exit st :
      sr_phase st = Draining → Forall (λ c, co_status c ≠ TaskRunning) (sr_active_connections st) →
      server_step require_auth st (set_phase Stopped st).

(** * Lemmas about the network server

    One round of the loop, and the whole loop against a peer that sends any bytes: which frames
    it takes, what it answers, and how far the limits of a connection hold. *)

(** ** Frames on a stream *)

Definition frame (b : bytes) : bytes := be_bytes 4 (len_N b) ++ b.
Definition frames (l : list bytes) : bytes := concat (frame <$> l).

Lemma length_frame b : length (frame b) = 4 + length b.
Proof. unfold frame. by rewrite length_app, length_be_bytes. Qed.
Lemma len_frame b : len_N (frame b) = (4 + len_N b)%N.
Proof. unfold len_N. rewrite length_frame. lia. Qed.

Lemma wrapping_add64_fits a b : (a + b < 2 ^ 64)%N → wrapping_add64 a b = (a + b)%N.
Proof. apply N.mod_small. Qed.

Lemma MAX_FRAME_u32 : (MAX_FRAME ≤ u32_max)%N.
Proof. by compute. Qed.

Section Frames.
Context `{FrameCodecLaws}.

Lemma framed_send_fits b c :
  (len_N b ≤ MAX_FRAME)%N → st_room c = None →
  framed_send MAX_FRAME b c = (Ok tt, after_write (frame b) c).
Proof.
  intros Hb Hr. unfold framed_send. rewrite frame_put_fits by (done || apply MAX_FRAME_u32).
  unfold stream_write, after_write, frame. by rewrite Hr.
Qed.

(** Whatever the size, at most one frame is after_write. *)
Lemma framed_send_any b c :
  st_room c = None →
  (framed_send MAX_FRAME b c).2 = after_write (frame b) c ∨ (framed_send MAX_FRAME b c).2 = c.
Proof.
  intros Hr. destruct (N.le_gt_cases (len_N b) MAX_FRAME).
  - left. by rewrite framed_send_fits.
  - right. unfold framed_send. destruct (frame_put_long MAX_FRAME b) as [e ->]; done.
Qed.

Lemma framed_next_frame max fin b rest c :
  (len_N b ≤ max)%N → (max ≤ u32_max)%N → st_in c = frame b ++ rest →
  framed_next max fin c = (FrameRead b, set_in rest c).
Proof.
  intros Hb Hm Hin. unfold framed_next. rewrite Hin. unfold frame. rewrite <-app_assoc.
  by rewrite frame_get_fits.
Qed.

Lemma framed_next_inv max fin b c c' :
  (max ≤ u32_max)%N → framed_next max fin c = (FrameRead b, c') →
  (len_N b ≤ max)%N ∧ ∃ rest, st_in c = frame b ++ rest ∧ c' = set_in rest c.
Proof.
  intros Hm. unfold framed_next. destruct (frame_get _ _) as [b0 rest| |e] eqn:E.
  - intros [= -> <-]. apply frame_get_inv in E as [Hb E]; [|done]. split; [done|].
    exists rest. split; [|done]. rewrite E. unfold frame. by rewrite <-app_assoc.
  - destruct fin; [case_match|]; done.
  - done.
Qed.

(** A read that gives no frame writes nothing. *)
Lemma framed_next_other max fin g c c' :
  framed_next max fin c = (g, c') → (∀ b, g ≠ FrameRead b) → st_out c' = st_out c ∧ st_room c' = st_room c.
Proof.
  unfold framed_next. intros Hn Hg. repeat case_match; simplify_eq; done.
Qed.
End Frames.

(** ** One chunk *)

(** The flags of the header follow from the locked prefix. *)
Record session_inv (s : ProcessingSession) : Prop := {
  inv_locked : ps_header_locked s = bool_decide (is_Some (ps_stream_nonce_prefix s));
  inv_verified : ps_header_verified s = bool_decide (is_Some (ps_stream_nonce_prefix s));
}.

Definition in_turn (expected : N) (prefix : option bytes) (chunk : NetworkChunk) : bool :=
  match prefix with None => true | Some p => bool_decide (take 4 (nc_nonce chunk) = p) end
  && (nc_sequence chunk =? expected)%N.

(** How many of the chunks come in turn. *)
Fixpoint taken (expected : N) (prefix : option bytes) (cs : list NetworkChunk) : nat :=
  match cs with
  | [] => 0
  | c :: cs =>
      if in_turn expected prefix c then S (taken (expected + 1) (Some (take 4 (nc_nonce c))) cs) else 0
  end.

Definition accept (chunk : NetworkChunk) (s : ProcessingSession) : ProcessingSession :=
  next_seq (match ps_stream_nonce_prefix s with
            | None => lock_header (take 4 (nc_nonce chunk)) s
            | Some _ => s
            end).

Lemma process_in_turn s chunk :
  session_inv s → in_turn (ps_expected_seq_next s) (ps_stream_nonce_prefix s) chunk = true →
  process_chunk_hardened s chunk = (Ok (ack_text (ps_expected_seq_next s)), accept chunk s).
Proof.
  intros [Hl Hv] [Hp Hq%N.eqb_eq]%andb_true_iff. unfold process_chunk_hardened, check_header, accept.
  destruct (ps_stream_nonce_prefix s) as [p|] eqn:E; cbn in Hl, Hv; rewrite Hl; cbn.
  - rewrite Hp. cbn. by rewrite Hq, N.eqb_refl.
  - rewrite Hv. cbn. by rewrite Hq, N.eqb_refl.
Qed.

(** What a refusal leaves alone. *)
Definition same_counts (s s' : ProcessingSession) : Prop :=
  ps_expected_seq_next s' = ps_expected_seq_next s ∧ ps_bytes_received s' = ps_bytes_received s
  ∧ ps_chunks_received s' = ps_chunks_received s ∧ ps_session_id s' = ps_session_id s.

Lemma process_out_of_turn s chunk :
  session_inv s → in_turn (ps_expected_seq_next s) (ps_stream_nonce_prefix s) chunk = false →
  ∃ e s', process_chunk_hardened s chunk = (Err e, s') ∧ same_counts s s'.
Proof.
  intros [Hl Hv]. unfold in_turn, process_chunk_hardened, check_header.
  destruct (ps_stream_nonce_prefix s) as [p|] eqn:E; cbn in Hl, Hv; rewrite Hl; cbn.
  - destruct (bool_decide _); cbn; [intros ->|intros _]; eexists _, s; done.
  - rewrite Hv. cbn. intros ->. by eexists _, (lock_header _ s).
Qed.

Lemma accept_inv s chunk : session_inv s → session_inv (accept chunk s).
Proof. intros [Hl Hv]. unfold accept. destruct (ps_stream_nonce_prefix s) eqn:E; constructor; cbn; by rewrite ?E. Qed.

Lemma count_frame_inv n s : session_inv s → session_inv (count_frame n s).
Proof. intros [Hl Hv]. by constructor. Qed.

Lemma accept_prefix s chunk :
  in_turn (ps_expected_seq_next s) (ps_stream_nonce_prefix s) chunk = true →
  ps_stream_nonce_prefix (accept chunk s) = Some (take 4 (nc_nonce chunk)).
Proof.
  unfold in_turn, accept. destruct (ps_stream_nonce_prefix s) as [p|] eqn:E; cbn; [|done].
  rewrite E. by intros [->%bool_decide_eq_true _]%andb_true_iff.
Qed.

Lemma accept_counts s chunk :
  ps_expected_seq_next (accept chunk s) = wrapping_add64 (ps_expected_seq_next s) 1
  ∧ ps_bytes_received (accept chunk s) = ps_bytes_received s
  ∧ ps_chunks_received (accept chunk s) = ps_chunks_received s
  ∧ ps_session_id (accept chunk s) = ps_session_id s.
Proof. unfold accept. by destruct (ps_stream_nonce_prefix s). Qed.

(** The size of an acknowledgement. *)
Lemma pretty_N_go_short k n s : (n < 10 ^ N.of_nat k)%N → String.length (pretty_N_go n s) ≤ k + String.length s.
Proof.
  revert n s. induction k as [|k IH]; intros n s Hn.
  - assert (n = 0)%N as -> by (cbn in Hn; lia). done.
  - destruct (decide (n = 0)%N) as [->|Hz]; [rewrite pretty_N_go_0; lia|].
    rewrite pretty_N_go_step by lia. etrans; [apply IH|simpl; lia].
    apply N.Div0.div_lt_upper_bound. rewrite Nat2N.inj_succ, N.pow_succ_r' in Hn. lia.
Qed.

Lemma length_lit s : length (lit s) = String.length s.
Proof. unfold lit. induction s; simpl; congruence. Qed.

Lemma length_fmt_u64 n : (n < 2 ^ 64)%N → length (fmt_N n) ≤ 20.
Proof.
  intros Hn. unfold fmt_N. rewrite length_lit. unfold pretty, pretty_N.
  case_decide; [simpl; lia|]. etrans; [apply (pretty_N_go_short 20)|simpl; lia].
  etrans; [exact Hn|]. by compute.
Qed.

(** ** The loop *)

Section Loop.
Context `{FrameCodecLaws} `{Bincode NetworkChunk} `{Blake3Keyed} `{HexLaws}.

(** The chunks in the frames that hold one. *)
Definition decoded (fs : list bytes) : list NetworkChunk :=
  omap (λ f, match deserialize (A:=NetworkChunk) f with Ok c => Some c | Err _ => None end) fs.

Definition reply (config : ConnectionConfig) (session_id : option bytes) (seq : N) : bytes :=
  let ack := ack_text seq in
  if cn_secure_acks config then
    match session_id with
    | Some id => ack ++ lit ":MAC:" ++ hex_encode (take 8 (blake3_keyed (id ++ id) (hex_encode id ++ lit ":" ++ ack)))
    | None => ack
    end
  else ack.
Definition replies (config : ConnectionConfig) (session_id : option bytes) (first : N) (n : nat) : bytes :=
  frames ((λ i, reply config session_id (first + N.of_nat i)) <$> seq 0 n).

Lemma reply_fits config id n : (n < 2 ^ 64)%N → (len_N (reply config id n) ≤ MAX_FRAME)%N.
Proof.
  intros Hn%length_fmt_u64. unfold reply, ack_text, len_N.
  assert (length (reply config id n) ≤ 100) as Hl; [|unfold reply, ack_text in Hl; unfold MAX_FRAME; lia].
  unfold reply, ack_text. assert (length (lit "ACK ") = 4) as Ha by done.
  destruct (cn_secure_acks config), id as [id|];
    rewrite ?length_app, ?length_hex_encode, ?length_take, ?Ha; [|lia..].
  assert (length (lit ":MAC:") = 5) as -> by done. lia.
Qed.

Lemma replies_S config id first n :
  replies config id first (S n) = frame (reply config id first) ++ replies config id (first + 1) n.
Proof.
  unfold replies, frames. cbn [seq fmap list_fmap concat]. rewrite N.add_0_r. f_equal.
  rewrite <-fmap_S_seq, <-!list_fmap_compose. f_equal.
  apply list_fmap_ext. intros i x _. unfold compose. do 2 f_equal. lia.
Qed.

Definition total (fs : list bytes) : N := len_N (concat fs).

(** What the loop did: it took the frames [fs], answered the chunks among them that came in turn,
    and wrote [err] for one that did not. *)
Record served (config : ConnectionConfig) (s s' : ProcessingSession) (c c' : stream)
    (fs : list bytes) (err : bytes) : Prop := {
  sv_input : ∃ rest, st_in c = frames fs ++ rest;
  sv_output : st_out c' = st_out c
    ++ replies config (ps_session_id s) (ps_expected_seq_next s)
         (taken (ps_expected_seq_next s) (ps_stream_nonce_prefix s) (decoded fs)) ++ err;
  sv_refused : let k := taken (ps_expected_seq_next s) (ps_stream_nonce_prefix s) (decoded fs) in
    k = length (decoded fs) ∧ err = []
    ∨ S k = length (decoded fs) ∧ (err = [] ∨ ∃ e, err = frame (lit "ERROR: " ++ e));
  sv_expected : ps_expected_seq_next s' = (ps_expected_seq_next s
    + N.of_nat (taken (ps_expected_seq_next s) (ps_stream_nonce_prefix s) (decoded fs)))%N;
  sv_chunks : ps_chunks_received s' = (ps_chunks_received s + N.of_nat (length fs))%N;
  sv_bytes : ps_bytes_received s' = (ps_bytes_received s + total fs)%N;
  sv_chunk_limit : (0 < cn_max_connection_chunks config)%N →
    (ps_chunks_received s' ≤ N.max (ps_chunks_received s) (cn_max_connection_chunks config + 1))%N;
  sv_byte_limit : (0 < cn_max_connection_bytes config)%N →
    (ps_bytes_received s' ≤ N.max (ps_bytes_received s) (cn_max_connection_bytes config + MAX_FRAME))%N;
}.

(** Room in the counters for what is still to come. *)
Definition counts_fit (s : ProcessingSession) (c : stream) : Prop :=
  (ps_expected_seq_next s + len_N (st_in c) < 2 ^ 64 ∧ ps_chunks_received s + len_N (st_in c) < 2 ^ 64
   ∧ ps_bytes_received s + len_N (st_in c) < 2 ^ 64)%N.

Lemma served_nothing config s c c' : st_out c' = st_out c → served config s s c c' [] [].
Proof.
  intros Ho. constructor; cbn; rewrite ?app_nil_r, ?N.add_0_r; unfold total, len_N; cbn; try lia; [by eexists|done|auto].
Qed.

(** The limits were checked before the frame was read. *)
Lemma check_limits_ok config elapsed s :
  check_limits config elapsed s = Ok tt →
  ((0 < cn_max_connection_chunks config) → ps_chunks_received s ≤ cn_max_connection_chunks config)%N
  ∧ ((0 < cn_max_connection_bytes config) → ps_bytes_received s ≤ cn_max_connection_bytes config)%N
  ∧ (elapsed ≤ cn_connection_timeout config)%N.
Proof.
  unfold check_limits. intros Hl. inv_ok.
  repeat match goal with E : negb _ = true |- _ => apply negb_true_iff in E end.
  repeat match goal with E : (_ && _)%bool = false |- _ => apply andb_false_iff in E; rewrite ?N.ltb_ge in E end.
  rewrite ?N.ltb_ge in *. lia.
Qed.

(** Taking one more frame in front of a run. *)
Lemma count_frame_counts b rest s c :
  counts_fit s c → st_in c = frame b ++ rest →
  ps_chunks_received (count_frame (len_N b) s) = (ps_chunks_received s + 1)%N
  ∧ ps_bytes_received (count_frame (len_N b) s) = (ps_bytes_received s + len_N b)%N
  ∧ counts_fit (count_frame (len_N b) s) (set_in rest c)
  ∧ (ps_expected_seq_next s + 1 + len_N rest < 2 ^ 64)%N.
Proof.
  intros (He & Hc & Hb) Hin. rewrite Hin, len_N_app, len_frame in He, Hc, Hb. cbn.
  rewrite !wrapping_add64_fits by lia. unfold counts_fit. cbn. rewrite !wrapping_add64_fits by lia. lia.
Qed.

(** The state in which one more frame [b] is read from [c]. *)
Record frame_read (config : ConnectionConfig) (s : ProcessingSession) (c : stream) (b rest : bytes) : Prop := {
  fr_in : st_in c = frame b ++ rest;
  fr_len : (len_N b ≤ MAX_FRAME)%N;
  fr_fit : counts_fit s c;
  fr_chunks : (0 < cn_max_connection_chunks config → ps_chunks_received s ≤ cn_max_connection_chunks config)%N;
  fr_bytes : (0 < cn_max_connection_bytes config → ps_bytes_received s ≤ cn_max_connection_bytes config)%N;
}.

Lemma decoded_cons_ok b chunk fs : deserialize b = Ok chunk → decoded (b :: fs) = chunk :: decoded fs.
Proof. intros Hd. unfold decoded. cbn. by rewrite Hd. Qed.
Lemma decoded_cons_err b e fs : deserialize (A:=NetworkChunk) b = Err e → decoded (b :: fs) = decoded fs.
Proof. intros Hd. unfold decoded. cbn. by rewrite Hd. Qed.

Lemma total_cons b fs : total (b :: fs) = (len_N b + total fs)%N.
Proof. unfold total. cbn. apply len_N_app. Qed.

Lemma served_skip config s s' c c' b rest e fs err :
  frame_read config s c b rest → deserialize (A:=NetworkChunk) b = Err e →
  served config (count_frame (len_N b) s) s' (set_in rest c) c' fs err →
  served config s s' c c' (b :: fs) err.
Proof.
  intros [Hin Hlen Hfit Hc Hb] Hd [[r Hr] Hout Href Hexp Hch Hby Hcl Hbl].
  destruct (count_frame_counts _ _ _ _ Hfit Hin) as (Ec & Eb & _ & _). cbn in Hr, Hout, Href, Hexp.
  rewrite Ec in Hch, Hcl. rewrite Eb in Hby, Hbl.
  constructor; rewrite ?(decoded_cons_err _ _ _ Hd), ?total_cons; cbn [length]; try done; try lia.
  exists r. rewrite Hin, Hr. unfold frames. cbn. by rewrite <-!app_assoc.
Qed.

Lemma served_take config s s' c c' b rest chunk fs err :
  frame_read config s c b rest → deserialize b = Ok chunk →
  in_turn (ps_expected_seq_next s) (ps_stream_nonce_prefix s) chunk = true →
  served config (accept chunk (count_frame (len_N b) s)) s'
    (after_write (frame (reply config (ps_session_id s) (ps_expected_seq_next s))) (set_in rest c)) c' fs err →
  served config s s' c c' (b :: fs) err.
Proof.
  intros [Hin Hlen Hfit Hc Hb] Hd Ht [[r Hr] Hout Href Hexp Hch Hby Hcl Hbl].
  destruct (count_frame_counts _ _ _ _ Hfit Hin) as (Ec & Eb & (Hf1 & _ & _) & Hf).
  destruct (accept_counts (count_frame (len_N b) s) chunk) as (Ae & Ab & Ac & Ai).
  pose proof (accept_prefix (count_frame (len_N b) s) chunk Ht) as Ap.
  cbn [count_frame ps_expected_seq_next ps_session_id] in Ae, Ai. rewrite wrapping_add64_fits in Ae by lia.
  rewrite Ae, Ap in Hexp, Href. rewrite Ae, Ap, Ai in Hout. rewrite Ac, Ec in Hch, Hcl. rewrite Ab, Eb in Hby, Hbl.
  cbn in Hr, Hout.
  constructor; rewrite ?(decoded_cons_ok _ _ _ Hd), ?total_cons; cbn [length taken]; rewrite ?Ht; try done; try lia.
  - exists r. rewrite Hin, Hr. unfold frames. cbn. by rewrite <-!app_assoc.
  - rewrite Hout, replies_S. by rewrite <-!app_assoc.
  - cbn in Href |- *. lia || (destruct Href as [[-> ->]|[<- ?]]; eauto).
Qed.

Lemma served_refuse config s s' c c' b rest chunk err :
  frame_read config s c b rest → deserialize b = Ok chunk →
  in_turn (ps_expected_seq_next s) (ps_stream_nonce_prefix s) chunk = false →
  same_counts (count_frame (len_N b) s) s' → st_out c' = st_out c ++ err →
  err = [] ∨ (∃ e, err = frame (lit "ERROR: " ++ e)) →
  served config s s' c c' [b] err.
Proof.
  intros [Hin Hlen Hfit Hc Hb] Hd Ht (Se & Sb & Sc & _) Hout Herr.
  destruct (count_frame_counts _ _ _ _ Hfit Hin) as (Ec & Eb & _ & _).
  rewrite Ec in Sc. rewrite Eb in Sb. cbn in Se.
  constructor; rewrite ?(decoded_cons_ok _ _ _ Hd), ?total_cons; cbn [length taken]; rewrite ?Ht;
    unfold total, len_N in *; cbn; try lia; try done.
  - exists rest. rewrite Hin. unfold frames. cbn. by rewrite app_nil_r.
  - by right.
Qed.

Lemma create_secure_ack_reply config s :
  (if cn_secure_acks config then create_secure_ack s (ack_text (ps_expected_seq_next s))
   else ack_text (ps_expected_seq_next s)) = reply config (ps_session_id s) (ps_expected_seq_next s).
Proof. unfold reply, create_secure_ack. by destruct (cn_secure_acks config), (ps_session_id s). Qed.

(** A frame with the next chunk is acknowledged. *)
Lemma handle_frame_take config s c b rest chunk :
  frame_read config s c b rest → session_inv s → st_room c = None → deserialize b = Ok chunk →
  in_turn (ps_expected_seq_next s) (ps_stream_nonce_prefix s) chunk = true →
  handle_frame config b s (set_in rest c)
  = (Continue, accept chunk (count_frame (len_N b) s),
     after_write (frame (reply config (ps_session_id s) (ps_expected_seq_next s))) (set_in rest c)).
Proof.
  intros [Hin Hlen Hfit _ _] Hinv Hroom Hd Ht.
  destruct (count_frame_counts _ _ _ _ Hfit Hin) as (_ & _ & _ & Hf).
  unfold handle_frame. rewrite Hd.
  rewrite (process_in_turn (count_frame (len_N b) s)) by (done || by apply count_frame_inv). cbn zeta.
  change (ps_expected_seq_next (count_frame (len_N b) s)) with (ps_expected_seq_next s).
  assert ((if cn_secure_acks config then create_secure_ack (accept chunk (count_frame (len_N b) s))
             (ack_text (ps_expected_seq_next s)) else ack_text (ps_expected_seq_next s))
          = reply config (ps_session_id s) (ps_expected_seq_next s)) as ->.
  { rewrite <-create_secure_ack_reply. unfold create_secure_ack.
    by destruct (accept_counts (count_frame (len_N b) s) chunk) as (_ & _ & _ & ->). }
  by rewrite framed_send_fits by (done || apply reply_fits; lia).
Qed.

Lemma accept_fit b chunk rest s c x :
  counts_fit s c → st_in c = frame b ++ rest →
  counts_fit (accept chunk (count_frame (len_N b) s)) (after_write x (set_in rest c)).
Proof.
  intros Hfit Hin. destruct (count_frame_counts _ _ _ _ Hfit Hin) as (_ & _ & (_ & ? & ?) & ?).
  destruct (accept_counts (count_frame (len_N b) s) chunk) as (Ae & Ab & Ac & _).
  unfold counts_fit. rewrite Ae, Ab, Ac. cbn [after_write set_in st_in] in *.
  cbn [count_frame ps_expected_seq_next]. rewrite wrapping_add64_fits by lia. lia.
Qed.

Lemma serve_loop_any config elapsed fin fuel k s c r s' c' :
  session_inv s → st_room c = None → counts_fit s c → length (st_in c) < fuel →
  serve_loop config elapsed fin fuel k s c = (r, s', c') →
  is_Some r ∧ ∃ fs err, served config s s' c c' fs err.
Proof.
  revert k s c. induction fuel as [|f IH]; intros k s c Hinv Hroom Hfit Hfuel; [lia|].
  cbn [serve_loop]. unfold serve_round.
  destruct (check_limits _ _ _) as [[]|e] eqn:Hlim; [|intros [= <- <- <-]; eauto 6 using served_nothing].
  apply check_limits_ok in Hlim as (Hlc & Hlb & _).
  destruct (framed_next _ _ _) as [g c1] eqn:Hn. destruct g as [b|e| |];
    try (apply framed_next_other in Hn as [Ho _]; [|done]; intros [= <- <- <-];
         eauto 6 using served_nothing; fail).
  apply framed_next_inv in Hn as (Hb & rest & Hin & ->); [|apply MAX_FRAME_u32].
  assert (frame_read config s c b rest) as Hfr by (by constructor).
  destruct (count_frame_counts _ _ _ _ Hfit Hin) as (_ & _ & Hfit1 & Hf1).
  assert (length rest < f) as Hfuel1.
  { rewrite Hin, length_app, length_frame in Hfuel. lia. }
  unfold handle_frame. destruct (deserialize b) as [chunk|e] eqn:Hd.
  2: { intros (Hr & fs & err & Hs)%IH; [|by apply count_frame_inv|done..]. eauto using served_skip. }
  destruct (in_turn (ps_expected_seq_next s) (ps_stream_nonce_prefix s) chunk) eqn:Ht.
  - pose proof (handle_frame_take config s c b rest chunk Hfr Hinv Hroom Hd Ht) as Hh.
    unfold handle_frame in Hh. rewrite Hd in Hh. cbn zeta in Hh. rewrite Hh.
    intros (Hr & fs & err & Hs)%IH; [eauto using served_take|by apply accept_inv, count_frame_inv|done| |done].
    eauto using accept_fit.
  - destruct (process_out_of_turn (count_frame (len_N b) s) chunk) as (e & s2 & -> & Hsc);
      [by apply count_frame_inv|done|].
    destruct (framed_send MAX_FRAME (lit "ERROR: " ++ e) (set_in rest c)) as [x c2] eqn:Hs.
    intros [= <- <- <-]. split; [done|].
    destruct (framed_send_any (lit "ERROR: " ++ e) (set_in rest c)) as [Hw|Hw]; [done|..];
      rewrite Hs in Hw; cbn in Hw; subst c2.
    + eexists [b], _. eapply served_refuse; eauto.
    + exists [b], []. eapply served_refuse; eauto. by rewrite app_nil_r.
Qed.

(** ** Chunks that all come in turn *)

Definition within_connection (config : ConnectionConfig) (s : ProcessingSession) (bs : list bytes) : Prop :=
  (0 < cn_max_connection_chunks config →
     ps_chunks_received s + N.of_nat (length bs) ≤ cn_max_connection_chunks config)%N
  ∧ (0 < cn_max_connection_bytes config → ps_bytes_received s + total bs ≤ cn_max_connection_bytes config)%N.

Lemma check_limits_within config elapsed s bs :
  within_connection config s bs → (elapsed ≤ cn_connection_timeout config)%N →
  check_limits config elapsed s = Ok tt.
Proof.
  intros [Hc Hb] He. unfold check_limits.
  assert (∀ x y : N, ((0 < x)%N → (y ≤ x)%N) → ((0 <? x) && (x <? y))%N = false) as Hx.
  { intros x y Hxy. apply andb_false_iff. rewrite !N.ltb_ge. lia. }
  rewrite !Hx by lia. rewrite (proj2 (N.ltb_ge _ _) He). done.
Qed.

Lemma serve_loop_run config elapsed fuel k s c bs cs :
  session_inv s → st_room c = None → counts_fit s c → st_in c = frames bs →
  Forall2 (λ b chunk, deserialize b = Ok chunk ∧ (len_N b ≤ MAX_FRAME)%N) bs cs →
  taken (ps_expected_seq_next s) (ps_stream_nonce_prefix s) cs = length cs →
  (∀ j, elapsed j ≤ cn_connection_timeout config)%N → within_connection config s bs → length bs < fuel →
  ∃ s', serve_loop config elapsed Closed fuel k s c
      = (Some (Ok tt), s', after_write (replies config (ps_session_id s) (ps_expected_seq_next s) (length bs))
                             (set_in [] c))
    ∧ ps_expected_seq_next s' = (ps_expected_seq_next s + N.of_nat (length bs))%N.
Proof.
  intros Hinv Hroom Hfit Hin Hbs. revert fuel k s c Hinv Hroom Hfit Hin.
  induction Hbs as [|b chunk bs cs [Hd Hlen] _ IH]; intros [|f] k s c Hinv Hroom Hfit Hin Ht He Hw Hf; try (simpl in Hf; lia).
  - cbn [serve_loop]. unfold serve_round. rewrite (check_limits_within _ _ _ _ Hw) by done.
    unfold framed_next. rewrite Hin. cbn. rewrite frame_get_empty. exists s. rewrite N.add_0_r. split; [|done].
    unfold after_write, set_in, replies. cbn. rewrite app_nil_r. destruct c; cbn in *. by subst.
  - cbn [taken length] in Ht. destruct (in_turn _ _ _) eqn:Hturn; [|done]. injection Ht as Ht.
    change (frames (b :: bs)) with (frame b ++ frames bs) in Hin.
    cbn [serve_loop]. unfold serve_round. rewrite (check_limits_within _ _ _ _ Hw) by done.
    rewrite (framed_next_frame _ _ b (frames bs)) by (done || apply MAX_FRAME_u32).
    destruct Hw as [Hwc Hwb]. cbn [length] in Hwc. rewrite total_cons in Hwb.
    assert (frame_read config s c b (frames bs)) as Hfr by (constructor; [done..|lia|lia]).
    rewrite (handle_frame_take _ _ _ _ _ _ Hfr Hinv Hroom Hd Hturn).
    destruct (count_frame_counts _ _ _ _ Hfit Hin) as (Ec & Eb & _ & Hf1).
    destruct (accept_counts (count_frame (len_N b) s) chunk) as (Ae & Ab & Ac & Ai).
    pose proof (accept_prefix (count_frame (len_N b) s) chunk Hturn) as Ap.
    cbn [count_frame ps_expected_seq_next ps_session_id] in Ae, Ai. rewrite wrapping_add64_fits in Ae by lia.
    edestruct (IH f (S k) (accept chunk (count_frame (len_N b) s))) as (s' & Hs' & Hexp); cycle -1.
    + rewrite Hs'. exists s'. rewrite Hexp, Ae, Ai. cbn [length]. rewrite replies_S. split; [|lia].
      unfold after_write, set_in. cbn. by rewrite <-app_assoc.
    + by apply accept_inv, count_frame_inv.
    + done.
    + by apply accept_fit.
    + done.
    + by rewrite Ae, Ap.
    + done.
    + unfold within_connection. rewrite Ab, Ac, Ec, Eb. lia.
    + simpl in Hf. lia.
Qed.
End Loop.
