(* ===== verification/TransportCorrect.v ===== *)
(** * Lemmas about the transports

    The counters of a TCP transport under any sequence of calls, and a sender and a receiver on
    the two ends of a stream. *)

From S2P Require Import Prelude External FileSystem Format Envelope Auth Transport Server.

(** ** Any sequence of calls *)

(** A call with the times it reads and what the system answers. *)
Inductive tcp_op :=
  | OpConnect (attempt : option (result unit stream)) (nodelay_ok : bool) (now now' : N)
  | OpSend (chunk : NetworkChunk) (now now1 now2 : N)
  | OpReceive (fin : EndOfInput) (now now1 now2 : N)
  | OpClose (shutdown_ok : bool).

Definition tcp_total_bytes (t : TcpTransport) : N := (tcp_bytes_received t + tcp_bytes_sent t)%N.
Definition tcp_total_chunks (t : TcpTransport) : N := (tcp_chunks_received t + tcp_chunks_sent t)%N.

(** What the limits guarantee: they are overrun by one message at most. *)
Record tcp_bounded (t : TcpTransport) : Prop := {
  tb_bytes : (0 < max_connection_bytes (tcp_config t) →
    tcp_total_bytes t ≤ max_connection_bytes (tcp_config t) + max_message_size (tcp_config t))%N;
  tb_chunks : (0 < max_connection_chunks (tcp_config t) →
    tcp_total_chunks t ≤ max_connection_chunks (tcp_config t) + 1)%N;
}.

(** The limits and one message fit in the counters, and a message in a frame. *)
Record config_fits (c : TransportConfig) : Prop := {
  cf_bytes : (max_connection_bytes c + max_message_size c < 2 ^ 64)%N;
  cf_chunks : (max_connection_chunks c + 1 < 2 ^ 64)%N;
  cf_message : (max_message_size c ≤ u32_max)%N;
}.

(** The counters are within the limits. *)
Definition tcp_within (t : TcpTransport) : Prop :=
  ((0 < max_connection_bytes (tcp_config t) → tcp_total_bytes t ≤ max_connection_bytes (tcp_config t))
   ∧ (0 < max_connection_chunks (tcp_config t) → tcp_total_chunks t ≤ max_connection_chunks (tcp_config t)))%N.

Lemma check_limits_within_tcp now t :
  config_fits (tcp_config t) → tcp_bounded t → check_connection_limits now t = Ok tt → tcp_within t.
Proof.
  intros [Fb Fc _] [Hb Hc]. unfold check_connection_limits. intros Hl. inv_ok.
  repeat match goal with E : negb _ = true |- _ => apply negb_true_iff, andb_false_iff in E; rewrite ?N.ltb_ge in E end.
  unfold tcp_within, tcp_total_bytes, tcp_total_chunks in *.
  split; intros Hpos; rewrite wrapping_add64_fits in * by lia; lia.
Qed.

(** Over the limit every message is refused before anything is touched. *)
Lemma check_limits_over now t :
  config_fits (tcp_config t) → tcp_bounded t → ¬ tcp_within t →
  ∃ e, check_connection_limits now t = Err e.
Proof.
  intros Hf Hb Hw. destruct (check_connection_limits now t) as [[]|e] eqn:E; [|eauto].
  by apply check_limits_within_tcp in E.
Qed.

(** One message more. *)
Lemma count_sent_bounded len t :
  config_fits (tcp_config t) → tcp_within t → (len ≤ max_message_size (tcp_config t))%N →
  tcp_bounded (tcp_count_sent len t).
Proof.
  intros [Fb Fc _] [Hb Hc] Hl. unfold tcp_total_bytes, tcp_total_chunks in *.
  constructor; unfold tcp_total_bytes, tcp_total_chunks; cbn; intros Hp;
    rewrite wrapping_add64_fits by lia; lia.
Qed.
Lemma count_received_bounded len t :
  config_fits (tcp_config t) → tcp_within t → (len ≤ max_message_size (tcp_config t))%N →
  tcp_bounded (tcp_count_received len t).
Proof.
  intros [Fb Fc _] [Hb Hc] Hl. unfold tcp_total_bytes, tcp_total_chunks in *.
  constructor; unfold tcp_total_bytes, tcp_total_chunks; cbn; intros Hp;
    rewrite wrapping_add64_fits by lia; lia.
Qed.

Lemma set_framed_bounded f t : tcp_bounded t → tcp_bounded (set_framed f t).
Proof. intros [??]. by constructor. Qed.
Lemma set_last_activity_bounded n t : tcp_bounded t → tcp_bounded (set_last_activity n t).
Proof. intros [??]. by constructor. Qed.
Lemma update_activity_state now now' t : (update_activity now now' t).2 = set_last_activity now t.
Proof. done. Qed.

#[export] Hint Resolve set_framed_bounded set_last_activity_bounded count_sent_bounded
  count_received_bounded : transport.

Section Tcp.
Context `{FrameCodecLaws} `{BincodeLaws NetworkChunk}.

Definition tcp_exec (op : tcp_op) (t : TcpTransport) : TcpTransport :=
  match op with
  | OpConnect attempt ok now now' => (tcp_connect attempt ok now now' t).2
  | OpSend chunk now now1 now2 => (tcp_send_chunk chunk now now1 now2 t).2
  | OpReceive fin now now1 now2 => (tcp_receive_chunk fin now now1 now2 t).2
  | OpClose ok => (tcp_close ok t).2
  end.

(** What a call to send does to the transport. *)
Lemma tcp_send_cases chunk now now1 now2 t r t' :
  tcp_send_chunk chunk now now1 now2 t = (r, t') →
  (t' = t ∧ is_ok r = false)
  ∨ check_connection_limits now t = Ok tt ∧ ∃ s b, tcp_framed t = Some s ∧ serialize chunk = Ok b
    ∧ (len_N b ≤ max_message_size (tcp_config t))%N
    ∧ ((∃ s', t' = set_framed (Some s') t ∧ is_ok r = false)
       ∨ ∃ s', framed_send (max_message_size (tcp_config t)) b s = (Ok tt, s')
         ∧ t' = set_last_activity now1 (tcp_count_sent (len_N b) (set_framed (Some s') t))
         ∧ r = check_connection_limits now2 t').
Proof.
  unfold tcp_send_chunk. intros Hs.
  destruct (check_connection_limits now t) as [[]|e] eqn:Hl; [|left; by injection Hs as <- <-].
  cbn in Hs. destruct (tcp_framed t) as [s|] eqn:Hf; [|left; by injection Hs as <- <-].
  cbn in Hs. destruct (serialize chunk) as [b|e] eqn:Hb; [|left; by injection Hs as <- <-].
  cbn in Hs. destruct (len_N b <=? _)%N eqn:Hlen; [|left; by injection Hs as <- <-].
  apply N.leb_le in Hlen. cbn in Hs. right. split; [done|]. exists s, b. split_and!; [done..|].
  destruct (framed_send _ b s) as [[[]|e] s'] eqn:Hw; [right|left].
  - exists s'. by injection Hs as <- <-.
  - exists s'. by injection Hs as <- <-.
Qed.

(** What a call to receive does to it. *)
Lemma tcp_receive_cases fin now now1 now2 t r t' :
  tcp_receive_chunk fin now now1 now2 t = (r, t') →
  (t' = t ∧ is_ok r = false)
  ∨ check_connection_limits now t = Ok tt ∧ ∃ s s', tcp_framed t = Some s
    ∧ ((t' = set_framed (Some s') t ∧ is_ok r = false)
       ∨ ∃ b chunk, framed_next (max_message_size (tcp_config t)) fin s = (FrameRead b, s')
         ∧ deserialize b = Ok chunk
         ∧ t' = set_last_activity now1 (tcp_count_received (len_N b) (set_framed (Some s') t))
         ∧ r = ((λ _, chunk) <$> check_connection_limits now2 t')).
Proof.
  unfold tcp_receive_chunk. intros Hs.
  destruct (check_connection_limits now t) as [[]|e] eqn:Hl; [|left; by injection Hs as <- <-].
  cbn in Hs. destruct (tcp_framed t) as [s|] eqn:Hf; [|left; by injection Hs as <- <-].
  cbn in Hs. right. split; [done|]. destruct (framed_next _ fin s) as [g s'] eqn:Hn. exists s, s'. split; [done|].
  destruct g as [b|e| |]; try (left; by injection Hs as <- <-).
  destruct (deserialize b) as [chunk|e] eqn:Hd; [|left; by injection Hs as <- <-].
  right. exists b, chunk. by injection Hs as <- <-.
Qed.

Lemma tcp_exec_config op t : tcp_config (tcp_exec op t) = tcp_config t.
Proof.
  destruct op; cbn.
  - unfold tcp_connect. repeat case_match; done.
  - destruct (tcp_send_chunk chunk now now1 now2 t) as [r t'] eqn:E.
    apply tcp_send_cases in E as [[-> _]|(_ & s & b & _ & _ & _ & [(s' & -> & _)|(s' & _ & -> & _)])]; done.
  - destruct (tcp_receive_chunk fin now now1 now2 t) as [r t'] eqn:E.
    apply tcp_receive_cases in E as [[-> _]|(_ & s & s' & _ & [[-> _]|(b & chunk & _ & _ & -> & _)])]; done.
  - unfold tcp_close. by case_match.
Qed.

Lemma tcp_exec_bounded op t :
  config_fits (tcp_config t) → tcp_bounded t → tcp_bounded (tcp_exec op t).
Proof.
  intros Hf Hb. destruct op; cbn.
  - unfold tcp_connect. repeat case_match; cbn; auto with transport.
  - destruct (tcp_send_chunk chunk now now1 now2 t) as [r t'] eqn:E.
    apply tcp_send_cases in E as [[-> _]|(Hl & s & b & _ & _ & Hlen & [(s' & -> & _)|(s' & _ & -> & _)])]; cbn;
      auto with transport.
    apply check_limits_within_tcp in Hl; auto with transport.
  - destruct (tcp_receive_chunk fin now now1 now2 t) as [r t'] eqn:E.
    apply tcp_receive_cases in E as [[-> _]|(Hl & s & s' & _ & [[-> _]|(b & chunk & Hn & _ & -> & _)])]; cbn;
      auto with transport.
    apply framed_next_inv in Hn as [Hlen _]; [|apply Hf].
    apply check_limits_within_tcp in Hl; auto with transport.
  - unfold tcp_close. case_match; cbn; auto with transport.
Qed.

Definition tcp_run (ops : list tcp_op) (t : TcpTransport) : TcpTransport := foldl (λ t op, tcp_exec op t) t ops.

Lemma tcp_run_bounded ops t :
  config_fits (tcp_config t) → tcp_bounded t →
  tcp_bounded (tcp_run ops t) ∧ tcp_config (tcp_run ops t) = tcp_config t.
Proof.
  revert t. induction ops as [|op ops IH]; intros t Hf Hb; [done|]. cbn.
  destruct (IH (tcp_exec op t)) as [Hr Hc]; [by rewrite tcp_exec_config|by apply tcp_exec_bounded|].
  split; [done|]. etrans; [exact Hc|apply tcp_exec_config].
Qed.

(** ** The two ends of a stream *)

Fixpoint tcp_send_all (clock : nat → N) (k : nat) (cs : list NetworkChunk) (t : TcpTransport)
    : result net_error unit * TcpTransport :=
  match cs with
  | [] => (Ok tt, t)
  | chunk :: cs =>
      match tcp_send_chunk chunk (clock k) (clock (k + 1)) (clock (k + 2)) t with
      | (Ok _, t) => tcp_send_all clock (k + 3) cs t
      | (Err e, t) => (Err e, t)
      end
  end.
Fixpoint tcp_receive_all (fin : EndOfInput) (clock : nat → N) (k n : nat) (t : TcpTransport)
    : result net_error (list NetworkChunk) * TcpTransport :=
  match n with
  | O => (Ok [], t)
  | S n =>
      match tcp_receive_chunk fin (clock k) (clock (k + 1)) (clock (k + 2)) t with
      | (Ok chunk, t) =>
          let '(r, t) := tcp_receive_all fin clock (k + 3) n t in (cons chunk <$> r, t)
      | (Err e, t) => (Err e, t)
      end
  end.

(** The messages of chunks, of a size a frame may have. *)
Definition messages (max : N) (cs : list NetworkChunk) (bs : list bytes) : Prop :=
  Forall2 (λ chunk b, serialize chunk = Ok b ∧ (len_N b ≤ max)%N) cs bs.

Lemma messages_unique max max' cs bs bs' : messages max cs bs → messages max' cs bs' → bs = bs'.
Proof.
  intros Hm. revert bs'. induction Hm as [|c b cs bs [Hb _] _ IH]; intros bs' Hm'; inversion Hm' as [|? ? ? ? [Hs _]];
    subst; [done|]. f_equal; [congruence|by apply IH].
Qed.

Lemma framed_send_out max b s s' :
  (max ≤ u32_max)%N → st_room s = None → framed_send max b s = (Ok tt, s') → s' = after_write (frame b) s.
Proof.
  intros Hm Hroom. unfold framed_send.
  destruct (N.le_gt_cases (len_N b) max).
  - rewrite frame_put_fits by done. unfold stream_write, after_write, frame. rewrite Hroom. by intros [= <-].
  - destruct (frame_put_long max b) as [e ->]; done.
Qed.

Lemma tcp_send_all_out clock k cs t t' s :
  (max_message_size (tcp_config t) ≤ u32_max)%N → tcp_framed t = Some s → st_room s = None →
  tcp_send_all clock k cs t = (Ok tt, t') →
  ∃ bs, messages (max_message_size (tcp_config t)) cs bs ∧ tcp_framed t' = Some (after_write (frames bs) s).
Proof.
  revert k t s. induction cs as [|chunk cs IH]; intros k t s Hm Hf Hroom; cbn [tcp_send_all].
  { intros [= <-]. exists []. split; [constructor|]. rewrite Hf. unfold after_write, frames. cbn.
    rewrite app_nil_r. by destruct s. }
  destruct (tcp_send_chunk _ _ _ _ t) as [[[]|e] t1] eqn:E; [|done].
  apply tcp_send_cases in E as [[_ ?]|(_ & s0 & b & Hf0 & Hb & Hlen & [(? & _ & ?)|(s' & Hw & -> & _)])]; try done.
  simplify_eq. apply framed_send_out in Hw as ->; [|done..].
  intros (bs & Hms & Hout)%(IH _ _ (after_write (frame b) s)); [|done..].
  exists (b :: bs). split; [by constructor|]. rewrite Hout. unfold after_write, frames. cbn.
  by rewrite <-app_assoc.
Qed.

(** The receiver may take [bs], and is not idle at any check. *)
Definition tcp_room (t : TcpTransport) (bs : list bytes) : Prop :=
  ((0 < max_connection_bytes (tcp_config t) → tcp_total_bytes t + total bs ≤ max_connection_bytes (tcp_config t))
   ∧ (0 < max_connection_chunks (tcp_config t) →
       tcp_total_chunks t + N.of_nat (length bs) ≤ max_connection_chunks (tcp_config t))
   ∧ tcp_total_bytes t + total bs < 2 ^ 64 ∧ tcp_total_chunks t + N.of_nat (length bs) < 2 ^ 64)%N.
Definition not_idle (t : TcpTransport) (now : N) : Prop :=
  (0 < connection_idle_timeout_ms (tcp_config t) →
   now ≤ tcp_last_activity t + connection_idle_timeout_ms (tcp_config t) * 1000000)%N.
Definition never_idle (c : TransportConfig) (clock : nat → N) : Prop :=
  ∀ i j : nat, i ≤ j ≤ i + 2 → (0 < connection_idle_timeout_ms c →
    clock j ≤ clock i + connection_idle_timeout_ms c * 1000000)%N.

Lemma check_limits_room now t bs :
  tcp_room t bs → not_idle t now → check_connection_limits now t = Ok tt.
Proof.
  intros (Hb & Hc & Fb & Fc) Hi. unfold check_connection_limits, tcp_total_bytes, tcp_total_chunks in *.
  assert (∀ x y : N, ((0 < x)%N → (y ≤ x)%N) → ((0 <? x) && (x <? y))%N = false) as Hx.
  { intros x y Hxy. apply andb_false_iff. rewrite !N.ltb_ge. lia. }
  rewrite !wrapping_add64_fits by lia. rewrite !Hx by lia. cbn.
  assert ((0 <? connection_idle_timeout_ms (tcp_config t)) && (connection_idle_timeout_ms (tcp_config t) * 1000000
    <? now - tcp_last_activity t) = false)%N as ->; [|done].
  apply andb_false_iff. rewrite !N.ltb_ge. unfold not_idle in Hi. lia.
Qed.

(** The receiver gets the chunks in order. *)
Lemma tcp_receive_all_in fin clock k cs bs t s rest :
  messages (max_message_size (tcp_config t)) cs bs → (max_message_size (tcp_config t) ≤ u32_max)%N →
  tcp_framed t = Some s → st_in s = frames bs ++ rest → tcp_room t bs → never_idle (tcp_config t) clock →
  not_idle t (clock k) →
  ∃ t', tcp_receive_all fin clock k (length cs) t = (Ok cs, t')
    ∧ tcp_framed t' = Some (set_in rest s)
    ∧ tcp_total_bytes t' = (tcp_total_bytes t + total bs)%N
    ∧ tcp_total_chunks t' = (tcp_total_chunks t + N.of_nat (length bs))%N.
Proof.
  remember (tcp_config t) as c eqn:Ec. intros Hms Hm. revert k t s Ec.
  induction Hms as [|chunk b cs bs [Hser Hlen] _ IH]; intros k t s -> Hf Hin Hroom Hclock Hidle.
  { exists t. unfold total, len_N. cbn. rewrite Hf, !N.add_0_r. split_and!; try done.
    destruct s; cbn in Hin. by subst. }
  cbn [length tcp_receive_all]. unfold tcp_receive_chunk. rewrite (check_limits_room _ _ _ Hroom Hidle), Hf.
  change (frames (b :: bs)) with (frame b ++ frames bs) in Hin. rewrite <-app_assoc in Hin.
  cbn [mbind result_bind ok_or]. rewrite (framed_next_frame _ _ b (frames bs ++ rest)) by done.
  rewrite (deserialize_ok _ _ Hser). unfold update_activity, after.
  set (t1 := set_last_activity (clock (k + 1)) (tcp_count_received (len_N b)
    (set_framed (Some (set_in (frames bs ++ rest) s)) t))).
  destruct Hroom as (Hrb & Hrc & Fb & Fc). rewrite total_cons in Hrb, Fb. cbn [length] in Hrc, Fc.
  unfold tcp_total_bytes, tcp_total_chunks in *.
  assert (tcp_bytes_received t1 = tcp_bytes_received t + len_N b
          ∧ tcp_chunks_received t1 = tcp_chunks_received t + 1)%N as [Eb Ech].
  { subst t1. cbn. rewrite !wrapping_add64_fits by lia. done. }
  assert (tcp_room t1 bs) as Hroom1.
  { unfold tcp_room, tcp_total_bytes, tcp_total_chunks. rewrite Eb, Ech. cbn. lia. }
  rewrite (check_limits_room _ t1 bs) by (done || (intros ?; cbn; apply Hclock; [lia|done])).
  cbn [fmap result_fmap].
  destruct (IH (k + 3) t1 (set_in (frames bs ++ rest) s)) as (t' & Hrun & Hf' & Hb' & Hc'); try done.
  { intros ?. cbn. apply Hclock; [lia|done]. }
  cbn. rewrite Hrun. exists t'. split; [done|]. rewrite Hf', Hb', Hc', Eb, Ech, total_cons. cbn. split; [done|lia].
Qed.
End Tcp.
