(* ===== verification/ReferenceCodec.v ===== *)
(** * Concrete instances for envelopes and sessions

    Executable functions that satisfy the laws of bincode, the key agreement and the key
    derivation functions, so that the theorems about envelopes, receipts and sessions can be
    applied to concrete inputs.  The encoding is self-delimiting, and total on the types of
    the model. *)

From S2P Require Import Prelude External Format Envelope Receipts Auth Reference.
From S2P Require Import Utf8 Backends Hsm.

(** ** Self-delimiting codecs *)

Record codec (A : Type) := mkCodec {
  enc : A → bytes;
  dec : bytes → option (A * bytes);
  dec_enc x r : dec (enc x ++ r) = Some (x, r);
  dec_app b x r t : dec b = Some (x, r) → dec (b ++ t) = Some (x, r ++ t);
}.
Arguments enc {A}.
Arguments dec {A}.
Arguments dec_enc {A}.
Arguments dec_app {A}.
Arguments mkCodec {A}.

Definition bincode_of {A} (c : codec A) : Bincode A := {|
  serialize x := Ok (enc c x);
  deserialize_from b := ok_or (dec c b) (lit "io error: unexpected end of file");
|}.
Lemma bincode_of_laws {A} (c : codec A) : @BincodeLaws A (bincode_of c).
Proof. intros x b r [= <-]. cbn. by rewrite dec_enc. Qed.

(** A proper prefix of an encoding is not one. *)
Lemma dec_cut {A} (c : codec A) x b1 b2 : enc c x = b1 ++ b2 → b2 ≠ [] → dec c b1 = None.
Proof.
  intros He Hne. destruct (dec c b1) as [[y r]|] eqn:E; [|done].
  apply (dec_app c _ _ _ b2) in E. rewrite <-He in E. pose proof (dec_enc c x []) as Hx.
  rewrite app_nil_r in Hx. rewrite E in Hx. injection Hx as _ Hr.
  apply app_eq_nil in Hr as [_ ->]. done.
Qed.

(** Numbers: binary digits, least significant first. *)
Fixpoint enc_pos (p : positive) : bytes :=
  match p with xH => lit "." | xO p => "0"%char :: enc_pos p | xI p => "1"%char :: enc_pos p end.
Fixpoint dec_pos (b : bytes) : option (positive * bytes) :=
  match b with
  | "."%char :: r => Some (xH, r)
  | "0"%char :: r => '(p, r) ← dec_pos r; Some (xO p, r)
  | "1"%char :: r => '(p, r) ← dec_pos r; Some (xI p, r)
  | _ => None
  end.
Lemma dec_enc_pos p r : dec_pos (enc_pos p ++ r) = Some (p, r).
Proof. induction p as [p IH|p IH|]; cbn; rewrite ?IH; done. Qed.

Lemma dec_pos_app b p r t : dec_pos b = Some (p, r) → dec_pos (b ++ t) = Some (p, r ++ t).
Proof.
  revert p r. induction b as [|c b IH]; intros p r; [done|]. cbn [dec_pos app].
  repeat case_match; try done; try congruence.
  all: intros Hd; apply bind_Some in Hd as ([q r'] & Hq & Heq); simplify_eq;
    rewrite (IH _ _ Hq); done.
Qed.

Definition codec_N : codec N.
Proof.
  refine (mkCodec (λ n, enc_pos (N.succ_pos n))
    (λ b, '(p, r) ← dec_pos b; Some (Pos.pred_N p, r)) _ _).
  - intros n r. cbn. rewrite dec_enc_pos. cbn. by rewrite N.pos_pred_succ.
  - intros b n r t ([p r'] & Hp & Heq)%bind_Some. rewrite (dec_pos_app _ _ _ _ Hp). cbn. by simplify_eq.
Defined.

Lemma read_exact_mono n b a r t : read_exact n b = Some (a, r) → read_exact n (b ++ t) = Some (a, r ++ t).
Proof. intros [-> Ha]%read_exact_Some. rewrite <-app_assoc. by apply read_exact_app. Qed.

(** A length, then the bytes. *)
Definition codec_bytes : codec (list ascii).
Proof.
  refine (mkCodec (λ l, enc codec_N (N.of_nat (length l)) ++ l)
    (λ b, '(n, r) ← dec codec_N b; read_exact (N.to_nat n) r) _ _).
  - intros l r. rewrite <-app_assoc, dec_enc. cbn [mbind option_bind].
    rewrite Nat2N.id. by apply read_exact_app.
  - intros b l r t ([n r'] & Hn & Hr)%bind_Some. rewrite (dec_app codec_N _ _ _ t Hn).
    by apply read_exact_mono.
Defined.

Definition codec_pair {A B} (c : codec A) (d : codec B) : codec (A * B).
Proof.
  refine (mkCodec (λ x, enc c x.1 ++ enc d x.2)
    (λ b, '(x, r) ← dec c b; '(y, r) ← dec d r; Some (x, y, r)) _ _).
  - intros [x y] r. rewrite <-app_assoc, dec_enc. cbn [mbind option_bind fst snd].
    by rewrite dec_enc.
  - intros b [x y] r t ([x' r1] & Hx & ([y' r2] & Hy & Heq)%bind_Some)%bind_Some. simplify_eq.
    rewrite (dec_app c _ _ _ t Hx). cbn [mbind option_bind]. by rewrite (dec_app d _ _ _ t Hy).
Defined.

Definition codec_option {A} (c : codec A) : codec (option A).
Proof.
  refine (mkCodec (λ o, match o with Some x => "s"%char :: enc c x | None => lit "n" end)
    (λ b, match b with
    | "s"%char :: r => '(x, r) ← dec c r; Some (Some x, r)
    | "n"%char :: r => Some (None, r)
    | _ => None
    end) _ _).
  - intros [x|] r; cbn; [|done]. by rewrite dec_enc.
  - intros b o r t. destruct b as [|a b]; [done|]. cbn [app].
    repeat case_match; try done; try congruence.
    + intros ([x r'] & Hx & Heq)%bind_Some. rewrite (dec_app c _ _ _ t Hx). cbn. by simplify_eq.
Defined.

Fixpoint dec_list {A} (c : codec A) (n : nat) (b : bytes) : option (list A * bytes) :=
  match n with
  | 0 => Some ([], b)
  | S n => '(x, r) ← dec c b; '(l, r) ← dec_list c n r; Some (x :: l, r)
  end.
Lemma dec_list_app {A} (c : codec A) n b l r t :
  dec_list c n b = Some (l, r) → dec_list c n (b ++ t) = Some (l, r ++ t).
Proof.
  revert b l. induction n as [|n IH]; intros b l; cbn; [by intros [= <- <-]|].
  intros ([x r1] & Hx & ([l' r2] & Hl & Heq)%bind_Some)%bind_Some. simplify_eq.
  rewrite (dec_app c _ _ _ t Hx). cbn [mbind option_bind]. by rewrite (IH _ _ Hl).
Qed.
Definition codec_list {A} (c : codec A) : codec (list A).
Proof.
  refine (mkCodec (λ l, enc codec_N (N.of_nat (length l)) ++ concat (enc c <$> l))
    (λ b, '(n, r) ← dec codec_N b; dec_list c (N.to_nat n) r) _ _).
  - intros l r. rewrite <-app_assoc, dec_enc. cbn [mbind option_bind]. rewrite Nat2N.id.
    induction l as [|x l IH]; cbn; [done|]. rewrite <-app_assoc, dec_enc. cbn. by rewrite IH.
  - intros b l r t ([n r'] & Hn & Hr)%bind_Some. rewrite (dec_app codec_N _ _ _ t Hn).
    by apply dec_list_app.
Defined.

(** A type that embeds into an encodable one. *)
Definition codec_map {A B} (f : A → B) (g : B → A) (Hgf : ∀ x, g (f x) = x) (c : codec B) : codec A.
Proof.
  refine (mkCodec (λ x, enc c (f x))
    (λ b, '(y, r) ← dec c b; Some (g y, r)) _ _).
  - intros x r. cbn. rewrite dec_enc. cbn. by rewrite Hgf.
  - intros b x r t ([y r'] & Hy & Heq)%bind_Some. simplify_eq.
    by rewrite (dec_app c _ _ _ t Hy).
Defined.

(** ** The types of the model *)

Notation "c ** d" := (codec_pair c d) (at level 40, left associativity, only parsing).

Definition codec_chunk_manifest : codec ChunkManifest.
Proof.
  refine (codec_map (λ m, (cm_sequence m, cm_chunk_size m, cm_timestamp m, cm_format_hint m,
               cm_key_derivation_salt m, cm_pbkdf2_iterations m))
    (λ '(a, b, c, d, e, f), mkChunkManifest a b c d e f) _
    (codec_N ** codec_N ** codec_N ** codec_bytes ** codec_bytes ** codec_N)).
  by intros [].
Defined.
Definition codec_signed_manifest : codec SignedManifest.
Proof.
  refine (codec_map (λ m, (sm_manifest m, sm_sig m, sm_pubkey m)) (λ '(a, b, c), mkSignedManifest a b c) _
    (codec_bytes ** codec_bytes ** codec_bytes)).
  by intros [].
Defined.
Definition codec_chunk : codec NetworkChunk.
Proof.
  refine (codec_map (λ c, (nc_sequence c, nc_data c, nc_manifest c, nc_nonce c, nc_timestamp c))
    (λ '(a, b, c, d, e), mkNetworkChunk a b c d e) _
    (codec_N ** codec_bytes ** codec_bytes ** codec_bytes ** codec_N)).
  by intros [].
Defined.
Definition codec_metadata : codec EnvelopeMetadata.
Proof.
  refine (codec_map (λ m, (em_created_at m, em_payload_size m, em_chunk_count m, em_aead_algorithm m,
               em_signature_algorithm m, em_hash_algorithm m))
    (λ '(a, b, c, d, e, f), mkEnvelopeMetadata a b c d e f) _
    (codec_N ** codec_N ** codec_N ** codec_N ** codec_N ** codec_N)).
  by intros [].
Defined.
Definition codec_envelope : codec Envelope.
Proof.
  refine (codec_map (λ e, (env_version e, env_hkdf_salt e, env_chunks e, env_verifying_key e,
               env_beneficiary_key e, env_metadata e))
    (λ '(a, b, c, d, e, f), mkEnvelope a b c d e f) _
    (codec_N ** codec_bytes ** codec_list codec_chunk ** codec_bytes ** codec_bytes ** codec_metadata)).
  by intros [].
Defined.
Definition codec_receipt : codec OwnershipReceipt.
Proof.
  refine (codec_map (λ r, (or_issuer r, or_beneficiary r, or_amount r, or_prev_envelope_hash r,
               or_description r, or_created_at r))
    (λ '(a, b, c, d, e, f), mkOwnershipReceipt a b c d e f) _
    (codec_bytes ** codec_bytes ** codec_N ** codec_option codec_bytes ** codec_option codec_bytes
      ** codec_N)).
  by intros [].
Defined.

Definition type_number (t : AuthMessageType) : N :=
  match t with ClientHello => 0 | ServerChallenge => 1 | ClientAuth => 2 | ServerConfirm => 3
  | AuthError => 4 end.
Definition number_type (n : N) : AuthMessageType :=
  match n with 0 => ClientHello | 1 => ServerChallenge | 2 => ClientAuth | 3 => ServerConfirm
  | _ => AuthError end%N.
Definition codec_type : codec AuthMessageType.
Proof.
  refine (codec_map type_number number_type _ codec_N).
  by intros [].
Defined.
Definition codec_message : codec AuthMessage.
Proof.
  refine (codec_map (λ m, (am_msg_type m, am_payload m)) (λ '(a, b), mkAuthMessage a b) _
    (codec_type ** codec_bytes)).
  by intros [].
Defined.
Definition codec_cert : codec ServerCertificate.
Proof.
  refine (codec_map (λ c, (sc_identity c, sc_public_key c, sc_valid_from c, sc_valid_until c, sc_signature c))
    (λ '(a, b, c, d, e), mkServerCertificate a b c d e) _
    (codec_bytes ** codec_bytes ** codec_N ** codec_N ** codec_bytes)).
  by intros [].
Defined.
Definition codec_challenge : codec AuthChallenge.
Proof.
  refine (codec_map (λ c, (ac_challenge c, ac_server_cert c, ac_timestamp c)) (λ '(a, b, c), mkAuthChallenge a b c) _
    (codec_bytes ** codec_cert ** codec_N)).
  by intros [].
Defined.
Definition codec_response : codec ClientAuthResponse.
Proof.
  refine (codec_map (λ r, (ar_client_public_key r, ar_challenge_signature r, ar_client_identity r, ar_timestamp r))
    (λ '(a, b, c, d), mkClientAuthResponse a b c d) _
    (codec_bytes ** codec_bytes ** codec_option codec_bytes ** codec_N)).
  by intros [].
Defined.
Definition codec_confirm : codec ServerAuthConfirm.
Proof.
  refine (codec_map (λ c, (sa_session_id c, sa_session_expires_at c, sa_session_signature c))
    (λ '(a, b, c), mkServerAuthConfirm a b c) _ (codec_bytes ** codec_N ** codec_bytes)).
  by intros [].
Defined.

#[export] Instance ref_bincode_chunk_manifest : Bincode ChunkManifest := bincode_of codec_chunk_manifest.
#[export] Instance ref_bincode_signed_manifest : Bincode SignedManifest := bincode_of codec_signed_manifest.
#[export] Instance ref_bincode_envelope : Bincode Envelope := bincode_of codec_envelope.
#[export] Instance ref_bincode_message : Bincode AuthMessage := bincode_of codec_message.
#[export] Instance ref_bincode_challenge : Bincode AuthChallenge := bincode_of codec_challenge.
#[export] Instance ref_bincode_response : Bincode ClientAuthResponse := bincode_of codec_response.
#[export] Instance ref_bincode_confirm : Bincode ServerAuthConfirm := bincode_of codec_confirm.
#[export] Instance ref_bincode_string : Bincode (list ascii) := bincode_of codec_bytes.
#[export] Hint Extern 0 (BincodeLaws _) => apply bincode_of_laws : typeclass_instances.

#[export] Instance ref_receipt_json : ReceiptJson := {|
  receipt_to_vec r := Ok (enc codec_receipt r);
  receipt_from_slice b := ok_or (fst <$> dec codec_receipt b) (lit "expected value");
|}.
#[export] Instance ref_receipt_json_laws : ReceiptJsonLaws.
Proof.
  intros r b <-%Ok_inj. unfold receipt_from_slice, ref_receipt_json.
  by rewrite <-(app_nil_r (enc codec_receipt r)), dec_enc.
Qed.

(** ** Key agreement and derivation *)

#[export] Instance ref_key_agreement : KeyAgreement := {|
  to_scalar sk := fit32 sk;
  to_montgomery pk := pk;
  diffie_hellman a b := fit32 (zip_with xor_byte a b);
|}.

Lemma xor_byte_comm a b : xor_byte a b = xor_byte b a.
Proof. destruct a, b. cbn. f_equal; apply xorb_comm. Qed.

#[export] Instance ref_key_agreement_laws : KeyAgreementLaws.
Proof.
  split; cbn [diffie_hellman to_scalar to_montgomery ref_key_agreement].
  - intros. apply length_fit32.
  - intros a b. unfold ed_public, ref_ed25519. f_equal. generalize (fit32 a), (fit32 b). clear.
    intros l. induction l as [|x l IH]; intros [|y k]; cbn; [done..|]. by rewrite xor_byte_comm, IH.
Qed.

#[export] Instance ref_hkdf_expand : HkdfExpand := λ salt ikm info n,
  if (n <=? 255 * 32)%nat then Some (take n (concat (replicate n (blake3 (salt ++ ikm ++ info)))))
  else None.

#[export] Instance ref_hkdf_expand_laws : HkdfExpandLaws.
Proof.
  intros salt ikm info n Hn. unfold hkdf_expand, ref_hkdf_expand.
  rewrite (proj2 (Nat.leb_le _ _) Hn). eexists. split; [done|]. rewrite length_take.
  generalize (blake3 (salt ++ ikm ++ info)), (length_blake3 (salt ++ ikm ++ info)). intros d Hd.
  assert (∀ k, length (concat (replicate k d)) = k * 32) as ->; [|lia].
  intros k. induction k as [|k IH]; cbn; [done|]. rewrite length_app, IH, Hd. lia.
Qed.

#[export] Instance ref_blake3_kdf : Blake3Kdf := λ ctx m, blake3 (ctx ++ m).

(** ** Concrete instances for the software HSM

    P-256 keys, the metadata file, digests and debug text, for the witnesses of the backend
    theorems. *)

#[export] Instance ref_p256_keys : P256Keys := {|
  p256_secret_ok sk := (length sk =? 32)%nat;
  p256_public sk := sk;
  p256_sign sk m := sk ++ blake3 m;
  p256_point_ok _ := true;
|}.
#[export] Instance ref_p256_keys_laws : P256KeysLaws.
Proof. split; [done|]. intros sk m _. split; [done|]. by apply bool_decide_eq_true. Qed.


Definition algorithm_number (a : AsymmetricAlgorithm) : N :=
  match a with UEd25519 => 0 | UEcdsaP256 => 1 | URsa2048 => 2 | URsa4096 => 3 end.
Definition number_algorithm (n : N) : AsymmetricAlgorithm :=
  match n with 0 => UEd25519 | 1 => UEcdsaP256 | 2 => URsa2048 | _ => URsa4096 end%N.
Definition codec_algorithm : codec AsymmetricAlgorithm.
Proof. refine (codec_map algorithm_number number_algorithm _ codec_N). by intros []. Defined.
Definition codec_key : codec SoftwareHsmKeyMetadata.
Proof.
  refine (codec_map (λ m, (hm_key_id m, hm_algorithm m, hm_private_key_path m, hm_public_key_path m,
               hm_created_at m, hm_last_used m, hm_description m))
    (λ '(a, b, c, d, e, f, g), mkHsmKeyMetadata a b c d e f g) _
    (codec_bytes ** codec_algorithm ** codec_list codec_bytes ** codec_list codec_bytes ** codec_N
      ** codec_option codec_N ** codec_bytes)).
  by intros [].
Defined.
Definition codec_keys : codec (list (list ascii * SoftwareHsmKeyMetadata)) := codec_list (codec_bytes ** codec_key).

(** The table in hexadecimal. *)
#[export] Instance ref_hsm_json : HsmJson := {|
  keys_to_string_pretty t := Ok (hex_encode (enc codec_keys (map_to_list t)));
  keys_from_str j :=
    ok_or (b ← hex_decode j; '(l, _) ← dec codec_keys b; Some (list_to_map l)) (lit "expected value");
  key_to_vec m := Ok (enc codec_key m);
|}.

#[export] Instance ref_hsm_json_laws : HsmJsonLaws.
Proof.
  split.
  - intros t j <-%Ok_inj. split.
    + cbn [keys_from_str ref_hsm_json]. rewrite hex_decode_encode. cbn [mbind option_bind].
      rewrite <-(app_nil_r (enc codec_keys _)), dec_enc. cbn. by rewrite list_to_map_to_list.
    + apply hexdigits_valid, hex_encode_digits.
  - intros t _. by eexists.
Qed.

#[export] Instance ref_sha2 : Sha2 := λ _, blake3.
#[export] Instance ref_pbkdf2_with : Pbkdf2With := λ _ p salt n, blake3 (p ++ salt ++ fmt_N n).
#[export] Instance ref_operation_debug : OperationDebug := {| op_debug _ := lit "Attest"; op_type_name := lit "op" |}.
