(* ===== verification/Provenance.v ===== *)
(** * Software attestations

    crates/core/src/applications/attestation/mod.rs: a "birth certificate" for an artifact,
    written as JSON or as a signed file, and its verification.  serde, bincode, the clock and
    the git lookup are parameters or arguments; files are read, and the caller writes the
    output. *)

From S2P Require Import Prelude External Utf8 FileSystem Format Archive Backends.

Record SoftwareAttestation := mkSoftwareAttestation {
  sa_artifact_hash : bytes;
  sa_artifact_name : bytes;
  sa_source_commit_hash : bytes;
  sa_builder_id : bytes;
  sa_timestamp : bytes;
}.

Inductive OutputFormat := JsonOnly | SealedEnvelope.
Inductive KeySource := GenerateKey | ProvidedKey (signing_key : bytes).

Record AttestationConfig := mkAttestationConfig {
  acfg_artifact_path : path;
  acfg_builder_id : bytes;
  acfg_output_format : OutputFormat;
  acfg_key_source : KeySource;
}.

(** [verification_info] is the hex public key of a signed file. *)
Record AttestationResult := mkAttestationResult {
  ares_attestation : SoftwareAttestation;
  ares_serialized_output : bytes;
  ares_verification_key : option bytes;
}.

(** The format of a signed file. *)
Record SignedAttestationFile := mkSignedAttestationFile {
  saf_attestation : bytes;
  saf_signature : bytes;
  saf_verification_key : bytes; (* [u8; 32] *)
}.

Record VerificationConfig := mkVerificationConfig {
  vcfg_artifact_path : path;
  vcfg_attestation_path : path;
  vcfg_force_json : bool;
}.

Record VerificationDetails := mkVerificationDetails {
  vd_computed_hash : bytes;
  vd_expected_hash : bytes;
  vd_artifact_size : N; (* u64 *)
  vd_envelope_verified : option bool;
}.
Record AttestationVerification := mkAttestationVerification {
  av_attestation : SoftwareAttestation;
  av_is_valid : bool;
  av_details : VerificationDetails;
}.

(** [serde_json] on attestations *)
Class SoftwareAttestationJson := {
  attestation_to_vec : SoftwareAttestation → result bytes bytes;
  attestation_to_vec_pretty : SoftwareAttestation → result bytes bytes;
  attestation_from_json : bytes → result bytes SoftwareAttestation; (* from_slice, from_str *)
}.
Class SoftwareAttestationJsonLaws `{SoftwareAttestationJson} : Prop := {
  attestation_vec_roundtrip a j : attestation_to_vec a = Ok j → attestation_from_json j = Ok a;
  attestation_pretty_roundtrip a j :
    attestation_to_vec_pretty a = Ok j → attestation_from_json j = Ok a ∧ utf8_valid j = true;
}.

(** The time, the commit of the repository the process runs in, and a fresh signing key. *)
Record AttestationEnv := mkAttestationEnv {
  ae_now : bytes;
  ae_commit : option bytes;
  ae_fresh_key : bytes;
}.

Section Provenance.
Context `{Hex} `{Sha2} `{Ed25519} `{SoftwareAttestationJson} `{Bincode SignedAttestationFile}.

(** [format!("{:x}", Sha256::digest(data))] *)
Definition artifact_digest (data : bytes) : bytes := hex_encode (sha2_digest USha256 data).

Definition read_artifact (p : path) (s : fs) : result bytes bytes :=
  map_err (λ _, lit "Failed to read artifact: " ++ path_display p) (read_file p s).

Definition create_sealed_attestation (env : AttestationEnv) (a : SoftwareAttestation) (key : KeySource)
    : result bytes AttestationResult :=
  let signing_key := match key with GenerateKey => ae_fresh_key env | ProvidedKey k => k end in
  attestation_bytes ← in_context "Failed to serialize attestation" (attestation_to_vec a);
  let signed_file := mkSignedAttestationFile attestation_bytes (ed_sign signing_key attestation_bytes)
    (ed_public signing_key) in
  serialized_output ← in_context "Failed to serialize attestation file" (serialize signed_file);
  Ok (mkAttestationResult a serialized_output (Some (hex_encode (ed_public signing_key)))).

Definition create_signed_attestation (env : AttestationEnv) (c : AttestationConfig) (s : fs)
    : result bytes AttestationResult :=
  artifact_data ← read_artifact (acfg_artifact_path c) s;
  let a := mkSoftwareAttestation (artifact_digest artifact_data)
    (match last (acfg_artifact_path c) with
     | Some n => if utf8_valid n then n else lit "unknown"
     | None => lit "unknown"
     end)
    (default (lit "unknown") (ae_commit env)) (acfg_builder_id c) (ae_now env) in
  match acfg_output_format c with
  | JsonOnly =>
      serialized_output ← in_context "Failed to serialize attestation to JSON" (attestation_to_vec_pretty a);
      Ok (mkAttestationResult a serialized_output None)
  | SealedEnvelope => create_sealed_attestation env a (acfg_key_source c)
  end.

Definition read_envelope_attestation (p : path) (s : fs) : result bytes SoftwareAttestation :=
  content ← map_err (λ e : io_error, if bool_decide (e = IsADirectory) then lit "Failed to read attestation file"
                      else lit "Failed to open attestation file: " ++ path_display p) (read_file p s);
  '(f, _) ← in_context "Failed to read attestation file" (deserialize_from (A:=SignedAttestationFile) content);
  ensure (ed_key_ok (saf_verification_key f)) (lit "Invalid verification key in attestation file") ≫= λ _,
  ensure (length (saf_signature f) =? 64)%nat (lit "Invalid signature length in attestation file") ≫= λ _,
  ensure (ed_verify (saf_verification_key f) (saf_attestation f) (saf_signature f))
    (lit "Attestation signature verification failed") ≫= λ _,
  in_context "Failed to parse attestation from signed payload" (attestation_from_json (saf_attestation f)).

Definition read_json_attestation (p : path) (s : fs) : result bytes SoftwareAttestation :=
  let failed := lit "Failed to read attestation file: " ++ path_display p in
  json_data ← map_err (λ _, failed) (read_file p s);
  ensure (utf8_valid json_data) failed ≫= λ _,
  in_context "Failed to parse JSON attestation" (attestation_from_json json_data).

(** A file that does not verify as a signed file is read as JSON. *)
Definition read_attestation (c : VerificationConfig) (s : fs) : result bytes SoftwareAttestation :=
  if vcfg_force_json c then read_json_attestation (vcfg_attestation_path c) s
  else
    match read_envelope_attestation (vcfg_attestation_path c) s with
    | Ok a => Ok a
    | Err _ => read_json_attestation (vcfg_attestation_path c) s
    end.

Definition verify_software_attestation (c : VerificationConfig) (s : fs)
    : result bytes AttestationVerification :=
  a ← read_attestation c s;
  artifact_data ← read_artifact (vcfg_artifact_path c) s;
  let computed_hash := artifact_digest artifact_data in
  Ok (mkAttestationVerification a (bool_decide (computed_hash = sa_artifact_hash a))
        (mkVerificationDetails computed_hash (sa_artifact_hash a) (len_N artifact_data) None)).
End Provenance.

Section Lemmas.
Context `{HexLaws} `{Sha2} `{Ed25519Laws} `{SoftwareAttestationJsonLaws} `{!Bincode SignedAttestationFile}
  `{!BincodeLaws SignedAttestationFile}.

(** A signed file reads back. *)
Lemma read_sealed_attestation (env : AttestationEnv) (a : SoftwareAttestation) (key : KeySource)
    (r : AttestationResult) (p : path) (s : fs) :
  create_sealed_attestation env a key = Ok r → read_file p s = Ok (ares_serialized_output r) →
  read_envelope_attestation p s = Ok a ∧ ares_attestation r = a.
Proof.
  unfold create_sealed_attestation. intros Hc Hf. inv_ok.
  repeat match goal with E : in_context _ _ = Ok _ |- _ => apply in_context_ok in E end.
  cbn [ares_serialized_output ares_attestation] in *. split; [|done].
  unfold read_envelope_attestation. rewrite Hf. cbn [map_err mbind result_bind].
  match goal with E : serialize _ = Ok ?b |- _ =>
    pose proof (deserialize_serialize _ b [] E) as Hd; rewrite app_nil_r in Hd end.
  rewrite Hd. cbn [in_context map_err mbind result_bind saf_verification_key saf_signature saf_attestation].
  rewrite ed_public_ok, length_ed_sign, ed_verify_sign. cbn.
  apply in_context_ok. by apply attestation_vec_roundtrip.
Qed.

Lemma read_pretty_attestation (a : SoftwareAttestation) (j : bytes) (p : path) (s : fs) :
  attestation_to_vec_pretty a = Ok j → read_file p s = Ok j → read_json_attestation p s = Ok a.
Proof.
  intros [Hj Hv]%attestation_pretty_roundtrip Hf. unfold read_json_attestation. rewrite Hf. cbn. by rewrite Hv, Hj.
Qed.

(** Two artifacts with one hexadecimal SHA-256 digest have one digest. *)
Lemma artifact_digest_inj x y : artifact_digest x = artifact_digest y → sha2_digest USha256 x = sha2_digest USha256 y.
Proof. apply hex_encode_inj. Qed.
End Lemmas.
