(* ===== verification/ArchiveCorrect.v ===== *)
(** * Correctness of the archive component

    What a directory must look like for [validate_archive] to accept it
    ([intact]), that the two writers produce such directories, and that an
    accepted archive commits to its chunks. *)

From S2P Require Import Prelude External Utf8 FileSystem Json Float64 Manifest ManifestCanon.
From S2P Require Import Chain Archive ArchiveLemmas.

Section Correct.
Context `{Blake3Laws} `{HexLaws} `{ManifestJson}.

(** ** Specification of an intact archive *)

(** The tip of the continuity chain after the first [n] chunks. *)
Definition tip_after (cs : list bytes) (n : nat) : bytes :=
  chain_tip genesis (blake3 <$> take n cs).

(** Segment [i] of the manifest describes chunk [c]. *)
Record segment_describes (cs : list bytes) (i : nat) (seg : SegmentInfo) (c : bytes) : Prop := {
  sd_name : chunk_file seg = chunk_filename (N.of_nat i);
  sd_hash : blake3_hash seg = hex_encode (blake3 c);
  sd_continuity : hex_decode (continuity_hash seg) = Some (tip_after cs (S i));
}.

Record intact (base : path) (s : fs) (m : TrstManifest) (sig : bytes) (cs : list bytes) : Prop := {
  in_manifest : read_manifest base s = Ok (m, sig);
  in_valid : valid_manifest m;
  in_length : length cs = length (segments m);
  in_file i c : cs !! i = Some c →
    read_file (chunks_path base ++ [chunk_filename (N.of_nat i)]) s = Ok c
    ∧ (len_N c ≤ MAX_STORED_CHUNK_BYTES)%N;
  in_segment i seg c : segments m !! i = Some seg → cs !! i = Some c →
    segment_describes cs i seg c;
  in_only name : is_dir (chunks_path base) s = true → name ∈ read_dir (chunks_path base) s →
    ends_with (lit ".bin") (from_utf8_lossy name) = true →
    from_utf8_lossy name ∈ chunk_file <$> segments m;
}.

(** ** The checks of [validate_archive] *)

Lemma check_chunk_name_ok i seg :
  check_chunk_name i seg = Ok tt ↔ chunk_file seg = chunk_filename (N.of_nat i).
Proof.
  unfold check_chunk_name. case_decide; [done|]. split; [|done].
  by intros (? & _ & ?)%bind_ok.
Qed.

Lemma open_chunk_ok p name s c : open_chunk p name s = Ok c ↔ read_file p s = Ok c.
Proof. apply map_err_ok. Qed.

Lemma check_segment_ok base s i seg cseg :
  check_segment base s (i, seg) = Ok cseg ↔
  ∃ c cont, chunk_file seg = chunk_filename (N.of_nat i)
    ∧ read_file (chunks_path base ++ [chunk_filename (N.of_nat i)]) s = Ok c
    ∧ (len_N c ≤ MAX_STORED_CHUNK_BYTES)%N
    ∧ blake3_hash seg = hex_encode (blake3 c)
    ∧ hex_decode (continuity_hash seg) = Some cont ∧ length cont = 32
    ∧ cseg = mkChainSegment i (blake3 c) cont.
Proof.
  unfold check_segment. split.
  - intros ([] & Hname & Hc)%bind_ok. apply check_chunk_name_ok in Hname.
    apply bind_ok in Hc as (h & Hh & Hc). rewrite stream_hash_chunk_spec in Hh.
    apply bind_ok in Hh as (c & Hread%open_chunk_ok & Hh). case_match eqn:Hcap; [|done].
    inv_ok. apply N.leb_le in Hcap.
    repeat match goal with
    | Hb : bool_decide _ = true |- _ => apply bool_decide_eq_true in Hb
    | Hb : (_ =? _)%nat = true |- _ => apply Nat.eqb_eq in Hb
    end. eauto 10.
  - intros (c & cont & Hname & Hread & Hcap & Hhash & Hcont & Hlen & ->).
    rewrite (proj2 (check_chunk_name_ok i seg) Hname). cbn [mbind result_bind].
    rewrite stream_hash_chunk_spec, (proj2 (open_chunk_ok _ _ _ _) Hread). cbn [mbind result_bind].
    rewrite (proj2 (N.leb_le _ _) Hcap). cbn.
    rewrite Hhash, bool_decide_true, Hcont by done. cbn. by rewrite Hlen.
Qed.

Lemma check_unreferenced_ok names base s :
  check_unreferenced (list_to_set names) base s = Ok tt ↔
  ∀ name, is_dir (chunks_path base) s = true → name ∈ read_dir (chunks_path base) s →
    ends_with (lit ".bin") (from_utf8_lossy name) = true → from_utf8_lossy name ∈ names.
Proof.
  unfold check_unreferenced. case_match; [|naive_solver].
  rewrite for_each_ok, Forall_forall. setoid_rewrite ensure_ok.
  setoid_rewrite negb_true_iff. setoid_rewrite andb_false_iff.
  setoid_rewrite bool_decide_eq_false. setoid_rewrite elem_of_list_to_set.
  split.
  - intros Hall name _ Hin Hbin. apply Hall in Hin as [Hb|Hb]; [congruence|].
    by apply dec_stable in Hb.
  - intros Hall name Hin. destruct (ends_with _ _) eqn:Hbin; [right|by left].
    intros Hn. by apply Hn, Hall.
Qed.

Lemma chain_from_lookup start hs i h :
  chain_from start hs !! i = Some h ↔ i < length hs ∧ h = chain_tip start (take (S i) hs).
Proof.
  revert start i; induction hs as [|h0 hs IH]; intros start i; simpl; [naive_solver lia|].
  destruct i as [|i]; simpl; [naive_solver lia|]. rewrite IH. naive_solver lia.
Qed.

(** What the loop over the segments and the chain check establish together. *)
Definition segments_ok (base : path) (s : fs) (segs : list SegmentInfo) (cs : list bytes) : Prop :=
  length cs = length segs ∧ ∀ i seg c, segs !! i = Some seg → cs !! i = Some c →
    read_file (chunks_path base ++ [chunk_filename (N.of_nat i)]) s = Ok c
    ∧ (len_N c ≤ MAX_STORED_CHUNK_BYTES)%N ∧ segment_describes cs i seg c.

Definition chunk_at (base : path) (s : fs) (i : nat) : bytes :=
  match read_file (chunks_path base ++ [chunk_filename (N.of_nat i)]) s with
  | Ok c => c
  | Err _ => []
  end.

Lemma check_segments_lookup base s segs csegs i seg :
  map_res (check_segment base s) (enumerate segs) = Ok csegs → segs !! i = Some seg →
  ∃ cseg, csegs !! i = Some cseg ∧ check_segment base s (i, seg) = Ok cseg.
Proof.
  intros Hall%map_res_ok Hi. eapply Forall2_lookup_l in Hall as (cseg & ? & ?); [eauto|].
  unfold enumerate. by rewrite lookup_enumerate_from, Hi.
Qed.

Lemma check_segments_length base s segs csegs :
  map_res (check_segment base s) (enumerate segs) = Ok csegs → length csegs = length segs.
Proof.
  intros Hall%map_res_ok%Forall2_length. unfold enumerate in Hall.
  by rewrite length_enumerate_from in Hall.
Qed.

Lemma segments_ok_sound base s segs csegs :
  map_res (check_segment base s) (enumerate segs) = Ok csegs → valid_chain csegs →
  segments_ok base s segs (chunk_at base s <$> seq 0 (length segs)).
Proof.
  intros Hmap [_ Hcont]. pose proof (check_segments_length _ _ _ _ Hmap) as Hlen.
  set (cs := chunk_at base s <$> seq 0 (length segs)).
  assert (∀ i c, cs !! i = Some c → c = chunk_at base s i) as Hcs.
  { intros i c. unfold cs. rewrite list_lookup_fmap. intros (j & Hj & ->)%fmap_Some.
    apply lookup_seq in Hj as [-> _]. done. }
  assert (stored_hash <$> csegs = blake3 <$> cs) as Hhashes.
  { apply list_eq_same_length with (length segs).
    - unfold cs. by rewrite !length_fmap, length_seq.
    - by rewrite length_fmap.
    - intros i h h' Hi Hh Hh'. apply lookup_lt_is_Some in Hi as [seg Hi].
      eapply check_segments_lookup in Hmap as (cseg & Hcseg & Hck); [|done].
      rewrite list_lookup_fmap, Hcseg in Hh. injection Hh as <-.
      rewrite list_lookup_fmap in Hh'. apply fmap_Some in Hh' as (c & Hc & ->).
      apply check_segment_ok in Hck as (c' & cont & _ & Hr & _ & _ & _ & _ & ->). cbn.
      rewrite (Hcs _ _ Hc). unfold chunk_at. by rewrite Hr. }
  split; [unfold cs; by rewrite length_fmap, length_seq|]. intros i seg c Hseg Hc.
  eapply check_segments_lookup in Hmap as (cseg & Hcseg & Hck); [|done].
  apply check_segment_ok in Hck as (c' & cont & Hn & Hr & Hcap & Hh & Hd & _ & ->).
  assert (c = c') as -> by (rewrite (Hcs _ _ Hc); unfold chunk_at; by rewrite Hr).
  split_and!; [done..|]. constructor; [done..|]. rewrite Hd. f_equal.
  assert ((stored_continuity <$> csegs) !! i = Some cont) as Hci
    by by rewrite list_lookup_fmap, Hcseg.
  rewrite Hcont, Hhashes in Hci. apply chain_from_lookup in Hci as [_ ->].
  unfold tip_after. by rewrite fmap_take.
Qed.

Lemma segments_ok_complete base s segs cs :
  segments_ok base s segs cs →
  ∃ csegs, map_res (check_segment base s) (enumerate segs) = Ok csegs ∧ valid_chain csegs.
Proof.
  intros [Hlen Hall].
  set (f := λ i c, mkChainSegment i (blake3 c) (tip_after cs (S i))).
  exists (imap f cs). split.
  - apply map_res_ok, Forall2_same_length_lookup_2.
    { unfold enumerate. by rewrite length_enumerate_from, length_imap. }
    intros i [j seg] cseg Hi Hcseg. unfold enumerate in Hi.
    rewrite lookup_enumerate_from in Hi. apply fmap_Some in Hi as (seg' & Hi & [= -> ->]).
    rewrite list_lookup_imap in Hcseg. apply fmap_Some in Hcseg as (c & Hc & ->).
    destruct (Hall i seg' c Hi Hc) as (Hr & Hcap & [Hn Hh Hd]).
    apply check_segment_ok. exists c, (tip_after cs (S i)). split_and!; try done.
    apply length_chain_tip.
  - constructor.
    + intros i cseg Hi. rewrite list_lookup_imap in Hi. by apply fmap_Some in Hi as (c & _ & ->).
    + assert (stored_hash <$> imap f cs = blake3 <$> cs) as ->.
      { apply list_eq. intros i. rewrite !list_lookup_fmap, list_lookup_imap.
        by destruct (cs !! i). }
      apply list_eq. intros i. rewrite list_lookup_fmap, list_lookup_imap.
      destruct (cs !! i) as [c|] eqn:Hi; cbn; symmetry.
      * apply chain_from_lookup. rewrite length_fmap. split; [by eapply lookup_lt_Some|].
        unfold tip_after. by rewrite fmap_take.
      * apply lookup_ge_None. rewrite length_chain_from, length_fmap. by apply lookup_ge_None.
Qed.

Lemma intact_segments_ok base s m sig cs :
  intact base s m sig cs ↔
  read_manifest base s = Ok (m, sig) ∧ valid_manifest m ∧ segments_ok base s (segments m) cs
  ∧ ∀ name, is_dir (chunks_path base) s = true → name ∈ read_dir (chunks_path base) s →
      ends_with (lit ".bin") (from_utf8_lossy name) = true →
      from_utf8_lossy name ∈ chunk_file <$> segments m.
Proof.
  split.
  - intros [Hm Hv Hl Hf Hs Ho]. split_and!; [done..| |done]. split; [done|].
    intros i seg c Hi Hc. destruct (Hf i c Hc). eauto.
  - intros (Hm & Hv & [Hl Hs] & Ho). constructor; try done.
    + intros i c Hc. destruct (lookup_lt_is_Some_2 (segments m) i) as [seg Hseg].
      { rewrite <-Hl. by eapply lookup_lt_Some. }
      destruct (Hs i seg c) as (? & ? & _); done.
    + intros i seg c Hi Hc. by destruct (Hs i seg c) as (_ & _ & ?).
Qed.

Lemma validate_archive_intact base s :
  validate_archive base s = Ok tt ↔ ∃ m sig cs, intact base s m sig cs.
Proof.
  unfold validate_archive. setoid_rewrite intact_segments_ok. split.
  - intros ([m sig] & Hm & Hv)%bind_ok. apply bind_unit_ok in Hv as [Hu Hv].
    apply bind_unit_ok in Hv as [Hval Hv].
    apply bind_ok in Hv as (csegs & Hsegs & Hchain).
    apply map_err_ok, validate_chain_ok in Hchain. apply map_err_ok, validate_ok in Hval.
    exists m, sig, (chunk_at base s <$> seq 0 (length (segments m))).
    split_and!; [done..|by eapply segments_ok_sound|by apply check_unreferenced_ok].
  - intros (m & sig & cs & Hm & Hval & Hsegs & Ho).
    rewrite Hm. cbn [mbind result_bind].
    rewrite (proj2 (check_unreferenced_ok _ _ _) Ho). cbn [mbind result_bind].
    rewrite (proj2 (validate_ok m) Hval). cbn [map_err mbind result_bind].
    apply segments_ok_complete in Hsegs as (csegs & -> & Hchain). cbn [mbind result_bind].
    by rewrite (proj2 (validate_chain_ok csegs) Hchain).
Qed.

(** ** Reading back *)

Lemma read_chunks_ok base s segs cs k :
  length cs = length segs →
  (∀ i seg c, segs !! i = Some seg → cs !! i = Some c →
    chunk_file seg = chunk_filename (N.of_nat (k + i))
    ∧ read_file (chunks_path base ++ [chunk_filename (N.of_nat (k + i))]) s = Ok c
    ∧ (len_N c ≤ MAX_STORED_CHUNK_BYTES)%N) →
  map_res (read_chunk base s) (enumerate_from k segs) = Ok (enumerate_from k cs).
Proof.
  intros Hlen Hall. apply map_res_ok, Forall2_same_length_lookup_2.
  { by rewrite !length_enumerate_from. }
  intros i [j seg] [j' c]. rewrite !lookup_enumerate_from.
  intros (seg' & Hi & [= -> ->])%fmap_Some (c' & Hc & [= -> ->])%fmap_Some.
  destruct (Hall i seg' c' Hi Hc) as (Hn & Hr & Hcap). unfold read_chunk.
  rewrite (proj2 (check_chunk_name_ok _ _) Hn). cbn [mbind result_bind].
  rewrite (proj2 (open_chunk_ok _ _ _ _) Hr). cbn [mbind result_bind].
  rewrite take_N_all by lia. by rewrite (proj2 (N.leb_le _ _) Hcap).
Qed.

Lemma intact_read_archive base s m sig cs :
  intact base s m sig cs → read_archive base s = Ok (m, enumerate cs).
Proof.
  intros [Hm _ Hl Hf Hs _]. unfold read_archive, enumerate. rewrite Hm. cbn [mbind result_bind].
  rewrite (read_chunks_ok base s (segments m) cs 0); [done|done|].
  intros i seg c Hi Hc. destruct (Hf i c Hc). by destruct (Hs i seg c Hi Hc).
Qed.

(** ** Writing *)

(** How callers fill in a segment from what [push_chunk] returned. *)
Definition segment_from (out : ChunkOutcome) (seg : SegmentInfo) : Prop :=
  chunk_file seg = chunk_filename (out_index out)
  ∧ blake3_hash seg = hex_encode (out_blake3 out)
  ∧ continuity_hash seg = hex_encode (out_continuity out).

(** A manifest that can be stored with [cs] and the detached signature [sig]. *)
Record storable (m : TrstManifest) (j sig : bytes) (cs : list bytes) : Prop := {
  st_valid : valid_manifest m;
  st_segments : Forall2 segment_from (outcomes [] cs) (segments m);
  st_to_json : manifest_to_json m = Ok j;
  st_from_json : manifest_from_json j = Ok m;
  st_signature : ∀ e, signature m = Some e → e = from_utf8_lossy sig;
  st_json_cap : (len_N j ≤ MANIFEST_MAX_BYTES)%N;
  st_sig_cap : (len_N sig ≤ SIG_MAX_BYTES)%N;
  st_chunk_cap : Forall (λ c, len_N c ≤ MAX_STORED_CHUNK_BYTES)%N cs;
}.

Lemma length_outcomes pre cs : length (outcomes pre cs) = length cs.
Proof. unfold outcomes, enumerate. by rewrite length_fmap, length_enumerate_from. Qed.

Lemma storable_length m j sig cs : storable m j sig cs → length (segments m) = length cs.
Proof. intros [_ Hs%Forall2_length _ _ _ _ _ _]. by rewrite length_outcomes in Hs. Qed.

Lemma read_capped_ok p max s c :
  read_file p s = Ok c → (len_N c ≤ max)%N → read_capped p max s = Ok c.
Proof.
  intros Hr Hcap. unfold read_capped. rewrite Hr. cbn [map_err mbind result_bind].
  rewrite take_N_all by lia. by rewrite (proj2 (N.leb_le _ _) Hcap).
Qed.

Lemma archive_read_manifest base s m j sig cs :
  is_archive base s (Some j) (Some sig) cs → manifest_from_json j = Ok m →
  (∀ e, signature m = Some e → e = from_utf8_lossy sig) →
  (len_N j ≤ MANIFEST_MAX_BYTES)%N → (len_N sig ≤ SIG_MAX_BYTES)%N →
  read_manifest base s = Ok (m, sig).
Proof.
  intros [[Hb Ha Hd Hsd _] Hm Hs _ _] Hj Hsig Hjc Hsc. unfold read_manifest.
  rewrite (read_capped_ok (manifest_path base) _ _ j);
    [|apply read_file_ok; [by apply reach_child|done]|done].
  cbn [mbind result_bind]. rewrite Hj. cbn [map_err mbind result_bind].
  rewrite (read_capped_ok (sig_path base) _ _ sig);
    [|apply read_file_ok; [by apply reach_grandchild|done]|done].
  cbn [mbind result_bind]. case_match eqn:He; [|done].
  rewrite (Hsig _ eq_refl). by rewrite bool_decide_true.
Qed.

Lemma read_dir_elem (p : path) (s : fs) name :
  name ∈ read_dir p s → ∃ n, s !! (p ++ [name]) = Some n.
Proof.
  unfold read_dir. rewrite list_elem_of_omap. intros ([q n] & Hq%elem_of_map_to_list & Hn).
  cbn in Hn. case_decide as Htake; [|done].
  destruct (drop (length p) q) as [|x [|]] eqn:Hdrop; [done| |done]. injection Hn as ->.
  exists n. by rewrite <-Htake, <-Hdrop, take_drop.
Qed.

Lemma chunk_filename_ascii i : from_utf8_lossy (chunk_filename i) = chunk_filename i.
Proof.
  apply from_utf8_lossy_valid, ascii_valid. unfold chunk_filename. apply Forall_app. split.
  - pose proof (fmt_05_digits i) as Hd. rewrite forallb_Forall in Hd.
    eapply Forall_impl; [done|]. intros b. unfold is_digit, byte_in.
    rewrite !andb_true_iff, !N.leb_le. lia.
  - repeat constructor; done.
Qed.

Lemma storable_segment m j sig cs i seg c :
  storable m j sig cs → segments m !! i = Some seg → cs !! i = Some c →
  segment_describes cs i seg c.
Proof.
  intros Hst Hseg Hc. pose proof (st_segments _ _ _ _ Hst) as Hs.
  eapply Forall2_lookup_r in Hs as (out & Hout & Hn & Hh & Hd); [|done].
  unfold outcomes, enumerate in Hout.
  rewrite list_lookup_fmap, lookup_enumerate_from, Hc in Hout. injection Hout as <-.
  constructor; [done|done|]. rewrite Hd. apply hex_decode_encode.
Qed.

Lemma archive_intact base s m j sig cs :
  is_archive base s (Some j) (Some sig) cs → storable m j sig cs → intact base s m sig cs.
Proof.
  intros Har Hst. pose proof Har as [[Hb Ha Hd _ Hcd] _ _ Hc Ho]. constructor.
  - eapply archive_read_manifest; [done|apply Hst..].
  - apply Hst.
  - symmetry. by eapply storable_length.
  - intros i c Hi. split.
    + apply read_file_ok; [|by apply Hc]. rewrite chunk_path_app. by apply reach_grandchild.
    + by eapply Forall_lookup_1 in Hi; [|apply Hst].
  - intros i seg c. by eapply storable_segment.
  - intros name _ [n Hn]%read_dir_elem _. apply Ho in Hn as (i & Hi & ->).
    rewrite chunk_filename_ascii. apply list_elem_of_fmap.
    assert (i < length (segments m)) as Hi' by by erewrite storable_length.
    apply lookup_lt_is_Some in Hi' as [seg Hseg]. apply lookup_lt_is_Some in Hi as [c Hi].
    exists seg. split; [|by eapply list_elem_of_lookup_2].
    symmetry. by eapply sd_name, storable_segment.
Qed.

(** What a caller does: create, push every chunk, finalize. *)
Definition stream_archive (base : path) (cs : list bytes)
    (mk : list ChunkOutcome → TrstManifest) (sig : bytes) : io ArchiveError unit :=
  w ← create base;
  '(w', outs) ← push_all w cs;
  finalize w' (mk outs) sig.

Lemma stream_archive_ok base s cs mk j sig :
  fresh base s → (N.of_nat (length cs) ≤ u32_max)%N →
  storable (mk (outcomes [] cs)) j sig cs →
  ∃ s', stream_archive base cs mk sig s = (Ok tt, s')
    ∧ is_archive base s' (Some j) (Some sig) cs.
Proof.
  intros Hf Hlen Hst. destruct (create_ok base s Hf) as (s1 & w & E1 & Hw & Har).
  destruct (push_all_ok base cs [] s1 w None None) as (s2 & w' & E2 & Hw' & Har'); [done..|].
  destruct (finalize_ok base s2 w' cs (mk (outcomes [] cs)) j sig) as (s3 & E3 & Har3);
    [done|done|by eapply storable_length|apply Hst|apply Hst|].
  exists s3. split; [|done]. unfold stream_archive, mbind, io_bind. by rewrite E1, E2.
Qed.

(** ** Binding *)

Lemma tip_after_all cs : tip_after cs (length cs) = chain_tip genesis (blake3 <$> cs).
Proof. unfold tip_after. by rewrite firstn_all. Qed.

Lemma intact_last base s m sig cs seg :
  intact base s m sig cs → last (segments m) = Some seg →
  hex_decode (continuity_hash seg) = Some (chain_tip genesis (blake3 <$> cs)).
Proof.
  intros [_ _ Hl _ Hs _] Hlast. rewrite last_lookup in Hlast.
  pose proof Hlast as Hi%lookup_lt_Some. rewrite <-Hl in Hlast, Hi.
  destruct (lookup_lt_is_Some_2 cs (pred (length cs))) as [c Hc]; [lia|].
  destruct (Hs _ _ _ Hlast Hc) as [_ _ ->]. rewrite <-tip_after_all.
  by replace (S (pred (length cs))) with (length cs) by lia.
Qed.

Lemma blake3_list_inj (cs cs' : list bytes) : blake3 <$> cs = blake3 <$> cs' → cs = cs' ∨ Collision.
Proof.
  revert cs'; induction cs as [|c cs IH]; intros [|c' cs']; [by left|done|done|].
  rewrite !fmap_cons. intros [= Hc Hcs].
  apply blake3_inj_or_collision in Hc as [->|?]; [|by right].
  apply IH in Hcs as [->|?]; auto.
Qed.

Lemma chunks_from_tip (cs cs' : list bytes) :
  chain_tip genesis (blake3 <$> cs) = chain_tip genesis (blake3 <$> cs') →
  cs = cs' ∨ Collision.
Proof.
  intros Heq. apply chain_tip_inj in Heq as [Heq|?]; [|by right|..].
  - by apply blake3_list_inj.
  - apply Forall_fmap, Forall_true. intros c. apply length_blake3.
  - apply Forall_fmap, Forall_true. intros c. apply length_blake3.
Qed.

Lemma intact_binding base s m sig cs base' s' m' sig' cs' seg seg' :
  intact base s m sig cs → intact base' s' m' sig' cs' →
  last (segments m) = Some seg → last (segments m') = Some seg' →
  continuity_hash seg = continuity_hash seg' → cs = cs' ∨ Collision.
Proof.
  intros Hin Hin' Hl Hl' Heq. apply chunks_from_tip.
  pose proof (intact_last _ _ _ _ _ _ Hin Hl) as H1'.
  rewrite Heq, (intact_last _ _ _ _ _ _ Hin' Hl') in H1'. congruence.
Qed.
End Correct.
