(* ===== verification/VerifyChronicle.v ===== *)
(** * Verifying a chronicle

    crates/seal-cli/src/main.rs: how [wrap] links an archive to its predecessor
    ([resolve_chronicle]) and how [verify-chronicle] checks a whole chronicle:
    order, linkage, the walk over the active identities, and the cross-check
    against a witness receipt.  The file system is read, not changed.  Console
    output is the returned [ChronicleReport]; serde and the JWKS document are
    parameters. *)

From S2P Require Import Prelude External Utf8 FileSystem Json Float64 Manifest ManifestCanon.
From S2P Require Import Chain Crypto Keywrap Chronicle Archive.

(** An exit code with its message, any other error (exit code 1), or a panic. *)
Inductive CliError :=
  | CliExit (code : N) (message : bytes)
  | Anyhow (message : bytes)
  | Panicked.

(** [serde_json::from_slice::<RotationRecord>] *)
Class RotationJson := rotation_from_json : bytes → result bytes RotationRecord.

Record ChronicleLink := mkChronicleLink {
  cl_sequence : N; (* u64 *)
  cl_prev : option bytes;
  cl_key_epoch : N; (* u32 *)
  cl_state_path : option path;
}.

Inductive EntryKind :=
  | EArchive (m : TrstManifest)
  | ERotation (r : RotationRecord).

Record Entry := mkEntry {
  e_seq : N; (* u64 *)
  e_digest : bytes;
  e_prev : option bytes;
  e_path : path;
  e_kind : EntryKind;
}.

(** The variables of the active-identity walk. *)
Record Walk := mkWalk {
  active_signer : bytes;
  active_epoch : N; (* u32 *)
  rotations : nat;
  signer_at_seq : list bytes;
}.

Record ChronicleReport := mkChronicleReport {
  rep_device_pub : bytes;
  rep_count : nat;
  rep_rotations : nat;
  rep_tip_sequence : N;
  rep_tip : bytes;
  rep_current_identity : bytes;
  rep_current_epoch : N;
  rep_witnessed : option (N * bytes);
}.

(** The order on paths of one directory: bytewise on the last component. *)
Fixpoint bytes_le (a b : bytes) : bool :=
  match a, b with
  | [], _ => true
  | _ :: _, [] => false
  | x :: a', y :: b' =>
      (N_of_byte x <? N_of_byte y)%N || ((N_of_byte x =? N_of_byte y)%N && bytes_le a' b')
  end.
Fixpoint insert_bytes (x : bytes) (l : list bytes) : list bytes :=
  match l with
  | [] => [x]
  | y :: l' => if bytes_le x y then x :: y :: l' else y :: insert_bytes x l'
  end.
Definition sort_bytes (l : list bytes) : list bytes := foldr insert_bytes [] l.

Section Verify.
Context `{Blake3} `{Hex} `{Base64} `{Ed25519} `{P256} `{SerdeJson} `{SerdeValue} `{ManifestJson}
  `{StateJson} `{RotationJson} `{IoText}.

(** ** Linking a new archive *)

Definition validate_prev_hash (h : bytes) : result CliError unit :=
  ensure (match strip_prefix (lit "b3:") h with
          | Some x => (length x =? 64)%nat && forallb is_ascii_hexdigit x
          | None => false
          end) (Anyhow (lit "--prev-hash must be 'b3:<64 hex>'")).

Definition link_prev_archive (chronicle : option path) (prev_path : path) (s : fs)
    : result CliError (option ChronicleLink) :=
  '(m, _) ← map_err (λ _, Anyhow (lit "Failed to read --prev-archive: "
                                  ++ path_display prev_path)) (read_manifest prev_path s);
  prev_seq ← ok_or (sequence m) (Anyhow (lit "--prev-archive points at a non-chronicle archive (no sequence); start a chronicle with --chronicle or supply --prev-hash/--prev-seq"));
  digest ← map_err (λ e, Anyhow (manifest_error_text e)) (archive_digest m);
  Ok (Some (mkChronicleLink (wrapping_add64 prev_seq 1) (Some (format_archive_id digest))
    (default 0%N (dev_key_epoch (device m))) chronicle)).

Definition link_state (path : path) (signing_public_key : bytes) (s : fs)
    : result CliError (option ChronicleLink) :=
  if path_exists path s then
    st ← map_err (λ _, Anyhow (lit "Failed to read chronicle state: " ++ path_display path))
      (load path s);
    ensure (bool_decide (cs_device_pub st = signing_public_key))
      (Anyhow (lit "chronicle state belongs to device " ++ cs_device_pub st
        ++ lit " but wrap is signing with " ++ signing_public_key)) ≫= λ _,
    Ok (Some (mkChronicleLink (wrapping_add64 (cs_sequence st) 1) (Some (cs_tip st))
      (cs_key_epoch st) (Some path)))
  else Ok (Some (mkChronicleLink 0 None 0 (Some path))).

Definition resolve_chronicle (chronicle prev_archive : option path) (prev_hash : option bytes)
    (prev_seq : option N) (signing_public_key : bytes) (s : fs)
    : result CliError (option ChronicleLink) :=
  match prev_archive with
  | Some prev_path => link_prev_archive chronicle prev_path s
  | None =>
      match prev_hash, prev_seq with
      | Some hash, Some seq =>
          validate_prev_hash hash ≫= λ _,
          Ok (Some (mkChronicleLink (wrapping_add64 seq 1) (Some hash) 0 chronicle))
      | Some _, None | None, Some _ =>
          Err (Anyhow (lit "--prev-hash and --prev-seq must be supplied together"))
      | None, None =>
          match chronicle with
          | Some path => link_state path signing_public_key s
          | None => Ok None
          end
      end
  end.

(** ** Collecting the entries *)

Definition is_chronicle_entry_dir (dir : path) (s : fs) : bool :=
  is_file (dir ++ [lit "manifest.json"]) s || is_file (dir ++ [lit "rotation.json"]) s.

Definition entry_children (p : path) (s : fs) : list path :=
  (λ name, p ++ [name]) <$>
    sort_bytes (List.filter (λ name, is_chronicle_entry_dir (p ++ [name]) s) (read_dir p s)).

Fixpoint collect_archive_dirs (paths : list path) (s : fs) : result CliError (list path) :=
  match paths with
  | [] => Ok []
  | p :: paths' =>
      here ← (if is_chronicle_entry_dir p s then Ok [p]
              else if is_dir p s then Ok (entry_children p s)
              else Err (Anyhow (lit "not a .seal archive or directory: " ++ path_display p)));
      rest ← collect_archive_dirs paths' s;
      Ok (here ++ rest)
  end.

(** The errors carry the context that anyhow prints. *)
Definition read_rotation (dir : path) (s : fs) : result bytes RotationRecord :=
  let p := dir ++ [lit "rotation.json"] in
  b ← map_err (λ _, lit "Failed to read rotation entry: " ++ path_display p) (read_file p s);
  map_err (λ _, lit "Malformed rotation entry: " ++ path_display p) (rotation_from_json b).

Definition require_supported_version (v : bytes) : result bytes unit :=
  if decide (v = lit "0.2.0") then Ok tt
  else if decide (v = lit "0.1.0") then
    Err (lit "unsupported legacy archive format 0.1.0 (pre-C4); re-wrap with a current seal build")
  else Err (lit "unsupported archive version " ++ v ++ lit "; upgrade the seal tool").

Definition dir_exit (code : N) (dir : path) (e : bytes) : CliError :=
  CliExit code (path_display dir ++ lit ": " ++ e).

Definition read_entry (s : fs) (dir : path) : result CliError Entry :=
  if is_file (dir ++ [lit "rotation.json"]) s then
    record ← map_err (dir_exit 12 dir) (read_rotation dir s);
    map_err (dir_exit 12 dir) (require_supported_version (rr_trst_version record)) ≫= λ _,
    Ok (mkEntry (rr_sequence record) (rotation_digest record)
          (Some (rr_prev_archive_hash record)) dir (ERotation record))
  else
    '(manifest, _) ← map_err
      (λ e, dir_exit 12 dir (lit "archive read failed: " ++ archive_error_text e))
      (read_manifest dir s);
    map_err (dir_exit 12 dir) (require_supported_version (trst_version manifest)) ≫= λ _,
    seq ← ok_or (sequence manifest) (dir_exit 13 dir (lit "not a chronicle archive (no sequence)"));
    digest ← map_err (λ e, Anyhow (manifest_error_text e)) (archive_digest manifest);
    Ok (mkEntry seq digest (prev_archive_hash manifest) dir (EArchive manifest)).

(** ** Order and linkage *)

Definition check_sequence (p : nat * Entry) : result CliError unit :=
  let '(i, e) := p in
  ensure (e_seq e =? N.of_nat i)%N
    (CliExit 13 (lit "chronicle gap/disorder: expected sequence " ++ fmt_nat i ++ lit ", found "
      ++ fmt_N (e_seq e) ++ lit " (" ++ path_display (e_path e) ++ lit ")")).

Definition check_genesis (entries : list Entry) : result CliError unit :=
  match entries with
  | [] => Err Panicked (* entries[0] *)
  | e :: _ =>
      match e_kind e with
      | ERotation _ =>
          Err (CliExit 13 (lit "genesis (sequence 0) must be a content archive, not a rotation"))
      | EArchive _ => Ok tt
      end ≫= λ _,
      match e_prev e with
      | Some prev =>
          Err (CliExit 13 (lit "genesis (sequence 0) must not set prev_archive_hash (" ++ prev
            ++ lit ")"))
      | None => Ok tt
      end
  end.

(** The loop over [k] in [1..entries.len()], given the entry [k - 1]. *)
Fixpoint check_links (before : Entry) (entries : list Entry) : result CliError unit :=
  match entries with
  | [] => Ok tt
  | e :: entries' =>
      let expected := format_archive_id (e_digest before) in
      match e_prev e with
      | Some p =>
          ensure (bool_decide (p = expected))
            (CliExit 13 (lit "broken chronicle link at sequence " ++ fmt_N (e_seq e)
              ++ lit ": prev=" ++ p ++ lit ", expected=" ++ expected))
      | None =>
          Err (CliExit 13 (lit "missing prev_archive_hash at sequence " ++ fmt_N (e_seq e)))
      end ≫= λ _,
      check_links e entries'
  end.

Definition check_linkage (entries : list Entry) : result CliError unit :=
  match entries with [] => Ok tt | e :: entries' => check_links e entries' end.

(** ** The active-identity walk *)

Definition walk_archive (s : fs) (w : Walk) (e : Entry) (m : TrstManifest)
    : result CliError Walk :=
  ensure (bool_decide (dev_public_key (device m) = active_signer w))
    (dir_exit 10 (e_path e) (lit "signed by " ++ dev_public_key (device m)
      ++ lit ", but the active identity at sequence " ++ fmt_N (e_seq e) ++ lit " is "
      ++ active_signer w)) ≫= λ _,
  let epoch := default 0%N (dev_key_epoch (device m)) in
  ensure (epoch =? active_epoch w)%N
    (dir_exit 13 (e_path e) (lit "key_epoch " ++ fmt_N epoch
      ++ lit " does not match the active epoch " ++ fmt_N (active_epoch w)
      ++ lit " at sequence " ++ fmt_N (e_seq e))) ≫= λ _,
  sig ← ok_or (signature m) (dir_exit 12 (e_path e) (lit "manifest missing signature"));
  canonical ← map_err (λ e, Anyhow (manifest_error_text e)) (to_canonical_bytes m);
  sig_ok ← map_err
    (λ err, dir_exit 10 (e_path e) (lit "signature error: " ++ crypto_error_text err))
    (verify_manifest (active_signer w) canonical sig);
  ensure sig_ok (dir_exit 10 (e_path e) (lit "signature verification failed")) ≫= λ _,
  map_err (λ err, dir_exit 11 (e_path e) (lit "continuity failed: " ++ archive_error_text err))
    (validate_archive (e_path e) s) ≫= λ _,
  Ok w.

Definition walk_rotation (w : Walk) (e : Entry) (r : RotationRecord) : result CliError Walk :=
  ensure (bool_decide (old_public_key (rr_old r) = active_signer w))
    (dir_exit 13 (e_path e) (lit "rotation supersedes " ++ old_public_key (rr_old r)
      ++ lit ", but the active identity at sequence " ++ fmt_N (e_seq e) ++ lit " is "
      ++ active_signer w)) ≫= λ _,
  ensure (old_key_epoch (rr_old r) =? active_epoch w)%N
    (dir_exit 13 (e_path e) (lit "rotation old epoch " ++ fmt_N (old_key_epoch (rr_old r))
      ++ lit " does not match active epoch " ++ fmt_N (active_epoch w)
      ++ lit " at sequence " ++ fmt_N (e_seq e))) ≫= λ _,
  ensure (rotation_verify r)
    (dir_exit 10 (e_path e) (lit "rotation co-signature/epoch verification failed")) ≫= λ _,
  Ok (mkWalk (new_public_key (rr_new r)) (new_key_epoch (rr_new r)) (S (rotations w))
        (signer_at_seq w)).

Definition walk_entry (s : fs) (w : Walk) (e : Entry) : result CliError Walk :=
  w' ← match e_kind e with
       | EArchive m => walk_archive s w e m
       | ERotation r => walk_rotation w e r
       end;
  Ok (mkWalk (active_signer w') (active_epoch w') (rotations w')
        (signer_at_seq w' ++ [active_signer w'])).

Fixpoint walk_entries (s : fs) (w : Walk) (entries : list Entry) : result CliError Walk :=
  match entries with
  | [] => Ok w
  | e :: entries' => w' ← walk_entry s w e; walk_entries s w' entries'
  end.

Definition initial_walk (device_pub : bytes) : Walk := mkWalk device_pub 0 0 [].

(** ** The witness cross-check *)

(** [arr[i]]: a panic when out of bounds. *)
Definition index_or_panic {A} (l : list A) (i : N) : result CliError A :=
  ok_or (l !! N.to_nat i) Panicked.

Definition check_witness (entries : list Entry) (signers : list bytes) (tip_seq : N)
    (receipt : bytes * N * bytes) : result CliError (N * bytes) :=
  let '(w_dev, w_seq, w_tip) := receipt in
  ensure (negb (tip_seq <? w_seq)%N)
    (CliExit 13 (lit "local chronicle tip (sequence " ++ fmt_N tip_seq
      ++ lit ") is BEHIND the witnessed tip (sequence " ++ fmt_N w_seq
      ++ lit ") — archives after " ++ fmt_N tip_seq ++ lit " are missing (tail deletion)")) ≫= λ _,
  expected_signer ← index_or_panic signers w_seq;
  ensure (bool_decide (w_dev = expected_signer))
    (CliExit 13 (lit "witness receipt is for device " ++ w_dev
      ++ lit ", but the active identity at sequence " ++ fmt_N w_seq ++ lit " is "
      ++ expected_signer)) ≫= λ _,
  e ← index_or_panic entries w_seq;
  let local_at_wseq := format_archive_id (e_digest e) in
  ensure (bool_decide (w_tip = local_at_wseq))
    (CliExit 13 (lit "tip mismatch at sequence " ++ fmt_N w_seq ++ lit ": local "
      ++ local_at_wseq ++ lit " vs witnessed " ++ w_tip)) ≫= λ _,
  Ok (w_seq, w_tip).

(** ** Witness receipts *)

Definition decode_part (p : bytes) : result CliError bytes :=
  ok_or (base64url_decode p) (Anyhow (base64_error p)).
Definition get_str (v : value) (k : string) : option bytes := value_get v (lit k) ≫= as_str.
Definition dot : byte := byte_of_N 46.

(** The JWKS key that the receipt's [kid] names. *)
Definition select_key (kid : option bytes) (jwks : value) : result CliError bytes :=
  keys ← ok_or (value_get jwks (lit "keys") ≫= as_array) (Anyhow (lit "JWKS has no 'keys' array"));
  key ← ok_or (List.find (λ k, bool_decide (kid = None) || bool_decide (get_str k "kid" = kid)) keys)
    (Anyhow (lit "no JWKS key matches the receipt's kid"));
  ok_or (get_str key "x") (Anyhow (lit "JWKS key missing 'x'")).

(** The claims of a receipt whose signature is good. *)
Definition receipt_claims (payload : value) : result CliError (bytes * N * bytes) :=
  match get_str payload "typ" with
  | Some typ => ensure (bool_decide (typ = lit "witness"))
      (Anyhow (lit "receipt 'typ' is '" ++ typ ++ lit "', expected 'witness'"))
  | None => Ok tt
  end ≫= λ _,
  let body := default payload (value_get payload (lit "witness")) in
  device_pub ← ok_or (match get_str body "device_pub" with
                      | Some d => Some d | None => get_str payload "sub" end)
    (Anyhow (lit "witness receipt missing device identity (device_pub/sub)"));
  seq ← ok_or (value_get body (lit "sequence") ≫= as_u64_value)
    (Anyhow (lit "witness receipt missing 'sequence'"));
  tip ← ok_or (get_str body "tip") (Anyhow (lit "witness receipt missing 'tip'"));
  Ok (device_pub, seq, tip).

Definition verify_witness_receipt_jws (token jwks_json : bytes)
    : result CliError (bytes * N * bytes) :=
  match split_on dot (trim token) with
  | [p0; p1; p2] =>
      hb ← decode_part p0;
      header ← map_err (λ _, Anyhow (lit "Failed to decode JWS header")) (value_from_str hb);
      jwks ← map_err (λ _, Anyhow (lit "Failed to parse JWKS")) (value_from_str jwks_json);
      x ← select_key (get_str header "kid") jwks;
      xb ← decode_part x;
      sb ← decode_part p2;
      sig_ok ← map_err (λ e, Anyhow (crypto_error_text e))
        (verify_manifest (ed_prefix ++ base64_encode xb) (p0 ++ [dot] ++ p1)
           (ed_prefix ++ base64_encode sb));
      ensure sig_ok (Anyhow (lit "witness receipt signature is invalid")) ≫= λ _,
      pb ← decode_part p1;
      payload ← map_err (λ _, Anyhow (lit "Failed to decode JWS payload")) (value_from_str pb);
      receipt_claims payload
  | _ => Err (Anyhow (lit "witness receipt is not a JWS (expected 3 dot-separated parts)"))
  end.

(** ** The command *)

Definition normalize_device_pub (k : bytes) : bytes :=
  if starts_with ed_prefix k || starts_with ecdsa_prefix k then k else ed_prefix ++ k.

(** The entries in sequence order, with order, genesis and links checked. *)
Definition load_entries (paths : list path) (s : fs) : result CliError (list Entry) :=
  archive_dirs ← collect_archive_dirs paths s;
  ensure (match archive_dirs with [] => false | _ => true end)
    (CliExit 12 (lit "No .seal archives found in the given paths")) ≫= λ _,
  read ← map_res (read_entry s) archive_dirs;
  let entries := sort_by_key e_seq read in
  for_each check_sequence (enumerate entries) ≫= λ _,
  check_genesis entries ≫= λ _,
  check_linkage entries ≫= λ _,
  Ok entries.

(** [receipt] is the token and the JWKS text, when [--witness] is given. *)
Definition handle_verify_chronicle (paths : list path) (device_pub_arg : bytes)
    (receipt : option (bytes * bytes)) (s : fs) : result CliError ChronicleReport :=
  let device_pub := normalize_device_pub device_pub_arg in
  entries ← load_entries paths s;
  w ← walk_entries s (initial_walk device_pub) entries;
  last_e ← ok_or (last entries) Panicked;
  let tip := format_archive_id (e_digest last_e) in
  let tip_seq := e_seq last_e in
  witnessed ← match receipt with
              | None => Ok None
              | Some (token, jwks) =>
                  claims ← verify_witness_receipt_jws token jwks;
                  r ← check_witness entries (signer_at_seq w) tip_seq claims;
                  Ok (Some r)
              end;
  Ok (mkChronicleReport device_pub (length entries) (rotations w) tip_seq tip
        (active_signer w) (active_epoch w) witnessed).
End Verify.
