(* ===== verification/VerifyChronicleCorrect.v ===== *)
(** * Correctness of chronicle verification

    What [handle_verify_chronicle] accepts ([chronicle_ok]), that a tip commits
    to the whole history before it, and what a witness receipt adds. *)

From S2P Require Import Prelude External Utf8 FileSystem Json Float64 Manifest ManifestCanon.
From S2P Require Import Chain Crypto Keywrap Chronicle Archive VerifyChronicle.

(** ** No panic *)

Definition no_panic {A} (r : result CliError A) : Prop := r ≠ Err Panicked.

Lemma np_ok {A} (a : A) : no_panic (Ok a).
Proof. done. Qed.
Lemma np_err {A} e : e ≠ Panicked → no_panic (@Err CliError A e).
Proof. unfold no_panic. congruence. Qed.
Lemma np_bind {A B} (m : result CliError A) (f : A → result CliError B) :
  no_panic m → (∀ a, m = Ok a → no_panic (f a)) → no_panic (m ≫= f).
Proof.
  unfold no_panic. intros Hm Hf. destruct m as [a|e]; cbn; [by apply Hf|]. congruence.
Qed.
Lemma np_ensure c e : e ≠ Panicked → no_panic (ensure c e).
Proof. unfold no_panic. destruct c; cbn; congruence. Qed.
Lemma np_ok_or {A} (o : option A) e : e ≠ Panicked → no_panic (ok_or o e).
Proof. unfold no_panic. destruct o; cbn; congruence. Qed.
Lemma np_map_err {E A} (f : E → CliError) (r : result E A) :
  (∀ e, f e ≠ Panicked) → no_panic (map_err f r).
Proof. unfold no_panic. destruct r as [|e]; cbn; [done|]. intros Hf. specialize (Hf e). congruence. Qed.
Lemma np_for_each {A} (f : A → result CliError unit) l :
  (∀ x, no_panic (f x)) → no_panic (for_each f l).
Proof. intros Hf. induction l; cbn [for_each]; [done|]. apply np_bind; auto. Qed.
Lemma np_map_res {A B} (f : A → result CliError B) l :
  (∀ x, no_panic (f x)) → no_panic (map_res f l).
Proof.
  intros Hf. induction l; cbn [map_res]; [done|]. apply np_bind; [done|]. intros.
  apply np_bind; [done|]. done.
Qed.

Ltac np_step :=
  first [ apply np_ok | apply np_err; discriminate | apply np_ensure; discriminate
        | apply np_ok_or; discriminate | apply np_map_err; discriminate
        | apply np_bind; [|intros ? ?] ].
Ltac solve_np := repeat first [ np_step | case_match ].

Section Correct.
Context `{Blake3Laws} `{HexLaws} `{Base64Laws} `{Ed25519Laws} `{P256} `{HpkeLaws} `{SerdeJsonLaws}
  `{SerdeValue} `{ManifestJson} `{StateJson} `{RotationJson} `{IoText}.

(** ** Entries and their signed documents *)

(** The bytes an entry's digest is taken over. *)
Definition entry_doc (e : Entry) : bytes :=
  match e_kind e with
  | EArchive m => jprint (manifest_json (set_sig None m))
  | ERotation r => rotation_signing_bytes r
  end.

(** The fields of an entry are those of its document. *)
Record entry_wf (e : Entry) : Prop := {
  ew_digest : e_digest e = blake3 (entry_doc e);
  ew_prev : e_prev e = match e_kind e with
                       | EArchive m => prev_archive_hash m
                       | ERotation r => Some (rr_prev_archive_hash r)
                       end;
  ew_seq : Some (e_seq e) = match e_kind e with
                            | EArchive m => sequence m
                            | ERotation r => Some (rr_sequence r)
                            end;
}.

Lemma read_entry_wf s dir e : read_entry s dir = Ok e → entry_wf e ∧ e_path e = dir.
Proof.
  unfold read_entry. case_match.
  - intros Hr. apply bind_ok in Hr as (r & _ & Hr). apply bind_ok in Hr as (? & _ & Hr).
    by apply Ok_inj in Hr as <-.
  - intros Hr. apply bind_ok in Hr as ([m sig] & _ & Hr). apply bind_ok in Hr as (? & _ & Hr).
    apply bind_ok in Hr as (q & Hq%ok_or_ok & Hr). apply bind_ok in Hr as (d & Hd & Hr).
    apply Ok_inj in Hr as <-. rewrite archive_digest_eq in Hd. cbn [map_err] in Hd.
    apply Ok_inj in Hd as <-. by split.
Qed.

(** Documents of two archives determine the links. *)
Lemma manifest_json_link m m' :
  manifest_json m = manifest_json m' → prev_archive_hash m = prev_archive_hash m'.
Proof. intros Heq. unfold manifest_json in Heq. peel_members Heq. by field_eqs. Qed.

Lemma manifest_not_rotation m r : manifest_json m ≠ rotation_json r.
Proof.
  intros Heq. unfold rotation_json, manifest_json in Heq.
  apply JObj_inj in Heq. rewrite <-!app_assoc in Heq.
  apply jfield_app_inj in Heq as [_ Heq]. member_clash Heq.
Qed.

Lemma entry_doc_prev e e' :
  entry_wf e → entry_wf e' → entry_doc e = entry_doc e' → e_prev e = e_prev e'.
Proof.
  intros [_ -> _] [_ -> _]. unfold entry_doc.
  destruct (e_kind e) as [m|r], (e_kind e') as [m'|r'];
    rewrite ?rotation_print; intros Heq%jprint_inj; auto using manifest_json_wf, rotation_json_wf.
  - by apply manifest_json_link in Heq.
  - by apply manifest_not_rotation in Heq.
  - symmetry in Heq. by apply manifest_not_rotation in Heq.
  - apply rotation_json_inj in Heq. by injection Heq as ??? -> ???.
Qed.

(** ** Order and linkage *)

Record well_linked (es : list Entry) : Prop := {
  wl_sequence i e : es !! i = Some e → e_seq e = N.of_nat i;
  wl_genesis e : es !! 0 = Some e → e_prev e = None ∧ ∃ m, e_kind e = EArchive m;
  wl_link i e e' : es !! i = Some e → es !! S i = Some e' →
    e_prev e' = Some (format_archive_id (e_digest e));
}.

Lemma check_sequences_ok es :
  for_each check_sequence (enumerate es) = Ok tt ↔
  ∀ i e, es !! i = Some e → e_seq e = N.of_nat i.
Proof.
  rewrite for_each_ok. unfold enumerate. rewrite Forall_enumerate_from.
  unfold check_sequence. setoid_rewrite ensure_ok. by setoid_rewrite N.eqb_eq.
Qed.

Lemma check_links_ok before es :
  check_links before es = Ok tt ↔
  ∀ i e e', (before :: es) !! i = Some e → es !! i = Some e' →
    e_prev e' = Some (format_archive_id (e_digest e)).
Proof.
  revert before; induction es as [|x es IH]; intros before; cbn [check_links].
  { split; [intros _ i e e' _ Hn; by rewrite lookup_nil in Hn|done]. }
  rewrite bind_unit_ok, IH.
  assert (match e_prev x with
    | Some p => ensure (bool_decide (p = format_archive_id (e_digest before)))
        (CliExit 13 (lit "broken chronicle link at sequence " ++ fmt_N (e_seq x) ++ lit ": prev="
           ++ p ++ lit ", expected=" ++ format_archive_id (e_digest before)))
    | None => Err (CliExit 13 (lit "missing prev_archive_hash at sequence " ++ fmt_N (e_seq x)))
    end = Ok tt ↔ e_prev x = Some (format_archive_id (e_digest before))) as ->.
  { destruct (e_prev x) as [p|]; [|done]. rewrite ensure_ok, bool_decide_eq_true. naive_solver. }
  split.
  - intros [Hx Hes] [|i] e e' He He'; [by simplify_eq/=|]. by apply (Hes i).
  - intros Hall. split; [by apply (Hall 0)|]. intros i e e' He He'. by apply (Hall (S i)).
Qed.

Lemma check_linkage_ok es :
  check_linkage es = Ok tt ↔
  ∀ i e e', es !! i = Some e → es !! S i = Some e' →
    e_prev e' = Some (format_archive_id (e_digest e)).
Proof.
  destruct es as [|x es]; [by split|]. unfold check_linkage. by rewrite check_links_ok.
Qed.

Lemma check_genesis_ok es :
  check_genesis es = Ok tt ↔
  ∃ e, es !! 0 = Some e ∧ e_prev e = None ∧ ∃ m, e_kind e = EArchive m.
Proof.
  destruct es as [|e es]; [split; [done|by intros (? & ? & _)]|]. unfold check_genesis.
  rewrite bind_unit_ok. split.
  - intros [Hk Hp]. exists e. destruct (e_kind e), (e_prev e); eauto; done.
  - intros (e' & [= <-] & -> & m & ->). done.
Qed.

(** The directories hold entries that, in sequence order, are well linked. *)
Record loads (paths : list path) (s : fs) (es : list Entry) : Prop := {
  ld_nonempty : es ≠ [];
  ld_read : ∃ dirs read, collect_archive_dirs paths s = Ok dirs
    ∧ map_res (read_entry s) dirs = Ok read ∧ es = sort_by_key e_seq read;
  ld_linked : well_linked es;
}.

Lemma load_entries_ok paths s es : load_entries paths s = Ok es ↔ loads paths s es.
Proof.
  unfold load_entries. split.
  - intros (dirs & Hd & Hl)%bind_ok. apply bind_ok in Hl as ([] & Hne%ensure_ok & Hl).
    apply bind_ok in Hl as (read & Hr & Hl). cbv zeta in Hl.
    apply bind_ok in Hl as ([] & Hs & Hl). apply bind_ok in Hl as ([] & Hg & Hl).
    apply bind_ok in Hl as ([] & Hk & Hl). apply Ok_inj in Hl as <-.
    rewrite check_sequences_ok in Hs. apply check_genesis_ok in Hg. rewrite check_linkage_ok in Hk.
    destruct Hg as (e0 & He0 & Hg). constructor; [by intros Hnil; rewrite Hnil in He0|by eauto 10|].
    constructor; [done| |done]. intros e He. by simplify_eq.
  - intros [Hne (dirs & read & Hd & Hr & ->) [Hs Hg Hk]]. rewrite Hd. cbn [mbind result_bind].
    destruct dirs as [|d dirs].
    { cbn in Hr. apply Ok_inj in Hr as <-. done. }
    cbn [ensure]. cbn [mbind result_bind]. rewrite Hr. cbn [mbind result_bind].
    rewrite (proj2 (check_sequences_ok _) Hs). cbn [mbind result_bind].
    rewrite (proj2 (check_genesis_ok _)).
    + cbn [mbind result_bind]. by rewrite (proj2 (check_linkage_ok _) Hk).
    + destruct (sort_by_key e_seq read) as [|e es] eqn:E; [done|].
      exists e. split; [done|]. by apply Hg.
Qed.

Lemma loads_wf paths s es : loads paths s es → Forall entry_wf es.
Proof.
  intros [_ (dirs & read & _ & Hr & ->) _]. rewrite sort_by_key_perm.
  apply map_res_ok in Hr. induction Hr as [|d e ds es Hd _ IH]; constructor; [|done].
  by eapply read_entry_wf.
Qed.

(** ** The tip commits to the history *)

Lemma well_linked_snoc es e : well_linked (es ++ [e]) → well_linked es.
Proof.
  intros [Hs Hg Hk]. constructor.
  - intros i x Hi. apply Hs. by apply lookup_app_l_Some.
  - intros x Hx. apply Hg. by apply lookup_app_l_Some.
  - intros i x y Hx Hy. apply (Hk i); by apply lookup_app_l_Some.
Qed.

(** The link of the last entry. *)
Lemma well_linked_last es e :
  well_linked (es ++ [e]) → e_prev e = (λ x, format_archive_id (e_digest x)) <$> last es.
Proof.
  intros [_ Hg Hk]. destruct es as [|x es _] using rev_ind; [by apply Hg|].
  rewrite last_snoc. cbn [fmap option_fmap option_map]. apply (Hk (length es)).
  - rewrite <-app_assoc, lookup_app_r, Nat.sub_diag by lia. done.
  - rewrite lookup_app_r; rewrite length_app; cbn [length]; [|lia].
    by replace (S (length es) - (length es + 1)) with 0 by lia.
Qed.

Lemma history_binding es es' e e' :
  well_linked es → well_linked es' → Forall entry_wf es → Forall entry_wf es' →
  last es = Some e → last es' = Some e' → e_digest e = e_digest e' →
  entry_doc <$> es = entry_doc <$> es' ∨ Collision.
Proof.
  revert es' e e'. induction es as [|x es IH] using rev_ind; [done|].
  intros es' e e' Hl Hl' Hwf Hwf' Hlast Hlast' Hd.
  destruct es' as [|x' es' _] using rev_ind; [done|].
  rewrite last_snoc in Hlast, Hlast'. injection Hlast as ->. injection Hlast' as ->.
  rewrite Forall_app, Forall_singleton in Hwf, Hwf'. destruct Hwf as [Hwf Hx], Hwf' as [Hwf' Hx'].
  rewrite (ew_digest _ Hx), (ew_digest _ Hx') in Hd.
  apply blake3_inj_or_collision in Hd as [Hd|?]; [|by right].
  pose proof (entry_doc_prev _ _ Hx Hx' Hd) as Hp.
  rewrite (well_linked_last _ _ Hl), (well_linked_last _ _ Hl') in Hp.
  rewrite !fmap_app. cbn [fmap list_fmap]. rewrite Hd.
  destruct (last es) as [y|] eqn:Hy, (last es') as [y'|] eqn:Hy'; [|done|done|].
  - injection Hp as Hp. apply hex_encode_inj in Hp.
    apply well_linked_snoc in Hl, Hl'. destruct (IH es' y y') as [->|?]; auto.
  - apply last_None in Hy as ->. apply last_None in Hy' as ->. by left.
Qed.

(** ** The active-identity walk *)

(** An archive entry under the identity [k] at epoch [ep]. *)
Record archive_by (s : fs) (k : bytes) (ep : N) (e : Entry) (m : TrstManifest) : Prop := {
  ab_signer : dev_public_key (device m) = k;
  ab_epoch : default 0%N (dev_key_epoch (device m)) = ep;
  ab_signed : ∃ sig, signature m = Some sig
    ∧ signed_by k (jprint (manifest_json (set_sig None m))) sig;
  ab_intact : validate_archive (e_path e) s = Ok tt;
}.

(** A rotation away from the identity [k] at epoch [ep]. *)
Record rotation_from (k : bytes) (ep : N) (r : RotationRecord) : Prop := {
  rf_old : old_public_key (rr_old r) = k;
  rf_epoch : old_key_epoch (rr_old r) = ep;
  rf_verified : rotation_verify r = true;
}.

(** [active s g es k ep n]: starting from the identity [g], the entries [es] lead to
    the identity [k] at epoch [ep] through [n] rotations. *)
Inductive active (s : fs) (g : bytes) : list Entry → bytes → N → nat → Prop :=
  | active_genesis : active s g [] g 0 0
  | active_archive es k ep n e m :
      active s g es k ep n → e_kind e = EArchive m → archive_by s k ep e m →
      active s g (es ++ [e]) k ep n
  | active_rotation es k ep n e r :
      active s g es k ep n → e_kind e = ERotation r → rotation_from k ep r →
      active s g (es ++ [e]) (new_public_key (rr_new r)) (new_key_epoch (rr_new r)) (S n).

(** The identity after each entry. *)
Definition next_signer (k : bytes) (e : Entry) : bytes :=
  match e_kind e with EArchive _ => k | ERotation r => new_public_key (rr_new r) end.
Fixpoint signers (k : bytes) (es : list Entry) : list bytes :=
  match es with [] => [] | e :: es' => next_signer k e :: signers (next_signer k e) es' end.

Lemma next_signer_archive k e m : e_kind e = EArchive m → next_signer k e = k.
Proof. unfold next_signer. by intros ->. Qed.
Lemma next_signer_rotation k e r :
  e_kind e = ERotation r → next_signer k e = new_public_key (rr_new r).
Proof. unfold next_signer. by intros ->. Qed.

Lemma signers_snoc k es e :
  signers k (es ++ [e]) = signers k es ++ [next_signer (foldl next_signer k es) e].
Proof. revert k; induction es as [|x es IH]; intros k; cbn; [done|]. f_equal. apply IH. Qed.

Lemma length_signers k es : length (signers k es) = length es.
Proof. revert k; induction es; intros; cbn; auto. Qed.

Lemma walk_archive_ok s w e m w' :
  walk_archive s w e m = Ok w' ↔
  w' = w ∧ archive_by s (active_signer w) (active_epoch w) e m.
Proof.
  unfold walk_archive. rewrite to_canonical_bytes_print. split.
  - intros Hw. inv_ok. cbn [map_err] in *. inv_ok. subst.
    match goal with E : bool_decide _ = true |- _ => apply bool_decide_eq_true in E end.
    match goal with E : (_ =? _)%N = true |- _ => apply N.eqb_eq in E end.
    repeat match goal with u : unit |- _ => destruct u end.
    split; [done|]. constructor; [done|done| |done]. eexists. split; [done|].
    by apply verify_manifest_ok.
  - intros [-> [Hk He (sig & Hsig & Hv%verify_manifest_ok) Hi]].
    rewrite bool_decide_true by done. cbn [ensure mbind result_bind].
    rewrite (proj2 (N.eqb_eq _ _) He). cbn [ensure mbind result_bind].
    rewrite Hsig. cbn [ok_or map_err mbind result_bind]. rewrite Hv. cbn [map_err ensure mbind result_bind].
    by rewrite Hi.
Qed.

Lemma walk_rotation_ok w e r w' :
  walk_rotation w e r = Ok w' ↔
  w' = mkWalk (new_public_key (rr_new r)) (new_key_epoch (rr_new r)) (S (rotations w))
         (signer_at_seq w)
  ∧ rotation_from (active_signer w) (active_epoch w) r.
Proof.
  unfold walk_rotation. split.
  - intros Hw. inv_ok.
    match goal with E : bool_decide _ = true |- _ => apply bool_decide_eq_true in E end.
    match goal with E : (_ =? _)%N = true |- _ => apply N.eqb_eq in E end.
    split; [done|]. by constructor.
  - intros [-> [Hk He Hv]]. rewrite bool_decide_true by done. cbn [ensure mbind result_bind].
    rewrite (proj2 (N.eqb_eq _ _) He). cbn [ensure mbind result_bind]. by rewrite Hv.
Qed.

Lemma walk_entries_snoc s w es e :
  walk_entries s w (es ++ [e]) = (w' ← walk_entries s w es; walk_entry s w' e).
Proof.
  revert w; induction es as [|x es IH]; intros w; cbn [app walk_entries].
  - cbn [mbind result_bind]. by destruct (walk_entry s w e).
  - destruct (walk_entry s w x) as [w'|]; cbn [mbind result_bind]; [apply IH|done].
Qed.

Lemma active_signer_eq s g es k ep n : active s g es k ep n → k = foldl next_signer g es.
Proof.
  induction 1 as [|es k ep n e m _ IH Hk _|es k ep n e r _ IH Hk _]; [done|..];
    rewrite foldl_snoc; unfold next_signer at 1; rewrite Hk; done.
Qed.

(** Epochs count the rotations. *)
Lemma active_epoch_count s g es k ep n : active s g es k ep n → ep = N.of_nat n.
Proof.
  induction 1 as [|es k ep n e m _ IH _ _|es k ep n e r _ IH _ [_ He Hv]]; [done|done|].
  apply rotation_verify_ok in Hv as (_ & -> & _). lia.
Qed.

(** The walk computes the active identity, and accepts exactly when there is one. *)
Lemma walk_entries_ok s g es w :
  walk_entries s (initial_walk g) es = Ok w ↔
  active s g es (active_signer w) (active_epoch w) (rotations w)
  ∧ active_signer w = foldl next_signer g es ∧ signer_at_seq w = signers g es.
Proof.
  revert w. induction es as [|e es IH] using rev_ind; intros w.
  { cbn. split; [intros <-%Ok_inj; split_and!; [constructor|done|done]|].
    intros (Ha & Hk & Hs). destruct w as [k ep n l]. cbn in *. subst.
    inv Ha; [done|by destruct es..]. }
  rewrite walk_entries_snoc, bind_ok, foldl_snoc, signers_snoc. split.
  - intros (w1 & (Ha & Hk & Hs)%IH & Hw). unfold walk_entry in Hw.
    apply bind_ok in Hw as (w2 & Hw2 & Hw). apply Ok_inj in Hw as <-. cbn.
    unfold next_signer at 1 3. destruct (e_kind e) as [m|r] eqn:Hkind.
    + apply walk_archive_ok in Hw2 as [-> Hby]. rewrite <-Hk, Hs.
      split_and!; [by eapply active_archive|done|done].
    + apply walk_rotation_ok in Hw2 as [-> Hrf]. cbn. rewrite Hs.
      split_and!; [by eapply active_rotation|done|done].
  - destruct w as [k ep n l]. cbn [active_signer active_epoch rotations signer_at_seq].
    intros (Ha & Hk & ->).
    remember (es ++ [e]) as es1 eqn:Hes.
    destruct Ha as [|es0 k ep n e0 m Ha Hkind Hby|es0 k ep n e0 r Ha Hkind Hrf];
      [by destruct es|..]; apply app_inj_2 in Hes as [-> [= ->]]; try done;
      pose proof (active_signer_eq _ _ _ _ _ _ Ha) as Hk0;
      clear Hk; subst k;
      exists (mkWalk (foldl next_signer g es) ep n (signers g es));
      (split; [apply IH; by split_and!|]); unfold walk_entry; rewrite Hkind.
    + rewrite (proj2 (walk_archive_ok _ _ _ _ _)) by (split; [reflexivity|done]).
      cbn. rewrite (next_signer_archive _ e m) by done. done.
    + rewrite (proj2 (walk_rotation_ok _ _ _ _)) by (split; [reflexivity|done]).
      cbn. rewrite (next_signer_rotation _ e r) by done. done.
Qed.

(** ** The command *)

(** What a receipt with the claims [(dev, q, t)] says about the entries. *)
Record witnessed_by (g : bytes) (es : list Entry) (dev : bytes) (q : N) (t : bytes) : Prop := {
  wb_signer : signers g es !! N.to_nat q = Some dev;
  wb_tip : ∃ e, es !! N.to_nat q = Some e ∧ t = format_archive_id (e_digest e);
}.

Definition receipt_ok (g : bytes) (es : list Entry) (receipt : option (bytes * bytes))
    (witnessed : option (N * bytes)) : Prop :=
  match receipt with
  | None => witnessed = None
  | Some (token, jwks) => ∃ dev q t,
      verify_witness_receipt_jws token jwks = Ok (dev, q, t) ∧ witnessed = Some (q, t)
      ∧ witnessed_by g es dev q t
  end.

Record chronicle_ok (paths : list path) (g : bytes) (receipt : option (bytes * bytes)) (s : fs)
    (es : list Entry) (rep : ChronicleReport) : Prop := {
  co_device : rep_device_pub rep = g;
  co_loads : loads paths s es;
  co_active : active s g es (rep_current_identity rep) (rep_current_epoch rep) (rep_rotations rep);
  co_count : rep_count rep = length es;
  co_tip : ∃ e, last es = Some e ∧ rep_tip_sequence rep = e_seq e
    ∧ rep_tip rep = format_archive_id (e_digest e);
  co_receipt : receipt_ok g es receipt (rep_witnessed rep);
}.

Lemma last_sequence es e :
  well_linked es → last es = Some e → (e_seq e = N.of_nat (length es) - 1)%N ∧ es ≠ [].
Proof.
  intros [Hs _ _] Hl. rewrite last_lookup in Hl. pose proof Hl as Hlt%lookup_lt_Some.
  apply Hs in Hl as ->. split; [lia|]. intros ->. simpl in Hlt. lia.
Qed.

Lemma check_witness_ok g es e dev q t r :
  well_linked es → last es = Some e →
  check_witness es (signers g es) (e_seq e) (dev, q, t) = Ok r ↔
  r = (q, t) ∧ witnessed_by g es dev q t.
Proof.
  intros Hl He. destruct (last_sequence es e Hl He) as [Hseq Hne].
  unfold check_witness, index_or_panic. split.
  - intros Hc. inv_ok.
    repeat match goal with E : bool_decide _ = true |- _ => apply bool_decide_eq_true in E end.
    subst. split; [done|]. constructor; [done|]. eauto.
  - intros [-> [Hsg (x & Hx & ->)]].
    assert (¬ (e_seq e < q)%N) as Hq.
    { apply lookup_lt_Some in Hx. lia. }
    rewrite (proj2 (N.ltb_ge _ _)) by lia. cbn [negb ensure mbind result_bind].
    rewrite Hsg. cbn [ok_or mbind result_bind]. rewrite bool_decide_true by done.
    cbn [ensure mbind result_bind]. rewrite Hx. cbn [ok_or mbind result_bind].
    by rewrite bool_decide_true by done.
Qed.

Lemma verify_chronicle_ok paths arg receipt s rep :
  handle_verify_chronicle paths arg receipt s = Ok rep ↔
  ∃ es, chronicle_ok paths (normalize_device_pub arg) receipt s es rep.
Proof.
  unfold handle_verify_chronicle. set (g := normalize_device_pub arg). split.
  - intros (es & Hes%load_entries_ok & Hv)%bind_ok.
    apply bind_ok in Hv as (w & Hw%walk_entries_ok & Hv). destruct Hw as (Ha & Hk & Hsg).
    apply bind_ok in Hv as (e & He%ok_or_ok & Hv). cbv zeta in Hv.
    apply bind_ok in Hv as (wt & Hwt & Hv). apply Ok_inj in Hv as <-. exists es.
    constructor; [done|done|done|done|by eauto|]. cbn [rep_witnessed]. unfold receipt_ok.
    destruct receipt as [[token jwks]|]; [|by apply Ok_inj in Hwt].
    apply bind_ok in Hwt as ([[dev q] t] & Hj & Hwt). apply bind_ok in Hwt as (r & Hr & Hwt).
    apply Ok_inj in Hwt as <-. rewrite Hsg in Hr.
    apply check_witness_ok in Hr as [-> Hr]; [eauto 10|apply Hes|done].
  - intros [es [Hdev Hes Ha Hc (e & He & Hts & Htip) Hr]].
    rewrite (proj2 (load_entries_ok _ _ _) Hes). cbn [mbind result_bind].
    rewrite (proj2 (walk_entries_ok s g es (mkWalk (rep_current_identity rep)
      (rep_current_epoch rep) (rep_rotations rep) (signers g es)))).
    2: { split_and!; [done|by eapply active_signer_eq|done]. }
    cbn [mbind result_bind]. rewrite He. cbn [ok_or mbind result_bind]. cbv zeta.
    destruct rep as [dp cnt nrot ts tip ci ce wt]. cbn in *. subst. unfold receipt_ok in Hr.
    destruct receipt as [[token jwks]|]; [|by subst].
    destruct Hr as (dev & q & t & Hj & -> & Hw). rewrite Hj. cbn [mbind result_bind].
    rewrite (proj2 (check_witness_ok g es e dev q t (q, t) (ld_linked _ _ _ Hes) He)) by done.
    done.
Qed.

(** ** Consequences *)

(** Two chronicles that verify with the same tip have the same signed history. *)
Lemma tip_binding paths arg receipt s rep paths' arg' receipt' s' rep' es es' :
  chronicle_ok paths arg receipt s es rep → chronicle_ok paths' arg' receipt' s' es' rep' →
  rep_tip rep = rep_tip rep' → entry_doc <$> es = entry_doc <$> es' ∨ Collision.
Proof.
  intros [_ Hl _ _ (e & He & _ & Ht) _] [_ Hl' _ _ (e' & He' & _ & Ht') _] Heq.
  rewrite Ht, Ht' in Heq. apply format_archive_id_inj in Heq.
  eapply history_binding; eauto using ld_linked, loads_wf.
Qed.

Lemma well_linked_take es n : well_linked es → well_linked (take n es).
Proof.
  intros [Hs Hg Hk]. constructor.
  - intros i e Hi. apply Hs. by apply lookup_take_Some in Hi as [? _].
  - intros e He. apply Hg. by apply lookup_take_Some in He as [? _].
  - intros i e e' He He'. apply (Hk i); by apply lookup_take_Some in He as [? _], He' as [? _].
Qed.

(** A witnessed tip fixes the history up to its sequence. *)
Lemma witness_binding g g' es es' dev dev' q t :
  well_linked es → well_linked es' → Forall entry_wf es → Forall entry_wf es' →
  witnessed_by g es dev q t → witnessed_by g' es' dev' q t →
  entry_doc <$> take (S (N.to_nat q)) es = entry_doc <$> take (S (N.to_nat q)) es' ∨ Collision.
Proof.
  intros Hl Hl' Hwf Hwf' [_ (e & He & ->)] [_ (e' & He' & Ht)].
  apply format_archive_id_inj in Ht.
  eapply (history_binding _ _ e e'); auto using well_linked_take, Forall_take.
  - by rewrite (take_S_r _ _ _ He), last_snoc.
  - by rewrite (take_S_r _ _ _ He'), last_snoc.
Qed.

(** ** Verification does not panic *)

Lemma np_collect paths s : no_panic (collect_archive_dirs paths s).
Proof. induction paths; cbn [collect_archive_dirs]; solve_np; done. Qed.

Lemma np_read_entry s dir : no_panic (read_entry s dir).
Proof. unfold read_entry, dir_exit. solve_np. Qed.

Lemma np_walk_entry s w e : no_panic (walk_entry s w e).
Proof. unfold walk_entry, walk_archive, walk_rotation, dir_exit. solve_np. Qed.

Lemma np_walk s w es : no_panic (walk_entries s w es).
Proof.
  revert w; induction es as [|e es IH]; intros w; cbn [walk_entries]; [done|].
  apply np_bind; [apply np_walk_entry|]. auto.
Qed.

Lemma np_links e es : no_panic (check_links e es).
Proof.
  revert e; induction es as [|x es IH]; intros e; cbn [check_links]; [done|]. solve_np; apply IH.
Qed.

Lemma length_map_res {E A B} (f : A → result E B) l l' : map_res f l = Ok l' → length l' = length l.
Proof. intros Hm%map_res_ok%Forall2_length. done. Qed.

Lemma np_load_entries paths s : no_panic (load_entries paths s).
Proof.
  unfold load_entries. apply np_bind; [apply np_collect|]. intros dirs _.
  apply np_bind; [apply np_ensure; done|]. intros [] Hne%ensure_ok.
  apply np_bind; [apply np_map_res, np_read_entry|]. intros read Hread. cbv zeta.
  apply np_bind; [apply np_for_each; intros [i e]; unfold check_sequence; solve_np|].
  intros _ _. apply np_bind; [|intros _ _; apply np_bind; [|intros; solve_np]].
  - unfold check_genesis. destruct (sort_by_key e_seq read) as [|x l] eqn:Hsort; [|intros; solve_np].
    exfalso. apply length_map_res in Hread. rewrite <-(sort_by_key_perm e_seq read), Hsort in Hread.
    by destruct dirs.
  - unfold check_linkage. destruct (sort_by_key e_seq read); [done|]. apply np_links.
Qed.

Lemma np_receipt token jwks : no_panic (verify_witness_receipt_jws token jwks).
Proof.
  unfold verify_witness_receipt_jws, decode_part, select_key, receipt_claims. solve_np.
Qed.

Lemma verify_chronicle_no_panic paths arg receipt s :
  no_panic (handle_verify_chronicle paths arg receipt s).
Proof.
  unfold handle_verify_chronicle. apply np_bind; [apply np_load_entries|]. intros es Hes.
  apply load_entries_ok in Hes. apply np_bind; [apply np_walk|]. intros w Hw.
  apply walk_entries_ok in Hw as (_ & _ & Hsg).
  destruct (last es) as [e|] eqn:He.
  2: { apply last_None in He. by destruct Hes. }
  cbn [ok_or]. cbn [mbind result_bind]. cbv zeta. apply np_bind; [|intros; solve_np].
  destruct receipt as [[token jwks]|]; [|done]. apply np_bind; [apply np_receipt|].
  intros [[dev q] t] _. apply np_bind; [|intros; solve_np]. rewrite Hsg.
  destruct (last_sequence es e (ld_linked _ _ _ Hes) He) as [Hseq Hne].
  unfold check_witness. apply np_bind; [solve_np|]. intros [] Hq%ensure_ok.
  rewrite negb_true_iff, N.ltb_ge in Hq. unfold index_or_panic.
  assert (N.to_nat q < length es) as Hlt by (destruct es; [done|]; simpl in *; lia).
  pose proof Hlt as [x Hx]%lookup_lt_is_Some.
  rewrite <-(length_signers (normalize_device_pub arg)) in Hlt.
  apply lookup_lt_is_Some in Hlt as [k Hk]. rewrite Hk, Hx. cbn [ok_or]. solve_np.
Qed.

(** ** Linking *)

(** Entry [e] carries the link that [wrap] resolved. *)
Definition carries_link (e : Entry) (link : ChronicleLink) : Prop :=
  e_seq e = cl_sequence link ∧ e_prev e = cl_prev link.

Lemma well_linked_extend es e e' :
  well_linked es → last es = Some e → e_seq e' = (e_seq e + 1)%N →
  e_prev e' = Some (format_archive_id (e_digest e)) → well_linked (es ++ [e']).
Proof.
  intros Hl He Hseq Hprev. destruct (last_sequence es e Hl He) as [Hlast Hne].
  assert (0 < length es) by (destruct es; simpl; [done|lia]).
  rewrite last_lookup in He. destruct Hl as [Hs Hg Hk]. constructor.
  - intros i x [Hi|[Hi Hx]]%lookup_app_Some; [by apply Hs|].
    apply list_lookup_singleton_Some in Hx as [Hz <-]. rewrite Hseq, Hlast. lia.
  - intros x [Hx|[Hi _]]%lookup_app_Some; [by apply Hg|]. lia.
  - intros i x y Hx [Hy|[Hi Hy]]%lookup_app_Some.
    + apply (Hk i); [|done]. rewrite lookup_app_l in Hx; [done|].
      apply lookup_lt_Some in Hy. lia.
    + apply list_lookup_singleton_Some in Hy as [Hz <-].
      rewrite lookup_app_l in Hx by lia. replace i with (pred (length es)) in Hx by lia. congruence.
Qed.

Lemma wrapping_succ n : (n < u64_max)%N → wrapping_add64 n 1 = (n + 1)%N.
Proof. unfold wrapping_add64, u64_max. intros. apply N.mod_small. lia. Qed.

(** The state file describes the entry [e]. *)
Definition state_at (st : ChronicleState) (e : Entry) : Prop :=
  cs_sequence st = e_seq e ∧ cs_tip st = format_archive_id (e_digest e).

Lemma resolve_state_extends es e e' path key s link st :
  well_linked es → last es = Some e → (e_seq e < u64_max)%N →
  path_exists path s = true → load path s = Ok st → state_at st e →
  resolve_chronicle (Some path) None None None key s = Ok (Some link) →
  carries_link e' link → well_linked (es ++ [e']).
Proof.
  intros Hl He Hmax Hex Hload [Hq Ht] Hr [Hq' Hp']. unfold resolve_chronicle, link_state in Hr.
  rewrite Hex, Hload in Hr. cbn [map_err mbind result_bind] in Hr.
  apply bind_ok in Hr as (_ & _ & Hr). injection Hr as <-.
  cbn [cl_sequence cl_prev] in *. rewrite Hq, wrapping_succ in Hq' by done. rewrite Ht in Hp'.
  by eapply well_linked_extend.
Qed.

Lemma resolve_archive_extends es e e' chronicle h q key s link m :
  well_linked es → last es = Some e → (e_seq e < u64_max)%N →
  read_entry s (e_path e) = Ok e → e_kind e = EArchive m →
  resolve_chronicle chronicle (Some (e_path e)) h q key s = Ok (Some link) →
  carries_link e' link → well_linked (es ++ [e']).
Proof.
  intros Hl He Hmax Hread Hkind Hr [Hq' Hp']. unfold resolve_chronicle, link_prev_archive in Hr.
  apply bind_ok in Hr as ([m' sig] & Hm%map_err_ok & Hr).
  unfold read_entry in Hread. case_match eqn:Hrot.
  { apply bind_ok in Hread as (? & _ & Hread). apply bind_ok in Hread as (? & _ & Hread).
    apply Ok_inj in Hread. by rewrite <-Hread in Hkind. }
  rewrite Hm in Hread. cbn [map_err mbind result_bind] in Hread.
  apply bind_ok in Hread as (? & _ & Hread). apply bind_ok in Hread as (n & Hn & Hread).
  apply bind_ok in Hread as (d & Hd & Hread). apply Ok_inj in Hread.
  apply ok_or_ok in Hn. rewrite Hn in Hr. cbn [ok_or mbind result_bind] in Hr.
  apply map_err_ok in Hd. rewrite Hd in Hr. cbn [map_err mbind result_bind] in Hr.
  injection Hr as <-. cbn [cl_sequence cl_prev] in *.
  assert (e_seq e = n) as Hseq by by rewrite <-Hread.
  assert (e_digest e = d) as Hdig by by rewrite <-Hread.
  rewrite <-Hseq, wrapping_succ in Hq' by done. rewrite <-Hdig in Hp'.
  by eapply well_linked_extend.
Qed.

(** Without a state file, [wrap --chronicle] starts a chronicle. *)
Lemma resolve_genesis path key s link e m :
  path_exists path s = false →
  resolve_chronicle (Some path) None None None key s = Ok (Some link) →
  carries_link e link → e_kind e = EArchive m → well_linked [e].
Proof.
  intros Hex Hr [Hq Hp] Hk. unfold resolve_chronicle, link_state in Hr. rewrite Hex in Hr.
  injection Hr as <-. cbn in *. constructor.
  - intros [|i] x Hx; [by simplify_eq/=|done].
  - intros x Hx. simplify_eq/=. eauto.
  - intros [|i] x y _ Hy; done.
Qed.
End Correct.
