(* ===== verification/Cli.v ===== *)
(** * Device keys of the seal command line

    crates/seal-cli/src/main.rs: [keygen], the loaders of key files shared by the
    commands, and the exit code of the process; crates/core/src/secure_file.rs.
    A passphrase prompt is an argument ([None]: it could not be read), and so are
    the random bytes of a new key. *)

From S2P Require Import Prelude External Utf8 FileSystem Json Float64 Manifest ManifestCanon.
From S2P Require Import Chain Crypto Keywrap Chronicle Archive VerifyChronicle.

Definition anyhow (s : string) : CliError := Anyhow (lit s).
(** [.with_context(|| format!("{s}{path}"))] *)
Definition context {E} (s : string) (p : path) : E → CliError := λ _,
  Anyhow (lit s ++ path_display p).
(** [?] on an error without context *)
Definition from_crypto (e : CryptoError) : CliError := Anyhow (crypto_error_text e).

(** What creating a key draws and asks for. *)
Record KeyEnv := mkKeyEnv {
  ke_seed : bytes;
  ke_x_seed : bytes;
  ke_salt : bytes;
  ke_nonce : bytes;
  ke_passphrase : option bytes;
  ke_confirm : option bytes;
  ke_pid : N;
  ke_tmp_seq : N;
}.

(** ** [write_secure] *)

Definition secure_tmp (pid seq : N) (p : path) : path :=
  sibling (lit ".tmp." ++ fmt_N pid ++ lit "." ++ fmt_N seq) p.

Definition write_secure (p : path) (data : bytes) (pid seq : N) : io io_error unit :=
  (if (1 <? length p)%nat then create_dir_all (take (length p - 1) p) else mret tt) ≫= λ _,
  let tmp := secure_tmp pid seq p in
  create_write tmp data ≫= λ _,
  rename tmp p.

(** [main]: the exit code of an error *)
Definition exit_code (r : result CliError unit) : N :=
  match r with
  | Ok _ => 0
  | Err (CliExit code _) => code
  | Err (Anyhow _) => 1
  | Err Panicked => 101
  end.

Record KeygenCmd := mkKeygenCmd {
  kg_out_key : path;
  kg_out_pub : path;
  kg_unencrypted : bool;
}.

Section Cli.
Context `{Blake3} `{Hex} `{Base64} `{Ed25519} `{Aead} `{Kdf} `{Hpke} `{SerdeJson} `{SerdeValue}
  `{BundleJson}.

(** ** Loading keys *)

Definition bundle_file_header : bytes := lit "SEALEDGE-KEY-V2" ++ [newline].

Definition load_bundle (p : path) (unencrypted : bool) (passphrase : option bytes) (s : fs)
    : result CliError DeviceBundle :=
  b ← map_err (λ _, Anyhow (lit "failed to read device key '" ++ path_display p ++ lit "'"))
    (read_file p s);
  if starts_with bundle_file_header b then
    ensure (negb unencrypted)
      (anyhow "Cannot use --unencrypted with an encrypted key bundle") ≫= λ _,
    pw ← ok_or passphrase (anyhow "Failed to read passphrase");
    map_err (λ e, Anyhow (lit "Failed to decrypt key bundle: " ++ crypto_error_text e))
      (import_encrypted b pw)
  else
    match (if unencrypted && utf8_valid b then result_ok (from_plaintext (trim b)) else None) with
    | Some bundle => Ok bundle
    | None =>
        if is_encrypted_key_file b || starts_with (lit "ed25519:") b then
          Err (anyhow "Legacy V1 key file detected. C4 archives need a V2 key bundle (Ed25519 + X25519). Run `seal keygen` to generate a new SEALEDGE-KEY-V2 bundle.")
        else Err (anyhow "Unrecognized key file format (expected SEALEDGE-KEY-V2)")
    end.

Definition load_signing_keypair (p : path) (unencrypted : bool) (passphrase : option bytes) (s : fs)
    : result CliError DeviceKeypair :=
  b ← map_err (λ _, Anyhow (lit "failed to read device key '" ++ path_display p ++ lit "'"))
    (read_file p s);
  if starts_with bundle_file_header b then
    ensure (negb unencrypted)
      (anyhow "Cannot use --unencrypted with an encrypted key bundle") ≫= λ _,
    pw ← ok_or passphrase (anyhow "Failed to read passphrase");
    signing <$> map_err (λ e, Anyhow (lit "Failed to decrypt key bundle: " ++ crypto_error_text e))
      (import_encrypted b pw)
  else if unencrypted then
    ensure (utf8_valid b) (anyhow "unencrypted key file is not valid UTF-8") ≫= λ _,
    match from_plaintext (trim b) with
    | Ok bundle => Ok (signing bundle)
    | Err _ =>
        map_err (λ e, Anyhow (lit "Failed to import key: " ++ crypto_error_text e))
          (import_secret (trim b))
    end
  else if is_encrypted_key_file b then
    pw ← ok_or passphrase (anyhow "Failed to read passphrase");
    map_err (λ e, Anyhow (lit "Failed to decrypt key: " ++ crypto_error_text e))
      (import_secret_encrypted b pw)
  else Err (anyhow "Key file is not encrypted. Use --unencrypted to bypass.").

(** ** Creating keys *)

(** The bytes of a new key file: plaintext, or encrypted under a confirmed passphrase. *)
Definition key_file_bytes (unencrypted : bool) (bundle : DeviceBundle) (env : KeyEnv)
    : result CliError bytes :=
  if unencrypted then Ok (to_plaintext bundle ++ [newline])
  else
    passphrase ← ok_or (ke_passphrase env) (anyhow "Failed to read passphrase");
    confirm ← ok_or (ke_confirm env) (anyhow "Failed to read passphrase confirmation");
    ensure (bool_decide (passphrase = confirm)) (anyhow "Passphrases do not match") ≫= λ _,
    map_err (λ _, anyhow "Failed to encrypt key bundle")
      (export_encrypted bundle passphrase (ke_salt env) (ke_nonce env)).

Definition handle_keygen (args : KeygenCmd) (env : KeyEnv) : io CliError unit :=
  io_read (λ s, ensure (negb (path_exists (kg_out_key args) s))
    (Anyhow (lit "Refusing to overwrite existing file: " ++ path_display (kg_out_key args)))) ≫= λ _,
  io_read (λ s, ensure (negb (path_exists (kg_out_pub args) s))
    (Anyhow (lit "Refusing to overwrite existing file: " ++ path_display (kg_out_pub args)))) ≫= λ _,
  io_lift (map_err from_crypto (bundle_generate (ke_seed env) (ke_x_seed env))) ≫= λ bundle,
  io_lift (key_file_bytes (kg_unencrypted args) bundle env) ≫= λ data,
  io_map_err (context "Failed to write secret key: " (kg_out_key args))
    (write_secure (kg_out_key args) data (ke_pid env) (ke_tmp_seq env)) ≫= λ _,
  io_map_err (context "Failed to write public key: " (kg_out_pub args))
    (create_write (kg_out_pub args) (public_lines bundle)).

(** The bundle; the key files are written in the working directory when it is new. *)
Definition load_or_generate_bundle (p : option path) (unencrypted : bool) (env : KeyEnv)
    `{IoText} : io CliError DeviceBundle :=
  match p with
  | Some existing => io_read (load_bundle existing unencrypted (ke_passphrase env))
  | None =>
      io_lift (map_err from_crypto (bundle_generate (ke_seed env) (ke_x_seed env))) ≫= λ bundle,
      io_lift (key_file_bytes unencrypted bundle env) ≫= λ data,
      io_map_err (λ e, Anyhow (io_error_text e))
        (write_secure [lit "device.key"] data (ke_pid env) (ke_tmp_seq env)) ≫= λ _,
      io_map_err (λ e, Anyhow (io_error_text e))
        (create_write [lit "device.pub"] (public_lines bundle)) ≫= λ _,
      mret bundle
  end.

Definition pub_key_to_device_id (pub_key_str : bytes) : result CliError bytes :=
  raw_b64 ← match strip_prefix ed_prefix pub_key_str, strip_prefix ecdsa_prefix pub_key_str with
            | Some rest, _ | None, Some rest => Ok rest
            | None, None => Err (Anyhow (lit "Unrecognized public key prefix in: " ++ pub_key_str))
            end;
  key_bytes ← ok_or (base64_decode raw_b64)
    (anyhow "Failed to decode public key bytes for device_id");
  ensure (6 <=? length key_bytes)%nat
    (Anyhow (lit "Public key bytes too short for device_id (got " ++ fmt_nat (length key_bytes)
      ++ lit " bytes)")) ≫= λ _,
  Ok (lit "te:cam:" ++ hex_encode (take 6 key_bytes)).
End Cli.

(** The start time of any profile. *)
Definition manifest_started_at (m : TrstManifest) : bytes :=
  match metadata m with
  | CamVideo x => cv_started_at x
  | Sensor x => sn_started_at x
  | Audio x => au_started_at x
  | Log x => lg_started_at x
  | Generic x => gm_started_at x
  end.
