(* ===== verification/VerifyEngine.v ===== *)
(** * The platform's verification engine

    crates/platform/src/verify/engine.rs (signature and continuity of a posted
    manifest), crates/platform/src/verify/validation.rs (the request checks) and the
    wire types of crates/types/src/verification.rs. *)

From S2P Require Import Prelude External Utf8 FileSystem Json Float64 Manifest ManifestCanon.
From S2P Require Import Chain Crypto Keywrap Chronicle Archive.

(** ** Wire types *)

Record SegmentRef := mkSegmentRef {
  sr_index : N; (* u32 *)
  sr_hash : bytes;
}.

Record VerifyOptions := mkVerifyOptions {
  return_receipt : bool;
  opt_device_id : option bytes;
}.

Record VerifyRequest := mkVerifyRequest {
  vq_device_pub : bytes;
  vq_manifest : value;
  vq_segments : list SegmentRef;
  vq_options : VerifyOptions;
}.

(** [serde_json::to_value] and [from_value] on manifests, [to_string] on values *)
Class ManifestValue := {
  manifest_to_value : TrstManifest → result bytes value;
  manifest_from_value : value → result bytes TrstManifest;
  value_to_string : value → result bytes bytes;
}.

(** ** Reports *)

Record VerificationResult := mkVerificationResult {
  passed : bool;
  error : option bytes;
}.

Record VerificationMetadata := mkVerificationMetadata {
  total_segments : N; (* u32 *)
  verified_segments : N; (* u32 *)
  vm_chain_tip : bytes;
  genesis_hash : bytes;
}.

Record VerifyReport := mkVerifyReport {
  signature_verification : VerificationResult;
  continuity_verification : VerificationResult;
  report_metadata : VerificationMetadata;
}.

Record ReceiptClaims := mkReceiptClaims {
  verification_id : bytes;
  signer_pub : bytes;
  rc_device_id : bytes;
  device_registered : bool;
  manifest_digest : bytes;
  rc_chain_tip : bytes;
  timestamp : bytes;
  kid : bytes;
  rc_result : VerifyReport;
}.

Definition SUPPORTED_TRST_VERSION : bytes := lit "0.2.0".

Record ContinuityOutcome := mkContinuityOutcome {
  co_result : VerificationResult;
  co_verified_segments : N; (* u32 *)
  co_chain_tip : bytes;
}.

Section Engine.
Context `{Blake3} `{Hex} `{Base64} `{Ed25519} `{P256} `{SerdeJson} `{ManifestValue}.

Definition decode_b3_hex_32 (v : bytes) : option hash32 :=
  let hex_part := default v (strip_prefix (lit "b3:") v) in
  b ← hex_decode hex_part;
  if (length b =? 32)%nat then Some b else None.

Definition format_b3 (b : hash32) : bytes := lit "b3:" ++ hex_encode b.

(** ** The signature *)

Definition verify_signature (m : TrstManifest) (device_pub : bytes)
    : result bytes VerificationResult :=
  ensure (starts_with (lit "ed25519:") device_pub || starts_with (lit "ecdsa-p256:") device_pub)
    (lit "Device public key must have an algorithm prefix (ed25519: or ecdsa-p256:)") ≫= λ _,
  if negb (bool_decide (dev_public_key (device m) = device_pub)) then
    Ok (mkVerificationResult false
      (Some (lit "verification key does not match the manifest's device.public_key")))
  else
    sig ← ok_or (signature m) (lit "Missing signature in manifest");
    canonical ← map_err (λ e, lit "Failed to canonicalize manifest: " ++ manifest_error_text e)
      (to_canonical_bytes m);
    match verify_manifest device_pub canonical sig with
    | Ok true => Ok (mkVerificationResult true None)
    | Ok false => Ok (mkVerificationResult false (Some (lit "Signature verification failed")))
    | Err e => Ok (mkVerificationResult false
        (Some (lit "Signature verification failed: " ++ crypto_error_text e)))
    end.

(** ** Continuity *)

Definition continuity_fail (msg : bytes) : ContinuityOutcome :=
  mkContinuityOutcome (mkVerificationResult false (Some msg)) 0 (format_b3 genesis).

Definition segment_text (i : nat) (rest : string) : bytes :=
  lit "segment[" ++ fmt_nat i ++ lit "]" ++ lit rest.

(** One segment of the signed chain. *)
Definition decode_segment (p : nat * SegmentInfo) : result bytes ChainSegment :=
  stored_hash ← ok_or (decode_b3_hex_32 (blake3_hash p.2))
    (segment_text p.1 " blake3_hash is not 32-byte hex");
  stored_continuity ← ok_or (decode_b3_hex_32 (continuity_hash p.2))
    (segment_text p.1 " continuity_hash is not 32-byte hex");
  Ok (mkChainSegment p.1 stored_hash stored_continuity).

(** One submitted segment against the signed one at its place. *)
Definition bind_segment (segs : list SegmentInfo) (p : nat * SegmentRef) : result bytes unit :=
  let '(i, cs) := p in
  ensure (N.to_nat (sr_index cs) =? i)%nat (lit "missing segment at index " ++ fmt_nat i) ≫= λ _,
  seg ← ok_or (segs !! i) []; (* in range: the lengths are equal *)
  let client_hash := to_ascii_lowercase (default (sr_hash cs) (strip_prefix (lit "b3:") (sr_hash cs))) in
  ensure (bool_decide (client_hash = to_ascii_lowercase (blake3_hash seg)))
    (segment_text i " hash does not match the signed manifest").

Definition bind_client_segments (segs : list SegmentInfo) (client : list SegmentRef)
    : result bytes unit :=
  ensure (length client =? length segs)%nat
    (lit "submitted " ++ fmt_nat (length client) ++ lit " segments but signed manifest declares "
      ++ fmt_nat (length segs)) ≫= λ _,
  for_each (bind_segment segs) (enumerate (sort_by_key sr_index client)).

Definition verify_continuity (m : TrstManifest) (client : list SegmentRef) : ContinuityOutcome :=
  match (chain ← map_res decode_segment (enumerate (segments m));
         bind_client_segments (segments m) client ≫= λ _,
         map_err (λ e, lit "continuity chain invalid: " ++ chain_error_text e)
           (validate_chain chain) ≫= λ _,
         Ok chain) with
  | Ok chain =>
      mkContinuityOutcome (mkVerificationResult true None) (as_u32 (N.of_nat (length chain)))
        (match last chain with
         | Some s => format_b3 (stored_continuity s)
         | None => format_b3 genesis
         end)
  | Err msg => continuity_fail msg
  end.

(** ** The report *)

Definition verify_to_report (manifest : value) (client : list SegmentRef) (device_pub : bytes)
    : result bytes VerifyReport :=
  parsed ← map_err (λ e, lit "Manifest does not match the canonical .trst schema: " ++ e)
    (manifest_from_value manifest);
  ensure (bool_decide (trst_version parsed = SUPPORTED_TRST_VERSION))
    (lit "unsupported archive version " ++ trst_version parsed ++ lit " (expected "
      ++ SUPPORTED_TRST_VERSION ++ lit ")") ≫= λ _,
  signature_result ← verify_signature parsed device_pub;
  let continuity := verify_continuity parsed client in
  Ok (mkVerifyReport signature_result (co_result continuity)
    (mkVerificationMetadata (as_u32 (N.of_nat (length (segments parsed))))
       (co_verified_segments continuity) (co_chain_tip continuity) (format_b3 genesis))).

(** [id]: a fresh UUID *)
Definition receipt_from_report (id : bytes) (report : VerifyReport) (digest signer dev : bytes)
    (registered : bool) (key_id now tip : bytes) : ReceiptClaims :=
  mkReceiptClaims (lit "v_" ++ id) signer dev registered digest tip now key_id report.

Definition compute_manifest_digest_blake3 (manifest : value) : bytes :=
  let canonical := match value_to_string manifest with Ok s => s | Err _ => [] end in
  lit "b3:" ++ base64_encode (segment_hash canonical).
End Engine.

(** ** Validating requests *)

Record ValidationError := mkValidationError {
  ve_error : bytes;
  ve_detail : bytes;
}.

Definition validation_error (e d : string) : ValidationError := mkValidationError (lit e) (lit d).

(** [^b3:[0-9a-f]{64}$] *)
Definition is_lower_hex (b : byte) : bool := byte_in 48 57 b || byte_in 97 102 b.
Definition hash_regex (h : bytes) : bool :=
  match strip_prefix (lit "b3:") h with
  | Some x => (length x =? 64)%nat && forallb is_lower_hex x
  | None => false
  end.

Definition validate_segment_hash (p : nat * SegmentRef) : result ValidationError unit :=
  ensure (hash_regex (sr_hash p.2))
    (mkValidationError (lit "invalid_segments")
      (lit "segments[" ++ fmt_nat p.1 ++ lit "].hash must match ^b3:[0-9a-f]{64}$, got '"
        ++ sr_hash p.2 ++ lit "'")).
Definition validate_segment_hashes (segs : list SegmentRef) : result ValidationError unit :=
  for_each validate_segment_hash (enumerate segs).

Definition validate_verify_request (r : VerifyRequest) : result ValidationError unit :=
  ensure (match vq_segments r with [] => false | _ => true end)
    (validation_error "invalid_segments" "segments array cannot be empty") ≫= λ _,
  validate_segment_hashes (vq_segments r).

Definition empty_manifest (v : value) : bool :=
  match v with
  | VNull => true
  | VObj [] => true
  | VStr s => is_empty s
  | _ => false
  end.

Definition validate_verify_request_full (r : VerifyRequest) : result ValidationError unit :=
  ensure (match vq_segments r with [] => false | _ => true end)
    (validation_error "invalid_segments" "segments array cannot be empty") ≫= λ _,
  ensure (negb (is_empty (vq_device_pub r)))
    (validation_error "invalid_device_pub" "device_pub cannot be empty") ≫= λ _,
  ensure (negb (empty_manifest (vq_manifest r)))
    (validation_error "invalid_manifest" "manifest cannot be empty") ≫= λ _,
  validate_segment_hashes (vq_segments r).
