(* ===== verification/Addresses.v ===== *)
(** * Network addresses

    [IpAddr] and its [FromStr], which crates/platform/src/http/rate_limit.rs and
    crates/platform/src/ca/api.rs use: the parser of the standard library, and the texts of
    IPv4 addresses, which it reads back. *)

From S2P Require Import Prelude Utf8 Archive ArchiveLemmas.

(** Four octets; eight groups of 16 bits. *)
Inductive IpAddr :=
  | V4 (octets : list N)
  | V6 (groups : list N).

#[export] Instance IpAddr_eq_dec : EqDecision IpAddr.
Proof. solve_decision. Defined.

Definition LOCALHOST : IpAddr := V4 [127; 0; 0; 1]%N.

(** ** The parser: what was read, and the rest *)

(** [char::to_digit] *)
Definition to_digit (radix : N) (b : byte) : option N :=
  let d := if byte_in 48 57 b then Some (N_of_byte b - 48)%N
           else if byte_in 97 122 b then Some (N_of_byte b - 87)%N
           else if byte_in 65 90 b then Some (N_of_byte b - 55)%N
           else None in
  d ≫= λ d, if (d <? radix)%N then Some d else None.

(** The digits of a number, at most [max_digits] and one more to see that there are too many *)
Fixpoint read_digits (max_digits : nat) (radix acc : N) (count : nat) (s : bytes) {struct s}
    : option (N * nat * bytes) :=
  match s with
  | b :: s' =>
      match to_digit radix b with
      | Some d =>
          match max_digits with
          | 0 => None
          | S k => read_digits k radix (acc * radix + d)%N (S count) s'
          end
      | None => Some (acc, count, s)
      end
  | [] => Some (acc, count, s)
  end.

Definition read_number (radix : N) (max_digits : nat) (allow_zero_prefix : bool) (max : N) (s : bytes)
    : option (N * bytes) :=
  '(n, count, r) ← read_digits max_digits radix 0 0 s;
  if (count =? 0)%nat then None
  else if negb allow_zero_prefix && starts_with (lit "0") s && (1 <? count)%nat then None
  else if (n <=? max)%N then Some (n, r) else None.

(** [read_separator]: the separator, except before the first part *)
Definition read_separator {A} (sep : byte) (i : nat) (p : bytes → option (A * bytes)) (s : bytes)
    : option (A * bytes) :=
  match i with
  | 0 => p s
  | S _ => match s with
           | b :: s' => if decide (b = sep) then p s' else None
           | [] => None
           end
  end.

Definition read_octet (i : nat) (s : bytes) : option (N * bytes) :=
  read_separator "."%char i (read_number 10 3 false u8_max) s.

Definition read_ipv4_addr (s : bytes) : option (list N * bytes) :=
  '(a, s1) ← read_octet 0 s; '(b, s2) ← read_octet 1 s1;
  '(c, s3) ← read_octet 2 s2; '(d, s4) ← read_octet 3 s3;
  Some ([a; b; c; d], s4).

(** [groups] many groups can still be read, [i] are read; true if an IPv4 address ended them. *)
Fixpoint read_groups (left i : nat) (s : bytes) : list N * bool * bytes :=
  match left with
  | 0 => ([], false, s)
  | S left' =>
      match (if (1 <? left)%nat then read_separator ":"%char i read_ipv4_addr s else None) with
      | Some ([a; b; c; d], r) => ([a * 256 + b; c * 256 + d]%N, true, r)
      | _ =>
          match read_separator ":"%char i (read_number 16 4 true u16_max) s with
          | Some (g, r) => let '(gs, v4, r') := read_groups left' (S i) r in (g :: gs, v4, r')
          | None => ([], false, s)
          end
      end
  end.

Definition read_ipv6_addr (s : bytes) : option (list N * bytes) :=
  let '(head, head_ipv4, r) := read_groups 8 0 s in
  if (length head =? 8)%nat then Some (head, r)
  else if head_ipv4 then None
  else match strip_prefix (lit "::") r with
       | Some r' =>
           let '(tail, _, r'') := read_groups (8 - (length head + 1)) 0 r' in
           Some (head ++ replicate (8 - length head - length tail) 0%N ++ tail, r'')
       | None => None
       end.

(** [s.parse::<IpAddr>()]: nothing may be left over *)
Definition parse_ip (s : bytes) : option IpAddr :=
  match read_ipv4_addr s with
  | Some (v4, r) => if is_empty r then Some (V4 v4) else None
  | None =>
      '(v6, r) ← read_ipv6_addr s; if is_empty r then Some (V6 v6) else None
  end.

Example parse_v4 : parse_ip (lit "203.0.113.5") = Some (V4 [203; 0; 113; 5]%N).
Proof. reflexivity. Qed.
Example parse_v6 : parse_ip (lit "2001:db8::ff00:1.2.3.4")
  = Some (V6 [0x2001; 0xdb8; 0; 0; 0; 0xff00; 0x102; 0x304]%N).
Proof. reflexivity. Qed.
Example parse_port : parse_ip (lit "203.0.113.5:80") = None.
Proof. reflexivity. Qed.
Example parse_octal : parse_ip (lit "010.0.0.1") = None.
Proof. reflexivity. Qed.
Example parse_any : parse_ip (lit "::") = Some (V6 (replicate 8 0%N)).
Proof. reflexivity. Qed.
Example parse_nine : parse_ip (lit "1:2:3:4:5:6:7::8") = None.
Proof. reflexivity. Qed.

(** ** IPv4 addresses as text *)

(** [format!("{}", ip)] for an [Ipv4Addr] *)
Definition fmt_ipv4 (a b c d : N) : bytes :=
  fmt_N a ++ lit "." ++ fmt_N b ++ lit "." ++ fmt_N c ++ lit "." ++ fmt_N d.

(** [r] does not go on with a digit. *)
Definition stops (radix : N) (r : bytes) : Prop := ∀ b, head r = Some b → to_digit radix b = None.

Lemma read_digits_app (k : nat) (radix acc n : N) (i j : nat) (s r : bytes) : stops radix r →
  read_digits k radix acc i s = Some (n, j, []) → read_digits k radix acc i (s ++ r) = Some (n, j, r).
Proof.
  intros Hr. revert k acc i. induction s as [|b s IH]; intros k acc i; cbn.
  - intros [= <- <-]. destruct r as [|b r]; [done|]. cbn. by rewrite (Hr b eq_refl).
  - destruct (to_digit radix b); [|done]. destruct k; [done|]. apply IH.
Qed.

(** Every octet, printed and read *)
Lemma octets_read : forallb (λ n, bool_decide (
  read_digits 3 10 0 0 (fmt_N n) = Some (n, length (fmt_N n), [])
  ∧ (starts_with (lit "0") (fmt_N n) && (1 <? length (fmt_N n))%nat) = false)) (N.of_nat <$> seq 0 256) = true.
Proof. vm_compute. reflexivity. Qed.

Lemma read_octet_app (n : N) (r : bytes) : (n ≤ u8_max)%N → stops 10 r →
  read_number 10 3 false u8_max (fmt_N n ++ r) = Some (n, r).
Proof.
  intros Hn Hr. pose proof octets_read as Hall. rewrite forallb_forall in Hall.
  assert (In n (N.of_nat <$> seq 0 256)) as Hin.
  { rewrite <-list_elem_of_In, list_elem_of_fmap. exists (N.to_nat n). split; [lia|].
    apply elem_of_seq. unfold u8_max in Hn. lia. }
  apply Hall, bool_decide_eq_true_1 in Hin as [Hd Hz].
  unfold read_number. rewrite (read_digits_app _ _ _ _ _ _ _ _ Hr Hd). cbn [mbind option_bind].
  pose proof (fmt_N_nonempty n). destruct (fmt_N n) as [|b s]; [done|].
  change (starts_with (lit "0") ((b :: s) ++ r)) with (starts_with (lit "0") (b :: s)). cbn [negb andb].
  rewrite Hz. cbn [length Nat.eqb]. by rewrite (proj2 (N.leb_le _ _) Hn).
Qed.

Lemma parse_fmt_ipv4 (a b c d : N) : Forall (λ n, (n ≤ u8_max)%N) [a; b; c; d] →
  parse_ip (fmt_ipv4 a b c d) = Some (V4 [a; b; c; d]).
Proof.
  rewrite !Forall_cons. intros (Ha & Hb & Hc & Hd & _).
  assert (∀ r, stops 10 (lit "." ++ r)) as Hdot by (by intros r x [= <-]).
  assert (∀ n r i, (n ≤ u8_max)%N → stops 10 r → read_octet (S i) (lit "." ++ fmt_N n ++ r) = Some (n, r))
    as Hnext by exact (λ n r i, read_octet_app n r).
  assert (∀ n r, (n ≤ u8_max)%N → stops 10 r → read_octet 0 (fmt_N n ++ r) = Some (n, r))
    as Hfirst by exact read_octet_app.
  unfold parse_ip, read_ipv4_addr, fmt_ipv4. rewrite Hfirst by done. cbn [mbind option_bind]. rewrite Hnext by done. cbn [mbind option_bind].
  rewrite Hnext by done. cbn [mbind option_bind]. rewrite <-(app_nil_r (fmt_N d)).
  rewrite Hnext; [done..|]. by intros x.
Qed.
