(* ===== verification/CertificateAuthority.v ===== *)
(** * The certificate authority library

    crates/platform/src/ca: models.rs, error.rs, the configuration of mod.rs, the service of
    service.rs and the functions of api.rs.  The library keeps no certificates: issuing signs a
    document with the service's backend and returns it, revoking and listing only check their
    arguments.  Random identifiers and the clock are arguments, chrono and serde_json are
    parameters; an object is printed with its keys in order. *)

From S2P Require Import Prelude External Utf8 FileSystem Json Crypto Backends Hsm Archive Addresses.

(** ** Data *)

Inductive CertificateStatus := CertPending | CertIssued | CertRevoked | CertExpired.
Inductive KeyUsage :=
  DigitalSignature | KeyEncipherment | DataEncipherment | KeyAgreement | KeyCertSign | CrlSign.
Inductive ExtendedKeyUsage :=
  ServerAuth | ClientAuth | CodeSigning | EmailProtection | TimeStamping | OcspSigning.
Inductive SubjectAlternativeName :=
  | DnsName (name : bytes)
  | IpAddress (ip : bytes)
  | Email (email : bytes)
  | Uri (uri : bytes).

Record CertificateSubject := mkCertificateSubject {
  common_name : bytes;
  organization : option bytes;
  organizational_unit : option bytes;
  country : option bytes;
  subject_state : option bytes;
  locality : option bytes;
  subject_email : option bytes;
}.

Record CertificateRequest := mkCertificateRequest {
  req_subject : CertificateSubject;
  validity_days : option N; (* u32 *)
  key_usage : list KeyUsage;
  extended_key_usage : list ExtendedKeyUsage;
  san_entries : list SubjectAlternativeName;
}.

(** Identifiers are 16 bytes, times are nanoseconds since 1970. *)
Record Certificate := mkCertificate {
  cert_id : bytes;
  cert_tenant_id : bytes;
  serial_number : bytes;
  cert_subject : bytes;
  cert_issuer : bytes;
  not_before : N;
  not_after : N;
  cert_status : CertificateStatus;
  certificate_pem : bytes;
  cert_created_at : N;
  cert_revoked_at : option N;
  revocation_reason : option bytes;
}.

(** The build without postgres; [CAPanicked] is a panic. *)
Inductive CAError :=
  | CADatabase (msg : bytes)
  | CABackend (e : BackendError)
  | CACertificateParsing (msg : bytes)
  | CAAuthentication (msg : bytes)
  | CAAuthorization (msg : bytes)
  | CATenantNotFound (msg : bytes)
  | CACertificateNotFound (msg : bytes)
  | CAInvalidRequest (msg : bytes)
  | CAConfiguration (msg : bytes)
  | CAInternal (msg : bytes)
  | CACertificateGeneration (msg : bytes)
  | CAPanicked.

Definition ca_status_code (e : CAError) : N :=
  match e with
  | CAAuthentication _ => 401
  | CAAuthorization _ => 403
  | CATenantNotFound _ | CACertificateNotFound _ => 404
  | CAInvalidRequest _ => 400
  | _ => 500
  end.

(** ** Configuration *)

Record CAConfig := mkCAConfig {
  ca_database_url : bytes;
  jwt_secret : bytes;
  ca_name : bytes;
  ca_organization : bytes;
  ca_country : bytes;
  certificate_validity_days : N; (* u32 *)
}.

(** [CAConfigBuilder::default] *)
Definition ca_config_default : CAConfig :=
  mkCAConfig (lit "postgresql://localhost/sealedge_ca") (lit "your-secret-key")
    (lit "Sealedge Enterprise CA") (lit "TrustEdge Labs LLC") (lit "US") 365.
Definition ca_config_jwt_secret (b : CAConfig) (secret : bytes) : CAConfig :=
  mkCAConfig (ca_database_url b) secret (ca_name b) (ca_organization b) (ca_country b)
    (certificate_validity_days b).
(** [build], outside tests; [None] is the panic. *)
Definition ca_config_build (b : CAConfig) : option CAConfig :=
  if bool_decide (jwt_secret b = lit "your-secret-key") then None else Some b.

(** ** Parameters *)

(** chrono: the text of a time, the latest time, the instant of a text *)
Class DateTimes := {
  to_rfc3339 : N → bytes;
  datetime_max : N;
  parse_from_rfc3339 : bytes → option Z;
}.

(** serde_json: [from_slice::<Value>] and [{:?}] of a value *)
Class ValueText := {
  value_from_slice : bytes → result bytes value;
  value_debug : value → bytes;
}.
(** The value that a printed document is read as *)
Fixpoint value_of_json (j : json) : value :=
  match j with
  | JStr s => VStr s
  | JTok t => VNum (FloatNum t)
  | JArr l => VArr (List.map value_of_json l)
  | JObj l => VObj (List.map (λ kv, (kv.1, value_of_json kv.2)) l)
  end.

(** ** The service *)

Record CertificateAuthorityService := mkCaService {
  ca_backend : UniversalBackend;
  ca_key_id : bytes;
  ca_certificate : bytes;
  ca_subject : CertificateSubject;
  default_validity_days : N; (* u32 *)
}.

(** [parts.join(sep)] *)
Definition join (sep : bytes) (parts : list bytes) : bytes :=
  match parts with
  | [] => []
  | p :: ps => p ++ mjoin ((λ q, sep ++ q) <$> ps)
  end.

Definition format_subject (s : CertificateSubject) : bytes :=
  let part name := option_list ∘ fmap (app (lit name)) in
  join (lit ", ")
    ((lit "CN=" ++ common_name s)
     :: part "O="%string (organization s) ++ part "OU="%string (organizational_unit s)
     ++ part "C="%string (country s) ++ part "ST="%string (subject_state s)
     ++ part "L="%string (locality s) ++ part "emailAddress="%string (subject_email s)).

(** [Uuid]'s [Display], and the text without hyphens *)
Definition uuid_text `{Hex} (u : bytes) : bytes :=
  let h := hex_encode u in
  take 8 h ++ lit "-" ++ take 4 (drop 8 h) ++ lit "-" ++ take 4 (drop 12 h) ++ lit "-"
  ++ take 4 (drop 16 h) ++ lit "-" ++ drop 20 h.
Definition generate_serial_number `{Hex} (u : bytes) : bytes :=
  filter (λ c, c ≠ "-"%char) (uuid_text u).

Definition key_usage_text (k : KeyUsage) : bytes :=
  lit (match k with DigitalSignature => "DigitalSignature" | KeyEncipherment => "KeyEncipherment"
       | DataEncipherment => "DataEncipherment" | KeyAgreement => "KeyAgreement"
       | KeyCertSign => "KeyCertSign" | CrlSign => "CrlSign" end).
Definition extended_key_usage_text (k : ExtendedKeyUsage) : bytes :=
  lit (match k with ServerAuth => "ServerAuth" | ClientAuth => "ClientAuth" | CodeSigning => "CodeSigning"
       | EmailProtection => "EmailProtection" | TimeStamping => "TimeStamping"
       | OcspSigning => "OcspSigning" end).
Definition san_json (s : SubjectAlternativeName) : json :=
  match s with
  | DnsName n => JObj [(lit "DnsName", JStr n)]
  | IpAddress i => JObj [(lit "IpAddress", JStr i)]
  | Email e => JObj [(lit "Email", JStr e)]
  | Uri u => JObj [(lit "Uri", JStr u)]
  end.

Definition DAY : N := 24 * 60 * 60 * 1000 * 1000 * 1000.

Section Service.
Context `{Hex} `{Base64} `{SerdeJson} `{DateTimes} `{ValueText}.

Definition certificate_json (serial subject issuer : bytes) (nb na : N) (r : CertificateRequest) : json :=
  JObj [(lit "extensions", JObj [
           (lit "extended_key_usage", JArr (JStr ∘ extended_key_usage_text <$> extended_key_usage r));
           (lit "key_usage", JArr (JStr ∘ key_usage_text <$> key_usage r));
           (lit "subject_alternative_name", JArr (san_json <$> san_entries r))]);
        (lit "issuer", JStr issuer);
        (lit "serial_number", JStr serial);
        (lit "signature_algorithm", JStr (lit "ecdsa-with-SHA256"));
        (lit "subject", JStr subject);
        (lit "subject_public_key_info", JObj [
           (lit "algorithm", JStr (lit "id-ecPublicKey"));
           (lit "parameters", JStr (lit "secp256r1"));
           (lit "public_key", JStr (lit "04010203040506070809...dummy_key_for_demo"))]);
        (lit "validity", JObj [(lit "not_after", JStr (to_rfc3339 na)); (lit "not_before", JStr (to_rfc3339 nb))]);
        (lit "version", JStr (lit "v3"))].

Definition build_certificate_data (svc : CertificateAuthorityService) (serial : bytes) (r : CertificateRequest)
    (nb na : N) : bytes :=
  jprint (certificate_json serial (format_subject (req_subject r)) (format_subject (ca_subject svc)) nb na r).

(** [s.as_bytes().chunks(64)] *)
Fixpoint chunks_of (fuel n : nat) (s : bytes) : list bytes :=
  match fuel, s with
  | S f, _ :: _ => take n s :: chunks_of f n (drop n s)
  | _, _ => []
  end.

Definition newline_spaces (n : nat) : bytes := newline :: replicate n " "%char.

(** The text of the certificate; [v[k].as_str().unwrap_or(d)] *)
Definition certificate_content (v : value) (cert_data signature : bytes) : bytes :=
  let str v d := default (lit d) (as_str v) in
  let top k d := str (value_index v (lit k)) d in
  let in_ k k' := value_index (value_index v (lit k)) (lit k') in
  lit "Certificate:"
  ++ newline_spaces 4 ++ lit "Data:"
  ++ newline_spaces 8 ++ lit "Version: " ++ top "version"%string "v3"%string
  ++ newline_spaces 8 ++ lit "Serial Number: " ++ top "serial_number"%string "unknown"%string
  ++ newline_spaces 8 ++ lit "Signature Algorithm: " ++ top "signature_algorithm"%string "ecdsa-with-SHA256"%string
  ++ newline_spaces 8 ++ lit "Issuer: " ++ top "issuer"%string "unknown"%string
  ++ newline_spaces 8 ++ lit "Validity:"
  ++ newline_spaces 12 ++ lit "Not Before: " ++ str (in_ "validity"%string "not_before"%string) "unknown"%string
  ++ newline_spaces 12 ++ lit "Not After: " ++ str (in_ "validity"%string "not_after"%string) "unknown"%string
  ++ newline_spaces 8 ++ lit "Subject: " ++ top "subject"%string "unknown"%string
  ++ newline_spaces 8 ++ lit "Subject Public Key Info:"
  ++ newline_spaces 12 ++ lit "Public Key Algorithm: "
  ++ str (in_ "subject_public_key_info"%string "algorithm"%string) "id-ecPublicKey"%string
  ++ newline_spaces 12 ++ lit "Parameters: "
  ++ str (in_ "subject_public_key_info"%string "parameters"%string) "secp256r1"%string
  ++ newline_spaces 8 ++ lit "Extensions:"
  ++ newline_spaces 12 ++ lit "Key Usage: " ++ value_debug (in_ "extensions"%string "key_usage"%string)
  ++ newline_spaces 12 ++ lit "Extended Key Usage: "
  ++ value_debug (in_ "extensions"%string "extended_key_usage"%string)
  ++ newline_spaces 12 ++ lit "Subject Alternative Name: "
  ++ value_debug (in_ "extensions"%string "subject_alternative_name"%string)
  ++ newline_spaces 4 ++ lit "Signature Algorithm: " ++ top "signature_algorithm"%string "ecdsa-with-SHA256"%string
  ++ newline_spaces 4 ++ lit "Signature Value (Backend Hardware Signed):"
  ++ newline_spaces 8 ++ hex_encode signature
  ++ newline_spaces 4 ++ lit "Certificate Data Hash:"
  ++ newline_spaces 8 ++ hex_encode cert_data.

Definition pem_begin : bytes := lit "-----BEGIN CERTIFICATE-----".
Definition pem_end : bytes := lit "-----END CERTIFICATE-----".

Definition build_certificate_pem (cert_data signature : bytes) : result CAError bytes :=
  cert_json ← map_err (λ e, CACertificateGeneration (lit "Invalid certificate data: " ++ e))
    (value_from_slice cert_data);
  let cert_b64 := base64_encode (certificate_content cert_json cert_data signature) in
  Ok (join [newline] (pem_begin :: (from_utf8_lossy <$> chunks_of (length cert_b64) 64 cert_b64) ++ [pem_end])).

(** What issuing draws: the identifier behind the serial number, the certificate's identifier,
    and the time at the start and at the end *)
Record CaDraws := mkCaDraws {
  cd_serial : bytes;
  cd_id : bytes;
  cd_now : N;
  cd_created : N;
}.

Definition service_issue_certificate (svc : CertificateAuthorityService) (tenant_id : bytes)
    (request : CertificateRequest) (d : CaDraws) : io CAError Certificate :=
  let serial := generate_serial_number (cd_serial d) in
  let days := default (default_validity_days svc) (validity_days request) in
  let nb := cd_now d in
  let na := (nb + days * DAY)%N in
  io_lift (ensure (na <=? datetime_max)%N CAPanicked) ≫= λ _,
  let cert_data := build_certificate_data svc serial request nb na in
  signature_result ← io_map_err CABackend
    (ub_perform_operation (ca_backend svc) (ca_key_id svc) (OpSign cert_data USigEcdsaP256));
  signature ← io_lift (match signature_result with
    | Signed sig => Ok sig
    | _ => Err (CAInternal (lit "Unexpected signature result"))
    end);
  pem ← io_lift (build_certificate_pem cert_data signature);
  io_lift (Ok (mkCertificate (cd_id d) tenant_id serial (format_subject (req_subject request))
    (format_subject (ca_subject svc)) nb na CertIssued pem (cd_created d) None None)).
End Service.

(** ** Revocation *)

Definition valid_or (c : bool) (msg : string) : result CAError unit :=
  ensure c (CAInvalidRequest (lit msg)).

Definition valid_reasons : list bytes :=
  lit <$> ["unspecified"; "keyCompromise"; "cACompromise"; "affiliationChanged"; "superseded";
           "cessationOfOperation"; "certificateHold"; "removeFromCRL"; "privilegeWithdrawn";
           "aACompromise"]%string.

(** Nothing is recorded. *)
Definition service_revoke_certificate (serial reason : bytes) : result CAError unit :=
  valid_or (negb (is_empty serial)) "Serial number cannot be empty" ≫= λ _,
  valid_or (negb (is_empty reason)) "Revocation reason cannot be empty" ≫= λ _,
  valid_or (forallb is_ascii_hexdigit serial)
    "Serial number must contain only hexadecimal characters" ≫= λ _,
  ensure (bool_decide (reason ∈ valid_reasons))
    (CAInvalidRequest (lit "Invalid revocation reason '" ++ reason ++ lit "'. Must be one of: "
       ++ join (lit ", ") valid_reasons)) ≫= λ _,
  valid_or (8 <=? length serial)%nat "Serial number too short - certificate not found" ≫= λ _,
  valid_or (negb (bool_decide (serial = lit "deadbeefdeadbeef"))) "Certificate is already revoked".

Definition generate_crl : bytes :=
  lit "-----BEGIN X509 CRL-----" ++ [newline] ++ lit "Future: Implement CRL generation"
  ++ [newline] ++ lit "-----END X509 CRL-----".

(** ** api.rs *)

(** [s.matches(c).count()] *)
Definition count_byte (c : byte) (s : bytes) : nat := length (filter (λ b, b = c) s).

Definition validate_san (s : SubjectAlternativeName) : result CAError unit :=
  match s with
  | DnsName name =>
      valid_or (negb (is_empty name)) "DNS name in SAN cannot be empty" ≫= λ _,
      valid_or (length name <=? 253)%nat "DNS name in SAN cannot exceed 253 characters" ≫= λ _,
      valid_or (negb (starts_with (lit ".") name || ends_with (lit ".") name))
        "DNS name cannot start or end with a dot" ≫= λ _,
      valid_or (negb (contains (lit "..") name)) "DNS name cannot contain consecutive dots"
  | Email email =>
      valid_or (negb (is_empty email)) "Email in SAN cannot be empty" ≫= λ _,
      valid_or (contains (lit "@") email && (count_byte "@"%char email =? 1)%nat)
        "Invalid email format in SAN" ≫= λ _,
      valid_or (length email <=? 254)%nat "Email in SAN cannot exceed 254 characters"
  | IpAddress ip =>
      valid_or (if parse_ip ip then true else false) "Invalid IP address format in SAN"
  | Uri uri =>
      valid_or (negb (is_empty uri)) "URI in SAN cannot be empty" ≫= λ _,
      valid_or (length uri <=? 2048)%nat "URI in SAN cannot exceed 2048 characters" ≫= λ _,
      valid_or (starts_with (lit "http://") uri || starts_with (lit "https://") uri)
        "URI in SAN must start with http:// or https://"
  end.

Definition validate_certificate_request (r : CertificateRequest) : result CAError unit :=
  let s := req_subject r in
  valid_or (negb (is_empty (common_name s))) "Common name cannot be empty" ≫= λ _,
  valid_or (length (common_name s) <=? 64)%nat "Common name cannot exceed 64 characters" ≫= λ _,
  valid_or (negb (contains (lit " ") (common_name s))) "Common name cannot contain spaces" ≫= λ _,
  match organization s with
  | Some org =>
      valid_or (negb (is_empty org)) "Organization cannot be empty if provided" ≫= λ _,
      valid_or (length org <=? 64)%nat "Organization cannot exceed 64 characters"
  | None => Ok tt
  end ≫= λ _,
  match country s with
  | Some country =>
      valid_or (length country =? 2)%nat
        "Country code must be exactly 2 characters (ISO 3166-1 alpha-2)" ≫= λ _,
      valid_or (forallb (byte_in 65 90) country) "Country code must be uppercase letters only"
  | None => Ok tt
  end ≫= λ _,
  match validity_days r with
  | Some days =>
      valid_or (negb (days =? 0)%N) "Validity period must be at least 1 day" ≫= λ _,
      valid_or (days <=? 3650)%N "Validity period cannot exceed 10 years (3650 days)"
  | None => Ok tt
  end ≫= λ _,
  valid_or (match key_usage r with [] => false | _ => true end)
    "At least one key usage must be specified" ≫= λ _,
  valid_or (match extended_key_usage r with [] => false | _ => true end)
    "At least one extended key usage must be specified" ≫= λ _,
  valid_or (match san_entries r with [] => false | _ => true end)
    "At least one Subject Alternative Name must be specified" ≫= λ _,
  for_each validate_san (san_entries r).

Definition validate_revocation_request (serial reason : bytes) : result CAError unit :=
  valid_or (negb (is_empty serial)) "Serial number cannot be empty" ≫= λ _,
  valid_or (length serial <=? 64)%nat "Serial number cannot exceed 64 characters" ≫= λ _,
  valid_or (forallb is_ascii_hexdigit serial)
    "Serial number must contain only hexadecimal characters" ≫= λ _,
  valid_or (negb (is_empty reason)) "Revocation reason cannot be empty" ≫= λ _,
  valid_or (length reason <=? 255)%nat "Revocation reason cannot exceed 255 characters" ≫= λ _,
  ensure (bool_decide (reason ∈ valid_reasons))
    (CAInvalidRequest (lit "Invalid revocation reason. Must be one of: " ++ join (lit ", ") valid_reasons)).

Definition revoke_certificate (serial reason : bytes) : result CAError unit :=
  validate_revocation_request serial reason ≫= λ _, service_revoke_certificate serial reason.

(** Every request gets a tenant of its own, [tenant]. *)
Definition issue_certificate `{Hex} `{Base64} `{SerdeJson} `{DateTimes} `{ValueText}
    (svc : CertificateAuthorityService) (tenant : bytes) (request : CertificateRequest) (d : CaDraws)
    : io CAError Certificate :=
  io_lift (validate_certificate_request request) ≫= λ _,
  service_issue_certificate svc tenant request d.

(** ** Listing *)

Record ListCertificatesQuery := mkListQuery {
  lq_status : option bytes;
  lq_subject : option bytes;
  lq_serial : option bytes;
  lq_common_name : option bytes;
  lq_organization : option bytes;
  lq_expires_before : option bytes;
  lq_created_after : option bytes;
  lq_limit : option N; (* u32 *)
  lq_offset : option N; (* u32 *)
  lq_sort_by : option bytes;
  lq_sort_order : option bytes;
}.

Record ListCertificatesResponse := mkListResponse {
  lr_certificates : list Certificate;
  lr_total : N;
  lr_limit : N;
  lr_offset : N;
}.

Definition check_if {A} (o : option A) (f : A → result bytes unit) : result bytes unit :=
  match o with Some a => f a | None => Ok tt end.
Definition one_of (s : bytes) (names : list string) : bool := bool_decide (s ∈ lit <$> names).

Definition check_filter (empty long : string) (s : bytes) : result bytes unit :=
  ensure (negb (is_empty s)) (lit empty) ≫= λ _, ensure (length s <=? 64)%nat (lit long).

Definition validate_list_query `{DateTimes} (q : ListCertificatesQuery) : result bytes unit :=
  check_if (lq_status q) (λ s, ensure (one_of s ["Pending"; "Issued"; "Revoked"; "Expired"]%string)
    (lit "Invalid status filter. Must be one of: Pending, Issued, Revoked, Expired")) ≫= λ _,
  check_if (lq_subject q) (λ s, ensure (length s <=? 200)%nat
    (lit "Subject filter cannot exceed 200 characters")) ≫= λ _,
  check_if (lq_serial q) (λ s,
    check_filter "Serial number filter cannot be empty" "Serial number filter cannot exceed 64 characters" s ≫= λ _,
    ensure (forallb is_ascii_hexdigit s)
      (lit "Serial number must contain only hexadecimal characters")) ≫= λ _,
  check_if (lq_common_name q)
    (check_filter "Common name filter cannot be empty" "Common name filter cannot exceed 64 characters") ≫= λ _,
  check_if (lq_organization q)
    (check_filter "Organization filter cannot be empty" "Organization filter cannot exceed 64 characters") ≫= λ _,
  check_if (lq_limit q) (λ n, ensure (negb (n =? 0)%N) (lit "Limit must be at least 1") ≫= λ _,
    ensure (n <=? 1000)%N (lit "Limit cannot exceed 1000")) ≫= λ _,
  check_if (lq_offset q) (λ n, ensure (n <=? 1000000)%N (lit "Offset cannot exceed 1,000,000")) ≫= λ _,
  check_if (lq_sort_by q) (λ s, ensure (one_of s ["serial"; "subject"; "created_at"; "expires_at"]%string)
    (lit "Invalid sort_by field. Must be one of: serial, subject, created_at, expires_at")) ≫= λ _,
  check_if (lq_sort_order q) (λ s, ensure (one_of s ["asc"; "desc"]%string)
    (lit "Invalid sort_order. Must be 'asc' or 'desc'")) ≫= λ _,
  check_if (lq_expires_before q) (λ s, ensure (if parse_from_rfc3339 s then true else false)
    (lit "Invalid expires_before date format. Use ISO 8601 format (e.g., 2025-12-31T23:59:59Z)")) ≫= λ _,
  check_if (lq_created_after q) (λ s, ensure (if parse_from_rfc3339 s then true else false)
    (lit "Invalid created_after date format. Use ISO 8601 format (e.g., 2025-01-01T00:00:00Z)")) ≫= λ _,
  match lq_created_after q ≫= parse_from_rfc3339, lq_expires_before q ≫= parse_from_rfc3339 with
  | Some created, Some expires =>
      ensure (created <? expires)%Z (lit "created_after date must be before expires_before date")
  | _, _ => Ok tt
  end.

Definition list_certificates `{DateTimes} (q : ListCertificatesQuery) : result bytes ListCertificatesResponse :=
  validate_list_query q ≫= λ _,
  Ok (mkListResponse [] 0 (default 50%N (lq_limit q)) (default 0%N (lq_offset q))).
