(* ===== verification/Commands.v ===== *)
(** * The other seal commands

    crates/seal-cli/src/main.rs: [rekey], [witness], [emit-request], [attest-sbom] and
    [verify-attestation].  A POST is an argument: the status and the text that come
    back, or why there are none.  What is printed on the console is left out. *)

From S2P Require Import Prelude External Utf8 FileSystem Json Float64 Manifest ManifestCanon.
From S2P Require Import Chain Crypto Keywrap Chronicle Attestation Archive VerifyChronicle.
From S2P Require Import Cli VerifyEngine.

(** serde's pretty printer on rotation records and requests *)
Class RequestJson := {
  rotation_to_json : RotationRecord → result bytes bytes;
  witness_to_json : WitnessRequest → result bytes bytes;
  verify_request_to_json : VerifyRequest → result bytes bytes;
}.

(** [client.post(url).json(&request).send()], the status and the body *)
Definition post {R} : Type := bytes → R → result bytes (N * bytes).
Arguments post : clear implicits.

Definition is_success (status : N) : bool := (200 <=? status)%N && (status <? 300)%N.

Record RekeyCmd := mkRekeyCmd {
  rk_chronicle : path;
  rk_old_key : path;
  rk_new_key : path;
  rk_out : path;
  rk_unencrypted : bool;
}.

Record WitnessCmd := mkWitnessCmd {
  wt_chronicle : path;
  wt_device_key : path;
  wt_out : option path;
  wt_post : option bytes;
  wt_rotation : option path;
  wt_unencrypted : bool;
}.

Record EmitRequestCmd := mkEmitRequestCmd {
  em_archive : path;
  em_device_pub : path;
  em_out : path;
  em_post : option bytes;
}.

Record AttestSbomCmd := mkAttestSbomCmd {
  as_binary : path;
  as_sbom : path;
  as_device_key : path;
  as_out : option path;
  as_unencrypted : bool;
}.

(** [--device-pub] is a key, or the path of a file with one. *)
Record VerifyAttestationCmd := mkVerifyAttestationCmd {
  va_attestation : path;
  va_device_pub : bytes;
  va_device_pub_path : path;
  va_binary : option path;
  va_sbom : option path;
}.

Section Commands.
Context `{Blake3} `{Hex} `{Base64} `{Ed25519} `{P256} `{Aead} `{Kdf} `{Hpke} `{SerdeJson}
  `{SerdeValue} `{BundleJson} `{ManifestJson} `{StateJson} `{RotationJson} `{IoText}
  `{RequestJson} `{ManifestValue} `{AttestationJson}.

Definition io_text_error : io_error → CliError := λ e, Anyhow (io_error_text e).

(** ** [rekey] *)

Definition load_named_bundle (flag : string) (p : path) (unencrypted : bool)
    (passphrase : option bytes) (s : fs) : result CliError DeviceBundle :=
  map_err (context flag p) (load_bundle p unencrypted passphrase s).

(** What is read and checked before anything is written. *)
Definition rekey_checks (a : RekeyCmd) (old_pass new_pass : option bytes) (s : fs)
    : result CliError (ChronicleState * DeviceBundle * DeviceBundle) :=
  ensure (path_exists (rk_chronicle a) s)
    (Anyhow (lit "nothing to rotate: no chronicle state at " ++ path_display (rk_chronicle a)
      ++ lit " (start one with `seal wrap --chronicle` first)")) ≫= λ _,
  state ← map_err (context "Failed to read chronicle state: " (rk_chronicle a))
    (load (rk_chronicle a) s);
  old ← load_named_bundle "Failed to load --old-key: " (rk_old_key a) (rk_unencrypted a) old_pass s;
  new ← load_named_bundle "Failed to load --new-key: " (rk_new_key a) (rk_unencrypted a) new_pass s;
  ensure (bool_decide (public (signing old) = cs_device_pub state))
    (Anyhow (lit "--old-key (" ++ public (signing old)
      ++ lit ") is not the chronicle's current identity (" ++ cs_device_pub state ++ lit ")")) ≫= λ _,
  ensure (negb (bool_decide (public (signing new) = public (signing old))))
    (anyhow "--new-key must differ from --old-key") ≫= λ _,
  ensure (negb (path_exists (rk_out a) s))
    (Anyhow (lit "Refusing to overwrite existing path: " ++ path_display (rk_out a))) ≫= λ _,
  Ok (state, old, new).

Definition rotation_path (dir : path) : path := dir ++ [lit "rotation.json"].

Definition handle_rekey (a : RekeyCmd) (old_pass new_pass : option bytes)
    (rotated_at updated_at : bytes) : io CliError unit :=
  io_read (rekey_checks a old_pass new_pass) ≫= λ '(state, old, new),
  let sequence := wrapping_add64 (cs_sequence state) 1 in
  io_lift (map_err from_crypto (rotation_create_signed (signing old) (cs_key_epoch state) new
    sequence (cs_tip state) rotated_at)) ≫= λ record,
  io_map_err (context "Failed to create rotation entry directory: " (rk_out a))
    (create_dir_all (rk_out a)) ≫= λ _,
  io_lift (map_err Anyhow (rotation_to_json record)) ≫= λ json,
  io_map_err (context "Failed to write " (rotation_path (rk_out a)))
    (create_write (rotation_path (rk_out a)) (json ++ [newline])) ≫= λ _,
  let tip := format_archive_id (rotation_digest record) in
  io_map_err (context "Failed to update chronicle state: " (rk_chronicle a))
    (save (mkChronicleState (public (signing new)) sequence tip (new_key_epoch (rr_new record))
             updated_at) (rk_chronicle a)).

(** ** [witness] *)

Definition set_rotation (r : option RotationRecord) (w : WitnessRequest) : WitnessRequest :=
  mkWitnessRequest (wr_device_pub w) (wr_sequence w) (wr_tip w) (wr_signed_at w) (wr_signature w) r.

(** The rotation entry must be the tip. *)
Definition attach_rotation (dir : option path) (tip : bytes) (req : WitnessRequest) (s : fs)
    : result CliError WitnessRequest :=
  match dir with
  | Some dir =>
      rec ← map_err Anyhow (read_rotation dir s);
      let rot_tip := format_archive_id (rotation_digest rec) in
      ensure (bool_decide (rot_tip = tip))
        (Anyhow (lit "--rotation entry digest (" ++ rot_tip
          ++ lit ") does not match the chronicle tip (" ++ tip
          ++ lit ") — attach the rotation you just created with `seal rekey`")) ≫= λ _,
      Ok (set_rotation (Some rec) req)
  | None => Ok req
  end.

Definition witness_request (a : WitnessCmd) (passphrase : option bytes) (signed_at : bytes) (s : fs)
    : result CliError WitnessRequest :=
  state ← map_err (context "Failed to read chronicle state: " (wt_chronicle a))
    (load (wt_chronicle a) s);
  bundle ← load_bundle (wt_device_key a) (wt_unencrypted a) passphrase s;
  ensure (bool_decide (public (signing bundle) = cs_device_pub state))
    (Anyhow (lit "chronicle state belongs to " ++ cs_device_pub state
      ++ lit " but the device key is " ++ public (signing bundle))) ≫= λ _,
  request ← map_err from_crypto
    (witness_create_signed (signing bundle) (cs_sequence state) (cs_tip state) signed_at);
  attach_rotation (wt_rotation a) (cs_tip state) request s.

(** [fs::write(out, text)?], or the console. *)
Definition write_out (out : option path) (text : bytes) : io CliError unit :=
  match out with
  | Some p => io_map_err io_text_error (create_write p text)
  | None => mret tt
  end.

Definition handle_witness (a : WitnessCmd) (passphrase : option bytes) (signed_at : bytes)
    (http : post WitnessRequest) : io CliError unit :=
  io_read (witness_request a passphrase signed_at) ≫= λ request,
  match wt_post a with
  | Some url =>
      io_lift (map_err Anyhow (http url request)) ≫= λ '(status, text),
      io_lift (ensure (is_success status)
        (CliExit status (lit "witness rejected: HTTP " ++ fmt_N status ++ lit " — " ++ text))) ≫= λ _,
      io_lift (map_err (λ _, anyhow "witness response was not JSON") (value_from_str text)) ≫= λ v,
      io_lift (ok_or (get_str v "jws") (anyhow "witness response missing 'jws'")) ≫= λ jws,
      write_out (wt_out a) jws
  | None =>
      io_lift (map_err Anyhow (witness_to_json request)) ≫= λ json,
      write_out (wt_out a) json
  end.

(** ** [emit-request] *)

(** [s.lines()] *)
Definition strip_cr (l : bytes) : bytes :=
  match last l with Some c => if decide (c = byte_of_N 13) then removelast l else l | None => l end.
Definition lines (s : bytes) : list bytes :=
  let parts := split_on newline s in
  strip_cr <$> match last parts with Some [] => removelast parts | _ => parts end.

(** The Ed25519 line of a key file, or the whole text. *)
Definition select_device_pub (content : bytes) : bytes :=
  default (trim content) (List.find (starts_with (lit "ed25519:")) (trim <$> lines content)).

(** [fs::read_to_string] *)
Definition read_text (p : path) (err : CliError) (s : fs) : result CliError bytes :=
  b ← map_err (λ _, err) (read_file p s);
  ensure (utf8_valid b) err ≫= λ _, Ok b.

Definition emit_segment (archive : path) (s : fs) (p : nat * SegmentInfo) : result CliError SegmentRef :=
  let '(index, seg) := p in
  let name := chunk_filename (N.of_nat index) in
  ensure (bool_decide (chunk_file seg = name))
    (Anyhow (lit "Segment " ++ fmt_nat index ++ lit " references '" ++ chunk_file seg
      ++ lit "', expected '" ++ name ++ lit "'")) ≫= λ _,
  let chunk_path := chunks_path archive ++ [name] in
  data ← map_err (context "Failed to read chunk: " chunk_path) (read_file chunk_path s);
  ensure (len_N data <=? MAX_STORED_CHUNK_BYTES)%N
    (Anyhow (lit "Chunk " ++ name ++ lit " exceeds the maximum stored size")) ≫= λ _,
  Ok (mkSegmentRef (as_u32 (N.of_nat index)) (lit "b3:" ++ hex_encode (blake3 data))).

Definition emit_request (a : EmitRequestCmd) (s : fs) : result CliError VerifyRequest :=
  '(m, _) ← map_err (context "Failed to read archive: " (em_archive a))
    (read_manifest (em_archive a) s);
  segs ← map_res (emit_segment (em_archive a) s) (enumerate (segments m));
  content ← read_text (em_device_pub a)
    (Anyhow (lit "Failed to read device pub file: " ++ path_display (em_device_pub a))) s;
  manifest_value ← map_err (λ _, anyhow "Failed to serialize manifest to JSON value")
    (manifest_to_value m);
  Ok (mkVerifyRequest (select_device_pub content) manifest_value segs
    (mkVerifyOptions true (Some (dev_id (device m))))).

(** [reason]: the canonical reason phrase of a status *)
Definition handle_emit_request (a : EmitRequestCmd) (http : post VerifyRequest) (reason : N → bytes)
    : io CliError unit :=
  io_read (emit_request a) ≫= λ request,
  io_lift (map_err Anyhow (verify_request_to_json request)) ≫= λ json,
  io_map_err (context "Failed to write output file: " (em_out a))
    (create_write (em_out a) json) ≫= λ _,
  match em_post a with
  | None => mret tt
  | Some url =>
      io_lift (map_err (λ _, Anyhow (lit "Failed to POST to " ++ url)) (http url request))
        ≫= λ '(status, _),
      io_lift (ensure (is_success status) (CliExit status
        (lit "HTTP " ++ fmt_N status ++ lit " " ++ reason status)))
  end.

(** ** [attest-sbom] and [verify-attestation] *)

Definition MAX_BINARY_SIZE : N := 256 * 1024 * 1024.

Definition from_attestation (e : PointAttestationError) : CliError :=
  Anyhow (attestation_error_text e).

Definition attest_sbom (a : AttestSbomCmd) (passphrase : option bytes) (version now nonce : bytes)
    (dir_len : N) (s : fs) : result CliError bytes :=
  binary_size ← map_err (context "Failed to read binary file: " (as_binary a))
    (metadata_len dir_len (as_binary a) s);
  ensure (negb (binary_size =? 0)%N) (CliExit 1 (lit "Error: binary file is empty (0 bytes)"))
    ≫= λ _,
  ensure (binary_size <=? MAX_BINARY_SIZE)%N
    (CliExit 1 (lit "Error: binary file exceeds 256 MB limit (" ++ fmt_N binary_size
      ++ lit " bytes)")) ≫= λ _,
  sbom ← read_text (as_sbom a)
    (Anyhow (lit "Failed to read SBOM file: " ++ path_display (as_sbom a))) s;
  map_err (λ _, CliExit 1 (lit "Error: SBOM file is not valid JSON")) (value_from_str sbom) ≫= λ _,
  kp ← load_signing_keypair (as_device_key a) (as_unencrypted a) passphrase s;
  attestation ← map_err (λ _, anyhow "Failed to create attestation")
    (pa_create (as_binary a) (lit "binary") (as_sbom a) (lit "sbom") kp version now nonce s);
  map_err (λ _, anyhow "Failed to serialize attestation") (attestation_to_json attestation).

Definition handle_attest_sbom (a : AttestSbomCmd) (passphrase : option bytes)
    (version now nonce : bytes) (dir_len : N) : io CliError unit :=
  io_read (attest_sbom a passphrase version now nonce dir_len) ≫= λ json,
  let out := default [lit "attestation.se-attestation.json"] (as_out a) in
  io_map_err (context "Failed to write attestation: " out) (create_write out json) ≫= λ _,
  io_map_err (context "Failed to set permissions on " out) (set_permissions out).

Definition handle_verify_attestation (a : VerifyAttestationCmd) (s : fs) : result CliError unit :=
  json ← read_text (va_attestation a)
    (Anyhow (lit "Failed to read attestation: " ++ path_display (va_attestation a))) s;
  attestation ← map_err (λ _, anyhow "Failed to parse attestation JSON") (attestation_from_json json);
  device_pub ← (if starts_with (lit "ed25519:") (va_device_pub a) then Ok (va_device_pub a)
                else content ← read_text (va_device_pub_path a)
                       (Anyhow (lit "Failed to read public key file: " ++ va_device_pub a)) s;
                     Ok (select_device_pub content));
  sig_valid ← map_err (λ _, anyhow "Failed to verify signature")
    (pa_verify_signature attestation device_pub);
  map_err (λ e, CliExit 10 (lit "Hash mismatch: " ++ attestation_error_text e))
    (verify_file_hashes attestation (va_binary a) (va_sbom a) s) ≫= λ _,
  ensure sig_valid (CliExit 10 (lit "Signature verification failed")).
End Commands.
