(* ===== verification/Wrap.v ===== *)
(** * [seal wrap]

    crates/seal-cli/src/main.rs, [handle_wrap], built without the yubikey feature:
    split the input into chunks, encrypt each under a content key, stream them into
    an archive, wrap the content key to the recipients, link the archive into its
    chronicle, sign the manifest, and advance the chronicle state.

    The clock, the random draws and the prompts are arguments.  The input file is
    read as it was when it was opened. *)

From S2P Require Import Prelude External Utf8 FileSystem Json Float64 Manifest ManifestCanon.
From S2P Require Import Chain Crypto Keywrap Chronicle Archive VerifyChronicle Cli.

(** The flags; those of the YubiKey build are left out. *)
Record WrapCmd := mkWrapCmd {
  wc_input : path;
  wc_output : path;
  wc_profile : bytes;
  wc_chunk_size : N; (* usize *)
  wc_chunk_seconds : option f64;
  wc_fps : option N; (* u32 *)
  wc_device_key : option path;
  wc_seed : option N; (* u64 *)
  wc_data_type : option bytes;
  wc_source : option bytes;
  wc_description : option bytes;
  wc_mime_type : option bytes;
  wc_sample_rate : option f64;
  wc_unit : option bytes;
  wc_sensor_model : option bytes;
  wc_latitude : option f64;
  wc_longitude : option f64;
  wc_altitude : option f64;
  wc_bit_depth : option N; (* u16 *)
  wc_channels : option N; (* u8 *)
  wc_codec : option bytes;
  wc_application : option bytes;
  wc_host : option bytes;
  wc_log_level : option bytes;
  wc_log_format : option bytes;
  wc_backend : bytes;
  wc_unencrypted : bool;
  wc_recipients : list bytes;
  wc_sign_only : bool;
  wc_chronicle : option path;
  wc_prev_archive : option path;
  wc_prev_hash : option bytes;
  wc_prev_seq : option N; (* u64 *)
}.

(** What is drawn at random: the content key, the nonce of each chunk, the HPKE
    randomness for each recipient. *)
Record Draws := mkDraws {
  dr_cek : bytes;
  dr_nonce : nat → bytes;
  dr_hpke : nat → bytes;
}.

Record WrapEnv := mkWrapEnv {
  env_started : bytes; (* current_timestamp() at the start *)
  env_updated : bytes; (* current_timestamp() at the state update *)
  env_key : KeyEnv;
  env_draws : Draws; (* the operating system's generator *)
  env_dir_len : N;
  env_reads : nat → N; (* how much a read of the input returns at most *)
}.

Record WrapResult := mkWrapResult {
  wres_output_dir : path;
  wres_signature : bytes;
  wres_chunk_count : nat;
}.

(** ChaCha20Rng from a seed. *)
Class SeededRng := seeded_draws : N → Draws.

(** [DateTime::parse_from_rfc3339(t)? + a ms + b ms], printed with whole seconds: a parse
    error, [None] when the sum overflows (a panic), or the text. *)
Class Rfc3339 := rfc3339_add_millis : bytes → Z → Z → result bytes (option bytes).

(** ** Reading the input *)

(** [reader.read(&mut buf[filled..])]: at least one byte when there is one, at most
    [room], and otherwise as much as the system gives. *)
Definition read_some (limit room : N) (rest : bytes) : bytes :=
  take_N (N.min room (N.max 1 limit)) rest.

(** The loop of [read_exact_or_eof]: [k] reads were made so far. *)
Fixpoint fill (reads : nat → N) (fuel : nat) (size : N) (k : nat) (buf rest : bytes)
    : bytes * bytes * nat :=
  match fuel with
  | O => (buf, rest, k)
  | S f =>
      if (len_N buf <? size)%N then
        let got := read_some (reads k) (size - len_N buf) rest in
        if is_empty got then (buf, rest, S k)
        else fill reads f size (S k) (buf ++ got) (drop_N (len_N got) rest)
      else (buf, rest, k)
  end.
Definition read_exact_or_eof (reads : nat → N) (size : N) (k : nat) (rest : bytes)
    : bytes * bytes * nat :=
  fill reads (S (S (length rest))) size k [] rest.

(** The buffers of the loop of [handle_wrap], up to the first empty one. *)
Fixpoint read_chunks (reads : nat → N) (fuel : nat) (size : N) (k : nat) (rest : bytes)
    : list bytes :=
  match fuel with
  | O => []
  | S f =>
      let '(chunk, rest', k') := read_exact_or_eof reads size k rest in
      if is_empty chunk then [] else chunk :: read_chunks reads f size k' rest'
  end.
Definition input_chunks (reads : nat → N) (size : N) (data : bytes) : list bytes :=
  read_chunks reads (S (length data)) size 0 data.

Section Wrap.
Context `{Blake3} `{Hex} `{Base64} `{Ed25519} `{Aead} `{Kdf} `{Hpke} `{SerdeJson} `{SerdeValue}
  `{BundleJson} `{ManifestJson} `{StateJson} `{IoText} `{SeededRng} `{Rfc3339}.

(** ** Checks before anything is written *)

Definition is_str (x : bytes) (s : string) : bool := bool_decide (x = lit s).

Definition check_wrap_args (a : WrapCmd) : result CliError unit :=
  ensure (wc_chunk_size a <=? MAX_CHUNK_SIZE_BYTES)%N
    (Anyhow (lit "--chunk-size must not exceed 256 MB (" ++ fmt_N MAX_CHUNK_SIZE_BYTES
      ++ lit " bytes), got " ++ fmt_N (wc_chunk_size a) ++ lit " bytes")) ≫= λ _,
  ensure (negb (is_str (wc_backend a) "yubikey" && bool_decide (wc_device_key a = None)))
    (anyhow "--device-key is required with --backend yubikey") ≫= λ _,
  ensure (negb (is_str (wc_backend a) "yubikey" && negb (wc_sign_only a)))
    (anyhow "--backend yubikey currently requires --sign-only (C4 content encryption is software-backend only)").

Definition resolve_signing_key (backend : bytes) (b : DeviceBundle) : result CliError bytes :=
  if is_str backend "software" then Ok (public (signing b))
  else if is_str backend "yubikey" then
    Err (anyhow "YubiKey support requires building with --features yubikey")
  else Err (Anyhow (lit "Unknown backend '" ++ backend ++ lit "'. Use 'software' or 'yubikey'")).

Definition check_input (a : WrapCmd) (dir_len : N) (s : fs) : result CliError unit :=
  n ← map_err (context "Failed to read input file: " (wc_input a))
    (metadata_len dir_len (wc_input a) s);
  ensure (negb (n =? 0)%N) (anyhow "Input file is empty").

Definition check_output_name (output : path) : result CliError unit :=
  name ← ok_or (last output) (anyhow "Invalid output path");
  ensure (ends_with (lit ".seal") (from_utf8_lossy name))
    (anyhow "Output directory must end with .seal").

(** ** The chunks *)

Definition resolve_chunk_seconds (a : WrapCmd) : f64 :=
  if is_str (wc_profile a) "cam.video" then default (f64_of_Z 2) (wc_chunk_seconds a)
  else default f64_zero (wc_chunk_seconds a).

Definition wrap_started_at (a : WrapCmd) (env : WrapEnv) : bytes :=
  match wc_seed a with
  | Some _ => lit "2025-01-01T00:00:00Z"
  | None => env_started env
  end.

Definition wrap_draws (a : WrapCmd) (env : WrapEnv) : Draws :=
  match wc_seed a with
  | Some seed => seeded_draws seed
  | None => env_draws env
  end.

Definition wrap_cek (a : WrapCmd) (env : WrapEnv) : option bytes :=
  if wc_sign_only a then None else Some (dr_cek (wrap_draws a env)).

(** The bytes of a chunk file: [nonce ++ ciphertext], or the plaintext of a sign-only
    archive. *)
Definition store_chunk (key : option bytes) (aad nonce data : bytes) : result CliError bytes :=
  match key with
  | Some key =>
      ct ← map_err from_crypto (encrypt_segment key nonce data aad);
      Ok (nonce ++ ct)
  | None => Ok data
  end.

Definition wrap_segment (a : WrapCmd) (secs : f64) (i : nat) (o : ChunkOutcome) : SegmentInfo :=
  mkSegmentInfo (chunk_filename (out_index o)) (hex_encode (out_blake3 o))
    (if is_str (wc_profile a) "cam.video"
     then fmt_fixed 3 (f64_mul (f64_of_Z (Z.of_nat i)) secs) ++ lit "s"
     else lit "segment-" ++ fmt_nat i)
    secs (hex_encode (out_continuity o)).

Fixpoint wrap_chunks (a : WrapCmd) (key : option bytes) (aad : bytes) (nonce_at : nat → bytes)
    (i : nat) (w : ArchiveWriter) (datas : list bytes)
    : io CliError (ArchiveWriter * list SegmentInfo) :=
  match datas with
  | [] => mret (w, [])
  | data :: datas' =>
      io_lift (store_chunk key aad (nonce_at i) data) ≫= λ stored,
      io_map_err (λ e, Anyhow (archive_error_text e)) (push_chunk w stored) ≫= λ '(w', o),
      wrap_chunks a key aad nonce_at (S i) w' datas' ≫= λ '(w'', segs),
      mret (w'', wrap_segment a (resolve_chunk_seconds a) i o :: segs)
  end.

(** ** The manifest *)

Definition required {A} (o : option A) (flag profile : string) : result CliError A :=
  ok_or o (Anyhow (lit flag ++ lit " is required for " ++ lit profile ++ lit " profile")).

(** When the last chunk ends. *)
Definition capture_end_time (started : bytes) (chunk_count : nat) (secs : f64)
    : result CliError bytes :=
  if (0 <? chunk_count)%nat then
    let last_chunk_start := f64_mul (f64_of_Z (Z.of_nat (chunk_count - 1))) secs in
    t ← map_err Anyhow (rfc3339_add_millis started
          (f64_as_i64 (f64_mul last_chunk_start (f64_of_Z 1000)))
          (f64_as_i64 (f64_mul secs (f64_of_Z 1000))));
    ok_or t Panicked
  else Ok started.

Definition wrap_metadata (a : WrapCmd) (started : bytes) (chunk_count : nat)
    : result CliError ProfileMetadata :=
  if is_str (wc_profile a) "cam.video" then
    ended ← capture_end_time started chunk_count (resolve_chunk_seconds a);
    Ok (CamVideo (mkCamVideoMetadata started ended (lit "UTC")
      (f64_of_Z (Z.of_N (default 30%N (wc_fps a)))) (lit "1920x1080") (lit "raw")))
  else if is_str (wc_profile a) "sensor" then
    sample_rate ← required (wc_sample_rate a) "--sample-rate" "sensor";
    unit ← required (wc_unit a) "--unit" "sensor";
    sensor_model ← required (wc_sensor_model a) "--sensor-model" "sensor";
    Ok (Sensor (mkSensorMetadata started started sample_rate unit sensor_model
      (wc_latitude a) (wc_longitude a) (wc_altitude a) []))
  else if is_str (wc_profile a) "audio" then
    sample_rate ← required (wc_sample_rate a) "--sample-rate" "audio";
    bit_depth ← required (wc_bit_depth a) "--bit-depth" "audio";
    channels ← required (wc_channels a) "--channels" "audio";
    codec ← required (wc_codec a) "--codec" "audio";
    Ok (Audio (mkAudioMetadata started started (f64_as_u32 sample_rate) bit_depth channels codec))
  else if is_str (wc_profile a) "log" then
    application ← required (wc_application a) "--application" "log";
    host ← required (wc_host a) "--host" "log";
    log_level ← required (wc_log_level a) "--log-level" "log";
    log_format ← required (wc_log_format a) "--log-format" "log";
    Ok (Log (mkLogMetadata started started application host log_level log_format))
  else
    Ok (Generic (mkGenericMetadata started started (wc_data_type a) (wc_source a)
      (wc_description a) (wc_mime_type a) [])).

Definition initial_manifest (a : WrapCmd) (device_id signing_public_key ka_pub : bytes)
    (metadata : ProfileMetadata) (segments : list SegmentInfo) : TrstManifest :=
  mkTrstManifest (lit "0.2.0") (wc_profile a)
    (mkDeviceInfo device_id (lit "TrustEdgeRefCam") (lit "1.0.0") signing_public_key
      (Some ka_pub) None)
    metadata (mkChunkInfo (wc_chunk_size a) (resolve_chunk_seconds a)) segments
    [lit "location:unknown"] None None None None.

Definition apply_link (link : option ChronicleLink) (m : TrstManifest) : TrstManifest :=
  match link with
  | None => m
  | Some link =>
      mkTrstManifest (trst_version m) (profile m)
        (mkDeviceInfo (dev_id (device m)) (dev_model (device m)) (dev_firmware_version (device m))
          (dev_public_key (device m)) (dev_key_agreement_public (device m))
          (if (0 <? cl_key_epoch link)%N then Some (cl_key_epoch link) else None))
        (metadata m) (chunk m) (segments m) (claims m) (encryption m)
        (Some (cl_sequence link)) (cl_prev link) (signature m)
  end.

Definition set_encryption (e : option EncryptionBlock) (m : TrstManifest) : TrstManifest :=
  mkTrstManifest (trst_version m) (profile m) (device m) (metadata m) (chunk m) (segments m)
    (claims m) e (sequence m) (prev_archive_hash m) (signature m).

(** ** The recipients *)

Definition recipient_pubs (ka_pub : bytes) (recipients : list bytes) : list bytes :=
  foldl (λ acc r, if decide (r ∈ acc) then acc else acc ++ [r]) [ka_pub] recipients.

Definition seal_recipient (hpke_rng : nat → bytes) (info aad cek : bytes) (p : nat * bytes)
    : result CliError RecipientEntry :=
  '(enc, wrapped_cek) ← map_err from_crypto
    (hpke_seal_cek_with_rng (hpke_rng p.1) p.2 info aad cek);
  id ← map_err from_crypto (recipient_id p.2);
  Ok (mkRecipientEntry id p.2 enc wrapped_cek).

Definition from_manifest (e : ManifestFormatError) : CliError := Anyhow (manifest_error_text e).

Definition wrap_encryption (a : WrapCmd) (env : WrapEnv) (signing_public_key ka_pub : bytes)
    (m : TrstManifest) : result CliError TrstManifest :=
  match wrap_cek a env with
  | Some cek =>
      canonical ← map_err from_manifest (to_canonical_bytes m);
      let pre_digest := segment_hash canonical in
      let info := cek_wrap_info signing_public_key (trst_version m) in
      recipients ← map_res (seal_recipient (dr_hpke (wrap_draws a env)) info pre_digest cek)
        (enumerate (recipient_pubs ka_pub (wc_recipients a)));
      Ok (set_encryption (Some (mkEncryptionBlock CONTENT_AEAD_ID
            (mkHpkeSuite HPKE_KEM_ID HPKE_KDF_ID HPKE_AEAD_ID) recipients)) m)
  | None =>
      ensure (bool_decide (wc_recipients a = []))
        (anyhow "--recipient cannot be combined with --sign-only (sign-only archives are unencrypted)")
        ≫= λ _, Ok m
  end.

(** ** The state *)

Definition advance_chronicle (link : option ChronicleLink) (m : TrstManifest)
    (signing_public_key now : bytes) : io CliError unit :=
  match link with
  | Some link =>
      match cl_state_path link with
      | Some state_path =>
          io_lift (map_err from_manifest (archive_digest m)) ≫= λ digest,
          io_map_err (context "Failed to update chronicle state: " state_path)
            (save (mkChronicleState signing_public_key (cl_sequence link)
                     (format_archive_id digest) (cl_key_epoch link) now) state_path)
      | None => mret tt
      end
  | None => mret tt
  end.

Definition sign_wrapped (backend : bytes) (b : DeviceBundle) (m : TrstManifest)
    : result CliError bytes :=
  canonical ← map_err from_manifest (to_canonical_bytes m);
  if is_str backend "software" then map_err from_crypto (sign_manifest (signing b) canonical)
  else Err Panicked. (* unreachable!() *)

(** From the chunks on disk to the finished archive. *)
Definition wrap_finish (a : WrapCmd) (env : WrapEnv) (b : DeviceBundle)
    (signing_public_key device_id : bytes) (w : ArchiveWriter) (segs : list SegmentInfo)
    : io CliError WrapResult :=
  let ka_pub := ka_public_string (key_agreement b) in
  io_lift (wrap_metadata a (wrap_started_at a env) (length segs)) ≫= λ metadata,
  io_read (resolve_chronicle (wc_chronicle a) (wc_prev_archive a) (wc_prev_hash a)
             (wc_prev_seq a) signing_public_key) ≫= λ link,
  let m := apply_link link
             (initial_manifest a device_id signing_public_key ka_pub metadata segs) in
  io_lift (wrap_encryption a env signing_public_key ka_pub m) ≫= λ m,
  io_lift (sign_wrapped (wc_backend a) b m) ≫= λ sig,
  let m := set_signature sig m in
  io_map_err (context "Failed to finalize archive: " (wc_output a)) (finalize w m sig) ≫= λ _,
  advance_chronicle link m signing_public_key (env_updated env) ≫= λ _,
  mret (mkWrapResult (wc_output a) sig (length segs)).

Definition handle_wrap (a : WrapCmd) (env : WrapEnv) : io CliError WrapResult :=
  io_lift (check_wrap_args a) ≫= λ _,
  load_or_generate_bundle (wc_device_key a) (wc_unencrypted a) (env_key env) ≫= λ b,
  io_lift (resolve_signing_key (wc_backend a) b) ≫= λ signing_public_key,
  io_lift (pub_key_to_device_id signing_public_key) ≫= λ device_id,
  io_read (check_input a (env_dir_len env)) ≫= λ _,
  io_read (λ s, Ok (read_file (wc_input a) s)) ≫= λ input,
  io_lift (check_output_name (wc_output a)) ≫= λ _,
  io_map_err (context "Failed to create archive: " (wc_output a)) (create (wc_output a)) ≫= λ w,
  let chunk_aad := chunk_aad_v2 signing_public_key (wc_profile a) (wrap_started_at a env) in
  io_lift (map_err (context "Failed to read input file: " (wc_input a)) input) ≫= λ data,
  wrap_chunks a (wrap_cek a env) chunk_aad (dr_nonce (wrap_draws a env)) 0 w
    (input_chunks (env_reads env) (wc_chunk_size a) data) ≫= λ '(w, segs),
  wrap_finish a env b signing_public_key device_id w segs.
End Wrap.
