(* ===== verification/Unwrap.v ===== *)
(** * [seal verify] and [seal unwrap]

    crates/seal-cli/src/main.rs, [handle_verify] and [handle_unwrap].  What is
    printed on the console is left out; the receipt file of [verify] and the
    recovered file of [unwrap] are written.  The elapsed time and the process id are
    arguments. *)

From S2P Require Import Prelude External Utf8 FileSystem Json Float64 Manifest ManifestCanon.
From S2P Require Import Chain Crypto Keywrap Chronicle Archive VerifyChronicle Cli Wrap.

(** ** [verify] *)

Record VerifyCmd := mkVerifyCmd {
  vc_archive : path;
  vc_device_pub : bytes;
  vc_json : bool;
  vc_emit_receipt : option path;
}.

Record VerifyReport := mkVerifyReport {
  vr_signature : bytes;
  vr_continuity : bytes;
  vr_segments : N; (* u32 *)
  vr_duration_s : f64; (* f32 *)
  vr_profile : bytes;
  vr_device_id : bytes;
  vr_verify_time_ms : N; (* u64 *)
  vr_error : option bytes;
  vr_first_gap_index : option N; (* u32 *)
  vr_out_of_order : option bool;
  vr_chronicle_sequence : option N; (* u64 *)
}.

(** serde on reports: compact and pretty *)
Class ReportJson := {
  report_to_json : VerifyReport → result bytes bytes;
  report_to_json_pretty : VerifyReport → result bytes bytes;
}.

Definition default_report : VerifyReport :=
  mkVerifyReport [] [] 0 f64_zero [] [] 0 None None None None.

Definition manifest_report (m : TrstManifest) : VerifyReport :=
  mkVerifyReport [] [] (as_u32 (N.of_nat (length (segments m))))
    (f32_sum (f64_as_f32 ∘ duration_seconds <$> segments m))
    (profile m) (dev_id (device m)) 0 None None None (sequence m).

Definition set_outcome (sig continuity : string) (ms : N) (error : option bytes)
    (r : VerifyReport) : VerifyReport :=
  mkVerifyReport (lit sig) (lit continuity) (vr_segments r) (vr_duration_s r) (vr_profile r)
    (vr_device_id r) ms error (vr_first_gap_index r) (vr_out_of_order r)
    (vr_chronicle_sequence r).

(** The structured part of a continuity error. *)
Definition set_chain_error (e : ArchiveError) (r : VerifyReport) : VerifyReport :=
  let set gap ooo := mkVerifyReport (vr_signature r) (vr_continuity r) (vr_segments r)
    (vr_duration_s r) (vr_profile r) (vr_device_id r) (vr_verify_time_ms r) (vr_error r) gap ooo
    (vr_chronicle_sequence r) in
  match e with
  | ChainErr (Gap i) => set (Some (as_u32 (N.of_nat i))) (vr_out_of_order r)
  | ChainErr (OutOfOrder _ _) => set (vr_first_gap_index r) (Some true)
  | _ => r
  end.

(** [haystack.contains(needle)] *)
Fixpoint contains (needle haystack : bytes) : bool :=
  starts_with needle haystack ||
  match haystack with
  | [] => false
  | _ :: h => contains needle h
  end.

(** The headline for an archive that cannot be read. *)
Definition read_error_line (e : ArchiveError) : string :=
  match e with
  | MissingChunk _ => "Missing chunk file"
  | UnreferencedChunk _ => "Unreferenced chunk file"
  | InvalidChunkIndex _ _ => "Missing chunk file"
  | JsonErr _ => "Invalid manifest format"
  | SignatureMismatch => "Signature verification failed"
  | Io _ => "Archive read error"
  | SchemaMismatch _ => "Schema error"
  | ManifestErr _ => "Manifest error"
  | ChainErr _ => "Continuity chain error"
  | ValidationFailed _ => "Validation error"
  end%string.

Section Verify.
Context `{Blake3} `{Hex} `{Base64} `{Ed25519} `{P256} `{SerdeJson} `{ManifestJson} `{IoText}
  `{ReportJson}.

Definition emit_receipt (args : VerifyCmd) (r : VerifyReport) : io CliError unit :=
  match vc_emit_receipt args with
  | Some p =>
      io_lift (map_err Anyhow (report_to_json_pretty r)) ≫= λ json,
      io_map_err (λ e, Anyhow (io_error_text e)) (create_write p json)
  | None => mret tt
  end.

(** The compact report is printed under [--json]. *)
Definition print_json (args : VerifyCmd) (r : VerifyReport) : io CliError unit :=
  if vc_json args then io_lift (map_err Anyhow (report_to_json r)) ≫= λ _, mret tt else mret tt.

Definition output_success (args : VerifyCmd) (r : VerifyReport) : io CliError unit :=
  print_json args r ≫= λ _, emit_receipt args r.

Definition output_error (args : VerifyCmd) (r : VerifyReport) : io CliError unit :=
  print_json args r ≫= λ _, emit_receipt args r.

(** On the console some errors return before the receipt is written. *)
Definition continuity_returns_early (r : VerifyReport) : bool :=
  match vr_error r with
  | Some e => contains (lit "hash mismatch") e || contains (lit "Unreferenced chunk file") e
              || contains (lit "Missing chunk file") e
  | None => false
  end.
Definition output_continuity_error (args : VerifyCmd) (r : VerifyReport) : io CliError unit :=
  print_json args r ≫= λ _,
  if negb (vc_json args) && continuity_returns_early r then mret tt else emit_receipt args r.

(** [output(..)?; return Err(CliExitError { code, message }.into())] *)
Definition fail_with {A} (out : io CliError unit) (code : N) (message : bytes) : io CliError A :=
  out ≫= λ _, io_lift (Err (CliExit code message)).

Definition verify_signature_step (args : VerifyCmd) (ms : N) (m : TrstManifest) (r : VerifyReport)
    (canonical sig : bytes) : io CliError unit :=
  let failed error :=
    fail_with (output_error args (set_outcome "fail" "skip" ms (Some error) r)) 10
      (lit "Signature verification failed") in
  match verify_manifest (normalize_device_pub (vc_device_pub args)) canonical sig with
  | Ok true =>
      io_read (λ s, Ok (validate_archive (vc_archive args) s)) ≫= λ v,
      match v with
      | Ok _ => output_success args (set_outcome "pass" "pass" ms None r)
      | Err e =>
          fail_with (output_continuity_error args
            (set_chain_error e (set_outcome "pass" "fail" ms (Some (archive_error_text e)) r)))
            11 (lit "Continuity chain verification failed")
      end
  | Ok false => failed (lit "Signature verification failed")
  | Err e => failed (lit "Signature verification error: " ++ crypto_error_text e)
  end.

Definition handle_verify (args : VerifyCmd) (ms : N) : io CliError unit :=
  io_read (λ s, Ok (read_manifest (vc_archive args) s)) ≫= λ read,
  match read with
  | Err e =>
      fail_with (output_error args (set_outcome "" "" ms
        (Some (lit "Archive read failed: " ++ archive_error_text e)) default_report))
        12 (lit (read_error_line e))
  | Ok (m, _) =>
      match require_supported_version (trst_version m) with
      | Err e =>
          fail_with (output_error args (set_outcome "" "" ms (Some e) default_report)) 12 e
      | Ok _ =>
          let r := manifest_report m in
          match signature m with
          | None =>
              fail_with (output_error args (set_outcome "fail" "skip" ms
                (Some (lit "Manifest missing signature")) r))
                12 (lit "Manifest missing signature")
          | Some sig =>
              match to_canonical_bytes m with
              | Err e =>
                  fail_with (output_error args (set_outcome "fail" "skip" ms
                    (Some (lit "Canonical serialization failed: " ++ manifest_error_text e)) r))
                    14 (lit "Internal canonicalization error")
              | Ok canonical => verify_signature_step args ms m r canonical sig
              end
          end
      end
  end.
End Verify.

(** ** [unwrap] *)

Record UnwrapCmd := mkUnwrapCmd {
  uc_archive : path;
  uc_device_key : path;
  uc_output : path;
  uc_device_pub : option bytes;
  uc_unencrypted : bool;
}.

Definition unwrap_tmp_path (pid : N) (output : path) : path :=
  sibling (lit ".seal-unwrap." ++ fmt_N pid ++ lit ".partial") output.

Section Unwrap.
Context `{Blake3} `{Hex} `{Base64} `{Ed25519} `{P256} `{Aead} `{Kdf} `{Hpke} `{SerdeJson}
  `{SerdeValue} `{BundleJson} `{ManifestJson} `{IoText}.

(** The pinned signer, if the caller gave one. *)
Definition check_signer (expected : option bytes) (m : TrstManifest) : result CliError unit :=
  match expected with
  | None => Ok tt
  | Some e =>
      let expected := normalize_device_pub e in
      ensure (bool_decide (expected = dev_public_key (device m)))
        (CliExit 10 (lit "Signer mismatch: expected " ++ expected ++ lit ", archive is signed by "
          ++ dev_public_key (device m)))
  end.

Definition check_own_signature (m : TrstManifest) : result CliError unit :=
  sig ← ok_or (signature m) (anyhow "Archive has no signature");
  canonical ← map_err from_manifest (to_canonical_bytes m);
  sig_valid ← map_err from_crypto (verify_manifest (dev_public_key (device m)) canonical sig);
  ensure sig_valid (CliExit 10 (lit "Signature: FAIL")).

(** The content key and the associated data of the chunks, for an encrypted archive. *)
Definition decrypt_context (b : DeviceBundle) (m : TrstManifest)
    : result CliError (option (bytes * bytes)) :=
  match encryption m with
  | None => Ok None
  | Some block =>
      let my_pub := ka_public_string (key_agreement b) in
      entry ← ok_or (List.find (λ r, bool_decide (recipient_pub r = my_pub)) (recipients block))
        (anyhow "This key is not a recipient of the archive");
      canonical ← map_err from_manifest (to_canonical_bytes (set_encryption None m));
      let pre_digest := segment_hash canonical in
      let info := cek_wrap_info (dev_public_key (device m)) (trst_version m) in
      cek ← map_err (λ e, CliExit 1 (lit "Failed to unwrap content key: " ++ crypto_error_text e))
        (hpke_open_cek (key_agreement b) (enc entry) info pre_digest (wrapped_cek entry));
      Ok (Some (cek, chunk_aad_v2 (dev_public_key (device m)) (profile m) (manifest_started_at m)))
  end.

Definition chunk_label (i : nat) : bytes := lit "Chunk " ++ fmt_05 (N.of_nat i).

(** One chunk file, at most the stored-chunk cap. *)
Definition read_stored (archive : path) (i : nat) (s : fs) : result CliError bytes :=
  let p := chunks_path archive ++ [chunk_filename (N.of_nat i)] in
  data ← map_err (context "Failed to read chunk: " p) (read_file p s);
  let buf := take_N (MAX_STORED_CHUNK_BYTES + 1) data in
  ensure (len_N buf <=? MAX_STORED_CHUNK_BYTES)%N
    (Anyhow (chunk_label i ++ lit " exceeds the maximum stored size")) ≫= λ _,
  Ok buf.

Definition recover_chunk (ctx : option (bytes * bytes)) (i : nat) (stored : bytes)
    : result CliError bytes :=
  match ctx with
  | None => Ok stored
  | Some (cek, chunk_aad) =>
      ensure (24 <=? length stored)%nat
        (Anyhow (chunk_label i ++ lit " too short to contain nonce (" ++ fmt_nat (length stored)
          ++ lit " bytes)")) ≫= λ _,
      map_err (λ e, CliExit 1 (lit "Decryption failed — wrong key or corrupted archive: "
                               ++ crypto_error_text e))
        (decrypt_segment cek (take 24 stored) (drop 24 stored) chunk_aad)
  end.

Definition recover_step (archive : path) (ctx : option (bytes * bytes)) (tmp : path) (i : nat)
    : io CliError unit :=
  io_read (read_stored archive i) ≫= λ stored,
  io_lift (recover_chunk ctx i stored) ≫= λ plaintext,
  io_map_err (λ e, Anyhow (io_error_text e)) (append_write tmp plaintext).

(** [TempFileGuard]: the file is removed when the scope is left with an error. *)
Definition guarded {A} (tmp : path) (body : io CliError A) : io CliError A := λ s,
  match body s with
  | (Ok a, s') => (Ok a, s')
  | (Err e, s') => (Err e, (remove_file tmp s').2)
  end.

(** Recover into a temporary file and rename it over the output. *)
Definition recover (args : UnwrapCmd) (pid : N) (ctx : option (bytes * bytes)) (n : nat)
    : io CliError unit :=
  let tmp := unwrap_tmp_path pid (uc_output args) in
  guarded tmp
    (io_map_err (context "Failed to create temp output: " tmp) (create_write tmp []) ≫= λ _,
     io_for_each (recover_step (uc_archive args) ctx tmp) (seq 0 n) ≫= λ _,
     io_map_err (context "Failed to finalize output: " (uc_output args))
       (rename tmp (uc_output args))).

(** What is checked before anything is written. *)
Definition unwrap_checks (args : UnwrapCmd) (passphrase : option bytes) (s : fs)
    : result CliError (TrstManifest * option (bytes * bytes)) :=
  b ← load_bundle (uc_device_key args) (uc_unencrypted args) passphrase s;
  '(m, _) ← map_err (context "Failed to read archive: " (uc_archive args))
    (read_manifest (uc_archive args) s);
  map_err Anyhow (require_supported_version (trst_version m)) ≫= λ _,
  check_signer (uc_device_pub args) m ≫= λ _,
  check_own_signature m ≫= λ _,
  map_err (λ e, CliExit 11 (lit "Continuity: FAIL (" ++ archive_error_text e ++ lit ")"))
    (validate_archive (uc_archive args) s) ≫= λ _,
  ctx ← decrypt_context b m;
  Ok (m, ctx).

Definition handle_unwrap (args : UnwrapCmd) (passphrase : option bytes) (pid : N)
    : io CliError unit :=
  io_read (unwrap_checks args passphrase) ≫= λ '(m, ctx),
  recover args pid ctx (length (segments m)).
End Unwrap.
