(* ===== verification/CliCorrect.v ===== *)
(** * Correctness of key files on disk

    Loading yields well-formed keys; what [keygen] writes loads back; a secure write
    changes nothing but its target. *)

From S2P Require Import Prelude External Utf8 FileSystem Json Float64 Manifest ManifestCanon.
From S2P Require Import Chain Crypto Keywrap Chronicle Archive VerifyChronicle Cli.

(** ** [write_secure] *)

Lemma secure_tmp_ne (pid n : N) (p : path) : secure_tmp pid n p ≠ p.
Proof. by apply sibling_ne. Qed.

(** On success the target holds the data, the temporary file is gone, and everything else is
    unchanged but for new directories above the target. *)
Lemma write_secure_ok (p : path) (data : bytes) (pid n : N) (s s' : fs) (u : unit) :
  p ≠ [] → write_secure p data pid n s = (Ok u, s') →
  s' !! p = Some (File data) ∧ ancestor_error p s' = None ∧ s' !! secure_tmp pid n p = None
  ∧ s !! p ≠ Some Dir
  ∧ ∀ q, q ≠ p → q ≠ secure_tmp pid n p →
      s' !! q = s !! q ∨ (q ∈ ancestors p ∧ s !! q = None ∧ s' !! q = Some Dir).
Proof.
  intros Hp. set (tmp := secure_tmp pid n p). unfold write_secure. fold tmp.
  intros ([] & s1 & Hd & ([] & s2 & Hw & Hr)%io_bind_ok)%io_bind_ok.
  apply create_write_inv in Hw as (-> & Ht & Hat).
  apply (rename_inv tmp p data) in Hr as (-> & Hnd & Hap); [|apply lookup_insert_eq].
  assert (tmp ≠ p) as Hne by apply secure_tmp_ne.
  rewrite delete_insert_eq in *. rewrite lookup_insert_ne in Hnd by done.
  assert (∀ q, q ∈ ancestors p → q ≠ p ∧ q ≠ tmp) as Hanc by apply sibling_ancestors.
  assert (∀ q, q ≠ p → q ≠ tmp → s1 !! q = s !! q
    ∨ q ∈ ancestors p ∧ s !! q = None ∧ s1 !! q = Some Dir) as Hs1.
  { destruct (1 <? length p)%nat eqn:Hlen; [|injection Hd as <-; auto].
    apply Nat.ltb_lt in Hlen. unfold create_dir_all in Hd.
    pose proof (create_dirs_inv _ _ _ _ Hd) as Hin.
    destruct (create_dirs_ok _ _ Hin) as (s3 & Hs3 & Hdirs & Hout).
    rewrite Hd in Hs3. injection Hs3 as <-. intros q Hqp Hqt.
    assert (ancestors p = ancestors (take (length p - 1) p) ++ [take (length p - 1) p]) as Heq.
    { destruct p as [|name p _] using rev_ind; [done|]. rewrite length_app in *.
      replace (length p + length [name] - 1) with (length p) by (simpl; lia).
      rewrite take_app_length. apply ancestors_snoc. intros ->. simpl in Hlen. lia. }
    rewrite <-Heq in *.
    destruct (decide (q ∈ ancestors p)) as [Hq|Hq]; [|left; auto].
    rewrite (Hdirs q Hq). destruct (Hin q Hq) as [->| ->]; auto. }
  split_and!.
  - apply lookup_insert_eq.
  - rewrite <-Hap. apply ancestor_error_ext. intros q Hq. destruct (Hanc q Hq).
    by rewrite !lookup_insert_ne, lookup_delete_ne by done.
  - rewrite lookup_insert_ne by done. apply lookup_delete_eq.
  - destruct (1 <? length p)%nat eqn:Hlen; [|by injection Hd as <-].
    intros Hbad. unfold create_dir_all in Hd.
    pose proof (create_dirs_inv _ _ _ _ Hd) as Hin.
    destruct (create_dirs_ok _ _ Hin) as (s3 & Hs3 & _ & Hout).
    rewrite Hd in Hs3. injection Hs3 as <-. rewrite Hout in Hnd; [done|].
    apply Nat.ltb_lt in Hlen. rewrite elem_of_app, list_elem_of_singleton.
    intros [Hq%ancestors_shorter|Hq]; [rewrite length_take in Hq; lia|].
    apply (f_equal length) in Hq. rewrite length_take in Hq. lia.
  - intros q Hqp Hqt. rewrite lookup_insert_ne, lookup_delete_ne by done. auto.
Qed.

Section CliLemmas.
Context `{Blake3Laws} `{HexLaws} `{Base64Laws} `{Ed25519Laws} `{AeadLaws} `{KdfLaws} `{HpkeLaws}
  `{SerdeJsonLaws} `{SerdeValue} `{BundleJson}.

(** ** Loaded keys are well formed *)

Lemma ka_import_wf s k : ka_import_secret s = Ok k →
  length (ka_secret k) = 32 ∧ k = ka_of_secret (ka_secret k).
Proof.
  unfold ka_import_secret, parse_x25519_bytes. intros Hk. inv_ok.
  match goal with E : (_ =? _)%nat = true |- _ => apply Nat.eqb_eq in E end. done.
Qed.

Lemma from_plaintext_wf s b : from_plaintext s = Ok b → wf_bundle b.
Proof.
  unfold from_plaintext. intros Hb. inv_ok. split; cbn [signing key_agreement].
  - by eapply import_secret_wf.
  - by eapply ka_import_wf.
Qed.

Lemma load_bundle_wf p unencrypted pw s b : load_bundle p unencrypted pw s = Ok b → wf_bundle b.
Proof.
  unfold load_bundle. intros (data & _ & Hb)%bind_ok. case_match.
  - inv_ok. unfold import_encrypted in *. inv_ok.
    repeat match goal with x : _ * _ |- _ => destruct x end. inv_ok. by eapply from_plaintext_wf.
  - destruct (if _ && _ then _ else _) as [b'|] eqn:E; [|by repeat case_match].
    injection Hb as <-. case_match; [|done].
    destruct (from_plaintext (trim data)) eqn:E'; [|done]. injection E as <-.
    by eapply from_plaintext_wf.
Qed.

Lemma bundle_generate_wf seed x_seed b :
  length seed = 32 → length x_seed = 32 → bundle_generate seed x_seed = Ok b → wf_bundle b.
Proof. unfold bundle_generate, generate. intros ?? Hb. inv_ok. by split_and!. Qed.

(** ** The plaintext of a bundle *)

Lemma trim_braces mid :
  trim (lbrace :: mid ++ [rbrace; newline]) = lbrace :: mid ++ [rbrace].
Proof.
  unfold trim, trim_start, trim_end.
  assert (trim_with (length (lbrace :: mid ++ [rbrace; newline])) white_space
    (lbrace :: mid ++ [rbrace; newline]) = lbrace :: mid ++ [rbrace; newline]) as -> by reflexivity.
  assert (reverse (lbrace :: mid ++ [rbrace; newline])
    = newline :: rbrace :: reverse (lbrace :: mid)) as ->.
  { change (lbrace :: mid ++ [rbrace; newline]) with ((lbrace :: mid) ++ [rbrace; newline]).
    by rewrite reverse_app. }
  assert (length (lbrace :: mid ++ [rbrace; newline]) = S (S (S (length mid)))) as ->
    by (cbn; rewrite length_app; cbn; lia).
  transitivity (reverse (rbrace :: reverse (lbrace :: mid))); [reflexivity|].
  by rewrite reverse_cons, reverse_involutive.
Qed.

Lemma base64_plain b : forallb plain_byte (base64_encode b) = true.
Proof.
  apply forallb_Forall. eapply Forall_impl; [apply base64_encode_alphabet|].
  intros c Hc. unfold is_base64_byte, plain_byte, byte_in in *.
  assert (c ≠ dquote ∧ c ≠ backslash) as [??]
    by (split; intros ->; vm_compute in Hc; done).
  rewrite !bool_decide_true by done. rewrite !andb_true_r.
  rewrite !orb_true_iff, !andb_true_iff, !N.leb_le in Hc. rewrite andb_true_iff, !N.leb_le. lia.
Qed.

Definition printable (s : bytes) : Prop := Forall (λ c, byte_in 32 126 c = true) s.

Lemma plain_printable s : forallb plain_byte s = true → printable s.
Proof.
  rewrite forallb_Forall. intros Hs. eapply Forall_impl; [exact Hs|]. intros c. unfold plain_byte.
  by rewrite !andb_true_iff; intros [[] _].
Qed.

Lemma json_str_printable s : forallb plain_byte s = true → printable (json_str s).
Proof.
  intros Hs. rewrite json_str_plain by done. apply plain_printable in Hs.
  constructor; [done|]. apply Forall_app. split; [done|by repeat constructor].
Qed.

Lemma printable_utf8 s : printable s → utf8_valid (s ++ [newline]) = true ∧ utf8_valid s = true.
Proof.
  intros Hs. assert (Forall (λ b, byte_in 0 127 b = true) s) as Ha.
  { eapply Forall_impl; [done|]. intros c. unfold byte_in. rewrite !andb_true_iff, !N.leb_le. lia. }
  split; apply ascii_valid; [apply Forall_app; split; [done|by repeat constructor]|done].
Qed.

Lemma to_plaintext_shape b : ∃ mid,
  to_plaintext b = lbrace :: mid ++ [rbrace] ∧ printable (to_plaintext b).
Proof.
  unfold to_plaintext. cbn [jprint map]. eexists. split; [reflexivity|].
  assert (∀ x, forallb plain_byte (ed_prefix ++ base64_encode x) = true
             ∧ forallb plain_byte (KEY_AGREEMENT_PREFIX ++ base64_encode x) = true) as Hb
    by (intros x; by rewrite !forallb_app, base64_plain).
  unfold commas. cbn [bs_version bundle_secrets ed25519_secret x25519_secret fmap list_fmap mjoin
    list_join].
  repeat first [apply Forall_cons; split; [done|] | apply Forall_app; split | apply Forall_nil_2].
  all: try (apply json_str_printable; first [done|apply Hb]).
  all: by repeat constructor.
Qed.

Lemma plaintext_line b :
  trim (to_plaintext b ++ [newline]) = to_plaintext b
  ∧ utf8_valid (to_plaintext b ++ [newline]) = true ∧ utf8_valid (to_plaintext b) = true.
Proof.
  destruct (to_plaintext_shape b) as (mid & Heq & Hp). split; [|by apply printable_utf8].
  rewrite Heq. rewrite <-app_comm_cons, <-app_assoc. apply trim_braces.
Qed.

(** ** What was written loads back *)

Lemma key_file_bytes_load (p : path) (unencrypted : bool) (b : DeviceBundle) (env : KeyEnv)
    (data : bytes) (s : fs) :
  wf_bundle b → bundle_reads_back b → length (ke_nonce env) = 12 → metadata_reads_back 2 (ke_salt env) (ke_nonce env) →
  key_file_bytes unencrypted b env = Ok data → read_file p s = Ok data →
  load_bundle p unencrypted (ke_passphrase env) s = Ok b.
Proof.
  intros Hwf Hrb Hn Hm Hk Hr. destruct (plaintext_line b) as (Htrim & Hu8 & Hu8').
  unfold load_bundle. rewrite Hr. cbn [map_err mbind result_bind].
  unfold key_file_bytes in Hk. destruct unencrypted.
  - apply Ok_inj in Hk as <-. assert (starts_with bundle_file_header (to_plaintext b ++ [newline]) = false) as ->
      by done.
    rewrite Hu8. cbn [andb]. rewrite Htrim, from_to_plaintext by done. done.
  - inv_ok. match goal with E : ke_passphrase env = Some _ |- _ => rewrite E end.
    match goal with E : export_encrypted _ _ _ _ = Ok _ |- _ => rename E into Hexp end.
    pose proof Hexp as Hexp'. eapply bundle_import_export in Hexp as Himp; [|done..].
    unfold export_encrypted in Hexp'. apply encrypt_blob_ok in Hexp' as (rest & ct & Hh & _);
      [|by vm_compute; repeat constructor|done..].
    apply parse_key_header_inv in Hh as ->.
    assert (starts_with bundle_file_header (BUNDLE_HEADER_V2 ++ newline :: rest) = true) as ->.
    { apply starts_with_spec. by exists rest. }
    cbn [negb ensure mbind result_bind ok_or]. rewrite Himp. done.
Qed.

(** [keygen] refuses existing files; otherwise the key loads back and nothing else changed. *)
Lemma handle_keygen_ok (args : KeygenCmd) (env : KeyEnv) (s s' : fs) (u : unit) :
  kg_out_key args ≠ [] → handle_keygen args env s = (Ok u, s') →
  s !! kg_out_key args = None ∧ s !! kg_out_pub args = None
  ∧ ∃ b data, bundle_generate (ke_seed env) (ke_x_seed env) = Ok b
    ∧ key_file_bytes (kg_unencrypted args) b env = Ok data
    ∧ s' !! kg_out_pub args = Some (File (public_lines b))
    ∧ (kg_out_pub args ≠ kg_out_key args → read_file (kg_out_key args) s' = Ok data)
    ∧ ∀ q c, s !! q = Some (File c) → q ≠ secure_tmp (ke_pid env) (ke_tmp_seq env) (kg_out_key args) →
        s' !! q = Some (File c).
Proof.
  intros Hne Hk. unfold handle_keygen in Hk. inv_io. inv_ok.
  repeat match goal with E : negb (path_exists _ _) = true |- _ =>
    apply negb_true_iff in E; unfold path_exists in E end.
  destruct (s !! kg_out_key args) eqn:Ek; [done|]. destruct (s !! kg_out_pub args) eqn:Ep; [done|].
  split_and!; [done..|]. eexists _, _. split_and!; [done|done|..].
  all: apply write_secure_ok in Hm3 as (Hk1 & Ha1 & Ht1 & _ & Hrest); [|done].
  all: apply create_write_inv in Hk as (-> & Hpd & Hpa).
  - apply lookup_insert_eq.
  - intros Hne'. apply read_file_ok; [|by rewrite lookup_insert_ne].
    apply ancestor_error_None. intros q Hq. rewrite ancestor_error_None in Ha1.
    apply insert_keeps_dir; auto.
  - intros q c Hq Hqt. destruct (decide (q = kg_out_pub args)) as [->|]; [congruence|].
    rewrite lookup_insert_ne by done.
    destruct (Hrest q) as [-> |(_ & ? & _)]; [congruence|done|done|congruence].
Qed.
End CliLemmas.
