(* ===== verification/WrapCorrect.v ===== *)
(** * Correctness of [wrap]

    How the input is split, what the finished archive holds, and that the manifest
    of a complete set of flags is valid. *)

From S2P Require Import Prelude External Utf8 FileSystem Json Float64 Manifest ManifestCanon.
From S2P Require Import Chain Crypto Keywrap Chronicle Archive ArchiveLemmas ArchiveCorrect.
From S2P Require Import VerifyChronicle Cli CliCorrect Wrap.

(** ** Splitting the input *)

Lemma take_take_N (n m : N) (l : bytes) :
  take_N n l ++ take_N m (drop_N n l) = take_N (n + m) l.
Proof.
  revert n m; induction l as [|b l IH]; intros n m; [done|]. cbn.
  destruct (N.eqb_spec n 0) as [->|Hn].
  - rewrite N.add_0_l. done.
  - rewrite (proj2 (N.eqb_neq (n + m) 0)) by lia. simpl. rewrite IH. do 2 f_equal. lia.
Qed.

Lemma drop_drop_N (n m : N) (l : bytes) : drop_N m (drop_N n l) = drop_N (n + m) l.
Proof.
  revert n m; induction l as [|b l IH]; intros n m; [done|]. cbn.
  destruct (N.eqb_spec n 0) as [->|Hn].
  - by rewrite N.add_0_l.
  - rewrite (proj2 (N.eqb_neq (n + m) 0)) by lia. rewrite IH. f_equal. lia.
Qed.

(** Short reads are coalesced. *)
Lemma fill_spec reads fuel size k buf rest :
  length rest + 1 < fuel → (len_N buf ≤ size)%N →
  ∃ k', fill reads fuel size k buf rest =
    (buf ++ take_N (size - len_N buf) rest, drop_N (size - len_N buf) rest, k').
Proof.
  revert k buf rest. induction fuel as [|f IH]; intros k buf rest Hf Hb; [lia|]. cbn [fill].
  destruct (N.ltb_spec (len_N buf) size) as [Hlt|Hge].
  - set (got := read_some _ _ _). unfold read_some in got.
    set (n := N.min _ _) in got. assert (0 < n ≤ size - len_N buf)%N as Hn by (subst n; lia).
    destruct got as [|b got'] eqn:Hgot.
    + destruct rest as [|r rest]; [exists (S k); cbn; by rewrite app_nil_r|].
      subst got. cbn in Hgot. by rewrite (proj2 (N.eqb_neq n 0)) in Hgot by lia.
    + rewrite <-Hgot. assert (len_N got = N.min n (len_N rest)) as Hgl by apply len_take_N.
      assert (0 < len_N got)%N as Hpos by (rewrite Hgot; unfold len_N; simpl; lia).
      assert (got = take_N (len_N got) rest) as Hgt.
      { destruct (N.le_gt_cases n (len_N rest)).
        - rewrite Hgl, N.min_l by done. done.
        - subst got. rewrite !take_N_all; [done|unfold len_N in *; lia..]. }
      destruct (IH (S k) (buf ++ got) (drop_N (len_N got) rest)) as [k' ->].
      { pose proof (len_drop_N (len_N got) rest). unfold len_N in *. lia. }
      { rewrite len_N_app. lia. }
      exists k'. cbn [is_empty]. rewrite len_N_app, drop_drop_N, <-app_assoc.
      assert (∀ m, got ++ take_N m (drop_N (len_N got) rest) = take_N (len_N got + m) rest) as ->
        by (intros m; rewrite Hgt at 1; apply take_take_N).
      replace (len_N got + (size - (len_N buf + len_N got)))%N with (size - len_N buf)%N by lia.
      by rewrite Hgot.
  - replace (size - len_N buf)%N with 0%N by lia. exists k.
    destruct rest; simpl; by rewrite app_nil_r.
Qed.

Lemma read_exact_or_eof_spec reads size k rest :
  ∃ k', read_exact_or_eof reads size k rest = (take_N size rest, drop_N size rest, k').
Proof.
  unfold read_exact_or_eof. destruct (fill_spec reads (S (S (length rest))) size k [] rest)
    as [k' ->]; [lia|unfold len_N; simpl; lia|].
  exists k'. by replace (size - len_N [])%N with size by (unfold len_N; simpl; lia).
Qed.

(** The chunks of [slice::chunks(size)]. *)
Record split_by (size : N) (data : bytes) (cs : list bytes) : Prop := {
  sp_concat : concat cs = data;
  sp_size : Forall (λ c, 0 < len_N c ≤ size)%N cs;
  sp_full i c : cs !! i = Some c → S i < length cs → len_N c = size;
}.

Lemma read_chunks_split reads fuel size k rest :
  (0 < size)%N → length rest < fuel → split_by size rest (read_chunks reads fuel size k rest).
Proof.
  intros Hs. revert k rest. induction fuel as [|f IH]; intros k rest Hf; [lia|]. cbn [read_chunks].
  destruct (read_exact_or_eof_spec reads size k rest) as [k' ->].
  destruct (take_N size rest) as [|b chunk] eqn:Ht; cbn [is_empty].
  { destruct rest as [|r rest]; [by constructor|]. cbn in Ht.
    by rewrite (proj2 (N.eqb_neq size 0)) in Ht by lia. }
  rewrite <-Ht. pose proof (take_drop_N size rest) as Htd.
  pose proof (len_take_N size rest) as Hlt. pose proof (len_drop_N size rest) as Hld.
  assert (0 < len_N (take_N size rest))%N by (rewrite Ht; unfold len_N; simpl; lia).
  destruct (IH k' (drop_N size rest)) as [Hc Hf' Hfull]; [unfold len_N in *; lia|].
  constructor.
  - simpl. by rewrite Hc.
  - constructor; [lia|done].
  - intros [|i] c; simpl; [|intros; eapply Hfull; eauto; lia].
    intros [= <-] Hlen. destruct (read_chunks reads f size k' (drop_N size rest)) as [|c' cs'] eqn:E;
      [simpl in Hlen; lia|].
    destruct (drop_N size rest) as [|x l] eqn:Hd.
    { apply Forall_cons in Hf' as [Hc' _]. simpl in Hc. destruct c'; [unfold len_N in Hc'; simpl in Hc'; lia|done]. }
    unfold len_N in *. simpl in Hld. lia.
Qed.

Lemma input_chunks_split reads size data :
  (0 < size)%N → split_by size data (input_chunks reads size data).
Proof. intros. apply read_chunks_split; [done|lia]. Qed.

(** The size 0 reads nothing. *)
Lemma input_chunks_zero reads data : input_chunks reads 0 data = [].
Proof.
  unfold input_chunks. cbn [read_chunks].
  destruct (read_exact_or_eof_spec reads 0 0 data) as [k' ->]. by destruct data.
Qed.

(** There is one such list. *)
Lemma split_by_unique size data cs cs' :
  split_by size data cs → split_by size data cs' → cs = cs'.
Proof.
  revert data cs'. induction cs as [|c cs IH]; intros data cs' [Hc Hs Hf] [Hc' Hs' Hf'].
  - destruct cs' as [|c' cs']; [done|]. apply Forall_cons in Hs' as [Hl _]. cbn in Hc.
    destruct c'; [unfold len_N in Hl; simpl in Hl; lia|]. by subst.
  - apply Forall_cons in Hs as [Hl Hs]. destruct cs' as [|c' cs'].
    { destruct c; [unfold len_N in Hl; simpl in Hl; lia|]. by subst. }
    apply Forall_cons in Hs' as [Hl' Hs']. cbn [concat] in Hc, Hc'.
    assert (length c = length c') as Hlen.
    { assert (cs ≠ [] → len_N c = size) as Hn by (intros; apply (Hf 0 c eq_refl); destruct cs; [done|simpl; lia]).
      assert (cs' ≠ [] → len_N c' = size) as Hn' by (intros; apply (Hf' 0 c' eq_refl); destruct cs'; [done|simpl; lia]).
      assert (length (c ++ concat cs) = length (c' ++ concat cs')) as Ht by congruence.
      rewrite !length_app in Ht. unfold len_N in *.
      destruct cs as [|x cs], cs' as [|x' cs']; cbn [concat length] in Ht; try lia;
        try specialize (Hn ltac:(done)); try specialize (Hn' ltac:(done)); lia. }
    rewrite <-Hc' in Hc. apply app_inj_1 in Hc as [-> Hc]; [|done]. f_equal.
    apply (IH (concat cs')).
    + constructor; [done..|]. intros i x Hi Hlt. apply (Hf (S i) x); [done|simpl; lia].
    + constructor; [done..|]. intros i x Hi Hlt. apply (Hf' (S i) x); [done|simpl; lia].
Qed.

(** ** Before the chunks *)

(** Nothing exists at or below [base]. *)
Definition absent (base : path) (s : fs) : Prop := ∀ q : path, s !! (base ++ q) = None.

Lemma check_output_name_ok (output : path) :
  check_output_name output = Ok tt → output ≠ [] ∧ output ≠ [lit "device.key"]
    ∧ output ≠ [lit "device.pub"] ∧ ∃ dir name, output = dir ++ [name]
    ∧ ends_with (lit ".seal") (from_utf8_lossy name) = true.
Proof.
  unfold check_output_name. intros Hc. destruct output as [|name dir _] using rev_ind; [done|].
  rewrite last_snoc in Hc. cbn [ok_or mbind result_bind] in Hc. apply ensure_ok in Hc.
  split_and!; [by destruct dir|..]; [| |by exists dir, name].
  all: destruct dir as [|? [|]]; [|done|done]; intros [= ->]; vm_compute in Hc; done.
Qed.

Section WrapLemmas.
Context `{Blake3Laws} `{HexLaws} `{Base64Laws} `{Ed25519Laws} `{P256} `{AeadLaws} `{KdfLaws}
  `{HpkeLaws} `{SerdeJsonLaws} `{SerdeValue} `{BundleJson} `{ManifestJson} `{StateJson} `{IoText}
  `{SeededRng} `{Rfc3339}.

(** The key is well formed, and the output directory is as absent as it was. *)
Lemma load_or_generate_ok (p : option path) (un : bool) (env : KeyEnv) (s s1 : fs)
    (b : DeviceBundle) (out : path) :
  length (ke_seed env) = 32 → length (ke_x_seed env) = 32 →
  load_or_generate_bundle p un env s = (Ok b, s1) →
  wf_bundle b ∧ (check_output_name out = Ok tt → absent out s → absent out s1)
  ∧ ∀ q : path, q ∉ [[lit "device.key"]; [lit "device.pub"];
              secure_tmp (ke_pid env) (ke_tmp_seq env) [lit "device.key"]] → s1 !! q = s !! q.
Proof.
  intros Hl Hlx. unfold load_or_generate_bundle. destruct p as [existing|].
  { intros Hb. inv_io. split_and!; [by eapply load_bundle_wf|done|done]. }
  intros Hb. inv_io. inv_ok. subst.
  apply write_secure_ok in Hm1 as (Hk1 & _ & Ht1 & _ & Hrest); [|done].
  apply create_write_inv in Hm2 as (-> & _ & _).
  split; [eapply bundle_generate_wf; [..|eassumption]; done|]. split.
  - intros (Hne & Hnk & Hnp & _)%check_output_name_ok Habs q.
    assert (∀ name, out ≠ [name] → out ++ q ≠ [name]) as Hone.
    { intros name Hn Heq. destruct out as [|y [|]]; [done| |done]. injection Heq as -> Hq. done. }
    rewrite lookup_insert_ne by (symmetry; auto).
    destruct (decide (out ++ q = secure_tmp (ke_pid env) (ke_tmp_seq env) [lit "device.key"])) as [->|];
      [done|].
    destruct (Hrest (out ++ q)) as [->|(Hq & _)]; [by apply Hone|done|apply Habs|].
    by apply elem_of_nil in Hq.
  - intros q Hq. rewrite lookup_insert_ne by set_solver.
    destruct (Hrest q) as [->|(Hq' & _)]; [set_solver|set_solver|done|by apply elem_of_nil in Hq'].
Qed.

Lemma create_absent (base : path) (s s1 : fs) (w : ArchiveWriter) :
  base ≠ [] → absent base s → create base s = (Ok w, s1) → fresh base s.
Proof.
  intros Hb Habs Hc. unfold create in Hc. inv_io. constructor; [done| |done].
  intros q Hq. eapply create_dirs_inv; [done|]. apply elem_of_app. by left.
Qed.

(** ** The chunks *)

Lemma wrap_chunks_ok (a : WrapCmd) (key : option bytes) (aad : bytes) (nonce_at : nat → bytes)
    (i : nat) (w : ArchiveWriter) (datas : list bytes) (s s' : fs) (w' : ArchiveWriter)
    (segs : list SegmentInfo) :
  wrap_chunks a key aad nonce_at i w datas s = (Ok (w', segs), s') →
  ∃ cs outs, map_res (λ p, store_chunk key aad (nonce_at p.1) p.2) (enumerate_from i datas) = Ok cs
    ∧ push_all w cs s = (Ok (w', outs), s')
    ∧ segs = (λ p, wrap_segment a (resolve_chunk_seconds a) p.1 p.2) <$> enumerate_from i outs.
Proof.
  revert i w s segs. induction datas as [|d datas IH]; intros i w s segs; cbn [wrap_chunks].
  { intros Hm. inv_io. injection Hm as -> ->. by exists [], []. }
  intros (stored & s1 & [Hst ->]%io_lift_ok & Hm)%io_bind_ok.
  apply io_bind_ok in Hm as ([w1 o] & s2 & Hpush%io_map_err_ok & Hm).
  apply io_bind_ok in Hm as ([w2 segs'] & s3 & Hrec & [Heq ->]%io_ret_ok).
  injection Heq as -> ->. apply IH in Hrec as (cs & outs & Hcs & Hp & ->).
  exists (stored :: cs), (o :: outs). cbn [enumerate_from map_res fst snd]. rewrite Hst.
  cbn [mbind result_bind]. rewrite Hcs. split_and!; [done| |done].
  cbn [push_all]. unfold mbind, io_bind. by rewrite Hpush, Hp.
Qed.

Lemma store_chunk_cap key aad nonce data c :
  length nonce = 24 → (len_N data ≤ MAX_CHUNK_SIZE_BYTES)%N →
  store_chunk key aad nonce data = Ok c → (len_N c ≤ MAX_STORED_CHUNK_BYTES)%N.
Proof.
  intros Hn Hd Hc. unfold MAX_STORED_CHUNK_BYTES. destruct key as [k|]; cbn in Hc; [|inv_ok; lia].
  unfold encrypt_segment in Hc. inv_ok.
  match goal with E : aead_encrypt _ _ _ _ _ = Some _ |- _ => apply length_aead_encrypt in E end.
  unfold len_N in *. rewrite length_app. lia.
Qed.

Lemma wrap_segment_from a secs i o : segment_from o (wrap_segment a secs i o).
Proof. by split_and!. Qed.

(** ** The manifest *)

Definition wrap_segments (a : WrapCmd) (cs : list bytes) : list SegmentInfo :=
  (λ p, wrap_segment a (resolve_chunk_seconds a) p.1 p.2) <$> enumerate (outcomes [] cs).

(** [m], signed [sig], is what [wrap] writes for the chunk files [cs]. *)
Record wrapped_manifest (a : WrapCmd) (env : WrapEnv) (b : DeviceBundle) (cs : list bytes)
    (link : option ChronicleLink) (m : TrstManifest) (sig : bytes) : Prop := {
  wm_software : wc_backend a = lit "software";
  wm_made : ∃ id md m0,
    pub_key_to_device_id (public (signing b)) = Ok id
    ∧ wrap_metadata a (wrap_started_at a env) (length cs) = Ok md
    ∧ wrap_encryption a env (public (signing b)) (ka_public_string (key_agreement b))
        (apply_link link (initial_manifest a id (public (signing b))
          (ka_public_string (key_agreement b)) md (wrap_segments a cs))) = Ok m0
    ∧ sign_wrapped (wc_backend a) b m0 = Ok sig
    ∧ m = set_signature sig m0;
}.

(** Everything but the encryption block and the signature. *)
Definition frame (a : WrapCmd) (b : DeviceBundle) (cs : list bytes) (link : option ChronicleLink)
    (id : bytes) (md : ProfileMetadata) : TrstManifest :=
  apply_link link (initial_manifest a id (public (signing b))
    (ka_public_string (key_agreement b)) md (wrap_segments a cs)).

Lemma wrap_encryption_frame a env pub ka m m' :
  wrap_encryption a env pub ka m = Ok m' → ∃ e, m' = set_encryption e m
    ∧ (wc_sign_only a = true → e = encryption m)
    ∧ (wc_sign_only a = false → ∃ block, e = Some block ∧ recipients block ≠ []).
Proof.
  unfold wrap_encryption, wrap_cek. destruct (wc_sign_only a); intros He.
  - exists (encryption m). inv_ok. by destruct m'.
  - apply bind_ok in He as (c & _ & He). apply bind_ok in He as (rs & Hrs & He).
    apply Ok_inj in He as <-. eexists. split_and!; [done|done|]. intros _. eexists. split; [done|].
    cbn [recipients]. apply map_res_ok in Hrs. intros ->. apply Forall2_length in Hrs.
    unfold enumerate in Hrs. rewrite length_enumerate_from in Hrs. cbn in Hrs.
    assert (∀ rs acc, acc ≠ [] →
      foldl (λ acc r, if decide (r ∈ acc) then acc else acc ++ [r]) acc rs ≠ ([] : list bytes)) as Hne.
    { clear. induction rs as [|r rs IH]; intros acc Hacc; cbn; [done|]. apply IH.
      case_decide; [done|]. by destruct acc. }
    apply (Hne (wc_recipients a) [ka]); [done|]. by apply length_zero_iff_nil.
Qed.

(** The manifest with its parts exposed. *)
Lemma wrapped_frame a env b cs link m sig :
  wrapped_manifest a env b cs link m sig →
  ∃ id md e, pub_key_to_device_id (public (signing b)) = Ok id
    ∧ wrap_metadata a (wrap_started_at a env) (length cs) = Ok md
    ∧ m = set_signature sig (set_encryption e (frame a b cs link id md))
    ∧ (wc_sign_only a = true → e = None)
    ∧ (wc_sign_only a = false → ∃ block, e = Some block ∧ recipients block ≠ []).
Proof.
  intros [_ (id & md & m0 & Hid & Hmd & He & _ & ->)].
  apply wrap_encryption_frame in He as (e & -> & Hs & Hn).
  exists id, md, e. split_and!; [done..| |done]. intros Ht. rewrite (Hs Ht). by destruct link.
Qed.

Lemma wrapped_signature a env b cs link m sig :
  wf_bundle b → wrapped_manifest a env b cs link m sig →
  trst_version m = lit "0.2.0" ∧ profile m = wc_profile a
  ∧ dev_public_key (device m) = public (signing b) ∧ signature m = Some sig
  ∧ segments m = wrap_segments a cs
  ∧ ∃ canonical, to_canonical_bytes m = Ok canonical
    ∧ verify_manifest (public (signing b)) canonical sig = Ok true.
Proof.
  intros (Hkp & _ & _) Hw. pose proof Hw as [Hsoft (id & md & m0 & _ & _ & He & Hsig & ->)].
  apply wrap_encryption_frame in He as (e & -> & _ & _).
  split_and!; [by destruct link..|].
  unfold sign_wrapped in Hsig. apply bind_ok in Hsig as (c & Hc & Hsig). inv_ok.
  exists c. split; [by rewrite <-Hc|].
  unfold is_str in Hsig. rewrite Hsoft, bool_decide_true in Hsig by done. inv_ok.
  destruct (sign_verify (signing b) c Hkp) as (sig' & Hs' & Hv).
  rewrite Hs' in Hsig. by apply Ok_inj in Hsig as <-.
Qed.

Lemma wrapped_sig_text a env b cs link m sig :
  wrapped_manifest a env b cs link m sig →
  from_utf8_lossy sig = sig ∧ (len_N sig ≤ SIG_MAX_BYTES)%N.
Proof.
  intros [Hsoft (id & md & m0 & _ & _ & _ & Hsig & _)]. unfold sign_wrapped in Hsig.
  apply bind_ok in Hsig as (c & _ & Hsig). unfold is_str in Hsig.
  rewrite Hsoft, bool_decide_true in Hsig by done. unfold sign_manifest in Hsig. inv_ok.
  pose proof (base64_plain (ed_sign (secret (signing b)) c)) as Hp.
  split.
  - apply from_utf8_lossy_valid, printable_utf8, plain_printable. by rewrite forallb_app, Hp.
  - unfold len_N. rewrite length_app, length_base64_encode, length_ed_sign. vm_compute. done.
Qed.

Lemma wrap_metadata_started a started n md :
  wrap_metadata a started n = Ok md → ∀ m, metadata m = md → manifest_started_at m = started.
Proof.
  unfold manifest_started_at. intros Hm m Hmd. rewrite Hmd. clear m Hmd. unfold wrap_metadata in Hm.
  repeat (destruct (is_str _ _); [inv_ok; done|]). inv_ok. done.
Qed.

(** ** Complete flags *)

(** What the flags must hold beyond what [wrap] asks for itself. *)
Record flags_complete (a : WrapCmd) (env : WrapEnv) : Prop := {
  fc_profile : wc_profile a ∈ known_profiles;
  fc_chunk_size : (0 < wc_chunk_size a)%N;
  fc_started : wrap_started_at a env ≠ [];
  fc_sensor : wc_profile a = lit "sensor" →
    (∀ r, wc_sample_rate a = Some r → f64_le r f64_zero = false)
    ∧ wc_unit a ≠ Some [] ∧ wc_sensor_model a ≠ Some [];
  fc_audio : wc_profile a = lit "audio" →
    (∀ r, wc_sample_rate a = Some r → f64_as_u32 r ≠ 0%N)
    ∧ wc_bit_depth a ≠ Some 0%N ∧ wc_channels a ≠ Some 0%N ∧ wc_codec a ≠ Some [];
  fc_log : wc_profile a = lit "log" →
    wc_application a ≠ Some [] ∧ wc_host a ≠ Some [] ∧ wc_log_level a ≠ Some []
    ∧ wc_log_format a ≠ Some [];
}.

(** chrono prints a date as a non-empty text. *)
Definition rfc3339_nonempty : Prop :=
  ∀ t x y r, rfc3339_add_millis t x y = Ok (Some r) → r ≠ [].

Lemma wrap_metadata_valid a env n md :
  flags_complete a env → rfc3339_nonempty → wrap_metadata a (wrap_started_at a env) n = Ok md →
  valid_metadata md.
Proof.
  intros [_ _ Hst Hsen Hau Hlog] Hrfc. unfold wrap_metadata, is_str, required.
  case_bool_decide; [|case_bool_decide; [|case_bool_decide; [|case_bool_decide]]]; intros Hm; inv_ok.
  - split; cbn; [done|]. unfold capture_end_time in *. case_match; inv_ok; [|done]. subst. by eapply Hrfc.
  - destruct Hsen as (Hr & Hu & Hmo); [done|]. split_and!; cbn; auto; congruence.
  - destruct Hau as (Hr & Hu & Hc & Hco); [done|]. split_and!; cbn; auto; congruence.
  - destruct Hlog as (Ha & Hh & Hl & Hf); [done|]. split_and!; cbn; auto; congruence.
  - by split.
Qed.

Lemma device_id_nonempty pk id : pub_key_to_device_id pk = Ok id → id ≠ [].
Proof. unfold pub_key_to_device_id. intros Hid. inv_ok. done. Qed.

Lemma wrap_segments_from a cs : Forall2 segment_from (outcomes [] cs) (wrap_segments a cs).
Proof.
  unfold wrap_segments, enumerate. generalize 0 as i.
  induction (outcomes [] cs) as [|o l IH]; intros i; constructor; [apply wrap_segment_from|apply IH].
Qed.

Lemma wrap_segments_complete a cs :
  Forall (λ s, chunk_file s ≠ [] ∧ blake3_hash s ≠ [] ∧ continuity_hash s ≠ []) (wrap_segments a cs).
Proof.
  assert (∀ x : bytes, length x = 32 → hex_encode x ≠ []) as Hhex.
  { intros x Hx Heq. apply (f_equal length) in Heq. rewrite length_hex_encode, Hx in Heq. done. }
  apply Forall_lookup. intros i seg Hseg.
  pose proof (wrap_segments_from a cs) as Hf.
  eapply Forall2_lookup_r in Hf as (o & Ho & -> & -> & ->); [|done].
  unfold outcomes in Ho. rewrite list_lookup_fmap in Ho.
  apply fmap_Some in Ho as (p & _ & ->). cbn [out_index out_blake3 out_continuity].
  split_and!; [|apply Hhex, length_blake3|apply Hhex, length_chain_tip].
  unfold chunk_filename. intros Heq. apply app_eq_nil in Heq as [_ [=]].
Qed.

Lemma wrapped_valid a env b cs link m sig :
  wf_bundle b → flags_complete a env → rfc3339_nonempty → cs ≠ [] →
  wrapped_manifest a env b cs link m sig → valid_link (sequence m) (prev_archive_hash m) →
  valid_manifest m.
Proof.
  intros (Hkp & _ & _) Hfc Hrfc Hcs Hw Hlink.
  destruct (wrapped_frame a env b cs link m sig Hw) as (id & md & e & Hid & Hmd & -> & Hs & Hn).
  pose proof (wrap_metadata_valid a env _ md Hfc Hrfc Hmd) as Hvm.
  assert (public (signing b) ≠ []) as Hpub by (destruct Hkp as [_ ->]; done).
  assert (wrap_segments a cs ≠ []) as Hne.
  { intros Heq. apply Hcs. apply (f_equal length) in Heq. unfold wrap_segments, enumerate in Heq.
    rewrite length_fmap, length_enumerate_from, length_outcomes in Heq. by apply nil_length_inv. }
  apply device_id_nonempty in Hid. pose proof (fc_profile _ _ Hfc) as Hprof.
  pose proof (wrap_segments_complete a cs) as Hall.
  constructor; try (destruct link; done).
  - intros block. destruct (wc_sign_only a).
    + rewrite (Hs eq_refl). by destruct link.
    + destruct (Hn eq_refl) as (block' & -> & Hr). by intros [= <-].
  - destruct link as [l|]; cbn; [|done]. destruct (0 <? cl_key_epoch l)%N eqn:E; [|done].
    apply N.ltb_lt in E. intros [=]. lia.
Qed.

(** ** The state file is outside the archive *)

Lemma is_archive_ext (base : path) (s s' : fs) man sig cs :
  (∀ q : path, s' !! (base ++ q) = s !! (base ++ q)) →
  (∀ q : path, s !! q = Some Dir → s' !! q = Some Dir) →
  is_archive base s man sig cs → is_archive base s' man sig cs.
Proof.
  intros Hbelow Hdir [[Hb Ha Hd Hsd Hcd] Hm Hs Hc Ho]. constructor; [constructor; auto|..].
  - by rewrite <-Hm; apply Hbelow.
  - by rewrite <-Hs; apply Hbelow.
  - intros i c Hi. rewrite <-(Hc i c Hi). unfold chunks_path. rewrite <-app_assoc. apply Hbelow.
  - intros name n. unfold chunks_path. rewrite <-app_assoc, Hbelow, app_assoc. apply Ho.
Qed.

Lemma save_inv (st : ChronicleState) (p : path) (s s' : fs) (u : unit) :
  save st p s = (Ok u, s') → ∃ j, state_to_json st = Ok j
    ∧ s' = <[p := File j]> (delete (tmp_sibling p) s)
    ∧ s !! p ≠ Some Dir ∧ s !! tmp_sibling p ≠ Some Dir.
Proof.
  unfold save. intros (j & s0 & [Hj ->]%io_lift_ok & Hs%io_map_err_ok)%io_bind_ok. inv_ok.
  exists j. split; [done|]. unfold save_steps in Hs. cbn [io_for_each] in Hs.
  apply io_bind_ok in Hs as ([] & s1 & Hw & Hs). apply create_write_inv in Hw as (-> & Ht & _).
  apply io_bind_ok in Hs as ([] & s2 & Hp & Hs).
  assert (s2 = <[tmp_sibling p := File j]> s) as ->
    by (unfold set_permissions in Hp; repeat case_match; by simplify_eq).
  apply io_bind_ok in Hs as ([] & s3 & Hr & [_ ->]%io_ret_ok).
  apply (rename_inv _ _ j) in Hr as (-> & Hnd & _); [|apply lookup_insert_eq].
  pose proof (tmp_sibling_ne p). rewrite lookup_insert_ne in Hnd by done.
  split_and!; [by rewrite delete_insert_eq|done..].
Qed.

(** A path beside [p] is below [base] only when [p] is, or when it is [base]. *)
Lemma sibling_below suffix (p base q : path) :
  base ≠ [] → sibling suffix p = base ++ q → base `prefix_of` p ∨ q = [].
Proof.
  intros Hb Heq. destruct q as [|x q _] using rev_ind; [by right|]. left.
  unfold sibling in Heq. destruct p as [|name p _] using rev_ind.
  - cbn in Heq. destruct base as [|y [|]]; try done; by destruct q.
  - rewrite last_snoc, length_app in Heq.
    replace (length p + length [name] - 1) with (length p) in Heq by (simpl; lia).
    rewrite take_app_length, app_assoc in Heq. apply app_inj_2 in Heq as [-> _]; [|done].
    rewrite <-app_assoc. by eexists.
Qed.

Lemma advance_chronicle_archive (link : option ChronicleLink) (m : TrstManifest) (pub now : bytes)
    (out : path) (s s' : fs) (man sig : option bytes) (cs : list bytes) (u : unit) :
  (∀ l p, link = Some l → cl_state_path l = Some p → ¬ out `prefix_of` p) →
  advance_chronicle link m pub now s = (Ok u, s') →
  is_archive out s man sig cs → is_archive out s' man sig cs.
Proof.
  intros Hbelow Hadv Har. pose proof Har as [[Hne _ Hbase _ _] _ _ _ _].
  unfold advance_chronicle in Hadv. destruct link as [l|]; [|by inv_io].
  destruct (cl_state_path l) as [p|] eqn:Hp; [|by inv_io].
  specialize (Hbelow l p eq_refl Hp). inv_io. apply save_inv in Hadv as (j & _ & -> & Hnd & Hnt).
  assert (∀ q, tmp_sibling p ≠ out ++ q) as Htmp.
  { intros q Heq. destruct (sibling_below _ _ _ _ Hne Heq) as [?| ->]; [done|].
    rewrite app_nil_r in Heq. congruence. }
  eapply is_archive_ext; [| |done].
  - intros q. rewrite lookup_insert_ne, lookup_delete_ne; [done|apply Htmp|].
    intros ->. apply Hbelow. by eexists.
  - intros q Hq. apply insert_keeps_dir; [rewrite lookup_delete_ne; [done|apply tmp_sibling_ne]|].
    rewrite lookup_delete_ne; [done|]. congruence.
Qed.

(** ** The whole command *)

(** The lengths that the types of the random values fix. *)
Record env_typed (a : WrapCmd) (env : WrapEnv) : Prop := {
  et_seed : length (ke_seed (env_key env)) = 32;
  et_x_seed : length (ke_x_seed (env_key env)) = 32;
  et_cek : length (dr_cek (wrap_draws a env)) = 32;
  et_nonce i : length (dr_nonce (wrap_draws a env) i) = 24;
}.

Lemma finalize_inv (w : ArchiveWriter) (m : TrstManifest) (sig : bytes) (s s' : fs) (u : unit) :
  finalize w m sig s = (Ok u, s') →
  N.of_nat (length (segments m)) = next_index w ∧ ∃ j, manifest_to_json m = Ok j
    ∧ (len_N j ≤ MANIFEST_MAX_BYTES)%N.
Proof.
  unfold finalize. intros Hf. inv_io. inv_ok.
  repeat match goal with E : (_ =? _)%N = true |- _ => apply N.eqb_eq in E
    | E : (_ <=? _)%N = true |- _ => apply N.leb_le in E end. eauto.
Qed.

Lemma wrap_finish_ok (a : WrapCmd) (env : WrapEnv) (b : DeviceBundle) (pub id : bytes)
    (w : ArchiveWriter) (s s' : fs) (cs : list bytes) (res : WrapResult) :
  pub = public (signing b) → pub_key_to_device_id pub = Ok id →
  wc_backend a = lit "software" →
  (∀ p, wc_chronicle a = Some p → ¬ wc_output a `prefix_of` p) →
  writer_at (wc_output a) w cs → is_archive (wc_output a) s None None cs →
  wrap_finish a env b pub id w (wrap_segments a cs) s = (Ok res, s') →
  ∃ link m j sig, wrapped_manifest a env b cs link m sig ∧ manifest_to_json m = Ok j
    ∧ (len_N j ≤ MANIFEST_MAX_BYTES)%N
    ∧ is_archive (wc_output a) s' (Some j) (Some sig) cs
    ∧ resolve_chronicle (wc_chronicle a) (wc_prev_archive a) (wc_prev_hash a) (wc_prev_seq a)
        pub s = Ok link
    ∧ res = mkWrapResult (wc_output a) sig (length cs).
Proof.
  intros -> Hid Hsoft Hstate Hw Har. unfold wrap_finish. cbv zeta.
  assert (length (wrap_segments a cs) = length cs) as Hlen.
  { unfold wrap_segments, enumerate. by rewrite length_fmap, length_enumerate_from, length_outcomes. }
  rewrite Hlen.
  intros (md & s0 & [Hmd ->]%io_lift_ok & Hf)%io_bind_ok.
  apply io_bind_ok in Hf as (link & s0 & [Hlink ->]%io_read_ok & Hf).
  apply io_bind_ok in Hf as (m & s0 & [Henc ->]%io_lift_ok & Hf).
  apply io_bind_ok in Hf as (sig & s0 & [Hsig ->]%io_lift_ok & Hf).
  apply io_bind_ok in Hf as ([] & s1 & Hfin%io_map_err_ok & Hf).
  apply io_bind_ok in Hf as ([] & s2 & Hadv & [-> ->]%io_ret_ok).
  assert (wrapped_manifest a env b cs link (set_signature sig m) sig) as Hwm.
  { split; [done|]. exists id, md, m. by split_and!. }
  destruct (finalize_inv _ _ _ _ _ _ Hfin) as (Hcount & j & Hj & Hcap).
  destruct (finalize_ok (wc_output a) s w cs (set_signature sig m) j sig) as (s1' & Hfin' & Har');
    [done|done| |done|done|].
  { destruct Hw as [_ _ Hni _]. rewrite Hni in Hcount. lia. }
  rewrite Hfin in Hfin'. injection Hfin' as <-.
  exists link, (set_signature sig m), j, sig. split_and!; [done..| |done|done].
  eapply advance_chronicle_archive; [|done|done].
  intros l p -> Hl. apply Hstate. clear -Hlink Hl. unfold resolve_chronicle, link_prev_archive, link_state in Hlink.
  repeat case_match; inv_ok; repeat match goal with x : _ * _ |- _ => destruct x end; inv_ok;
    repeat match goal with E : Some _ = Some _ |- _ => injection E as <- end; cbn in *; congruence.
Qed.

(** The bytes of the chunk files. *)
Definition stored_chunks (a : WrapCmd) (env : WrapEnv) (b : DeviceBundle) (data : bytes)
    : result CliError (list bytes) :=
  map_res (λ p, store_chunk (wrap_cek a env)
      (chunk_aad_v2 (public (signing b)) (wc_profile a) (wrap_started_at a env))
      (dr_nonce (wrap_draws a env) p.1) p.2)
    (enumerate (input_chunks (env_reads env) (wc_chunk_size a) data)).

Lemma resolve_signing_key_ok backend b pub :
  resolve_signing_key backend b = Ok pub → backend = lit "software" ∧ pub = public (signing b).
Proof.
  unfold resolve_signing_key, is_str. case_bool_decide; [by intros [= <-]|].
  by case_bool_decide.
Qed.

Lemma map_res_length {E A B} (f : A → result E B) l ys : map_res f l = Ok ys → length ys = length l.
Proof. intros Hm%map_res_ok. symmetry. by eapply Forall2_length. Qed.

(** What a successful [wrap] leaves behind. *)
Lemma handle_wrap_ok (a : WrapCmd) (env : WrapEnv) (s s' : fs) (res : WrapResult) :
  env_typed a env → absent (wc_output a) s →
  (∀ p, wc_chronicle a = Some p → ¬ wc_output a `prefix_of` p) →
  handle_wrap a env s = (Ok res, s') →
  ∃ b s1 data, load_or_generate_bundle (wc_device_key a) (wc_unencrypted a) (env_key env) s = (Ok b, s1)
    ∧ wf_bundle b ∧ read_file (wc_input a) s1 = Ok data ∧ data ≠ []
    ∧ (wc_chunk_size a ≤ MAX_CHUNK_SIZE_BYTES)%N
    ∧ ((N.of_nat (length (input_chunks (env_reads env) (wc_chunk_size a) data)) ≤ u32_max)%N →
       ∃ cs link m j sig, stored_chunks a env b data = Ok cs
         ∧ wrapped_manifest a env b cs link m sig ∧ manifest_to_json m = Ok j
         ∧ (len_N j ≤ MANIFEST_MAX_BYTES)%N
         ∧ is_archive (wc_output a) s' (Some j) (Some sig) cs
         ∧ res = mkWrapResult (wc_output a) sig (length cs)).
Proof.
  intros Het Habs Hstate Hh. unfold handle_wrap in Hh.
  apply io_bind_ok in Hh as ([] & s0 & [Hargs ->]%io_lift_ok & Hh).
  apply io_bind_ok in Hh as (b & s1 & Hb & Hh).
  apply io_bind_ok in Hh as (pub & s0 & [Hpub ->]%io_lift_ok & Hh).
  apply resolve_signing_key_ok in Hpub as [Hsoft ->].
  apply io_bind_ok in Hh as (id & s0 & [Hid ->]%io_lift_ok & Hh).
  apply io_bind_ok in Hh as ([] & s0 & [Hin ->]%io_read_ok & Hh).
  apply io_bind_ok in Hh as (input & s0 & [Hinp ->]%io_read_ok & Hh). apply Ok_inj in Hinp as <-.
  apply io_bind_ok in Hh as ([] & s0 & [Hout ->]%io_lift_ok & Hh).
  apply io_bind_ok in Hh as (w & s2 & Hcr%io_map_err_ok & Hh). cbv zeta in Hh.
  apply io_bind_ok in Hh as (data & s0 & [Hdata%map_err_ok ->]%io_lift_ok & Hh).
  apply io_bind_ok in Hh as ([w' segs] & s3 & Hch & Hh).
  destruct (load_or_generate_ok _ _ _ _ _ _ (wc_output a) (et_seed _ _ Het) (et_x_seed _ _ Het) Hb)
    as (Hwf & Habs1 & _). specialize (Habs1 Hout Habs).
  apply wrap_chunks_ok in Hch as (cs & outs & Hcs & Hpush & ->).
  exists b, s1, data. split_and!; [done..| | |].
  { intros ->. unfold check_input in Hin. apply bind_ok in Hin as (n & Hn%map_err_ok & Hin%ensure_ok).
    unfold read_file in Hdata. unfold metadata_len in Hn. repeat case_match; simplify_eq. }
  { unfold check_wrap_args in Hargs. apply bind_ok in Hargs as ([] & Hsz%ensure_ok & _).
    by apply N.leb_le in Hsz. }
  intros Hcount.
  assert (length cs = length (input_chunks (env_reads env) (wc_chunk_size a) data)) as Hlen
    by (rewrite (map_res_length _ _ _ Hcs); apply length_enumerate_from).
  pose proof (proj1 (check_output_name_ok _ Hout)) as Hne.
  destruct (create_ok _ _ (create_absent _ _ _ _ Hne Habs1 Hcr)) as (s2' & wi & Hcr' & Hw & Har).
  rewrite Hcr in Hcr'. injection Hcr' as <- <-.
  destruct (push_all_ok (wc_output a) cs [] s2 w None None) as (s3' & w3 & Hpush' & Hw3 & Har3);
    [simpl; by rewrite Hlen|done..|].
  rewrite Hpush in Hpush'. injection Hpush' as -> -> ->.
  destruct (wrap_finish_ok a env b (public (signing b)) id w3 s3' s' cs res eq_refl Hid Hsoft Hstate
    Hw3 Har3 Hh) as (link & m & j & sig & Hm & Hj & Hcap & Har' & _ & Hres).
  by exists cs, link, m, j, sig.
Qed.

(** Every chunk file is below the cap of the readers. *)
Lemma stored_chunks_cap a env b data cs :
  env_typed a env → (wc_chunk_size a ≤ MAX_CHUNK_SIZE_BYTES)%N → stored_chunks a env b data = Ok cs →
  Forall (λ c, len_N c ≤ MAX_STORED_CHUNK_BYTES)%N cs.
Proof.
  intros Het Hsz Hcs. unfold stored_chunks in Hcs. apply map_res_ok in Hcs.
  apply Forall_lookup. intros i c Hc.
  eapply Forall2_lookup_r in Hcs as ([k d] & Hd & Hst); [|done]. cbn [fst snd] in Hst.
  eapply store_chunk_cap; [apply (et_nonce _ _ Het)| |done].
  unfold enumerate in Hd. rewrite lookup_enumerate_from in Hd.
  apply fmap_Some in Hd as (d' & Hd & [= _ ->]).
  destruct (decide (wc_chunk_size a = 0%N)) as [Hz|Hz].
  { by rewrite Hz, input_chunks_zero in Hd. }
  destruct (input_chunks_split (env_reads env) (wc_chunk_size a) data) as [_ Hs _]; [lia|].
  eapply Forall_lookup_1 in Hs; [|done]. lia.
Qed.

(** The archive is one that the readers accept. *)
Lemma wrapped_storable a env b data cs link m j sig :
  wf_bundle b → env_typed a env →
  (wc_chunk_size a ≤ MAX_CHUNK_SIZE_BYTES)%N → stored_chunks a env b data = Ok cs →
  wrapped_manifest a env b cs link m sig → manifest_to_json m = Ok j →
  manifest_from_json j = Ok m → (len_N j ≤ MANIFEST_MAX_BYTES)%N → valid_manifest m → storable m j sig cs.
Proof.
  intros Hwf Het Hsz Hcs Hm Hj Hback Hcap Hvalid.
  destruct (wrapped_signature _ _ _ _ _ _ _ Hwf Hm) as (_ & _ & _ & Hsig & Hsegs & _).
  destruct (wrapped_sig_text _ _ _ _ _ _ _ Hm) as [Htext Hsc].
  constructor; try done.
  - rewrite Hsegs. apply wrap_segments_from.
  - rewrite Hsig. by intros e [= <-].
  - by eapply stored_chunks_cap.
Qed.
End WrapLemmas.
