(* ===== verification/Stream.v ===== *)
(** * The sealedge command line: streams of records

    crates/cli/src/main.rs and the record types of crates/core/src/format.rs: selecting the
    key, encrypting a file into a stream of signed records, decrypting and inspecting such a
    stream.  The release build without the [audio] feature.

    The clock, the random draws, the environment and how much each read returns are fields of
    [StreamEnv].  A [BufWriter] is flushed when it is dropped, on an error too, so what a loop
    wrote reaches the file at its end; the output and the envelope are taken to be different
    files.  An error is the outermost context of its [anyhow] chain. *)

From S2P Require Import Prelude External Utf8 FileSystem Format Backends VerifyChronicle Cli Wrap.
From S2P Require Import WrapCorrect.

Definition MAX_CHUNK_SIZE : N := 128 * 1024 * 1024.
Definition MAX_RECORDS_PER_STREAM : N := 1000000.
Definition MAX_STREAM_SIZE_BYTES : N := 10 * 1024 * 1024 * 1024.
Definition AES_GCM_TAG_SIZE : N := 16.

(** ** Records *)

Inductive AudioFormat := F32Le | I16Le | I24Le | OtherFormat (name : bytes).

Inductive DataType :=
  | DtUnknown
  | DtFile (mime_type : option bytes)
  | DtAudio (sample_rate channels : N) (format : AudioFormat)
  | DtVideo (width height fps : N) (format : bytes) (* the bits of [fps : f32] *)
  | DtSensor (sensor_type : bytes).

Record StreamManifest := mkStreamManifest {
  ma_v : N; (* u8 *)
  ma_ts_ms : N; (* u64 *)
  ma_seq : N; (* u64 *)
  ma_header_hash : bytes; (* [u8; 32] *)
  ma_pt_hash : bytes; (* [u8; 32] *)
  ma_key_id : bytes; (* [u8; 16] *)
  ma_ai_used : bool;
  ma_model_ids : list bytes;
  ma_data_type : DataType;
  ma_chunk_len : N; (* u32 *)
}.

Record StreamRecord := mkStreamRecord {
  rec_seq : N; (* u64 *)
  rec_nonce : bytes; (* [u8; 12] *)
  rec_sm : SignedManifest;
  rec_ct : bytes;
}.

(** [bincode::serialize_into] and [deserialize_from] of a record: the second is told apart by
    whether the reader ran out of bytes. *)
Inductive record_got := Got (x : StreamRecord) (rest : bytes) | AtEof | Malformed.
Class RecordCodec := {
  record_write : StreamRecord → result bytes bytes;
  record_read : bytes → record_got;
}.
Class RecordCodecLaws `{RecordCodec} : Prop := {
  record_read_write x b r : record_write x = Ok b → record_read (b ++ r) = Got x r;
  record_read_nil : record_read [] = AtEof;
  (** a record takes at least one byte *)
  record_read_shorter b x r : record_read b = Got x r → length r < length b;
  (** the bytes of a record are read to the last one *)
  record_read_cut x b b1 b2 :
    record_write x = Ok b → b = b1 ++ b2 → b2 ≠ [] → record_read b1 = AtEof;
}.

(** ** Arguments *)

Record Args := mkArgs {
  ar_input : option path;
  ar_out : option path;
  ar_chunk : N; (* usize *)
  ar_envelope : option path;
  ar_no_plaintext : bool;
  ar_decrypt : bool;
  ar_key_hex : option bytes;
  ar_key_out : option path;
  ar_set_passphrase : option bytes;
  ar_salt_hex : option bytes;
  ar_use_keyring : bool;
  ar_backend : bytes;
  ar_list_backends : bool;
  ar_live_capture : bool;
  ar_list_audio_devices : bool;
  ar_sample_rate : N; (* u32 *)
  ar_channels : N; (* u16 *)
  ar_max_duration : N; (* u64 *)
  ar_inspect : bool;
  ar_show_key : bool;
}.

Inductive Mode := Encrypt | Decrypt.
Inductive InputSource := InputFile (p : list (list ascii)) | LiveAudio.

Record StreamEnv := mkStreamEnv {
  se_key : bytes; (* 32 random bytes *)
  se_signing : bytes; (* SigningKey::generate *)
  se_nonce_prefix : bytes; (* 4 random bytes *)
  se_key_id : bytes; (* 16 random bytes *)
  se_device_id : option bytes; (* $SEALEDGE_DEVICE_ID *)
  se_salt : option bytes; (* $SEALEDGE_SALT *)
  se_now_ms : nat → N; (* SystemTime::now() in round k *)
  se_elapsed : nat → N; (* start_time.elapsed() in round k, in nanoseconds *)
  se_reads : nat → N; (* how much read k returns at most *)
}.

(** [str::to_lowercase] *)
Class UnicodeCase := to_lowercase : bytes → bytes.

(** ** Files *)

(** [File::open]; a directory opens, and its reads fail. *)
Definition open_file (p : path) (s : fs) : result io_error unit :=
  match ancestor_error p s with
  | Some e => Err e
  | None => ok_or (_ ← s !! p; Some tt) NotFound
  end.
Definition opened_content (p : path) (s : fs) : option bytes :=
  match s !! p with Some (File c) => Some c | _ => None end.

(** What a handle at offset 0 leaves when all of [data] was written through it. *)
Definition write_open (p : path) (data : bytes) : io io_error unit := λ s,
  match s !! p with
  | Some (File c) => (Ok tt, <[p := File (data ++ drop (length data) c)]> s)
  | Some Dir => (Err IsADirectory, s)
  | None => (Err NotFound, s)
  end.

Definition checked_add64 (a b : N) : option N := if (a + b <=? u64_max)%N then Some (a + b)%N else None.

(** [.context(msg)] on a file operation *)
Definition io_context {A} (msg : string) : io io_error A → io CliError A := io_map_err (λ _, anyhow msg).

(** ** The type of the data *)

(** [s.rsplit_once('.')] *)
Fixpoint rsplit_dot (s : bytes) : option (bytes * bytes) :=
  match s with
  | [] => None
  | c :: s' =>
      match rsplit_dot s' with
      | Some (a, b) => Some (c :: a, b)
      | None => if bool_decide (c = "."%char) then Some ([], s') else None
      end
  end.

(** [path.extension()] *)
Definition extension (p : path) : option bytes :=
  name ← last p;
  if bool_decide (name = lit "..") then None
  else '(stem, ext) ← rsplit_dot name; if is_empty stem then None else Some ext.

Definition mime_table : list (string * string) :=
  [("pdf", "application/pdf"); ("jpg", "image/jpeg"); ("jpeg", "image/jpeg"); ("png", "image/png");
   ("gif", "image/gif"); ("webp", "image/webp"); ("mp3", "audio/mpeg"); ("wav", "audio/wav");
   ("flac", "audio/flac"); ("ogg", "audio/ogg"); ("m4a", "audio/mp4"); ("mp4", "video/mp4");
   ("avi", "video/x-msvideo"); ("mkv", "video/x-matroska"); ("webm", "video/webm");
   ("mov", "video/quicktime"); ("txt", "text/plain"); ("md", "text/markdown");
   ("html", "text/html"); ("htm", "text/html"); ("css", "text/css");
   ("js", "application/javascript"); ("json", "application/json"); ("xml", "application/xml");
   ("zip", "application/zip"); ("tar", "application/x-tar"); ("gz", "application/gzip");
   ("7z", "application/x-7z-compressed");
   ("docx", "application/vnd.openxmlformats-officedocument.wordprocessingml.document");
   ("xlsx", "application/vnd.openxmlformats-officedocument.spreadsheetml.sheet");
   ("pptx", "application/vnd.openxmlformats-officedocument.presentationml.presentation");
   ("exe", "application/x-executable"); ("bin", "application/octet-stream");
   ("dat", "application/octet-stream")]%string.
Definition mime_of (ext : bytes) : bytes :=
  match List.find (λ kv : string * string, bool_decide (ext = lit kv.1)) mime_table with
  | Some kv => lit kv.2
  | None => lit "application/octet-stream"
  end.

Section Stream.
Context `{Blake3} `{Hex} `{Ed25519} `{Aead} `{Kdf} `{OsKeyring} `{UnicodeCase}
  `{Bincode StreamHeader} `{Bincode StreamHeaderV1} `{Bincode StreamManifest} `{RecordCodec}.
Variable keyring_feature : bool.

Definition determine_data_type (src : InputSource) (a : Args) : DataType :=
  match src with
  | InputFile p =>
      DtFile (ext ← extension p;
              if utf8_valid ext then Some (mime_of (to_lowercase ext)) else None)
  | LiveAudio => DtAudio (ar_sample_rate a) (ar_channels a) F32Le
  end.

(** ** Key selection *)

Definition parse_key_hex (s : bytes) : result CliError bytes :=
  b ← ok_or (hex_decode s) (anyhow "key_hex: not valid hex");
  ensure (length b =? 32)%nat (anyhow "key_hex must be 32 bytes (64 hex chars)") ≫= λ _,
  Ok b.

Definition create_backend_from_args (a : Args) : result CliError KeyringBackend :=
  map_err (λ _, Anyhow (lit "Failed to create '" ++ ar_backend a
    ++ lit "' backend. Use --list-backends to see available options"))
    (create_backend keyring_feature (ar_backend a)).

Definition backend_key (a : Args) : result CliError bytes :=
  ensure (negb (ar_use_keyring a && bool_decide (ar_backend a = lit "keyring"))
          || keyring_feature)
    (anyhow "Keyring backend requires the 'keyring' feature. Build with: cargo build --features keyring")
  ≫= λ _,
  backend ← create_backend_from_args a;
  salt_hex ← ok_or (ar_salt_hex a) (anyhow "--salt-hex required for backend key derivation");
  salt_bytes ← ok_or (hex_decode salt_hex) (anyhow "salt_hex decode");
  ensure (length salt_bytes =? 16)%nat (anyhow "salt must be 16 bytes (32 hex chars)") ≫= λ _,
  map_err (λ e, Anyhow (backend_error_text e))
    (keyring_derive_key backend (replicate 16 (byte_of_N 0)) (key_context_new salt_bytes)).

Definition no_key_text : bytes :=
  lit "Decrypt mode requires key material. Use one of:
--key-hex <64-char-hex>   # Explicit key
--use-keyring --salt-hex <salt>  # Keyring backend
--backend <type> --salt-hex <salt>  # Specific backend".

Definition select_aes_key_with_backend (a : Args) (env : StreamEnv) (mode : Mode)
    : io CliError bytes :=
  match ar_key_hex a with
  | Some kh => io_lift (parse_key_hex kh)
  | None =>
      if ar_use_keyring a || bool_decide (is_Some (ar_salt_hex a)) then io_lift (backend_key a)
      else
        match mode with
        | Decrypt => io_lift (Err (Anyhow no_key_text))
        | Encrypt =>
            match ar_key_out a with
            | Some p =>
                io_context "write key_out" (create_write p (hex_encode (se_key env))) ≫= λ _,
                mret (se_key env)
            | None =>
                io_lift (ensure (ar_show_key a)
                  (anyhow "encryption key not saved: specify --key-out <file> to write the key to a file, or --show-key to display it on stderr")) ≫= λ _,
                mret (se_key env)
            end
        end
  end.

(** ** Encryption *)

Definition stream_header_of (a : Args) (env : StreamEnv) : FileHeader :=
  mkFileHeader VERSION (aead_u8 AeadAes256Gcm) (sig_u8 SigEd25519) (hash_u8 HashBlake3)
    (kdf_u8 KdfPbkdf2Sha256) (replicate 3 (byte_of_N 0)) (se_key_id env)
    (blake3 (default (lit "sealedge-abc123") (se_device_id env)
             ++ default (lit "sealedge-demo-salt") (se_salt env)))
    (se_nonce_prefix env) (as_u32 (ar_chunk a)).

Definition record_nonce (fh : FileHeader) (seq : N) : bytes := fh_nonce_prefix fh ++ be_bytes 8 seq.

Definition chunk_manifest_of (fh : FileHeader) (dt : DataType) (ts_ms seq : N) (data : bytes)
    : StreamManifest :=
  mkStreamManifest 1 ts_ms seq (blake3 (header_to_bytes fh)) (blake3 data) (fh_key_id fh) false []
    dt (as_u32 (len_N data)).

(** The checks on a signed manifest, in both directions. *)
Definition check_signed_manifest (sm : SignedManifest) : result CliError unit :=
  ensure (length (sm_pubkey sm) =? 32)%nat (anyhow "pubkey length != 32") ≫= λ _,
  ensure (length (sm_sig sm) =? 64)%nat (anyhow "sig len != 64") ≫= λ _,
  ensure (ed_key_ok (sm_pubkey sm)) (anyhow "bad pubkey") ≫= λ _,
  map_err (λ _, anyhow "manifest signature verify failed")
    (verify_manifest_with_domain (sm_pubkey sm) (sm_manifest sm) (sm_sig sm)).

(** One round of the encryption loop: the record and the plaintext decrypted from it. *)
Definition encrypt_chunk (key signing : bytes) (fh : FileHeader) (dt : DataType) (ts_ms seq : N)
    (data : bytes) : result CliError (StreamRecord * bytes) :=
  let header_hash := blake3 (header_to_bytes fh) in
  let nonce := record_nonce fh seq in
  let m := chunk_manifest_of fh dt ts_ms seq data in
  m_bytes ← map_err (λ _, Panicked) (serialize m);
  let sm := mkSignedManifest m_bytes (sign_manifest_with_domain signing m_bytes) (ed_public signing) in
  let mhash := blake3 m_bytes in
  ct ← ok_or (aead_encrypt Aes256Gcm key nonce
                (build_aad header_hash seq nonce mhash (ma_chunk_len m)) data)
         (anyhow "AES-GCM encrypt failed");
  m2 ← map_err (λ _, anyhow "manifest decode") (deserialize (A:=StreamManifest) (sm_manifest sm));
  check_signed_manifest sm ≫= λ _,
  pt ← ok_or (aead_decrypt Aes256Gcm key nonce
                (build_aad header_hash seq nonce mhash (ma_chunk_len m2)) ct)
         (anyhow "AES-GCM decrypt/verify failed");
  ensure (bool_decide (blake3 pt = ma_pt_hash m)) (anyhow "pt hash mismatch") ≫= λ _,
  Ok (mkStreamRecord seq nonce sm ct, pt).

(** The variables of the loop, with what was written to the output and the envelope. *)
Record EncryptState := mkEncryptState {
  es_seq : N;
  es_total_in : N;
  es_total_out : N;
  es_out : bytes;
  es_envelope : bytes;
}.

Definition time_is_up (a : Args) (env : StreamEnv) (k : nat) : bool :=
  (0 <? ar_max_duration a)%N && (ar_max_duration a * 1000000000 <=? se_elapsed env k)%N.

(** The body of the loop after a read that returned [data]. *)
Definition encrypt_step (a : Args) (env : StreamEnv) (key : bytes) (fh : FileHeader) (dt : DataType)
    (k : nat) (st : EncryptState) (data : bytes) : EncryptState * result CliError unit :=
  match
    seq ← ok_or (checked_add64 (es_seq st) 1) (anyhow "seq overflow");
    p ← encrypt_chunk key (se_signing env) fh dt (as_u64 (se_now_ms env k)) seq data;
    Ok (seq, p)
  with
  | Err e => (st, Err e)
  | Ok (seq, (rec, pt)) =>
      let out := if ar_no_plaintext a then es_out st else es_out st ++ pt in
      let st' env_bytes :=
        mkEncryptState seq (es_total_in st + len_N data) (es_total_out st + len_N pt) out env_bytes in
      match ar_envelope a with
      | None => (st' (es_envelope st), Ok tt)
      | Some _ =>
          match record_write rec with
          | Ok b => (st' (es_envelope st ++ b), Ok tt)
          | Err _ =>
              (mkEncryptState seq (es_total_in st) (es_total_out st) out (es_envelope st),
               Err (anyhow "write envelope record"))
          end
      end
  end.

(** [src]: what the input still holds, [None] for a directory.  [None] as a result: out of
    fuel. *)
Fixpoint encrypt_loop (a : Args) (env : StreamEnv) (key : bytes) (fh : FileHeader) (dt : DataType)
    (fuel k : nat) (st : EncryptState) (src : option bytes)
    : EncryptState * option (result CliError unit) :=
  match fuel with
  | O => (st, None)
  | S f =>
      if time_is_up a env k then (st, Some (Ok tt))
      else
        match src with
        | None => (st, Some (Err (anyhow "read chunk")))
        | Some rest =>
            let data := read_some (se_reads env k) (ar_chunk a) rest in
            if is_empty data then (st, Some (Ok tt))
            else
              match encrypt_step a env key fh dt k st data with
              | (st', Ok _) =>
                  encrypt_loop a env key fh dt f (S k) st' (Some (drop_N (len_N data) rest))
              | (st', Err e) => (st', Some (Err e))
              end
        end
  end.

Definition encrypt_fuel (src : option bytes) : nat := S (length (default [] src)).

Definition input_source (a : Args) : result CliError InputSource :=
  if ar_live_capture a then Ok LiveAudio
  else p ← ok_or (ar_input a) (anyhow "--input is required when not using --live-capture");
       Ok (InputFile p).

(** Creating the envelope and writing its header: the bytes in its buffer. *)
Definition start_envelope (a : Args) (fh : FileHeader) : io CliError bytes :=
  match ar_envelope a with
  | None => mret []
  | Some p =>
      io_context "create envelope" (create_write p []) ≫= λ _,
      let b := header_to_bytes fh in
      io_lift (map_err Anyhow (write_stream_header (mkStreamHeader VERSION b (blake3 b)) []))
  end.

(** From opening the input to the end of the loop. *)
Definition encrypt_input (a : Args) (env : StreamEnv) (src : InputSource) (key : bytes)
    (fh : FileHeader) (st : EncryptState) (s : fs) : EncryptState * result CliError unit :=
  match src with
  | LiveAudio =>
      (st, Err (anyhow "Audio capture not available - rebuild with: cargo build -p sealedge-cli --features audio"))
  | InputFile p =>
      match open_file p s with
      | Err _ => (st, Err (anyhow "open input"))
      | Ok _ =>
          let c := opened_content p s in
          let '(st', r) := encrypt_loop a env key fh (determine_data_type src a) (encrypt_fuel c) 0 st c in
          (st', default (Err Panicked) r)
      end
  end.

(** The encrypt mode of [main] with its input: how many bytes were read and written, or [None]
    while the input waits. *)
Definition encrypt_with
    (input : InputSource → bytes → FileHeader → EncryptState → fs → EncryptState * option (result CliError unit))
    (a : Args) (env : StreamEnv) : io CliError (option (N * N)) :=
  io_lift (ensure (0 <? ar_chunk a)%N (anyhow "chunk must be > 0")) ≫= λ _,
  io_lift (ensure (ar_chunk a <=? u32_max)%N (anyhow "chunk too large for header")) ≫= λ _,
  io_lift (input_source a) ≫= λ src,
  io_lift (ok_or (ar_out a) (anyhow "--out is required")) ≫= λ out,
  io_context "create output" (create_write out []) ≫= λ _,
  select_aes_key_with_backend a env Encrypt ≫= λ key,
  let fh := stream_header_of a env in
  start_envelope a fh ≫= λ header,
  (λ s, (Ok (input src key fh (mkEncryptState 0 0 0 [] header) s), s)) ≫= λ '(st, r),
  match r with
  | None => mret None
  | Some r =>
      io_context "flush plaintext" (write_open out (es_out st)) ≫= λ _,
      match ar_envelope a with
      | None => mret tt
      | Some p => io_context "flush envelope" (write_open p (es_envelope st))
      end ≫= λ _,
      io_lift r ≫= λ _,
      mret (Some (es_total_in st, es_total_out st))
  end.

(** The input in a build without audio, which never waits *)
Definition file_input (a : Args) (env : StreamEnv) (src : InputSource) (key : bytes) (fh : FileHeader)
    (st : EncryptState) (s : fs) : EncryptState * option (result CliError unit) :=
  let '(st', r) := encrypt_input a env src key fh st s in (st', Some r).
Definition encrypt_file (a : Args) (env : StreamEnv) : io CliError (N * N) :=
  r ← encrypt_with (file_input a env) a env;
  io_lift (ok_or r Panicked).

(** ** Decryption *)

(** The variables of the loop, with what was written. *)
Record DecryptState := mkDecryptState {
  ds_expected_seq : N; (* u64 *)
  ds_data_type : option DataType;
  ds_record_count : N; (* u64 *)
  ds_stream_size : N; (* u64 *)
  ds_out : bytes;
}.
Definition decrypt_start : DecryptState := mkDecryptState 1 None 0 0 [].

(** The checks on a record before its manifest is read. *)
Definition check_record (fh : FileHeader) (expected_seq count : N) (rec : StreamRecord)
    : result CliError unit :=
  ensure (count <=? MAX_RECORDS_PER_STREAM)%N
    (Anyhow (lit "stream exceeds maximum record count: " ++ fmt_N count ++ lit " > "
      ++ fmt_N MAX_RECORDS_PER_STREAM)) ≫= λ _,
  ensure (len_N (rec_ct rec) <=? fh_chunk_size fh + AES_GCM_TAG_SIZE)%N
    (Anyhow (lit "ciphertext size " ++ fmt_N (len_N (rec_ct rec))
      ++ lit " exceeds chunk_size + tag_size (" ++ fmt_N (fh_chunk_size fh + AES_GCM_TAG_SIZE)
      ++ lit ")")) ≫= λ _,
  ensure (bool_decide (take 4 (rec_nonce rec) = fh_nonce_prefix fh))
    (anyhow "record nonce prefix != stream header nonce_prefix") ≫= λ _,
  ensure (bool_decide (drop 4 (rec_nonce rec) = be_bytes 8 (rec_seq rec)))
    (anyhow "record nonce counter != record seq") ≫= λ _,
  ensure (rec_seq rec =? expected_seq)%N
    (Anyhow (lit "non-contiguous sequence: got " ++ fmt_N (rec_seq rec) ++ lit ", expected "
      ++ fmt_N expected_seq)).

(** The checks on its manifest. *)
Definition check_manifest (sh : StreamHeader) (fh : FileHeader) (rec : StreamRecord)
    (m : StreamManifest) : result CliError unit :=
  ensure (bool_decide (take 4 (rec_nonce rec) = fh_nonce_prefix fh))
    (anyhow "record nonce prefix != stream header nonce_prefix") ≫= λ _,
  ensure (bool_decide (ma_header_hash m = sh_header_hash sh))
    (anyhow "manifest.header_hash != stream header_hash") ≫= λ _,
  ensure (bool_decide (ma_key_id m = fh_key_id fh)) (anyhow "manifest.key_id != header.key_id") ≫= λ _,
  ensure (ma_seq m =? rec_seq rec)%N (anyhow "manifest.seq != record.seq") ≫= λ _,
  ensure ((0 <? ma_chunk_len m) && (ma_chunk_len m <=? fh_chunk_size fh))%N
    (Anyhow (lit "manifest chunk_len " ++ fmt_N (ma_chunk_len m) ++ lit " exceeds header chunk_size "
      ++ fmt_N (fh_chunk_size fh))).

(** The plaintext of a record. *)
Definition open_record (key : bytes) (sh : StreamHeader) (rec : StreamRecord) (m : StreamManifest)
    : result CliError bytes :=
  let aad := build_aad (sh_header_hash sh) (rec_seq rec) (rec_nonce rec)
    (blake3 (sm_manifest (rec_sm rec))) (ma_chunk_len m) in
  ensure (length (rec_nonce rec) =? 12)%nat (anyhow "Invalid nonce length") ≫= λ _,
  pt ← ok_or (aead_decrypt Aes256Gcm key (rec_nonce rec) aad (rec_ct rec))
         (anyhow "AES-GCM decrypt/verify failed");
  ensure (len_N pt =? ma_chunk_len m)%N
    (Anyhow (lit "decrypted length " ++ fmt_N (len_N pt) ++ lit " != manifest chunk_len "
      ++ fmt_N (ma_chunk_len m))) ≫= λ _,
  ensure (bool_decide (blake3 pt = ma_pt_hash m)) (anyhow "pt hash mismatch") ≫= λ _,
  Ok pt.

(** One round of the decryption loop. *)
Definition decrypt_step (key : bytes) (sh : StreamHeader) (fh : FileHeader) (st : DecryptState)
    (rec : StreamRecord) : result CliError DecryptState :=
  count ← ok_or (checked_add64 (ds_record_count st) 1) (anyhow "record count overflow");
  check_record fh (ds_expected_seq st) count rec ≫= λ _,
  expected ← ok_or (checked_add64 (ds_expected_seq st) 1) (anyhow "seq overflow");
  check_signed_manifest (rec_sm rec) ≫= λ _,
  m ← map_err (λ _, anyhow "manifest decode") (deserialize (A:=StreamManifest) (sm_manifest (rec_sm rec)));
  check_manifest sh fh rec m ≫= λ _,
  pt ← open_record key sh rec m;
  size ← ok_or (checked_add64 (ds_stream_size st) (len_N pt)) (anyhow "stream size overflow");
  ensure (size <=? MAX_STREAM_SIZE_BYTES)%N
    (Anyhow (lit "stream exceeds maximum size: " ++ fmt_N size ++ lit " > "
      ++ fmt_N MAX_STREAM_SIZE_BYTES ++ lit " bytes")) ≫= λ _,
  Ok (mkDecryptState expected
        (match ds_data_type st with Some dt => Some dt | None => Some (ma_data_type m) end)
        count size (ds_out st ++ pt)).

Fixpoint decrypt_loop (key : bytes) (sh : StreamHeader) (fh : FileHeader) (fuel : nat)
    (st : DecryptState) (r : bytes) : DecryptState * option (result CliError unit) :=
  match fuel with
  | O => (st, None)
  | S f =>
      match record_read r with
      | AtEof => (st, Some (Ok tt))
      | Malformed => (st, Some (Err (anyhow "read record")))
      | Got rec r' =>
          match decrypt_step key sh fh st rec with
          | Ok st' => decrypt_loop key sh fh f st' r'
          | Err e => (st, Some (Err e))
          end
      end
  end.

(** The checks on the header, shared with [inspect_envelope]; [too_short] is the context of
    the conversion to an array. *)
Definition parse_stream_header (too_short : string) (sh : StreamHeader)
    : result CliError FileHeader :=
  ensure (length (sh_header sh) =? HEADER_LEN)%nat (anyhow "bad stream header length") ≫= λ _,
  ensure (length (sh_header sh) =? HEADER_LEN)%nat (anyhow too_short) ≫= λ _,
  fh ← map_err (λ _, anyhow "failed to parse FileHeader") (header_from_bytes (sh_header sh));
  ensure (bool_decide (blake3 (sh_header sh) = sh_header_hash sh)) (anyhow "header_hash mismatch") ≫= λ _,
  Ok fh.

(** The preamble of [decrypt_envelope], which knows one version. *)
Definition read_stream_header (r : bytes) : result CliError (StreamHeader * FileHeader * bytes) :=
  '(magic, r) ← ok_or (read_exact 4 r) (anyhow "read magic");
  ensure (bool_decide (magic = MAGIC)) (anyhow "bad magic") ≫= λ _,
  '(ver, r) ← ok_or (read_exact 1 r) (anyhow "read version");
  ensure (u8_at 0 ver =? VERSION)%N (anyhow "unsupported version") ≫= λ _,
  '(sh, r) ← map_err (λ _, anyhow "read stream header") (deserialize_from (A:=StreamHeader) r);
  fh ← parse_stream_header "stream header length != 58" sh;
  ensure ((0 <? fh_chunk_size fh) && (fh_chunk_size fh <=? MAX_CHUNK_SIZE))%N
    (Anyhow (lit "chunk_size " ++ fmt_N (fh_chunk_size fh) ++ lit " exceeds maximum allowed size "
      ++ fmt_N MAX_CHUNK_SIZE)) ≫= λ _,
  Ok (sh, fh, r).

(** What is written to the output, the type of the data, and the outcome. *)
Definition decrypt_stream (key r : bytes) : bytes * result CliError (option DataType) :=
  match read_stream_header r with
  | Err e => ([], Err e)
  | Ok (sh, fh, r) =>
      let '(st, res) := decrypt_loop key sh fh (S (length r)) decrypt_start r in
      (ds_out st, (λ _, ds_data_type st) <$> default (Err Panicked) res)
  end.

Definition decrypt_envelope (a : Args) (env : StreamEnv) : io CliError (option DataType * N) :=
  select_aes_key_with_backend a env Decrypt ≫= λ key,
  io_lift (ok_or (ar_input a) (anyhow "--input is required for --decrypt")) ≫= λ input,
  io_lift (ok_or (ar_out a) (anyhow "--out is required for --decrypt")) ≫= λ out,
  io_read (λ s, map_err (λ _, anyhow "open envelope") (open_file input s)) ≫= λ _,
  io_context "create output" (create_write out []) ≫= λ _,
  io_read (λ s, ok_or (opened_content input s) (anyhow "read magic")) ≫= λ r,
  let '(written, res) := decrypt_stream key r in
  io_context "flush plaintext" (write_open out written) ≫= λ _,
  io_lift res ≫= λ dt,
  mret (dt, len_N written).

(** ** Inspection *)

Definition aead_name (alg : N) : bytes :=
  match aead_try_from alg with
  | Ok AeadAes256Gcm => lit "AES-256-GCM"
  | Ok AeadChaCha20Poly1305 => lit "ChaCha20-Poly1305"
  | Ok AeadAes256Siv => lit "AES-256-SIV"
  | Err _ => lit "Unknown"
  end.
Definition sig_name (alg : N) : bytes :=
  match sig_try_from alg with
  | Ok SigEd25519 => lit "Ed25519"
  | Ok SigEcdsaP256 => lit "ECDSA-P256"
  | Ok SigEcdsaP384 => lit "ECDSA-P384"
  | Ok SigRsaPss2048 => lit "RSA-PSS-2048"
  | Ok SigRsaPss4096 => lit "RSA-PSS-4096"
  | Ok SigDilithium3 => lit "Dilithium3"
  | Ok SigFalcon512 => lit "Falcon512"
  | Err _ => lit "Unknown"
  end.
Definition hash_name (alg : N) : bytes :=
  match hash_try_from alg with
  | Ok HashBlake3 => lit "BLAKE3"
  | Ok HashSha256 => lit "SHA-256"
  | Ok HashSha384 => lit "SHA-384"
  | Ok HashSha512 => lit "SHA-512"
  | Ok HashSha3_256 => lit "SHA3-256"
  | Ok HashSha3_512 => lit "SHA3-512"
  | Err _ => lit "Unknown"
  end.
Definition kdf_name (alg : N) : bytes :=
  match kdf_try_from alg with
  | Ok KdfPbkdf2Sha256 => lit "PBKDF2-SHA256"
  | Ok KdfArgon2id => lit "Argon2id"
  | Ok KdfScrypt => lit "scrypt"
  | Ok KdfHkdf => lit "HKDF"
  | Err _ => lit "Unknown"
  end.

(** What is printed. *)
Record StreamInfo := mkStreamInfo {
  si_version : N;
  si_aead : bytes;
  si_sig : bytes;
  si_hash : bytes;
  si_kdf : bytes;
  si_chunk_size : N;
  si_seq : N;
  si_data_type : DataType;
}.

Definition inspect_stream (r : bytes) : result CliError StreamInfo :=
  '(sh, r) ← map_err (λ _, anyhow "read preamble and stream header") (read_preamble_and_header r);
  fh ← parse_stream_header "stream header length mismatch" sh;
  rec ← match record_read r with Got rec _ => Ok rec | _ => Err (anyhow "read first record") end;
  m ← map_err (λ _, anyhow "manifest decode") (deserialize (A:=StreamManifest) (sm_manifest (rec_sm rec)));
  Ok (mkStreamInfo (fh_version fh) (aead_name (fh_aead_alg fh)) (sig_name (fh_sig_alg fh))
        (hash_name (fh_hash_alg fh)) (kdf_name (fh_kdf_alg fh)) (fh_chunk_size fh) (ma_seq m)
        (ma_data_type m)).

Definition inspect_envelope (a : Args) (s : fs) : result CliError StreamInfo :=
  input ← ok_or (ar_input a) (anyhow "--input is required for --inspect");
  map_err (λ _, anyhow "open envelope") (open_file input s) ≫= λ _,
  r ← ok_or (opened_content input s) (anyhow "read preamble and stream header");
  inspect_stream r.

(** The tool inspect-seal: what it prints; [None] for the errors, which are those of the
    libraries. *)
Record SealInfo := mkSealInfo {
  sl_version : N;
  sl_header_hash : bytes; (* the first 8 bytes *)
  sl_first_seq : N;
  sl_manifest : StreamManifest;
}.
Definition inspect_seal (r : bytes) : option SealInfo :=
  '(magic, r) ← read_exact 4 r;
  if negb (bool_decide (magic = MAGIC)) then None else
  '(version, r) ← read_exact 1 r;
  '(header, r) ← result_ok (deserialize_from (A:=StreamHeader) r);
  record ← match record_read r with Got rec _ => Some rec | _ => None end;
  manifest ← result_ok (deserialize (A:=StreamManifest) (sm_manifest (rec_sm record)));
  Some (mkSealInfo (u8_at 0 version) (take 8 (sh_header_hash header)) (rec_seq record) manifest).

(** ** Dispatch *)

Inductive StreamCommand :=
  | CmdListBackends
  | CmdListAudioDevices
  | CmdSetPassphrase (p : bytes)
  | CmdInspect
  | CmdDecrypt
  | CmdEncrypt.

(** The order in which [main] looks at the flags. *)
Definition dispatch (a : Args) : result CliError StreamCommand :=
  if ar_list_backends a then Ok CmdListBackends
  else if ar_list_audio_devices a then Ok CmdListAudioDevices
  else
    match ar_set_passphrase a with
    | Some p =>
        if keyring_feature then Ok (CmdSetPassphrase p)
        else Err (anyhow "Keyring support requires the 'keyring' feature. Build with: cargo build --features keyring")
    | None =>
        if ar_inspect a then Ok CmdInspect
        else if ar_decrypt a then Ok CmdDecrypt
        else Ok CmdEncrypt
    end.
End Stream.

(** * Lemmas about streams of records

    A record that encryption produced is accepted by the decryption loop exactly while the
    limits of a stream are kept; the two loops; the preamble; truncated streams. *)

(** The draws of a session have the lengths of their arrays. *)
Record wf_stream_env (env : StreamEnv) : Prop := {
  wf_se_key : length (se_key env) = 32;
  wf_se_nonce_prefix : length (se_nonce_prefix env) = 4;
  wf_se_key_id : length (se_key_id env) = 16;
}.

Lemma checked_add64_Some a b c : checked_add64 a b = Some c ↔ c = (a + b)%N ∧ (a + b ≤ u64_max)%N.
Proof. unfold checked_add64. case_match eqn:E; [apply N.leb_le in E|apply N.leb_gt in E]; naive_solver lia. Qed.

Lemma checked_add64_fits a b : (a + b ≤ u64_max)%N → checked_add64 a b = Some (a + b)%N.
Proof. intros. by apply checked_add64_Some. Qed.

Section StreamLemmas.
Context `{Blake3Laws} `{HexLaws} `{Ed25519Laws} `{AeadLaws} `{KdfLaws} `{OsKeyring} `{UnicodeCase}
  `{BincodeLaws StreamHeader} `{BincodeLaws StreamHeaderV1} `{BincodeLaws StreamManifest}
  `{RecordCodecLaws}.

(** ** One record *)

(** The header that [encrypt_file] writes for [fh]. *)
Definition header_of (fh : FileHeader) : StreamHeader :=
  mkStreamHeader VERSION (header_to_bytes fh) (blake3 (header_to_bytes fh)).

(** The state after a record of [data], and whether the limits allow it. *)
Definition decrypt_next (dt : DataType) (st : DecryptState) (data : bytes) : DecryptState :=
  mkDecryptState (ds_expected_seq st + 1) (Some (default dt (ds_data_type st)))
    (ds_record_count st + 1) (ds_stream_size st + len_N data) (ds_out st ++ data).
Definition fits (st : DecryptState) (data : bytes) : bool :=
  (ds_record_count st + 1 <=? MAX_RECORDS_PER_STREAM)%N
  && (ds_stream_size st + len_N data <=? MAX_STREAM_SIZE_BYTES)%N.

Lemma signed_manifest_checks signing m :
  check_signed_manifest (mkSignedManifest m (sign_manifest_with_domain signing m) (ed_public signing))
  = Ok tt.
Proof.
  unfold check_signed_manifest, verify_manifest_with_domain, sign_manifest_with_domain.
  cbn [sm_manifest sm_sig sm_pubkey].
  by rewrite length_ed_public, length_ed_sign, ed_public_ok, ed_verify_sign.
Qed.

(** What one round of encryption produces. *)
Lemma encrypt_chunk_inv key signing fh dt ts seq data rec pt :
  encrypt_chunk key signing fh dt ts seq data = Ok (rec, pt) →
  pt = data ∧ ∃ mb ct,
    serialize (chunk_manifest_of fh dt ts seq data) = Ok mb ∧
    aead_encrypt Aes256Gcm key (record_nonce fh seq)
      (build_aad (blake3 (header_to_bytes fh)) seq (record_nonce fh seq) (blake3 mb)
        (as_u32 (len_N data))) data = Some ct ∧
    rec = mkStreamRecord seq (record_nonce fh seq)
            (mkSignedManifest mb (sign_manifest_with_domain signing mb) (ed_public signing)) ct.
Proof.
  unfold encrypt_chunk. cbn zeta. intros He. inv_ok.
  match goal with E : serialize _ = Ok ?b |- _ =>
    rename E into Hs; pose proof (deserialize_ok _ _ Hs) as Hd end.
  match goal with E : deserialize _ = Ok ?y |- _ => is_var y; cbn [sm_manifest] in E; rewrite Hd in E;
    apply Ok_inj in E; subst y end.
  match goal with E : aead_encrypt _ _ _ _ _ = Some _ |- _ => rename E into Hct end.
  match goal with E : aead_decrypt _ _ _ _ _ = Some _ |- _ => rename E into Hpt end.
  rewrite (aead_decrypt_encrypt _ _ _ _ _ _ Hct) in Hpt. simplify_eq.
  eauto 10.
Qed.

(** The header of a session that draws well-formed values. *)
Record session_header (fh : FileHeader) : Prop := {
  sess_wf : wf_header fh;
  sess_known : known_algorithms fh = true;
  sess_chunk : (0 < fh_chunk_size fh)%N;
}.

Lemma produced_manifest_checks fh dt ts seq data sm ct :
  session_header fh → data ≠ [] → (len_N data ≤ fh_chunk_size fh)%N →
  check_manifest (header_of fh) fh (mkStreamRecord seq (record_nonce fh seq) sm ct)
    (chunk_manifest_of fh dt ts seq data) = Ok tt.
Proof.
  intros [Hwf _ _] Hne Hlen. pose proof (wf_fh_nonce_prefix _ Hwf) as Hnp.
  pose proof (wf_fh_chunk_size _ Hwf) as Hcs.
  unfold check_manifest, chunk_manifest_of, record_nonce.
  cbn [rec_nonce rec_seq ma_header_hash ma_key_id ma_seq ma_chunk_len header_of sh_header_hash].
  assert (as_u32 (len_N data) = len_N data) as ->.
  { unfold as_u32. apply N.mod_small. unfold u32_max in Hcs. cbn in *. lia. }
  assert (0 < len_N data)%N by (destruct data; [done|unfold len_N; simpl; lia]).
  rewrite !bool_decide_true, N.eqb_refl by (done || by apply take_app_length').
  rewrite (proj2 (N.ltb_lt 0 _)), (proj2 (N.leb_le (len_N data) _)) by done. done.
Qed.

Lemma produced_record_checks fh count seq sm ct :
  session_header fh → (len_N ct ≤ fh_chunk_size fh + AES_GCM_TAG_SIZE)%N →
  (count ≤ MAX_RECORDS_PER_STREAM)%N →
  check_record fh seq count (mkStreamRecord seq (record_nonce fh seq) sm ct) = Ok tt.
Proof.
  intros [Hwf _ _] Hct Hc. pose proof (wf_fh_nonce_prefix _ Hwf) as Hnp.
  unfold check_record, record_nonce. cbn [rec_nonce rec_seq rec_ct].
  rewrite (proj2 (N.leb_le count _)), (proj2 (N.leb_le (len_N ct) _)), N.eqb_refl by done.
  rewrite !bool_decide_true by (by apply take_app_length' || by apply drop_app_length'). done.
Qed.

(** Decryption takes a record that encryption produced when the limits allow it, and no other. *)
Lemma decrypt_step_produced key signing fh dt ts st data rec pt :
  session_header fh → data ≠ [] → (len_N data ≤ fh_chunk_size fh)%N →
  (ds_expected_seq st < u64_max)%N → (ds_record_count st < u64_max)%N →
  encrypt_chunk key signing fh dt ts (ds_expected_seq st) data = Ok (rec, pt) →
  if fits st data then decrypt_step key (header_of fh) fh st rec = Ok (decrypt_next dt st data)
  else ∃ e, decrypt_step key (header_of fh) fh st rec = Err e ∧ e ≠ Panicked.
Proof.
  intros Hs Hne Hlen Hseq Hcnt (-> & mb & ct & Hm & Hct & ->)%encrypt_chunk_inv.
  pose proof (length_aead_encrypt _ _ _ _ _ _ Hct) as Hlct.
  unfold decrypt_step. rewrite (checked_add64_fits (ds_record_count st)) by lia.
  cbn [ok_or mbind result_bind]. unfold fits.
  destruct (N.leb_spec (ds_record_count st + 1) MAX_RECORDS_PER_STREAM) as [Hr|Hr]; cbn [andb].
  2: { eexists. unfold check_record at 1. rewrite (proj2 (N.leb_gt _ _) Hr). done. }
  rewrite produced_record_checks by (done || (unfold AES_GCM_TAG_SIZE, len_N in *; lia)).
  cbn [mbind result_bind].
  rewrite (checked_add64_fits (ds_expected_seq st)) by lia.
  cbn [ok_or mbind result_bind rec_sm sm_manifest]. rewrite signed_manifest_checks.
  cbn [mbind result_bind]. rewrite (deserialize_ok _ _ Hm). cbn [map_err mbind result_bind].
  rewrite produced_manifest_checks by done. cbn [mbind result_bind].
  unfold open_record. cbn [rec_nonce rec_seq rec_sm rec_ct sm_manifest header_of sh_header_hash].
  change (ma_chunk_len (chunk_manifest_of fh dt ts (ds_expected_seq st) data)) with (as_u32 (len_N data)).
  rewrite (aead_decrypt_encrypt _ _ _ _ _ _ Hct).
  assert (length (record_nonce fh (ds_expected_seq st)) = 12) as ->.
  { unfold record_nonce. rewrite length_app, length_be_bytes, (wf_fh_nonce_prefix _ (sess_wf _ Hs)). done. }
  assert (as_u32 (len_N data) = len_N data) as ->.
  { pose proof (wf_fh_chunk_size _ (sess_wf _ Hs)) as Hcs. unfold as_u32. apply N.mod_small.
    unfold u32_max in Hcs. cbn in *. lia. }
  cbn [Nat.eqb ensure ok_or mbind result_bind]. rewrite N.eqb_refl. cbn [ensure mbind result_bind].
  rewrite bool_decide_true by done. cbn [ensure mbind result_bind].
  destruct (N.leb_spec (ds_stream_size st + len_N data) MAX_STREAM_SIZE_BYTES) as [Hz|Hz].
  - rewrite checked_add64_fits by (etrans; [exact Hz|done]).
    cbn [ok_or mbind result_bind]. rewrite (proj2 (N.leb_le _ _) Hz). cbn [ensure mbind result_bind].
    unfold decrypt_next. by destruct (ds_data_type st).
  - destruct (checked_add64 _ _) as [z|] eqn:Ez; cbn [ok_or mbind result_bind].
    + apply checked_add64_Some in Ez as [-> _]. rewrite (proj2 (N.leb_gt _ _) Hz).
      by eexists (Anyhow _).
    + by eexists (Anyhow _).
Qed.

(** ** Sequences of records *)

(** [bs] are the encodings of records for the chunks [cs], numbered from [n]. *)
Inductive stream_of (key signing : bytes) (fh : FileHeader) (dt : DataType)
    : N → list bytes → list bytes → Prop :=
  | so_nil n : stream_of key signing fh dt n [] []
  | so_cons n ts c cs rec pt b bs :
      (n ≤ u64_max)%N → c ≠ [] → (len_N c ≤ fh_chunk_size fh)%N →
      encrypt_chunk key signing fh dt ts n c = Ok (rec, pt) → record_write rec = Ok b →
      stream_of key signing fh dt (n + 1) cs bs →
      stream_of key signing fh dt n (c :: cs) (b :: bs).

Lemma record_nonempty x b : record_write x = Ok b → b ≠ [].
Proof.
  intros Hw ->. apply (record_read_write x [] []) in Hw. apply record_read_shorter in Hw. simpl in Hw. lia.
Qed.

Lemma stream_of_lengths key signing fh dt n cs bs :
  stream_of key signing fh dt n cs bs → length bs = length cs ∧ length cs ≤ length (concat bs).
Proof.
  induction 1 as [|n ts c cs rec pt b bs _ _ _ _ Hb _ [IH1 IH2]]; [done|].
  apply record_nonempty in Hb. cbn. rewrite length_app. destruct b; [done|]. simpl. lia.
Qed.

Lemma stream_of_take key signing fh dt n cs bs k :
  stream_of key signing fh dt n cs bs → stream_of key signing fh dt n (take k cs) (take k bs).
Proof.
  intros Hs. revert k. induction Hs as [|n ts c cs rec pt b bs ????? Hs IH]; intros k.
  { rewrite !take_nil. constructor. }
  destruct k as [|k]; [constructor|]. cbn. econstructor; eauto.
Qed.

(** The state after the chunks [cs], and whether the limits allow all of them. *)
Definition decrypt_after (dt : DataType) (st : DecryptState) (cs : list bytes) : DecryptState :=
  foldl (decrypt_next dt) st cs.
Definition all_fit (st : DecryptState) (cs : list bytes) : bool :=
  (ds_record_count st + N.of_nat (length cs) <=? MAX_RECORDS_PER_STREAM)%N
  && (ds_stream_size st + len_N (concat cs) <=? MAX_STREAM_SIZE_BYTES)%N.

Lemma all_fit_cons dt st c cs :
  all_fit st (c :: cs) = true ↔ fits st c = true ∧ all_fit (decrypt_next dt st c) cs = true.
Proof.
  unfold all_fit, fits, decrypt_next. cbn [ds_record_count ds_stream_size concat length].
  rewrite !andb_true_iff, !N.leb_le, len_N_app. lia.
Qed.

Lemma decrypt_after_out dt st cs : ds_out (decrypt_after dt st cs) = ds_out st ++ concat cs.
Proof.
  revert st. induction cs as [|c cs IH]; intros st; cbn; [by rewrite app_nil_r|].
  unfold decrypt_after in IH. rewrite IH. cbn. by rewrite app_assoc.
Qed.

Lemma decrypt_after_type dt st cs :
  ds_data_type (decrypt_after dt st cs) =
  match cs with [] => ds_data_type st | _ => Some (default dt (ds_data_type st)) end.
Proof.
  revert st. induction cs as [|c cs IH]; intros st; cbn; [done|].
  unfold decrypt_after in IH. rewrite IH. by destruct cs.
Qed.

(** The decryption loop takes the records while the limits allow it... *)
Lemma decrypt_loop_records key signing fh dt cs bs st fuel r :
  session_header fh → stream_of key signing fh dt (ds_expected_seq st) cs bs →
  all_fit st cs = true → (ds_record_count st + 1 = ds_expected_seq st)%N →
  decrypt_loop key (header_of fh) fh (length cs + fuel) st (concat bs ++ r) =
  decrypt_loop key (header_of fh) fh fuel (decrypt_after dt st cs) r.
Proof.
  intros Hh. revert bs st. induction cs as [|c cs IH]; intros bs st Hs Hfit Hcnt; inversion Hs; subst.
  { done. }
  match goal with E : encrypt_chunk _ _ _ _ _ _ _ = Ok _ |- _ => rename E into He end.
  match goal with E : record_write _ = Ok _ |- _ => rename E into Hw end.
  apply (all_fit_cons dt) in Hfit as [Hf Hfit]. pose proof Hf as Hf'.
  unfold fits in Hf'. apply andb_true_iff in Hf' as [Hr%N.leb_le _].
  cbn [length Nat.add concat decrypt_loop]. rewrite <-app_assoc, (record_read_write _ _ _ Hw).
  assert (MAX_RECORDS_PER_STREAM < u64_max)%N by done.
  pose proof (decrypt_step_produced key signing fh dt _ st c _ _ Hh ltac:(done) ltac:(done)
    ltac:(lia) ltac:(lia) He) as Hstep.
  rewrite Hf in Hstep. rewrite Hstep. apply IH; [done|done|]. cbn. lia.
Qed.

(** ... and stops with an error at the first one they refuse. *)
Lemma decrypt_loop_refused key signing fh dt cs bs st fuel r :
  session_header fh → stream_of key signing fh dt (ds_expected_seq st) cs bs →
  all_fit st [] = true → all_fit st cs = false → (ds_record_count st + 1 = ds_expected_seq st)%N →
  ∃ st' e, decrypt_loop key (header_of fh) fh (length cs + fuel) st (concat bs ++ r)
           = (st', Some (Err e)) ∧ e ≠ Panicked.
Proof.
  intros Hh. revert bs st. induction cs as [|c cs IH]; intros bs st Hs H0' Hfit Hcnt; [congruence|].
  inversion Hs; subst.
  match goal with E : encrypt_chunk _ _ _ _ _ _ _ = Ok _ |- _ => rename E into He end.
  match goal with E : record_write _ = Ok _ |- _ => rename E into Hw end.
  cbn [length Nat.add concat decrypt_loop]. rewrite <-app_assoc, (record_read_write _ _ _ Hw).
  assert (MAX_RECORDS_PER_STREAM < u64_max - 1)%N by done.
  assert (ds_record_count st ≤ MAX_RECORDS_PER_STREAM)%N.
  { unfold all_fit in H0'. apply andb_true_iff in H0' as [Hx%N.leb_le _]. simpl in Hx. lia. }
  pose proof (decrypt_step_produced key signing fh dt _ st c _ _ Hh ltac:(done) ltac:(done)
    ltac:(lia) ltac:(lia) He) as Hstep.
  destruct (fits st c) eqn:Hf.
  - rewrite Hstep. apply IH; [done| | |cbn; lia].
    + unfold all_fit, fits in *. cbn [length concat ds_record_count ds_stream_size decrypt_next].
      rewrite !andb_true_iff, !N.leb_le in *. change (len_N []) with 0%N. lia.
    + destruct (all_fit (decrypt_next dt st c) cs) eqn:E; [|done].
      rewrite (proj2 (all_fit_cons dt st c cs)) in Hfit by done. done.
  - destruct Hstep as (e & -> & He'). eauto.
Qed.

(** ** Whole streams *)

Lemma read_stream_header_written fh hb r :
  session_header fh → write_stream_header (header_of fh) [] = Ok hb →
  if (fh_chunk_size fh <=? MAX_CHUNK_SIZE)%N
  then read_stream_header (hb ++ r) = Ok (header_of fh, fh, r)
  else ∃ e, read_stream_header (hb ++ r) = Err e ∧ e ≠ Panicked.
Proof.
  intros [Hwf Hk Hc] Hw. unfold write_stream_header in Hw. inv_ok.
  match goal with E : in_context _ _ = Ok _ |- _ => apply in_context_ok in E as Hs end.
  unfold read_stream_header. rewrite app_nil_l, <-app_assoc, (read_exact_app 4) by done.
  cbn [ok_or mbind result_bind]. rewrite bool_decide_true by done. cbn [ensure mbind result_bind].
  rewrite <-app_assoc, (read_exact_app 1) by done. cbn [ok_or mbind result_bind].
  change (u8_at 0 [byte_of_N VERSION] =? VERSION)%N with true. cbn [ensure mbind result_bind].
  rewrite (deserialize_serialize _ _ _ Hs). cbn [map_err mbind result_bind].
  unfold parse_stream_header. cbn [header_of sh_header sh_header_hash].
  rewrite length_header_to_bytes by done. rewrite Nat.eqb_refl. cbn [ensure mbind result_bind].
  rewrite header_roundtrip by done. cbn [map_err mbind result_bind].
  rewrite bool_decide_true by done. cbn [ensure mbind result_bind].
  rewrite (proj2 (N.ltb_lt _ _) Hc). cbn [andb].
  destruct (N.leb_spec (fh_chunk_size fh) MAX_CHUNK_SIZE) as [Hm|Hm]; [done|].
  by eexists (Anyhow _).
Qed.

(** What decryption accepts of what encryption wrote. *)
Definition within_limits (fh : FileHeader) (cs : list bytes) : bool :=
  (fh_chunk_size fh <=? MAX_CHUNK_SIZE)%N && all_fit decrypt_start cs.

(** The type reported for a stream of the chunks [cs]. *)
Definition reported_type (dt : DataType) (cs : list bytes) : option DataType :=
  match cs with [] => None | _ => Some dt end.

Lemma decrypt_stream_written key signing fh dt hb cs bs part :
  session_header fh → write_stream_header (header_of fh) [] = Ok hb →
  stream_of key signing fh dt 1 cs bs → record_read part = AtEof →
  if within_limits fh cs
  then decrypt_stream key (hb ++ concat bs ++ part) = (concat cs, Ok (reported_type dt cs))
  else ∃ out e, decrypt_stream key (hb ++ concat bs ++ part) = (out, Err e) ∧ e ≠ Panicked.
Proof.
  intros Hh Hw Hs Hp. unfold within_limits, decrypt_stream.
  pose proof (read_stream_header_written fh hb (concat bs ++ part) Hh Hw) as Hr.
  destruct (fh_chunk_size fh <=? MAX_CHUNK_SIZE)%N; cbn [andb].
  2: { destruct Hr as (e & -> & ?). eauto. }
  rewrite Hr. destruct (stream_of_lengths _ _ _ _ _ _ _ Hs) as [_ Hl].
  assert (∃ f, S (length (concat bs ++ part)) = length cs + S f) as [f ->].
  { exists (length (concat bs ++ part) - length cs). rewrite length_app. lia. }
  destruct (all_fit decrypt_start cs) eqn:Hfit.
  - rewrite (decrypt_loop_records key signing fh dt) by done.
    cbn [decrypt_loop]. rewrite Hp. cbn [default fmap result_fmap].
    rewrite decrypt_after_out, decrypt_after_type. by destruct cs.
  - destruct (decrypt_loop_refused key signing fh dt cs bs decrypt_start (S f) part)
      as (st' & e & -> & He); [done..|]. cbn. eauto.
Qed.

(** A stream cut at any byte ends inside a record, or between two. *)
Lemma stream_cut key signing fh dt n cs bs b1 b2 :
  stream_of key signing fh dt n cs bs → concat bs = b1 ++ b2 →
  ∃ k part, b1 = concat (take k bs) ++ part ∧ record_read part = AtEof.
Proof.
  intros Hs. revert b1 b2. induction Hs as [n|n ts c cs rec pt b bs ???? Hb Hs IH]; intros b1 b2 Hcut.
  { symmetry in Hcut. apply app_eq_nil in Hcut as [-> _]. exists 0, []. split; [done|apply record_read_nil]. }
  cbn [concat] in Hcut. apply app_eq_inv in Hcut as [(l & -> & Hl)|(l & -> & Hl)].
  - destruct (decide (l = [])) as [->|Hne].
    + exists 1, []. rewrite !app_nil_r. cbn. rewrite app_nil_r. split; [done|apply record_read_nil].
    + exists 0, b1. split; [done|]. by eapply record_read_cut.
  - destruct (IH l b2 Hl) as (k & part & -> & Hp). exists (S k), part. split; [|done].
    cbn. by rewrite app_assoc.
Qed.

Lemma all_fit_take st cs k : all_fit st cs = true → all_fit st (take k cs) = true.
Proof.
  unfold all_fit. rewrite !andb_true_iff, !N.leb_le. intros [Hl Hc]. rewrite length_take.
  rewrite <-(take_drop k cs), concat_app, len_N_app in Hc. lia.
Qed.

(** ** The encryption loop *)

Lemma read_some_spec limit room rest :
  (0 < room)%N →
  rest = read_some limit room rest ++ drop_N (len_N (read_some limit room rest)) rest
  ∧ (len_N (read_some limit room rest) ≤ room)%N ∧ (read_some limit room rest = [] → rest = []).
Proof.
  intros Hr. unfold read_some. set (n := N.min _ _). assert (0 < n ≤ room)%N as Hn by (subst n; lia).
  rewrite len_take_N. split_and!; [|lia|].
  - destruct (N.le_gt_cases n (len_N rest)).
    + rewrite N.min_l by done. by rewrite take_drop_N.
    + rewrite N.min_r, (take_N_all n) by lia. pose proof (take_drop_N (len_N rest) rest) as Htd.
      by rewrite (take_N_all (len_N rest)) in Htd by done.
  - intros Hnil. apply (f_equal len_N) in Hnil. rewrite len_take_N in Hnil.
    destruct rest; [done|]. unfold len_N in Hnil. simpl in Hnil. lia.
Qed.

Lemma encrypt_step_ok a env key fh dt k st data st' p :
  ar_envelope a = Some p → encrypt_step a env key fh dt k st data = (st', Ok tt) →
  ∃ ts rec b, (es_seq st + 1 ≤ u64_max)%N
    ∧ encrypt_chunk key (se_signing env) fh dt ts (es_seq st + 1) data = Ok (rec, data)
    ∧ record_write rec = Ok b
    ∧ st' = mkEncryptState (es_seq st + 1) (es_total_in st + len_N data) (es_total_out st + len_N data)
              (if ar_no_plaintext a then es_out st else es_out st ++ data) (es_envelope st ++ b).
Proof.
  intros Hp. unfold encrypt_step. rewrite Hp.
  destruct (ok_or (checked_add64 _ _) _ ≫= _) as [[seq [rec pt]]|e] eqn:E; [|by intros [=]]. inv_ok.
  match goal with E : checked_add64 _ _ = Some _ |- _ => apply checked_add64_Some in E as [-> ?] end.
  match goal with E : encrypt_chunk _ _ _ _ _ _ _ = Ok ?q |- _ => destruct q as [rec' pt'] eqn:Eq; rename E into He end.
  simplify_eq. pose proof (encrypt_chunk_inv _ _ _ _ _ _ _ _ _ He) as [-> _].
  case_match eqn:Ew; [|by intros [=]]. intros [= <-]. eauto 10.
Qed.

Lemma encrypt_loop_stream a env key fh dt p fuel k st rest st' :
  ar_envelope a = Some p → (0 < ar_chunk a)%N → fh_chunk_size fh = ar_chunk a →
  encrypt_loop a env key fh dt fuel k st (Some rest) = (st', Some (Ok tt)) →
  ∃ cs bs tail, rest = concat cs ++ tail ∧ (ar_max_duration a = 0%N → tail = [])
    ∧ stream_of key (se_signing env) fh dt (es_seq st + 1) cs bs
    ∧ es_envelope st' = es_envelope st ++ concat bs
    ∧ es_out st' = (if ar_no_plaintext a then es_out st else es_out st ++ concat cs)
    ∧ es_total_in st' = (es_total_in st + len_N (concat cs))%N
    ∧ es_total_out st' = (es_total_out st + len_N (concat cs))%N.
Proof.
  intros Hp Hc Hfh. revert k st rest. induction fuel as [|f IH]; intros k st rest; [done|].
  cbn [encrypt_loop]. destruct (time_is_up a env k) eqn:Ht.
  { intros [= <-]. exists [], [], rest. cbn. rewrite !app_nil_r, !N.add_0_r.
    split_and!; [done| |constructor|done|by destruct (ar_no_plaintext a)|done|done].
    intros Hz. unfold time_is_up in Ht. by rewrite Hz in Ht. }
  destruct (read_some_spec (se_reads env k) (ar_chunk a) rest Hc) as (Hrest & Hlen & Hnil).
  cbn zeta. destruct (is_empty _) eqn:He.
  { apply is_empty_true in He. intros [= <-]. exists [], [], []. cbn. rewrite !app_nil_r, !N.add_0_r.
    split_and!; [by apply Hnil|done|constructor|done|by destruct (ar_no_plaintext a)|done|done]. }
  apply is_empty_false in He. destruct (encrypt_step _ _ _ _ _ _ _ _) as [st1 [[]|e]] eqn:Hst; [|done].
  apply (encrypt_step_ok _ _ _ _ _ _ _ _ _ p Hp) in Hst as (ts & rec & b & Hseq & Hchunk & Hw & ->).
  intros (cs & bs & tail & Hr & Htail & Hs & Henv & Hout & Hin & Hto)%IH.
  exists (read_some (se_reads env k) (ar_chunk a) rest :: cs), (b :: bs), tail.
  cbn in Hs, Henv, Hout, Hin, Hto |- *. rewrite !len_N_app, !N.add_assoc.
  split_and!; [by rewrite <-app_assoc, <-Hr|done| | | |done|done].
  - econstructor; eauto. by rewrite Hfh.
  - by rewrite Henv, app_assoc.
  - rewrite Hout. destruct (ar_no_plaintext a); [done|]. by rewrite app_assoc.
Qed.

(** The loop ends: every round takes at least one byte of the input. *)
Lemma encrypt_loop_total a env key fh dt fuel k st rest :
  (0 < ar_chunk a)%N → length rest < fuel →
  ∃ st' r, encrypt_loop a env key fh dt fuel k st (Some rest) = (st', Some r).
Proof.
  intros Hc. revert k st rest. induction fuel as [|f IH]; intros k st rest Hf; [lia|].
  cbn [encrypt_loop]. case_match; [eauto|]. cbn zeta.
  destruct (read_some_spec (se_reads env k) (ar_chunk a) rest Hc) as (Hrest & _ & _).
  destruct (is_empty _) eqn:He; [eauto|]. apply is_empty_false in He.
  destruct (encrypt_step _ _ _ _ _ _ _ _) as [st1 [[]|e]]; [|eauto]. apply IH.
  apply (f_equal length) in Hrest. rewrite length_app in Hrest.
  destruct (read_some _ _ _); [done|]. simpl in *. lia.
Qed.

(** ** Records of any origin *)

(** What the decryption loop has established when it releases [pt] for record [n]. *)
Record accepted (key : bytes) (sh : StreamHeader) (fh : FileHeader) (n : N) (rec : StreamRecord)
    (m : StreamManifest) (pt : bytes) : Prop := {
  acc_seq : rec_seq rec = n ∧ ma_seq m = n;
  acc_nonce : rec_nonce rec = record_nonce fh n;
  acc_manifest : deserialize (sm_manifest (rec_sm rec)) = Ok m;
  acc_signed : ed_verify (sm_pubkey (rec_sm rec)) (MANIFEST_DOMAIN_SEP ++ sm_manifest (rec_sm rec))
                 (sm_sig (rec_sm rec)) = true;
  acc_header : ma_header_hash m = sh_header_hash sh ∧ ma_key_id m = fh_key_id fh;
  acc_len : ma_chunk_len m = len_N pt ∧ (0 < len_N pt ≤ fh_chunk_size fh)%N;
  acc_hash : blake3 pt = ma_pt_hash m;
  acc_open : aead_decrypt Aes256Gcm key (record_nonce fh n)
    (build_aad (sh_header_hash sh) n (record_nonce fh n) (blake3 (sm_manifest (rec_sm rec))) (len_N pt))
    (rec_ct rec) = Some pt;
}.

(** Reading accepted records from [r], numbered from [n], until [rest] is left. *)
Inductive accepted_run (key : bytes) (sh : StreamHeader) (fh : FileHeader)
    : N → bytes → list bytes → bytes → Prop :=
  | ar_nil n r : accepted_run key sh fh n r [] r
  | ar_cons n r rec r' m pt pts rest :
      record_read r = Got rec r' → accepted key sh fh n rec m pt →
      accepted_run key sh fh (n + 1) r' pts rest → accepted_run key sh fh n r (pt :: pts) rest.

(** The counters of the loop. *)
Record decrypt_inv (st : DecryptState) : Prop := {
  di_count : (ds_record_count st + 1 = ds_expected_seq st)%N;
  di_records : (ds_record_count st ≤ MAX_RECORDS_PER_STREAM)%N;
  di_size : ds_stream_size st = len_N (ds_out st);
  di_bound : (ds_stream_size st ≤ MAX_STREAM_SIZE_BYTES)%N;
}.

Lemma check_record_ok fh seq count rec :
  check_record fh seq count rec = Ok tt →
  (count ≤ MAX_RECORDS_PER_STREAM)%N ∧ rec_seq rec = seq ∧ rec_nonce rec = record_nonce fh seq.
Proof.
  unfold check_record. intros Hc. inv_ok. rewrite !bool_decide_eq_true in *.
  repeat match goal with E : (_ <=? _)%N = true |- _ => apply N.leb_le in E
         | E : (_ =? _)%N = true |- _ => apply N.eqb_eq in E end.
  split_and!; [done..|]. unfold record_nonce. rewrite <-(take_drop 4 (rec_nonce rec)). congruence.
Qed.

Lemma decrypt_step_inv key sh fh st rec st' :
  decrypt_step key sh fh st rec = Ok st' → decrypt_inv st →
  decrypt_inv st' ∧ ds_record_count st' = (ds_record_count st + 1)%N ∧
  ∃ m pt, accepted key sh fh (ds_expected_seq st) rec m pt ∧ ds_out st' = ds_out st ++ pt.
Proof.
  unfold decrypt_step, check_signed_manifest, verify_manifest_with_domain, check_manifest, open_record.
  intros Hd [Hc _ Hz _]. inv_ok. cbn [ds_out ds_record_count].
  repeat match goal with
  | E : checked_add64 _ _ = Some _ |- _ => apply checked_add64_Some in E as [-> _]
  | E : check_record _ _ _ _ = Ok ?u |- _ => destruct u; apply check_record_ok in E as (? & ? & Hn)
  | E : bool_decide _ = true |- _ => apply bool_decide_eq_true in E
  | E : (_ <=? _)%N = true |- _ => apply N.leb_le in E
  | E : (_ <? _)%N = true |- _ => apply N.ltb_lt in E
  | E : (_ =? _)%N = true |- _ => apply N.eqb_eq in E
  | E : _ && _ = true |- _ => apply andb_true_iff in E as [? ?]
  end.
  match goal with E : ma_seq ?m = _, F : len_N ?pt = ma_chunk_len ?m |- _ =>
    rename m into m'; rename pt into pt'; rename E into Hms; rename F into Hml end.
  split_and!.
  - split; cbn [ds_record_count ds_expected_seq ds_stream_size ds_out]; [lia|done| |done].
    rewrite len_N_app. by rewrite Hz.
  - done.
  - exists m', pt'. split; [|done]. rewrite Hml in *. rewrite Hn in *.
    split; [by split; congruence|done|done|done|done|lia|done|]. congruence.
Qed.

Lemma decrypt_loop_inv key sh fh fuel st r st' res :
  decrypt_loop key sh fh fuel st r = (st', res) → decrypt_inv st →
  decrypt_inv st' ∧ ∃ pts rest,
    accepted_run key sh fh (ds_expected_seq st) r pts rest
    ∧ ds_out st' = ds_out st ++ concat pts
    ∧ ds_record_count st' = (ds_record_count st + N.of_nat (length pts))%N
    ∧ (res = Some (Ok tt) → record_read rest = AtEof).
Proof.
  revert st r. induction fuel as [|f IH]; intros st r.
  { intros [= <- <-] Hi. split; [done|]. exists [], r. rewrite app_nil_r, N.add_0_r.
    split_and!; [constructor|done..]. }
  cbn [decrypt_loop]. destruct (record_read r) as [rec r'| |] eqn:Hr.
  - destruct (decrypt_step key sh fh st rec) as [st1|e] eqn:Hs.
    + intros Hl Hi. destruct (decrypt_step_inv _ _ _ _ _ _ Hs Hi) as (Hi1 & Hc1 & m & pt & Ha & Ho).
      destruct (IH _ _ Hl Hi1) as (Hi' & pts & rest & Hrun & Hout & Hcnt & Heof). split; [done|].
      exists (pt :: pts), rest. cbn [concat length]. split_and!; [|by rewrite Hout, Ho, app_assoc|lia|done].
      econstructor; [done..|]. destruct Hi, Hi1. by replace (ds_expected_seq st + 1)%N with (ds_expected_seq st1) by lia.
    + intros [= <- <-] Hi. split; [done|]. exists [], r. rewrite app_nil_r, N.add_0_r.
      split_and!; [constructor|done..].
  - intros [= <- <-] Hi. split; [done|]. exists [], r. rewrite app_nil_r, N.add_0_r.
    split_and!; [constructor|done..].
  - intros [= <- <-] Hi. split; [done|]. exists [], r. rewrite app_nil_r, N.add_0_r.
    split_and!; [constructor|done..].
Qed.

(** The loop ends: every record takes at least one byte. *)
Lemma decrypt_loop_total key sh fh fuel st r :
  length r < fuel → ∃ st' res, decrypt_loop key sh fh fuel st r = (st', Some res).
Proof.
  revert st r. induction fuel as [|f IH]; intros st r Hf; [lia|]. cbn [decrypt_loop].
  destruct (record_read r) as [rec r'| |] eqn:Hr; [|eauto..].
  apply record_read_shorter in Hr. case_match; [apply IH; lia|eauto].
Qed.

(** ** The key *)

(** The salt that the command line demands is not one that the only backend takes. *)
Lemma backend_key_err kf a : ∃ e, backend_key kf a = Err e.
Proof.
  destruct (backend_key kf a) as [key|e] eqn:E; [|eauto]. exfalso.
  unfold backend_key in E. inv_ok.
  match goal with E : keyring_derive_key _ _ _ = Ok _ |- _ => apply keyring_derive_key_ok in E as [E _] end.
  match goal with E : (_ =? 16) = true |- _ => apply Nat.eqb_eq in E end. cbn in *. lia.
Qed.

(** The key of a session, as it is given to decryption. *)
Definition session_key_hex (a : Args) (env : StreamEnv) : bytes :=
  default (hex_encode (se_key env)) (ar_key_hex a).

Lemma select_encrypt_key kf a env key s s' :
  wf_stream_env env → select_aes_key_with_backend kf a env Encrypt s = (Ok key, s') →
  parse_key_hex (session_key_hex a env) = Ok key
  ∧ (s' = s ∨ ∃ p, ar_key_out a = Some p ∧ s' = <[p := File (hex_encode key)]> s ∧ s !! p ≠ Some Dir).
Proof.
  intros Hwf. unfold select_aes_key_with_backend, session_key_hex. destruct (ar_key_hex a) as [kh|].
  { intros Hs. inv_io. cbn. auto. }
  assert (parse_key_hex (hex_encode (se_key env)) = Ok (se_key env)) as Hp.
  { unfold parse_key_hex. rewrite hex_decode_encode. cbn. by rewrite (wf_se_key _ Hwf). }
  case_match.
  { intros Hs. inv_io. destruct (backend_key_err kf a) as [e He]. congruence. }
  cbn. destruct (ar_key_out a) as [p|]; intros Hs; unfold io_context in Hs; inv_io; subst key; split; try done.
  - right. exists p. apply create_write_inv in Hm as (-> & ? & _). done.
  - by left.
Qed.

(** ** Whole commands *)

(** The files of an encryption are different files. *)
Record separate_files (a : Args) (ip op ep : list (list ascii)) : Prop := {
  sf_input : ar_input a = Some ip;
  sf_out : ar_out a = Some op;
  sf_envelope : ar_envelope a = Some ep;
  sf_ne : ip ≠ op ∧ ip ≠ ep ∧ op ≠ ep;
  sf_key : ar_key_out a ≠ Some ip ∧ ar_key_out a ≠ Some op ∧ ar_key_out a ≠ Some ep;
}.

Lemma stream_header_session a env :
  wf_stream_env env → (0 < ar_chunk a ≤ u32_max)%N →
  session_header (stream_header_of a env) ∧ fh_chunk_size (stream_header_of a env) = ar_chunk a.
Proof.
  intros Hwf Hc. assert (as_u32 (ar_chunk a) = ar_chunk a) as Ha.
  { unfold as_u32. apply N.mod_small. unfold u32_max in Hc. cbn in *. lia. }
  split; [split; [split|..]|]; cbn [stream_header_of fh_version fh_aead_alg fh_sig_alg fh_hash_alg
    fh_kdf_alg fh_reserved fh_key_id fh_device_id_hash fh_nonce_prefix fh_chunk_size].
  all: rewrite ?Ha; try done; try apply Hwf; try apply length_blake3; try lia.
  repeat constructor.
Qed.

Lemma write_open_new (p : path) (data : bytes) (s : fs) :
  s !! p = Some (File []) → write_open p data s = (Ok tt, <[p := File data]> s).
Proof. unfold write_open. intros ->. by rewrite drop_nil, app_nil_r. Qed.

(** Reachability is kept by writing a file. *)
Lemma ancestor_error_insert_file (p q : path) (c : bytes) (s : fs) :
  ancestor_error p s = None → s !! q ≠ Some Dir → ancestor_error p (<[q := File c]> s) = None.
Proof.
  intros Ha Hq. rewrite ancestor_error_None in *. intros r Hr.
  rewrite lookup_insert_ne; [by apply Ha|]. intros ->. by rewrite Ha in Hq.
Qed.

Lemma start_envelope_ok a fh ep hb s s' :
  ar_envelope a = Some ep → start_envelope a fh s = (Ok hb, s') →
  write_stream_header (header_of fh) [] = Ok hb ∧ s' = <[ep := File []]> s
  ∧ ancestor_error ep s = None ∧ s !! ep ≠ Some Dir.
Proof.
  intros He. unfold start_envelope. rewrite He. intros Hs. unfold io_context in Hs. inv_io. inv_ok.
  apply create_write_inv in Hm as (-> & ? & ?). done.
Qed.

(** A run that succeeded: the key, the header and the state at the end of the loop. *)
Lemma encrypt_with_steps (kf : bool)
    (input : InputSource → bytes → FileHeader → EncryptState → fs → EncryptState * option (result CliError unit))
    (a : Args) (env : StreamEnv) (s s1 : fs) (op ep : path) (n_in n_out : N) :
  wf_stream_env env → ar_out a = Some op → ar_envelope a = Some ep → op ≠ ep →
  ar_key_out a ≠ Some op → encrypt_with kf input a env s = (Ok (Some (n_in, n_out)), s1) →
  ∃ src key hb (s_key : fs) st,
    let fh := stream_header_of a env in
    (0 < ar_chunk a ≤ u32_max)%N ∧ input_source a = Ok src
    ∧ parse_key_hex (session_key_hex a env) = Ok key
    ∧ (∀ q, q ≠ op → ar_key_out a ≠ Some q → s_key !! q = s !! q) ∧ s_key !! op = Some (File [])
    ∧ write_stream_header (header_of fh) [] = Ok hb
    ∧ ancestor_error ep s_key = None ∧ s_key !! ep ≠ Some Dir
    ∧ input src key fh (mkEncryptState 0 0 0 [] hb) (<[ep := File []]> s_key) = (st, Some (Ok tt))
    ∧ n_in = es_total_in st ∧ n_out = es_total_out st
    ∧ s1 = <[ep := File (es_envelope st)]> (<[op := File (es_out st)]> (<[ep := File []]> s_key)).
Proof.
  intros Hwf Ho He Hoe Hko Hrun.
  unfold encrypt_with, io_context in Hrun. inv_io.
  repeat match goal with E : ensure _ _ = Ok ?u |- _ => destruct u; apply ensure_ok in E end.
  rewrite Ho in *. rewrite He in *. inv_ok.
  match goal with E : Some op = Some _ |- _ => injection E as <- end.
  match goal with E : (0 <? _)%N = true |- _ => apply N.ltb_lt in E; rename E into Hc0 end.
  match goal with E : (_ <=? u32_max)%N = true |- _ => apply N.leb_le in E; rename E into Hc1 end.
  match goal with E : create_write op [] _ = _ |- _ => apply create_write_inv in E as (-> & Hod & _) end.
  match goal with E : select_aes_key_with_backend _ _ _ _ _ = (Ok ?k, ?s2) |- _ =>
    rename k into key; rename s2 into s_key; apply select_encrypt_key in E as [Hkey Hskey]; [|done] end.
  match goal with E : start_envelope _ _ _ = (Ok ?h, _) |- _ =>
    rename h into hb; apply (start_envelope_ok _ _ _ _ _ _ He) in E as (Hhb & -> & Hae & Hed) end.
  assert (s_key !! op = Some (File []) ∧ ∀ q, q ≠ op → ar_key_out a ≠ Some q → s_key !! q = s !! q)
    as [Hop' Hq'].
  { destruct Hskey as [->|(p & Hp & -> & _)].
    - split; [|intros]; by simplify_map_eq.
    - assert (p ≠ op) by congruence. split; [|intros q ??; assert (p ≠ q) by congruence]; by simplify_map_eq. }
  match goal with E : (Ok (input ?src _ _ _ _), _) = (Ok ?x, _) |- _ =>
    rename src into src0; destruct x as [st [r|]]; injection E as Hin <-; [|inv_io; done] end.
  inv_io. simplify_eq. match type of Hin with _ = (_, Some (Ok ?u)) => destruct u end.
  match goal with E : write_open op _ _ = _ |- _ =>
    rewrite write_open_new in E by (by rewrite lookup_insert_ne); injection E as _ <- end.
  match goal with E : write_open ep _ _ = _ |- _ =>
    rewrite write_open_new in E by (by rewrite lookup_insert_ne, lookup_insert_eq); injection E as _ <- end.
  exists src0, key, hb, s_key, st. cbn zeta. split_and!; done.
Qed.

(** The files such a run leaves *)
Lemma run_files (op ep : path) (o e : bytes) (s_key : fs) :
  op ≠ ep → s_key !! op = Some (File []) → ancestor_error ep s_key = None → s_key !! ep ≠ Some Dir →
  let s1 := <[ep := File e]> (<[op := File o]> (<[ep := File []]> s_key)) in
  s1 !! ep = Some (File e) ∧ ancestor_error ep s1 = None ∧ s1 !! op = Some (File o).
Proof.
  intros Hoe Hop Hae Hed. cbn zeta. split; [by rewrite lookup_insert_eq|].
  split; [|by rewrite lookup_insert_ne, lookup_insert_eq by done].
  apply ancestor_error_insert_file; [|by rewrite lookup_insert_ne, lookup_insert_eq].
  apply ancestor_error_insert_file; [|by rewrite lookup_insert_ne, Hop].
  by apply ancestor_error_insert_file.
Qed.

Lemma encrypt_file_with (kf : bool) (a : Args) (env : StreamEnv) (s s1 : fs) (p : N * N) :
  encrypt_file kf a env s = (Ok p, s1) → encrypt_with kf (file_input a env) a env s = (Ok (Some p), s1).
Proof.
  unfold encrypt_file. intros ([q|] & s2 & Hrun & [Hr ->]%io_lift_ok)%io_bind_ok; [|done].
  by apply Ok_inj in Hr as ->.
Qed.
Lemma file_input_ok a env src key fh st st' r s :
  file_input a env src key fh st s = (st', Some r) → encrypt_input a env src key fh st s = (st', r).
Proof. unfold file_input. destruct (encrypt_input _ _ _ _ _ _ _). by intros [= -> ->]. Qed.

(** The input of a run that succeeded is a file: audio is not built in. *)
Lemma encrypt_input_ok (a : Args) (env : StreamEnv) (src : InputSource) (key : bytes) (fh : FileHeader)
    (st st' : EncryptState) (s : fs) (ip : path) :
  (0 < ar_chunk a)%N → ar_input a = Some ip → input_source a = Ok src →
  encrypt_input a env src key fh st s = (st', Ok tt) →
  src = InputFile ip ∧ ∃ fuel,
    encrypt_loop a env key fh (determine_data_type (InputFile ip) a) fuel 0 st (opened_content ip s)
    = (st', Some (Ok tt)).
Proof.
  intros Hc Hi Hsrc Hin. assert (src = InputFile ip) as ->.
  { unfold input_source in Hsrc. rewrite Hi in Hsrc. destruct (ar_live_capture a); inv_ok; [|congruence].
    cbn in Hin. congruence. }
  split; [done|]. unfold encrypt_input in Hin. case_match; [|congruence].
  exists (encrypt_fuel (opened_content ip s)). destruct (opened_content ip s) as [content|].
  - destruct (encrypt_loop_total a env key fh (determine_data_type (InputFile ip) a)
      (encrypt_fuel (Some content)) 0 st content) as (st1 & r & Hloop); [done|unfold encrypt_fuel; simpl; lia|].
    rewrite Hloop in Hin |- *. cbn in Hin. by simplify_eq.
  - unfold encrypt_fuel in *. cbn [default length encrypt_loop] in *. destruct (time_is_up a env 0); cbn in Hin; congruence.
Qed.

Lemma encrypt_file_ok (kf : bool) (a : Args) (env : StreamEnv) (s s1 : fs) (n_in n_out : N)
    (ip op ep : path) (content : bytes) :
  wf_stream_env env → separate_files a ip op ep → s !! ip = Some (File content) →
  encrypt_file kf a env s = (Ok (n_in, n_out), s1) →
  ∃ key hb cs bs tail,
    let fh := stream_header_of a env in
    parse_key_hex (session_key_hex a env) = Ok key
    ∧ session_header fh ∧ fh_chunk_size fh = ar_chunk a
    ∧ write_stream_header (header_of fh) [] = Ok hb
    ∧ stream_of key (se_signing env) fh (determine_data_type (InputFile ip) a) 1 cs bs
    ∧ content = concat cs ++ tail ∧ (ar_max_duration a = 0%N → tail = [])
    ∧ n_in = len_N (concat cs) ∧ n_out = len_N (concat cs)
    ∧ s1 !! ep = Some (File (hb ++ concat bs)) ∧ ancestor_error ep s1 = None
    ∧ s1 !! op = Some (File (if ar_no_plaintext a then [] else concat cs)).
Proof.
  intros Hwf [Hi Ho He (Hio & Hie & Hoe) (Hki & Hko & Hke)] Hip Hrun.
  apply encrypt_file_with in Hrun.
  destruct (encrypt_with_steps _ _ _ _ _ _ _ _ _ _ Hwf Ho He Hoe Hko Hrun) as
    (src & key & hb & s_key & st & Hc & Hsrc & Hkey & Hq & Hop & Hhb & Hae & Hed & Hin%file_input_ok & -> & -> & ->).
  destruct (stream_header_session a env Hwf Hc) as [Hsess Hcs].
  apply (encrypt_input_ok _ _ _ _ _ _ _ _ ip) in Hin as (-> & fuel & Hloop); [|lia|done|done].
  unfold opened_content in Hloop. rewrite lookup_insert_ne, Hq, Hip in Hloop by done.
  apply (encrypt_loop_stream _ _ _ _ _ ep) in Hloop as (cs & bs & tail & Hr & Ht & Hs & Hev & Hout & Hi' & Ho');
    [|done|lia|done].
  cbn in Hs, Hev, Hout, Hi', Ho'.
  exists key, hb, cs, bs, tail. cbn zeta.
  destruct (run_files op ep (es_out st) (es_envelope st) s_key Hoe Hop Hae Hed) as (He1 & He2 & He3).
  split_and!; try done; [by rewrite He1, Hev|]. rewrite He3, Hout. by destruct (ar_no_plaintext a).
Qed.

(** What [decrypt_envelope] does with the content of its input. *)
Lemma decrypt_envelope_run (kf : bool) (d : Args) (env : StreamEnv) (kh key r w : bytes) (ep dp : path)
    (s : fs) (res : result CliError (option DataType)) :
  ar_key_hex d = Some kh → parse_key_hex kh = Ok key →
  ar_input d = Some ep → ar_out d = Some dp → dp ≠ ep →
  s !! ep = Some (File r) → ancestor_error ep s = None →
  ancestor_error dp s = None → s !! dp ≠ Some Dir → decrypt_stream key r = (w, res) →
  decrypt_envelope kf d env s =
    (match res with Ok dt => Ok (dt, len_N w) | Err e => Err e end, <[dp := File w]> s).
Proof.
  intros Hk Hkey Hi Ho Hne Hep Hae Had Hdd Hd.
  unfold decrypt_envelope, select_aes_key_with_backend, mbind, io_bind, io_lift, io_read, io_context.
  rewrite Hk, Hkey, Hi, Ho. cbn [ok_or]. unfold open_file at 1. rewrite Hae, Hep.
  cbn [mbind option_bind ok_or map_err]. unfold io_map_err at 1. rewrite create_write_new by done.
  cbn [map_err]. unfold opened_content. rewrite lookup_insert_ne, Hep by done. cbn [ok_or].
  rewrite Hd. unfold io_map_err. rewrite write_open_new by (by rewrite lookup_insert_eq). cbn [map_err].
  rewrite insert_insert_eq. by destruct res.
Qed.

(** Decrypting an envelope that encryption wrote *)
Lemma decrypt_written_envelope (kf : bool) (a d : Args) (env env' : StreamEnv) (s : fs) (ep dp : path)
    (dt : DataType) (key hb : bytes) (cs bs : list bytes) :
  parse_key_hex (session_key_hex a env) = Ok key → session_header (stream_header_of a env) →
  fh_chunk_size (stream_header_of a env) = ar_chunk a →
  write_stream_header (header_of (stream_header_of a env)) [] = Ok hb →
  stream_of key (se_signing env) (stream_header_of a env) dt 1 cs bs →
  s !! ep = Some (File (hb ++ concat bs)) → ancestor_error ep s = None →
  ar_key_hex d = Some (session_key_hex a env) → ar_input d = Some ep → ar_out d = Some dp →
  dp ≠ ep → ancestor_error dp s = None → s !! dp ≠ Some Dir →
  if (ar_chunk a <=? MAX_CHUNK_SIZE)%N && (N.of_nat (length cs) <=? MAX_RECORDS_PER_STREAM)%N
     && (len_N (concat cs) <=? MAX_STREAM_SIZE_BYTES)%N
  then decrypt_envelope kf d env' s = (Ok (reported_type dt cs, len_N (concat cs)), <[dp := File (concat cs)]> s)
  else ∃ m s2, decrypt_envelope kf d env' s = (Err m, s2).
Proof.
  intros Hkey Hsess Hcs Hhb Hs Hep Hae Hkh Hi Ho Hne Had Hdd.
  pose proof (decrypt_stream_written key _ _ _ _ _ _ [] Hsess Hhb Hs record_read_nil) as Hd.
  rewrite app_nil_r in Hd. unfold within_limits, all_fit in Hd. rewrite Hcs in Hd.
  cbn [decrypt_start ds_record_count ds_stream_size] in Hd. rewrite !N.add_0_l, andb_assoc in Hd.
  case_match.
  - by rewrite (decrypt_envelope_run _ _ _ _ _ _ _ _ _ _ _ Hkh Hkey Hi Ho Hne Hep Hae Had Hdd Hd).
  - destruct Hd as (w & e & Hd & _). exists e, (<[dp := File w]> s).
    by rewrite (decrypt_envelope_run _ _ _ _ _ _ _ _ _ _ _ Hkh Hkey Hi Ho Hne Hep Hae Had Hdd Hd).
Qed.
End StreamLemmas.
