(* ===== verification/Audio.v ===== *)
(** * Live audio

    crates/core/src/audio.rs in a build with the audio feature, and the audio reader of
    crates/cli/src/main.rs: the callback of the device cuts samples into chunks, a channel carries
    them, and the encryption of [sealedge --live-capture] reads them.

    A sample is an f32, kept as its 32 bits.  The cpal library is a parameter; the callbacks that
    have run before each poll of the channel are an argument. *)

From S2P Require Import Prelude External Utf8 FileSystem Format Backends VerifyChronicle Stream.

(** ** Configuration and chunks *)

Record AudioConfig := mkAudioConfig {
  au_device_name : option bytes;
  au_sample_rate : N; (* u32 *)
  au_channels : N; (* u16 *)
  au_chunk_duration_ms : N; (* u64 *)
  au_buffer_size : N; (* usize *)
}.
Definition audio_config_default : AudioConfig := mkAudioConfig None 44100 1 1000 8192.

Record AudioChunk := mkAudioChunk {
  ac_data : list N; (* Vec<f32> *)
  ac_timestamp : N; (* Instant *)
  ac_sample_rate : N; (* u32 *)
  ac_channels : N; (* u16 *)
  ac_sequence : N; (* u64 *)
}.

Definition samples_to_bytes (l : list N) : bytes := concat (le_bytes 4 <$> l).
Definition audio_to_bytes (c : AudioChunk) : bytes := samples_to_bytes (ac_data c).

(** [bytes.as_chunks::<4>().0]: what is left over is dropped. *)
Fixpoint samples_of_bytes (b : bytes) : list N :=
  match b with
  | b0 :: b1 :: b2 :: b3 :: r => of_le_bytes [b0; b1; b2; b3] :: samples_of_bytes r
  | _ => []
  end.
Definition audio_from_bytes (now : N) (b : bytes) (sample_rate channels sequence : N) : result bytes AudioChunk :=
  ensure (N.of_nat (length b) mod 4 =? 0)%N (lit "Invalid byte length for f32 samples") ≫= λ _,
  Ok (mkAudioChunk (samples_of_bytes b) now sample_rate channels sequence).

(** A division by zero is a panic, [None]. *)
Definition duration_ms (c : AudioChunk) : option N :=
  let d := (ac_sample_rate c * ac_channels c)%N in
  if (d =? 0)%N then None else Some (as_u64 (N.of_nat (length (ac_data c)) * 1000) / d)%N.

(** ** The host: cpal *)

Inductive SampleFormat := SfI8 | SfI16 | SfU8 | SfU16 | SfF32 | SfOther (debug : bytes).
Record SupportedConfig := mkSupportedConfig {
  sc_channels : N;
  sc_min_sample_rate : N;
  sc_max_sample_rate : N;
  sc_sample_format : SampleFormat;
}.
Class AudioHost := {
  device : Type;
  input_devices : result bytes (list device);
  default_input_device : option device;
  device_name : device → result bytes bytes;
  supported_input_configs : device → result bytes (list SupportedConfig);
  build_input_stream (d : device) (channels sample_rate : N) : result bytes unit;
  stream_play : result bytes unit;
  stream_pause : result bytes unit;
  sample_to_f32 : SampleFormat → Z → option N; (* ToPrimitive::to_f32 *)
}.

(** ** Capture *)

(** A stream with what its callback owns.  [cs_connected]: its sender feeds the current
    channel. *)
Record CaptureStream := mkCaptureStream {
  cs_format : SampleFormat;
  cs_chunk_samples : N; (* u64 *)
  cs_buffer : list N; (* Vec<f32> *)
  cs_connected : bool;
  cs_playing : bool;
}.

(** One run of the callback: the time and the samples *)
Record Batch := mkBatch {
  ba_now : N;
  ba_samples : list Z;
}.

Section Capture.
Context `{AudioHost}.

Record AudioCapture := mkAudioCapture {
  cp_config : AudioConfig;
  cp_device : option device;
  cp_stream : option CaptureStream;
  cp_channel : option (list AudioChunk); (* what was sent and not received *)
  cp_sequence_counter : N; (* u64 *)
}.

Definition audio_capture_new (c : AudioConfig) : AudioCapture := mkAudioCapture c None None None 0.

Definition list_devices : result bytes (list bytes) :=
  devices ← input_devices;
  Ok (omap (M:=list) (λ d, result_ok (device_name d)) devices).

Definition select_device (c : AudioConfig) : result bytes device :=
  match au_device_name c with
  | Some name =>
      devices ← input_devices;
      ok_or (List.find (λ d, match device_name d with Ok n => bool_decide (n = name) | Err _ => false end) devices)
        (lit "Device '" ++ name ++ lit "' not found")
  | None => ok_or default_input_device (lit "No default input device available")
  end.
Definition input_config_fits (c : AudioConfig) (s : SupportedConfig) : bool :=
  ((sc_channels s =? au_channels c) && (sc_min_sample_rate s <=? au_sample_rate c)
   && (au_sample_rate c <=? sc_max_sample_rate s))%N.

Definition chunk_duration_samples (c : AudioConfig) : N :=
  (as_u64 (au_sample_rate c * au_chunk_duration_ms c) / 1000)%N.

Definition create_stream (c : AudioConfig) (d : device) (f : SampleFormat) : result bytes CaptureStream :=
  build_input_stream d (au_channels c) (au_sample_rate c) ≫= λ _,
  Ok (mkCaptureStream f (chunk_duration_samples c) [] true false).

(** The stream for a format; other formats are refused. *)
Definition stream_for (c : AudioConfig) (d : device) (f : SampleFormat) : result bytes CaptureStream :=
  match f with
  | SfOther debug => Err (lit "Unsupported sample format: " ++ debug)
  | _ => create_stream c d f
  end.

Definition set_connected (b : bool) (s : CaptureStream) : CaptureStream :=
  mkCaptureStream (cs_format s) (cs_chunk_samples s) (cs_buffer s) b (cs_playing s).

(** The channel is replaced before the stream is built. *)
Definition initialize (a : AudioCapture) : AudioCapture * result bytes unit :=
  let c := cp_config a in
  match
    d ← select_device c;
    _ ← device_name d;
    configs ← supported_input_configs d;
    sc ← ok_or (List.find (input_config_fits c) configs) (lit "No supported configuration found");
    Ok (d, sc_sample_format sc)
  with
  | Err e => (a, Err e)
  | Ok (d, f) =>
      match stream_for c d f with
      | Ok s => (mkAudioCapture c (Some d) (Some s) (Some []) (cp_sequence_counter a), Ok tt)
      | Err e =>
          (mkAudioCapture c (cp_device a) (set_connected false <$> cp_stream a) (Some [])
             (cp_sequence_counter a), Err e)
      end
  end.

(** The callback of the stream: at most one chunk a run *)
Definition on_data (a : AudioCapture) (b : Batch) : AudioCapture :=
  match cp_stream a with
  | None => a
  | Some s =>
      let buffer := cs_buffer s ++ omap (sample_to_f32 (cs_format s)) (ba_samples b) in
      let n := N.to_nat (cs_chunk_samples s) in
      let stream buffer := Some (mkCaptureStream (cs_format s) (cs_chunk_samples s) buffer (cs_connected s) (cs_playing s)) in
      if (n <=? length buffer)%nat then
        let sequence := wrapping_add64 (cp_sequence_counter a) 1 in
        let chunk := mkAudioChunk (take n buffer) (ba_now b) (au_sample_rate (cp_config a))
          (au_channels (cp_config a)) sequence in
        mkAudioCapture (cp_config a) (cp_device a) (stream (drop n buffer))
          (if cs_connected s then (λ q, q ++ [chunk]) <$> cp_channel a else cp_channel a) sequence
      else
        mkAudioCapture (cp_config a) (cp_device a) (stream buffer) (cp_channel a) (cp_sequence_counter a)
  end.

Definition set_playing (b : bool) (a : AudioCapture) : AudioCapture :=
  mkAudioCapture (cp_config a) (cp_device a)
    ((λ s, mkCaptureStream (cs_format s) (cs_chunk_samples s) (cs_buffer s) (cs_connected s) b) <$> cp_stream a)
    (cp_channel a) (cp_sequence_counter a).

Definition capture_start (a : AudioCapture) : AudioCapture * result bytes unit :=
  match cp_stream a with
  | None => (a, Err (lit "Audio capture not initialized"))
  | Some _ => match stream_play with Ok _ => (set_playing true a, Ok tt) | Err e => (a, Err e) end
  end.
Definition capture_stop (a : AudioCapture) : AudioCapture * result bytes unit :=
  match cp_stream a with
  | None => (a, Ok tt)
  | Some _ => match stream_pause with Ok _ => (set_playing false a, Ok tt) | Err e => (a, Err e) end
  end.

Definition set_channel (q : list AudioChunk) (a : AudioCapture) : AudioCapture :=
  mkAudioCapture (cp_config a) (cp_device a) (cp_stream a) (Some q) (cp_sequence_counter a).

(** The capture holds a sender of the channel itself: the channel is never disconnected. *)
Definition try_next_chunk (a : AudioCapture) : result bytes (option AudioChunk * AudioCapture) :=
  q ← ok_or (cp_channel a) (lit "Audio capture not initialized");
  Ok (match q with
      | [] => (None, a)
      | c :: q' => (Some c, set_channel q' a)
      end).
(** [None]: waits *)
Definition next_chunk (a : AudioCapture) : option (result bytes (AudioChunk * AudioCapture)) :=
  match cp_channel a with
  | None => Some (Err (lit "Audio capture not initialized"))
  | Some [] => None
  | Some (c :: q') => Some (Ok (c, set_channel q' a))
  end.

(** ** The reader of the command line *)

Record AudioInputReader := mkAudioInputReader {
  rd_capture : AudioCapture;
  rd_started : bool;
}.
Definition audio_reader_new (a : AudioCapture) : result bytes AudioInputReader :=
  match initialize a with
  | (a', Ok _) => Ok (mkAudioInputReader a' false)
  | (_, Err e) => Err e
  end.

(** [sched]: the callbacks that have run before each poll.  [None]: no poll finds a chunk, and
    the reader keeps polling. *)
Fixpoint poll_chunk (size : N) (sched : list (list Batch)) (a : AudioCapture)
    : option (result bytes (bytes * AudioCapture * list (list Batch))) :=
  match sched with
  | [] => None
  | g :: sched' =>
      match try_next_chunk (foldl on_data a g) with
      | Err e => Some (Err e)
      | Ok (Some c, a') => Some (Ok (take_N size (audio_to_bytes c), a', sched'))
      | Ok (None, a') => poll_chunk size sched' a'
      end
  end.

Definition audio_read_chunk (size : N) (sched : list (list Batch)) (r : AudioInputReader)
    : option (result bytes (bytes * AudioInputReader * list (list Batch))) :=
  match (if rd_started r then Ok (rd_capture r)
         else match capture_start (rd_capture r) with (a, Ok _) => Ok a | (_, Err e) => Err e end) with
  | Err e => Some (Err e)
  | Ok a =>
      match poll_chunk size sched a with
      | None => None
      | Some (Err e) => Some (Err e)
      | Some (Ok (data, a', sched')) => Some (Ok (data, mkAudioInputReader a' true, sched'))
      end
  end.
End Capture.
Arguments AudioCapture : clear implicits.
Arguments AudioCapture {_}.
Arguments AudioInputReader : clear implicits.
Arguments AudioInputReader {_}.

(** ** Encryption of a capture *)

Section Live.
Context `{Blake3} `{Hex} `{Ed25519} `{Aead} `{Kdf} `{OsKeyring} `{UnicodeCase}
  `{Bincode StreamHeader} `{Bincode StreamHeaderV1} `{Bincode StreamManifest} `{RecordCodec} `{AudioHost}.

(** The encryption loop with a capture as its input.  [None]: the run waits for a chunk, or
    the fuel is out. *)
Fixpoint live_loop (a : Args) (env : StreamEnv) (key : bytes) (fh : FileHeader) (dt : DataType)
    (fuel k : nat) (st : EncryptState) (r : AudioInputReader) (sched : list (list Batch))
    : EncryptState * option (result CliError unit) :=
  match fuel with
  | O => (st, None)
  | S f =>
      if time_is_up a env k then (st, Some (Ok tt))
      else
        match audio_read_chunk (ar_chunk a) sched r with
        | None => (st, None)
        | Some (Err e) => (st, Some (Err (Anyhow e)))
        | Some (Ok (data, r', sched')) =>
            if is_empty data then
              if (0 <? ar_max_duration a)%N then live_loop a env key fh dt f (S k) st r' sched'
              else (st, Some (Ok tt))
            else
              match encrypt_step a env key fh dt k st data with
              | (st', Ok _) => live_loop a env key fh dt f (S k) st' r' sched'
              | (st', Err e) => (st', Some (Err e))
              end
        end
  end.

Definition live_config (a : Args) (audio_device : option bytes) (chunk_duration_ms : N) : AudioConfig :=
  mkAudioConfig audio_device (ar_sample_rate a) (ar_channels a) chunk_duration_ms 8192.

(** The input of [main] in a build with audio *)
Definition live_input (a : Args) (env : StreamEnv) (audio_device : option bytes) (chunk_duration_ms : N)
    (sched : list (list Batch)) (src : InputSource) (key : bytes) (fh : FileHeader) (st : EncryptState) (s : fs)
    : EncryptState * option (result CliError unit) :=
  match src with
  | InputFile _ => let '(st', r) := encrypt_input a env src key fh st s in (st', Some r)
  | LiveAudio =>
      match audio_reader_new (audio_capture_new (live_config a audio_device chunk_duration_ms)) with
      | Err e => (st, Some (Err (Anyhow e)))
      | Ok r => live_loop a env key fh (determine_data_type src a) (S (length sched)) 0 st r sched
      end
  end.

(** The encrypt mode of [main] in a build with audio.  [None]: the run waits for the
    device. *)
Definition encrypt_live (kf : bool) (a : Args) (env : StreamEnv) (audio_device : option bytes)
    (chunk_duration_ms : N) (sched : list (list Batch)) : io CliError (option (N * N)) :=
  encrypt_with kf (live_input a env audio_device chunk_duration_ms sched) a env.
End Live.
