(* ===== verification/YubiKey.v ===== *)
(** * The YubiKey backend

    crates/core/src/backends/yubikey.rs: a key in the PIV slots of a device behind a PIN, with a
    count of the failed PIN attempts of its own.  The device (the yubikey crate), the certificates
    of rcgen and the DER of spki are parameters; the mutexes make the calls one after the other,
    so that the backend is a state that the calls change. *)

From S2P Require Import Prelude External FileSystem Backends Hsm Stream.

(** ** Parameters *)

Inductive SlotId := Authentication | Signature | KeyManagement | CardAuthentication.
Inductive AlgorithmId := EccP256 | Rsa2048Id.

Global Instance slot_eq_dec : EqDecision SlotId.
Proof. solve_decision. Defined.

(** The yubikey crate: an open device, its calls, and the texts of its errors *)
Class YubiKeyDevice := {
  device : Type;
  yk_verify_pin : bytes → device → result bytes unit * device;
  yk_sign_data : bytes → AlgorithmId → SlotId → device → result bytes bytes * device;
  yk_read_certificate : SlotId → device → result bytes bytes * device;
}.

(** spki: the key info in a DER document, its encoding, and the raw key of an encoded one; rcgen: what is signed for
    a self-signed certificate for a name, and the certificate with the signature *)
Class X509 := {
  spki_ref : Type;
  spki_try_from : bytes → result bytes spki_ref;
  spki_to_der : spki_ref → result bytes bytes;
  spki_raw_key : bytes → result bytes bytes;
  rcgen_remote_ok : bytes → result bytes unit;
  rcgen_to_sign : bytes → bytes → bytes;
  rcgen_certificate : bytes → bytes → bytes;
}.

(** ** Configuration and state *)

Record YubiKeyConfig := mkYubiKeyConfig {
  yc_pin : option bytes;
  yc_default_slot : bytes;
  yc_verbose : bool;
  yc_max_pin_retries : N; (* u8 *)
}.
Definition yubikey_config_default : YubiKeyConfig := mkYubiKeyConfig None (lit "9c") false 3.

Record YubiKeyConfigBuilder := mkYubiKeyConfigBuilder {
  yb_pin : option bytes;
  yb_default_slot : option bytes;
  yb_verbose : bool;
  yb_max_pin_retries : option N;
}.
Definition yubikey_config_build (b : YubiKeyConfigBuilder) : YubiKeyConfig :=
  mkYubiKeyConfig (yb_pin b) (default (lit "9c") (yb_default_slot b)) (yb_verbose b)
    (default 3%N (yb_max_pin_retries b)).

Section YubiKey.
Context `{YubiKeyDevice} `{X509} `{UnicodeCase} `{Sha2} `{OperationDebug}.

Record YubiKeyBackend := mkYubiKeyBackend {
  yk_config : YubiKeyConfig;
  yk_device : option device;
  pin_retry_count : N; (* u8 *)
}.

Definition set_device (d : device) (b : YubiKeyBackend) : YubiKeyBackend :=
  mkYubiKeyBackend (yk_config b) (Some d) (pin_retry_count b).
Definition set_retry_count (n : N) (b : YubiKeyBackend) : YubiKeyBackend :=
  mkYubiKeyBackend (yk_config b) (yk_device b) n.

(** [contains] on the text of an error decides its kind. *)
Definition yubikey_error_to_backend (msg : bytes) : BackendError :=
  HardwareError (
    if contains (lit "not found") msg || contains (lit "No such") msg then
      lit "YubiKey device not found. Insert device and retry."
    else if contains (lit "authentication") msg || contains (lit "PIN") msg then
      lit "PIN verification failed: " ++ msg
    else lit "YubiKey operation failed: " ++ msg).

(** [opened] is the result of [YubiKey::open]. *)
Definition yubikey_with_config (config : YubiKeyConfig) (opened : result bytes device) : YubiKeyBackend :=
  mkYubiKeyBackend config (result_ok opened) 0.

(** ** Calls, which change the backend *)

Definition yk (E A : Type) : Type := YubiKeyBackend → result E A * YubiKeyBackend.

Global Instance yk_ret E : MRet (yk E) := λ A a b, (Ok a, b).
Global Instance yk_bind E : MBind (yk E) := λ A B f m b,
  match m b with
  | (Ok a, b') => f a b'
  | (Err e, b') => (Err e, b')
  end.
Definition yk_lift {E A} (r : result E A) : yk E A := λ b, (r, b).

(** A call of the device; [absent] is the error when none is connected. *)
Definition on_device {E A} (absent : E) (err : bytes → E) (call : device → result bytes A * device) : yk E A :=
  λ b, match yk_device b with
       | Some d => let '(r, d') := call d in (map_err err r, set_device d' b)
       | None => (Err absent, b)
       end.

Definition not_connected : BackendError := HardwareError (lit "YubiKey not connected").

Definition ensure_connected : yk BackendError unit := λ b,
  match yk_device b with
  | Some _ => (Ok tt, b)
  | None => (Err (HardwareError (lit "YubiKey not connected. Insert device and retry.")), b)
  end.

Definition parse_slot (key_id : bytes) : result BackendError SlotId :=
  let id := to_lowercase key_id in
  if bool_decide (id = lit "9a") then Ok Authentication
  else if bool_decide (id = lit "9c") then Ok Signature
  else if bool_decide (id = lit "9d") then Ok KeyManagement
  else if bool_decide (id = lit "9e") then Ok CardAuthentication
  else Err (KeyNotFound (lit "Invalid PIV slot '" ++ key_id ++ lit "'. Valid slots: 9a, 9c, 9d, 9e")).

Definition verify_pin : yk BackendError unit := λ b,
  match yc_pin (yk_config b), yk_device b with
  | None, _ => (Err (HardwareError (lit "PIN not configured. Set YubiKeyConfig.pin before operations.")), b)
  | _, None => (Err not_connected, b)
  | Some pin, Some d =>
      let max := yc_max_pin_retries (yk_config b) in
      if (max <=? pin_retry_count b)%N then
        (Err (HardwareError (lit "PIN retry limit reached (" ++ fmt_N max
           ++ lit " attempts). Reset required to prevent lockout.")), b)
      else match yk_verify_pin pin d with
           | (Ok _, d') => (Ok tt, set_retry_count 0 (set_device d' b))
           | (Err e, d') =>
               let n := (pin_retry_count b + 1)%N in
               (Err (HardwareError (lit "PIN verification failed (attempt " ++ fmt_N n ++ lit "/" ++ fmt_N max
                  ++ lit "): " ++ e)), set_retry_count n (set_device d' b))
           end
  end.

Definition algorithm_id (a : USignatureAlgorithm) : result BackendError AlgorithmId :=
  match a with
  | USigEcdsaP256 => Ok EccP256
  | USigRsaPkcs1v15 | USigRsaPss => Ok Rsa2048Id
  | USigEd25519 => Err (UnsupportedOperation (lit "Ed25519 not natively supported by YubiKey PIV hardware. Use ECDSA P-256 for hardware signing or Software HSM backend for Ed25519."))
  end.

Definition piv_sign (slot : SlotId) (data : bytes) (algorithm : USignatureAlgorithm) : yk BackendError bytes :=
  ensure_connected ≫= λ _,
  let digest := sha2_digest USha256 data in
  verify_pin ≫= λ _,
  alg_id ← yk_lift (algorithm_id algorithm);
  on_device not_connected yubikey_error_to_backend (yk_sign_data digest alg_id slot).

Definition slot_debug (s : SlotId) : bytes :=
  lit (match s with Authentication => "Authentication" | Signature => "Signature"
       | KeyManagement => "KeyManagement" | CardAuthentication => "CardAuthentication" end).

Definition piv_get_public_key (slot : SlotId) : yk BackendError bytes :=
  ensure_connected ≫= λ _,
  cert ← on_device not_connected
    (λ e, if contains (lit "not found") e
          then KeyNotFound (lit "No certificate found in slot " ++ slot_debug slot)
          else yubikey_error_to_backend e) (yk_read_certificate slot);
  spki ← yk_lift (map_err (λ e, OperationFailed (lit "Failed to parse SPKI: " ++ e)) (spki_try_from cert));
  yk_lift (map_err (λ e, OperationFailed (lit "Failed to encode SPKI: " ++ e)) (spki_to_der spki)).

Definition piv_generate : result BackendError bytes :=
  Err (UnsupportedOperation (lit "Key generation is not supported by Sealedge. Use the YubiKey Manager CLI instead: `ykman piv keys generate -a ECCP256 9a pubkey.pem`")).
Definition piv_attest : result BackendError bytes :=
  Err (UnsupportedOperation (lit "Hardware attestation not available in current yubikey crate version. Requires 'untested' feature or future API update.")).

(** The slots that have a certificate *)
Fixpoint populated_slots (slots : list SlotId) (d : device) : list SlotId * device :=
  match slots with
  | [] => ([], d)
  | s :: slots' =>
      let '(r, d1) := yk_read_certificate s d in
      let '(l, d2) := populated_slots slots' d1 in
      (if is_ok r then s :: l else l, d2)
  end.
Definition enumerate_slots : yk BackendError (list SlotId) :=
  ensure_connected ≫= λ _,
  on_device not_connected yubikey_error_to_backend (λ d,
    let '(l, d') := populated_slots [Authentication; Signature; KeyManagement; CardAuthentication] d in
    (Ok l, d')).

(** ** The interface *)

Definition hash_debug (a : UHashAlgorithm) : bytes :=
  lit (match a with USha256 => "Sha256" | USha384 => "Sha384" | USha512 => "Sha512" end).

Definition yubikey_perform (key_id : bytes) (op : CryptoOperation) : yk BackendError CryptoResult :=
  match op with
  | OpSign data algorithm =>
      slot ← yk_lift (parse_slot key_id);
      signature ← piv_sign slot data algorithm;
      yk_lift (Ok (Signed signature))
  | OpGetPublicKey =>
      slot ← yk_lift (parse_slot key_id);
      key ← piv_get_public_key slot;
      yk_lift (Ok (PublicKey key))
  | OpGenerateKeyPair _ =>
      yk_lift (parse_slot key_id) ≫= λ _,
      key ← yk_lift piv_generate;
      yk_lift (Ok (KeyPair key key_id))
  | OpAttest _ =>
      yk_lift (parse_slot key_id) ≫= λ _,
      proof ← yk_lift piv_attest;
      yk_lift (Ok (AttestationProof proof))
  | OpHash data USha256 => yk_lift (Ok (HashResult (sha2_digest USha256 data)))
  | OpHash _ a => yk_lift (Err (UnsupportedOperation (lit "Hash algorithm " ++ hash_debug a
      ++ lit " not supported by YubiKey backend")))
  | _ => yk_lift (Err (UnsupportedOperation (lit "Operation " ++ op_debug op
      ++ lit " not supported by YubiKey backend")))
  end.

Definition yubikey_supports (op : CryptoOperation) : bool :=
  match op with
  | OpSign _ a => bool_decide (a ≠ USigEd25519)
  | OpGetPublicKey => true
  | OpHash _ a => bool_decide (a = USha256)
  | _ => false
  end.

Definition yubikey_capabilities : BackendCapabilities :=
  mkBackendCapabilities [] [UEcdsaP256; URsa2048] [USigEcdsaP256; USigRsaPkcs1v15; USigRsaPss] [USha256]
    true false false false (Some 2048%N).

Definition slot_name (s : SlotId) : bytes :=
  lit (match s with Authentication => "9a" | Signature => "9c" | KeyManagement => "9d"
       | CardAuthentication => "9e" end).
Definition slot_description (s : SlotId) : bytes :=
  lit (match s with Authentication => "PIV Authentication (9a)" | Signature => "PIV Digital Signature (9c)"
       | KeyManagement => "PIV Key Management (9d)" | CardAuthentication => "PIV Card Authentication (9e)" end).

(** The name of the slot is not 16 bytes long, and so becomes zeros. *)
Definition yubikey_list_keys : yk BackendError (list KeyMetadata) :=
  slots ← enumerate_slots;
  yk_lift (Ok ((λ s, mkKeyMetadata
    (if (length (slot_name s) =? 16)%nat then slot_name s else replicate 16 (byte_of_N 0))
    (slot_description s) 0 None []) <$> slots)).

(** ** Certificates *)

(** [RemoteKeyPair::sign]: the PIN goes to the device past the count of attempts. *)
Definition remote_sign (slot : SlotId) (msg : bytes) : yk unit bytes := λ b,
  (match yc_pin (yk_config b) with
   | Some pin => on_device tt (λ _, tt) (yk_verify_pin pin)
   | None => on_device tt (λ _, tt) (λ d, (Ok tt, d))
   end ≫= λ _, on_device tt (λ _, tt) (yk_sign_data (sha2_digest USha256 msg) EccP256 slot)) b.

Definition generate_certificate (rcgen_error slot_id subject : bytes) : yk BackendError bytes :=
  ensure_connected ≫= λ _,
  slot ← yk_lift (parse_slot slot_id);
  public_key_der ← piv_get_public_key slot;
  raw ← yk_lift (map_err (λ e, OperationFailed (lit "Failed to parse public key SPKI: " ++ e))
    (spki_raw_key public_key_der));
  yk_lift (map_err (λ e, OperationFailed (lit "Failed to create remote key pair: " ++ e))
    (rcgen_remote_ok raw)) ≫= λ _,
  signature ← (λ b, let '(r, b') := remote_sign slot (rcgen_to_sign raw subject) b in
    (map_err (λ _, OperationFailed (lit "Certificate generation failed: " ++ rcgen_error)) r, b'));
  yk_lift (Ok (rcgen_certificate (rcgen_to_sign raw subject) signature)).
End YubiKey.
