(* ===== verification/Client.v ===== *)
(** * The network client

    crates/core/src/bin/sealedge-client.rs: connecting with retries, the handshake, the choice
    of the key, and sending a file or test chunks over the framed or over the legacy transport,
    one acknowledgement per chunk.  Randomness, clocks, the environment and the peer are
    arguments. *)

From S2P Require Import Prelude External Utf8 FileSystem Format Envelope Auth Transport Server Hsm.
From S2P Require Import Backends VerifyChronicle Cli Wrap Stream.
From S2P Require Import Auth Server TransportCorrect Stream.

(** What a session draws and reads; [k] counts the chunks. *)
Record SendEnv := mkSendEnv {
  sn_signing : bytes; (* SigningKey::generate *)
  sn_nonce_prefix : bytes; (* 4 random bytes *)
  sn_key_id : bytes; (* 16 random bytes *)
  sn_device_id : option bytes; (* $SEALEDGE_DEVICE_ID *)
  sn_salt : option bytes; (* $SEALEDGE_SALT *)
  sn_now_ms : nat → N;
  sn_stamp : nat → option N; (* the clock of NetworkChunk::new *)
  sn_reads : nat → N; (* how much read k returns at most *)
  sn_fin : EndOfInput;
}.

Definition make_nonce (prefix : bytes) (seq : N) : bytes := prefix ++ be_bytes 8 seq.

Section Client.
Context `{FrameCodec} `{Bincode NetworkChunk} `{Blake3} `{Hex} `{Ed25519} `{Aead}
  `{!Bincode StreamManifest} `{!Bincode SignedManifest}.

Definition session_header_of (env : SendEnv) (chunk_size : N) : FileHeader :=
  mkFileHeader VERSION (aead_u8 AeadAes256Gcm) (sig_u8 SigEd25519) (hash_u8 HashBlake3)
    (kdf_u8 KdfPbkdf2Sha256) (replicate 3 (byte_of_N 0)) (sn_key_id env)
    (blake3 (default (lit "sealedge-abc123") (sn_device_id env)
             ++ default (lit "sealedge-demo-salt") (sn_salt env)))
    (sn_nonce_prefix env) (as_u32 chunk_size).

(** The header hash, the nonce prefix and the key identifier. *)
Definition build_session_header (env : SendEnv) (chunk_size : N) : bytes * bytes * bytes :=
  (blake3 (header_to_bytes (session_header_of env chunk_size)), sn_nonce_prefix env, sn_key_id env).

(** Manifest, signature, associated data, encryption and the chunk of the plaintext [pt]. *)
Definition client_chunk (env : SendEnv) (key : bytes) (chunk_size : N) (dt : DataType) (k : nat)
    (seq : N) (pt : bytes) : result bytes NetworkChunk :=
  let '(header_hash, nonce_prefix, key_id) := build_session_header env chunk_size in
  let nonce := make_nonce nonce_prefix seq in
  let manifest := mkStreamManifest 1 (as_u64 (sn_now_ms env k)) seq header_hash (blake3 pt) key_id
    false [] dt (as_u32 (len_N pt)) in
  m_bytes ← serialize manifest;
  let sm := mkSignedManifest m_bytes (sign_manifest_with_domain (sn_signing env) m_bytes)
    (ed_public (sn_signing env)) in
  let aad := build_aad header_hash seq nonce (blake3 m_bytes) (ma_chunk_len manifest) in
  ciphertext ← ok_or (aead_encrypt Aes256Gcm key nonce aad pt) (lit "AES-GCM encrypt failed");
  sm_bytes ← serialize sm;
  Ok (chunk_new seq ciphertext sm_bytes nonce (sn_stamp env k)).

(** ** Sending a chunk and reading its acknowledgement *)

(** The context of a read that timed out or failed.  A write that a peer stalls until the timeout
    counts as one that fails. *)
Definition ack_failed (env : SendEnv) : bytes :=
  match sn_fin env with Silent => lit "ACK read timeout" | Closed => lit "Failed to read ACK" end.

Definition send_chunk_hardened (chunk : NetworkChunk) : handshake stream unit := λ c,
  match in_context "serialize NetworkChunk" (serialize chunk) with
  | Err e => (Err e, c)
  | Ok serialized =>
      handshake_context "Failed to send chunk via framed transport" (framed_send MAX_FRAME serialized) c
  end.

Definition read_ack_hardened (env : SendEnv) : handshake stream bytes := λ c,
  match framed_next MAX_FRAME (sn_fin env) c with
  | (FrameRead frame, c) =>
      ((ensure (utf8_valid frame) (lit "Failed to read ACK") ≫= λ _, Ok frame), c)
  | (TimedOut, c) => (Err (lit "ACK read timeout"), c)
  | (StreamEnded, c) | (ReadFailed _, c) => (Err (lit "Failed to read ACK"), c)
  end.

Definition exchange_hardened (env : SendEnv) (chunk : NetworkChunk) : handshake stream bytes :=
  handshake_context "Failed to send chunk" (send_chunk_hardened chunk) ≫= λ _, read_ack_hardened env.

(** The legacy transport: a little-endian length and the bytes, without a bound. *)
Definition send_chunk (chunk : NetworkChunk) : handshake stream unit := λ c,
  match in_context "serialize NetworkChunk" (serialize chunk) with
  | Err e => (Err e, c)
  | Ok serialized => write_frame serialized c
  end.

Definition read_ack (env : SendEnv) : handshake stream bytes := λ c,
  match stream_read 4 c with
  | (Err _, c) => (Err (ack_failed env), c)
  | (Ok len_bytes, c) =>
      match stream_read (N.to_nat (of_le_bytes len_bytes)) c with
      | (Err _, c) => (Err (ack_failed env), c)
      | (Ok ack_bytes, c) =>
          ((ensure (utf8_valid ack_bytes) (lit "Failed to read ACK") ≫= λ _, Ok ack_bytes), c)
      end
  end.

Definition exchange_legacy (env : SendEnv) (chunk : NetworkChunk) : handshake stream bytes :=
  handshake_context "Failed to send chunk" (send_chunk chunk) ≫= λ _, read_ack env.

(** ** Sending a file or test chunks

    The loops over an exchange; the acknowledgements are returned in order. *)

Section Loops.
Variable exchange : SendEnv → NetworkChunk → handshake stream bytes.

Definition send_one (env : SendEnv) (key : bytes) (chunk_size : N) (dt : DataType) (k : nat) (seq : N)
    (pt : bytes) : handshake stream bytes :=
  chunk ← pure_step (client_chunk env key chunk_size dt k seq pt); exchange env chunk.

(** [None]: out of fuel. *)
Fixpoint send_file_loop (env : SendEnv) (key : bytes) (chunk_size : N) (dt : DataType)
    (read_error : string) (fuel k : nat) (seq : N) (src : option bytes) (c : stream)
    : option (result bytes (list bytes)) * stream :=
  match fuel with
  | O => (None, c)
  | S f =>
      match src with
      | None => (Some (Err (lit read_error)), c)
      | Some rest =>
          let pt := read_some (sn_reads env k) chunk_size rest in
          if is_empty pt then (Some (Ok []), c)
          else
            match send_one env key chunk_size dt k seq pt c with
            | (Err e, c) => (Some (Err e), c)
            | (Ok ack, c) =>
                let '(r, c) := send_file_loop env key chunk_size dt read_error f (S k)
                  (wrapping_add64 seq 1) (Some (drop_N (len_N pt) rest)) c in
                (fmap (M:=option) (fmap (cons ack)) r, c)
            end
      end
  end.

Fixpoint send_test_loop (env : SendEnv) (key : bytes) (chunk_size : N) (dt : DataType)
    (plaintext : N → bytes) (k : nat) (seqs : list N) (c : stream) : result bytes (list bytes) * stream :=
  match seqs with
  | [] => (Ok [], c)
  | seq :: seqs =>
      match send_one env key chunk_size dt k seq (plaintext seq) c with
      | (Err e, c) => (Err e, c)
      | (Ok ack, c) =>
          let '(r, c) := send_test_loop env key chunk_size dt plaintext (S k) seqs c in
          (cons ack <$> r, c)
      end
  end.
End Loops.

Definition no_mime : DataType := DtFile None.
Definition octet_stream : DataType := DtFile (Some (lit "application/octet-stream")).

(** [while pt.len() < target]: at most 2048 bytes, ten at a time. *)
Fixpoint pad (fuel : nat) (target : N) (pt : bytes) : bytes :=
  match fuel with
  | O => pt
  | S f => if (len_N pt <? target)%N then pad f target (pt ++ lit "padding...") else pt
  end.
Definition test_plaintext (chunk_size : N) (seq : N) : bytes :=
  pad 205 (N.min chunk_size 2048) (lit "This is encrypted test chunk #" ++ fmt_N seq ++ lit ". ").

Definition seqs_to (n : N) : list N := N.of_nat <$> seq 1 (N.to_nat n).

Definition send_file (exchange : SendEnv → NetworkChunk → handshake stream bytes) (dt : DataType)
    (read_error : string) `{PathDebug} (env : SendEnv) (file_path : path) (key : bytes)
    (chunk_size : N) (s : fs) (c : stream) : result bytes (list bytes) * stream :=
  match open_file file_path s with
  | Err _ => (Err (lit "Failed to open file: " ++ path_debug file_path), c)
  | Ok _ =>
      let src := opened_content file_path s in
      let '(r, c) := send_file_loop exchange env key chunk_size dt read_error
        (encrypt_fuel src) 0 1 src c in
      (default (Err (lit "out of fuel")) r, c)
  end.

Definition send_encrypted_file_hardened `{PathDebug} :=
  send_file exchange_hardened octet_stream "Failed to read from file".
Definition send_encrypted_file `{PathDebug} := send_file exchange_legacy no_mime "file read".

Definition send_encrypted_test_chunks_hardened (env : SendEnv) (num_chunks : N) (key : bytes)
    (chunk_size : N) : handshake stream (list bytes) :=
  send_test_loop exchange_hardened env key chunk_size no_mime (test_plaintext chunk_size) 0
    (seqs_to num_chunks).
Definition send_encrypted_test_chunks (env : SendEnv) (num_chunks : N) (key : bytes)
    (chunk_size : N) : handshake stream (list bytes) :=
  send_test_loop exchange_legacy env key chunk_size no_mime (test_plaintext chunk_size) 0
    (seqs_to num_chunks).

(** ** Connecting *)

Inductive connect_failure := Refused (e : bytes) | ConnectTimeout | NoAttempt.

(** Attempts [k], [k + 1], ...: the first that succeeds, or the error of the last. *)
Fixpoint connect_attempts (attempt : nat → result connect_failure stream) (k left : nat)
    (last_error : option connect_failure) : result connect_failure stream :=
  match left with
  | O => Err (default NoAttempt last_error)
  | S l =>
      match attempt k with
      | Ok c => Ok c
      | Err e => connect_attempts attempt (S k) l (Some e)
      end
  end.
Definition connect_with_retry (attempt : nat → result connect_failure stream) (retry_attempts : N)
    : result connect_failure stream :=
  connect_attempts attempt 1 (N.to_nat retry_attempts) None.

(** ** The client *)

(** The arguments that decide what is sent; the address and the timeouts are part of the
    environment, [--verbose] and [--expect-secure-acks] only print. *)
Record ClientArgs := mkClientArgs {
  ca_file : option path;
  ca_test_chunks : option N; (* u64 *)
  ca_chunk_size : N; (* usize *)
  ca_key_hex : option bytes;
  ca_salt_hex : option bytes;
  ca_use_keyring : bool;
  ca_retry_attempts : N; (* u32 *)
  ca_hardened : bool;
  ca_client_cert : option path;
  ca_client_identity : bytes;
  ca_enable_auth : bool;
  ca_server_cert : option path;
}.

(** [serde_json::from_str::<ClientCertificate>]: the three fields of the file; the signing key
    is [#[serde(skip)]]. *)
Class ClientCertJson := client_cert_fields : bytes → result bytes (bytes * bytes * Z).

Context `{ClientCertJson} `{CertJson} `{PathDebug} `{Kdf} `{OsKeyring} `{Blake3Kdf} `{KeyAgreement}
  `{!Bincode AuthMessage} `{!Bincode AuthChallenge} `{!Bincode ClientAuthResponse}
  `{!Bincode ServerAuthConfirm} `{!Bincode (list ascii)}.

Definition client_cert_from_str (j : bytes) : result bytes ClientCertificate :=
  '(identity, public_key, created_at) ← client_cert_fields j;
  Ok (mkClientCertificate identity public_key None created_at).

Definition load_client_cert (p : path) (s : fs) : result bytes ClientCertificate :=
  let failed := lit "Failed to read client certificate from " ++ path_debug p in
  cert_data ← map_err (λ _, failed) (read_file p s);
  ensure (utf8_valid cert_data) failed ≫= λ _,
  cert ← in_context "Failed to parse client certificate JSON" (client_cert_from_str cert_data);
  ensure (bool_decide (is_Some (cc_signing_key cert)))
    (lit "Client certificate file does not contain signing key. Please regenerate the certificate.") ≫= λ _,
  Ok cert.

(** The certificate of the arguments, or a new one that is saved in the working directory. *)
Definition client_certificate (a : ClientArgs) (cwd : path) (seed : bytes) (now : Z)
    : io bytes ClientCertificate :=
  match ca_client_cert a with
  | Some p =>
      λ s, (in_context "Failed to load client certificate" (load_client_cert p s), s)
  | None =>
      cert ← io_lift (client_generate (ca_client_identity a) seed now);
      _ ← save_client_cert cert (path_join cwd (ca_client_identity a ++ lit "_client.cert"));
      mret cert
  end.

(** The handshake against the pinned certificate. *)
Definition client_session (a : ClientArgs) (env : ClientEnv) (cwd : path) (seed : bytes) (now : Z)
    (load_time : option N) (c : stream) (s : fs) : result bytes (option ClientAuthResult) * stream * fs :=
  if ca_enable_auth a then
    match client_certificate a cwd seed now s with
    | (Err e, s) => (Err e, c, s)
    | (Ok cert, s) =>
        match
          p ← ok_or (ca_server_cert a)
            (lit "Server certificate path required when authentication is enabled. Use --server-cert");
          server_cert ← in_context "Failed to load server certificate" (load_server_cert load_time p s);
          signing_key ← client_signing_key cert;
          Ok (server_cert, signing_key)
        with
        | Err e => (Err e, c, s)
        | Ok (server_cert, signing_key) =>
            let '(r, c) := client_authenticate env signing_key (Some (cc_identity cert))
              (sc_public_key server_cert) c in
            (in_context "Authentication failed" (Some <$> r), c, s)
        end
    end
  else (Ok None, c, s).

Definition client_parse_key_hex (s : bytes) : result bytes bytes :=
  b ← ok_or (hex_decode s) (lit "key_hex: not valid hex");
  ensure (length b =? 32)%nat (lit "key_hex must be 32 bytes (64 hex chars)") ≫= λ _, Ok b.

(** The key of the keyring: the first half of the salt names it. *)
Definition keyring_key (keyring_feature : bool) (a : ClientArgs) : result bytes bytes :=
  ensure keyring_feature
    (lit "Keyring backend requires the 'keyring' feature. Build with: cargo build --features keyring") ≫= λ _,
  salt_hex ← ok_or (ca_salt_hex a) (lit "--salt-hex required when using keyring");
  salt ← ok_or (hex_decode salt_hex) (hex_error salt_hex);
  ensure (length salt =? 32)%nat (lit "Salt must be 32 bytes (64 hex chars)") ≫= λ _,
  map_err backend_error_text (keyring_derive_key keyring_new (take 16 salt) (key_context_new salt)).

(** The session key first, then the keyring, the given key, a random one. *)
Definition client_key (keyring_feature : bool) (a : ClientArgs) (session : option ClientAuthResult)
    (random : bytes) : result bytes bytes :=
  match session with
  | Some r => Ok (cr_session_key r)
  | None =>
      if ca_use_keyring a then keyring_key keyring_feature a
      else match ca_key_hex a with
           | Some kh => client_parse_key_hex kh
           | None => Ok random
           end
  end.

(** The mode and the transport of the arguments. *)
Definition client_send (a : ClientArgs) (env : SendEnv) (key : bytes) (s : fs)
    : handshake stream (list bytes) :=
  match ca_test_chunks a, ca_file a with
  | Some n, _ =>
      if ca_hardened a then send_encrypted_test_chunks_hardened env n key (ca_chunk_size a)
      else send_encrypted_test_chunks env n key (ca_chunk_size a)
  | None, Some p =>
      if ca_hardened a then send_encrypted_file_hardened env p key (ca_chunk_size a) s
      else send_encrypted_file env p key (ca_chunk_size a) s
  | None, None => λ c, (Err (lit "Must specify either --file or --test-chunks"), c)
  end.

(** [main] without [--set-passphrase]; [addr] is the printed address. *)
Definition client_main (keyring_feature : bool) (a : ClientArgs) (addr : bytes)
    (attempt : nat → result connect_failure stream) (cenv : ClientEnv) (env : SendEnv) (cwd : path)
    (seed random : bytes) (now : Z) (load_time : option N) (s : fs)
    : result bytes (list bytes) * option stream * fs :=
  match connect_with_retry attempt (ca_retry_attempts a) with
  | Err _ => (Err (lit "Failed to connect to " ++ addr ++ lit " after " ++ fmt_N (ca_retry_attempts a)
                   ++ lit " attempts"), None, s)
  | Ok c =>
      match client_session a cenv cwd seed now load_time c s with
      | (Err e, c, s) => (Err e, Some c, s)
      | (Ok session, c, s) =>
          match client_key keyring_feature a session random with
          | Err e => (Err e, Some c, s)
          | Ok key => let '(r, c) := client_send a env key s c in (r, Some c, s)
          end
      end
  end.
End Client.

(** * Lemmas about the network client

    The chunks of a file, what the framed client sends for them whatever the peer answers, and
    what a chunk gives to the holder of the key. *)

(** The pieces in which a file is read. *)
Fixpoint pieces (reads : nat → N) (chunk_size : N) (fuel k : nat) (rest : bytes) : list bytes :=
  match fuel with
  | O => []
  | S f =>
      let pt := read_some (reads k) chunk_size rest in
      if is_empty pt then [] else pt :: pieces reads chunk_size f (S k) (drop_N (len_N pt) rest)
  end.

Lemma drop_N_read limit room rest :
  (0 < room)%N → read_some limit room rest ≠ [] →
  length (drop_N (len_N (read_some limit room rest)) rest) < length rest.
Proof.
  intros Hr Hne. destruct (read_some_spec limit room rest Hr) as (Hrest & _ & _).
  apply (f_equal length) in Hrest. rewrite length_app in Hrest.
  destruct (read_some _ _ _); [done|]. simpl in *. lia.
Qed.

Lemma pieces_concat reads chunk_size fuel k rest :
  (0 < chunk_size)%N → length rest < fuel → concat (pieces reads chunk_size fuel k rest) = rest.
Proof.
  intros Hc. revert k rest. induction fuel as [|f IH]; intros k rest Hf; [lia|]. cbn [pieces]. cbn zeta.
  destruct (read_some_spec (reads k) chunk_size rest Hc) as (Hrest & _ & Hnil).
  destruct (is_empty _) eqn:He; [by apply is_empty_true, Hnil in He as ->|]. apply is_empty_false in He.
  pose proof (drop_N_read (reads k) chunk_size rest Hc He). cbn [concat]. by rewrite IH by lia.
Qed.

Lemma pieces_bounded reads chunk_size fuel k rest :
  (0 < chunk_size)%N → Forall (λ p, p ≠ [] ∧ (len_N p ≤ chunk_size)%N) (pieces reads chunk_size fuel k rest).
Proof.
  intros Hc. revert k rest. induction fuel as [|f IH]; intros k rest; cbn [pieces]; [done|]. cbn zeta.
  destruct (read_some_spec (reads k) chunk_size rest Hc) as (_ & Hlen & _).
  destruct (is_empty _) eqn:He; [done|]. apply is_empty_false in He. by constructor.
Qed.

Section ClientLemmas.
Context `{FrameCodecLaws} `{BincodeLaws NetworkChunk} `{Blake3Laws} `{HexLaws} `{Ed25519Laws} `{AeadLaws}
  `{BincodeLaws StreamManifest} `{BincodeLaws SignedManifest}.

(** The chunks of [pts], from number [seq], and their bytes on the wire. *)
Inductive sends (env : SendEnv) (key : bytes) (chunk_size : N) (dt : DataType)
    : nat → N → list bytes → list NetworkChunk → list bytes → Prop :=
  | sends_nil k seq : sends env key chunk_size dt k seq [] [] []
  | sends_cons k seq pt chunk b pts cs bs :
      client_chunk env key chunk_size dt k seq pt = Ok chunk → serialize chunk = Ok b →
      (len_N b ≤ MAX_FRAME)%N → sends env key chunk_size dt (S k) (seq + 1) pts cs bs →
      sends env key chunk_size dt k seq (pt :: pts) (chunk :: cs) (b :: bs).

(** The same as a function. *)
Fixpoint send_plan (env : SendEnv) (key : bytes) (chunk_size : N) (dt : DataType) (k : nat) (seq : N)
    (pts : list bytes) : option (list NetworkChunk * list bytes) :=
  match pts with
  | [] => Some ([], [])
  | pt :: pts =>
      match client_chunk env key chunk_size dt k seq pt with
      | Err _ => None
      | Ok chunk =>
          match serialize chunk, send_plan env key chunk_size dt (S k) (seq + 1) pts with
          | Ok b, Some (cs, bs) => if (len_N b <=? MAX_FRAME)%N then Some (chunk :: cs, b :: bs) else None
          | _, _ => None
          end
      end
  end.

Lemma send_plan_sends env key size dt k seq pts cs bs :
  send_plan env key size dt k seq pts = Some (cs, bs) → sends env key size dt k seq pts cs bs.
Proof.
  revert k seq cs bs. induction pts as [|pt pts IH]; intros k seq cs bs; cbn [send_plan].
  { intros [= <- <-]. constructor. }
  repeat case_match; try done. intros [= <- <-]. econstructor; eauto. by apply N.leb_le.
Qed.

Lemma sends_length env key size dt k seq pts cs bs :
  sends env key size dt k seq pts cs bs → length cs = length pts ∧ length bs = length pts.
Proof. induction 1; simpl; lia. Qed.

(** ** One exchange *)

Definition plain_reply (ack : bytes) : Prop := utf8_valid ack = true ∧ (len_N ack ≤ MAX_FRAME)%N.

Lemma exchange_hardened_run env chunk b ack rest c :
  serialize chunk = Ok b → (len_N b ≤ MAX_FRAME)%N → plain_reply ack → st_room c = None →
  st_in c = frame ack ++ rest →
  exchange_hardened env chunk c = (Ok ack, after_write (frame b) (set_in rest c)).
Proof.
  intros Hs Hb [Hu Ha] Hroom Hin. unfold exchange_hardened.
  rewrite (handshake_bind_run _ _ _ tt (after_write (frame b) c)).
  - unfold read_ack_hardened.
    rewrite (framed_next_frame MAX_FRAME (sn_fin env) ack rest (after_write (frame b) c)) by (done || apply MAX_FRAME_u32).
    by rewrite Hu.
  - unfold handshake_context, send_chunk_hardened. rewrite Hs. cbn.
    unfold handshake_context. by rewrite framed_send_fits.
Qed.

(** The client sends its chunks and succeeds on any replies that are text. *)
Lemma send_file_loop_run env key size dt msg fuel k seq rest c acks tail cs bs :
  length rest < fuel → (0 < size)%N →
  sends env key size dt k seq (pieces (sn_reads env) size fuel k rest) cs bs →
  (seq + N.of_nat (length bs) < 2 ^ 64)%N →
  length acks = length bs → Forall plain_reply acks → st_room c = None → st_in c = frames acks ++ tail →
  send_file_loop exchange_hardened env key size dt msg fuel k seq (Some rest) c
  = (Some (Ok acks), after_write (frames bs) (set_in tail c)).
Proof.
  intros Hf Hsz. revert k seq rest c acks cs bs Hf. induction fuel as [|f IH]; [lia|].
  intros k seq rest c acks cs bs Hf Hs Hseq Hlen Hacks Hroom Hin. cbn [send_file_loop pieces] in *. cbn zeta in *.
  destruct (is_empty (read_some _ _ _)) eqn:He.
  - inversion Hs; subst. destruct acks; [|done]. unfold after_write, set_in, frames. cbn in *.
    rewrite app_nil_r. destruct c; cbn in *. by subst.
  - apply is_empty_false in He. pose proof (drop_N_read (sn_reads env k) size rest Hsz He).
    inversion Hs as [|? ? ? chunk b ? cs' bs' Hc Hser Hb Hs']; subst. destruct acks as [|ack acks]; [done|].
    apply Forall_cons in Hacks as [Hack Hacks].
    change (frames (ack :: acks)) with (frame ack ++ frames acks) in Hin. rewrite <-app_assoc in Hin.
    unfold send_one. rewrite (handshake_bind_run _ _ _ chunk c); [|by unfold pure_step; rewrite Hc].
    rewrite (exchange_hardened_run _ _ b ack _ c Hser Hb Hack Hroom Hin).
    simpl in Hseq, Hlen. rewrite wrapping_add64_fits by lia.
    rewrite (IH _ _ _ _ acks cs' bs') by (done || lia). unfold after_write, set_in. cbn.
    by rewrite <-app_assoc.
Qed.

(** ** The chunks *)

(** What the holder of the key makes of a chunk: its manifest is signed, and its data opens, bound
    to the session, the number and the length. *)
Definition opens_as (env : SendEnv) (key : bytes) (chunk_size seq : N) (chunk : NetworkChunk) (pt : bytes) : Prop :=
  nc_sequence chunk = seq ∧ nc_nonce chunk = make_nonce (sn_nonce_prefix env) seq
  ∧ ∃ sm, deserialize (nc_manifest chunk) = Ok sm ∧ check_signed_manifest sm = Ok tt
      ∧ aead_decrypt Aes256Gcm key (nc_nonce chunk)
          (build_aad (blake3 (header_to_bytes (session_header_of env chunk_size))) seq (nc_nonce chunk)
             (blake3 (sm_manifest sm)) (as_u32 (len_N pt))) (nc_data chunk) = Some pt.

Lemma client_chunk_opens env key size dt k seq pt chunk :
  client_chunk env key size dt k seq pt = Ok chunk → opens_as env key size seq chunk pt.
Proof.
  unfold client_chunk, build_session_header. intros Hc. inv_ok.
  match goal with E : aead_encrypt _ _ _ _ _ = Some _ |- _ => rename E into Hct end.
  match goal with E : serialize (mkSignedManifest _ _ _) = Ok _ |- _ => rename E into Hsm end.
  split; [done|split; [done|]]. eexists. split; [by apply deserialize_ok|].
  split; [apply signed_manifest_checks|]. by apply aead_decrypt_encrypt.
Qed.

Lemma sends_opens env key size dt k seq pts cs bs :
  sends env key size dt k seq pts cs bs →
  ∀ i chunk pt, cs !! i = Some chunk → pts !! i = Some pt → opens_as env key size (seq + N.of_nat i) chunk pt.
Proof.
  induction 1 as [|k seq pt chunk b pts cs bs Hc _ _ _ IH]; [done|]. intros [|i] chunk' pt'; cbn [lookup list_lookup].
  - intros [= <-] [= <-]. rewrite N.add_0_r. by eapply client_chunk_opens.
  - intros Hx Hy. specialize (IH _ _ _ Hx Hy). replace (seq + N.of_nat (S i))%N with (seq + 1 + N.of_nat i)%N by lia. done.
Qed.

(** The server takes them all. *)
Lemma sends_taken env key size dt k seq pts cs bs prefix :
  sends env key size dt k seq pts cs bs → length (sn_nonce_prefix env) = 4 →
  prefix = None ∨ prefix = Some (sn_nonce_prefix env) →
  taken seq prefix cs = length cs.
Proof.
  intros Hs Hp. revert prefix. induction Hs as [|k seq pt chunk b pts cs bs Hc _ _ _ IH]; intros prefix Hpre; [done|].
  apply client_chunk_opens in Hc as (Hq & Hn & _). cbn [taken length].
  assert (take 4 (nc_nonce chunk) = sn_nonce_prefix env) as Ht.
  { rewrite Hn. unfold make_nonce. by apply take_app_length'. }
  assert (in_turn seq prefix chunk = true) as ->.
  { unfold in_turn. rewrite Hq, N.eqb_refl, Ht. destruct Hpre as [->| ->]; [done|]. by rewrite bool_decide_true. }
  f_equal. apply IH. rewrite Ht. by right.
Qed.

Lemma sends_decode env key size dt k seq pts cs bs :
  sends env key size dt k seq pts cs bs →
  Forall2 (λ b chunk, deserialize b = Ok chunk ∧ (len_N b ≤ MAX_FRAME)%N) bs cs.
Proof. induction 1; constructor; eauto using deserialize_ok. Qed.

Lemma sends_messages env key size dt k seq pts cs bs :
  sends env key size dt k seq pts cs bs → messages MAX_FRAME cs bs.
Proof. induction 1; by constructor. Qed.
End ClientLemmas.
