(* ===== verification/ReferenceStream.v ===== *)
(** * Concrete instances for streams of records

    Codecs for the stream header, the chunk manifest and the records, the keyring and the
    lower-casing of a file extension, for the witnesses of the stream theorems. *)

From S2P Require Import Prelude External Format Backends Reference ReferenceCodec Stream.
From S2P Require Import FileSystem Envelope Auth Transport Server Client.

Notation "c ** d" := (codec_pair c d) (at level 40, left associativity, only parsing).

Definition codec_bool : codec bool.
Proof.
  refine (codec_map (λ b : bool, if b then 1%N else 0%N) (λ n, (n =? 1)%N) _ codec_N). by intros [].
Defined.

Definition format_key (f : AudioFormat) : N * bytes :=
  match f with F32Le => (0%N, []) | I16Le => (1%N, []) | I24Le => (2%N, []) | OtherFormat s => (3%N, s) end.
Definition key_format (k : N * bytes) : AudioFormat :=
  match k.1 with 0 => F32Le | 1 => I16Le | 2 => I24Le | _ => OtherFormat k.2 end%N.
Definition codec_format : codec AudioFormat.
Proof. refine (codec_map format_key key_format _ (codec_N ** codec_bytes)). by intros []. Defined.

(** A tag with the fields of every variant. *)
Definition type_key (t : DataType) : N * option bytes * (N * N * N) * AudioFormat * bytes :=
  match t with
  | DtUnknown => (0%N, None, (0%N, 0%N, 0%N), F32Le, [])
  | DtFile m => (1%N, m, (0%N, 0%N, 0%N), F32Le, [])
  | DtAudio r c f => (2%N, None, (r, c, 0%N), f, [])
  | DtVideo w h fps f => (3%N, None, (w, h, fps), F32Le, f)
  | DtSensor s => (4%N, None, (0%N, 0%N, 0%N), F32Le, s)
  end.
Definition key_type (k : N * option bytes * (N * N * N) * AudioFormat * bytes) : DataType :=
  let '(tag, m, (x, y, z), f, s) := k in
  match tag with
  | 0 => DtUnknown | 1 => DtFile m | 2 => DtAudio x y f | 3 => DtVideo x y z s | _ => DtSensor s
  end%N.
Definition codec_data_type : codec DataType.
Proof.
  refine (codec_map type_key key_type _
    (codec_N ** codec_option codec_bytes ** (codec_N ** codec_N ** codec_N) ** codec_format ** codec_bytes)).
  by intros [].
Defined.

Definition codec_stream_manifest : codec StreamManifest.
Proof.
  refine (codec_map (λ m, (ma_v m, ma_ts_ms m, ma_seq m, ma_header_hash m, ma_pt_hash m, ma_key_id m,
               ma_ai_used m, ma_model_ids m, ma_data_type m, ma_chunk_len m))
    (λ '(a, b, c, d, e, f, g, h, i, j), mkStreamManifest a b c d e f g h i j) _
    (codec_N ** codec_N ** codec_N ** codec_bytes ** codec_bytes ** codec_bytes ** codec_bool
      ** codec_list codec_bytes ** codec_data_type ** codec_N)).
  by intros [].
Defined.
Definition codec_stream_header : codec StreamHeader.
Proof.
  refine (codec_map (λ h, (sh_v h, sh_header h, sh_header_hash h)) (λ '(a, b, c), mkStreamHeader a b c) _
    (codec_N ** codec_bytes ** codec_bytes)).
  by intros [].
Defined.
Definition codec_stream_header_v1 : codec StreamHeaderV1.
Proof.
  refine (codec_map (λ h, (sh1_v h, sh1_header h, sh1_header_hash h)) (λ '(a, b, c), mkStreamHeaderV1 a b c) _
    (codec_N ** codec_bytes ** codec_bytes)).
  by intros [].
Defined.
Definition codec_record : codec StreamRecord.
Proof.
  refine (codec_map (λ r, (rec_seq r, rec_nonce r, rec_sm r, rec_ct r)) (λ '(a, b, c, d), mkStreamRecord a b c d) _
    (codec_N ** codec_bytes ** codec_signed_manifest ** codec_bytes)).
  by intros [].
Defined.

#[export] Instance ref_bincode_stream_manifest : Bincode StreamManifest := bincode_of codec_stream_manifest.
#[export] Instance ref_bincode_stream_header : Bincode StreamHeader := bincode_of codec_stream_header.
#[export] Instance ref_bincode_stream_header_v1 : Bincode StreamHeaderV1 := bincode_of codec_stream_header_v1.

#[export] Instance ref_record_codec : RecordCodec := {|
  record_write x := Ok (enc codec_record x);
  record_read b :=
    match dec codec_record b with
    | Some (x, r) => if (length r <? length b)%nat then Got x r else Malformed
    | None => AtEof
    end;
|}.

Lemma enc_record_nonempty x : 0 < length (enc codec_record x).
Proof.
  cbn. rewrite !length_app. assert (0 < length (enc_pos (N.succ_pos (rec_seq x)))); [|lia].
  destruct (N.succ_pos (rec_seq x)); simpl; lia.
Qed.

#[export] Instance ref_record_codec_laws : RecordCodecLaws.
Proof.
  split.
  - intros x b r <-%Ok_inj. unfold record_read, ref_record_codec. rewrite dec_enc, length_app.
    pose proof (enc_record_nonempty x). by rewrite (proj2 (Nat.ltb_lt _ _)) by lia.
  - reflexivity.
  - intros b x r. cbn [record_read ref_record_codec]. repeat case_match; try done.
    intros [= -> ->]. by apply Nat.ltb_lt.
  - intros x b b1 b2 <-%Ok_inj He Hne. unfold record_read, ref_record_codec. by rewrite (dec_cut _ _ _ _ He).
Qed.

#[export] Instance ref_os_keyring : OsKeyring := λ _ _, Ok (lit "correct horse").
#[export] Instance ref_unicode_case : UnicodeCase := to_ascii_lowercase.

(** * Reference functions for the network

    Concrete functions for the frame codec, the keyed hash and the receive stream of quinn, which
    keep the laws the network theorems name. *)

#[export] Instance ref_bincode_network_chunk : Bincode NetworkChunk := bincode_of codec_chunk.

Definition ref_frame_get (max : N) (r : bytes) : framed_got :=
  match read_exact 4 r with
  | None => NeedMore
  | Some (head, r) =>
      if (max <? of_be_bytes head)%N then BadFrame (lit "frame size too big")
      else match read_exact (N.to_nat (of_be_bytes head)) r with
           | None => NeedMore
           | Some (b, rest) => Frame b rest
           end
  end.

#[export] Instance ref_frame_codec : FrameCodec := {|
  frame_put max b :=
    if (max <? len_N b)%N then Err (lit "frame size too big") else Ok (be_bytes 4 (len_N b) ++ b);
  frame_get := ref_frame_get;
|}.

#[export] Instance ref_frame_codec_laws : FrameCodecLaws.
Proof.
  split.
  - intros max b Hb _. cbn. by rewrite (proj2 (N.ltb_ge _ _) Hb).
  - intros max b Hb. cbn. rewrite (proj2 (N.ltb_lt _ _) Hb). eauto.
  - intros max b rest Hb Hm. cbn [frame_get ref_frame_codec]. unfold ref_frame_get.
    rewrite read_exact_app by apply length_be_bytes. unfold u32_max in Hm.
    rewrite of_be_bytes_be_bytes by (change (256 ^ N.of_nat 4)%N with (2 ^ 32)%N; lia).
    rewrite (proj2 (N.ltb_ge _ _) Hb). rewrite read_exact_app; [done|]. unfold len_N. lia.
  - intros max r b rest Hm. cbn [frame_get ref_frame_codec]. unfold ref_frame_get.
    destruct (read_exact 4 r) as [[head r']|] eqn:E1; [|done].
    destruct (_ <? _)%N eqn:Eb; [done|]. destruct (read_exact (N.to_nat _) r') as [[b' rest']|] eqn:E2; [|done].
    intros [= <- <-]. apply read_exact_Some in E1 as [-> Hl1], E2 as [-> Hl2]. apply N.ltb_ge in Eb.
    assert (len_N b' = of_be_bytes head) as Hb by (unfold len_N; lia). rewrite Hb. split; [done|].
    f_equal. rewrite <-Hl1. symmetry. apply be_bytes_of_be_bytes.
  - done.
Qed.

#[export] Instance ref_blake3_keyed : Blake3Keyed := λ key m, blake3 (key ++ m).
#[export] Instance ref_path_debug : PathDebug := λ p, lit "path".

(** A receive stream: the bytes that arrived, and whether out-of-order reading is on. *)
#[export] Instance ref_quinn : Quinn := {|
  quic_recv := bytes * bool;
  quic_read_chunk n ordered r :=
    if ordered && r.2 then (Err (lit "ordered read after unordered read"), r)
    else if is_empty r.1 then (Ok None, (r.1, r.2 || negb ordered))
    else (Ok (Some (take_N n r.1)), (drop_N n r.1, r.2 || negb ordered));
  quic_unordered r := r.2;
|}.
#[export] Instance ref_quinn_laws : QuinnLaws.
Proof.
  split.
  - intros n [b u] x r'. cbn. case_match; intros [= _ <-]; cbn; by rewrite orb_true_r.
  - intros n [b u]. cbn. intros ->. eauto.
Qed.
