(* ===== verification/UnwrapCorrect.v ===== *)
(** * Correctness of [unwrap] and [verify]

    What [unwrap] recovers from an intact archive and what it leaves behind when it
    fails; which outcomes [verify] has. *)

From S2P Require Import Prelude External Utf8 FileSystem Json Float64 Manifest ManifestCanon.
From S2P Require Import Chain Crypto Keywrap Chronicle Archive ArchiveLemmas ArchiveCorrect.
From S2P Require Import VerifyChronicle Cli CliCorrect Wrap Unwrap.

Section UnwrapLemmas.
Context `{Blake3Laws} `{HexLaws} `{Base64Laws} `{Ed25519Laws} `{P256} `{AeadLaws} `{KdfLaws}
  `{HpkeLaws} `{SerdeJsonLaws} `{SerdeValue} `{BundleJson} `{ManifestJson} `{IoText}.

(** ** The temporary file *)

Lemma unwrap_tmp_ne (pid : N) (out : path) : unwrap_tmp_path pid out ≠ out.
Proof. by apply sibling_ne. Qed.

Lemma unwrap_tmp_reach (pid : N) (out : path) (s : fs) :
  ancestor_error (unwrap_tmp_path pid out) s = ancestor_error out s.
Proof.
  unfold unwrap_tmp_path, ancestor_error. destruct (decide (out = [])) as [->|]; [done|].
  by rewrite ancestors_sibling.
Qed.

Lemma bin_not_partial (a b c d : bytes) : a ++ lit ".bin" ≠ b ++ c ++ d ++ lit ".partial".
Proof.
  rewrite (app_assoc c), (app_assoc b). intros Heq%(f_equal (@last byte)).
  by rewrite (last_app a), (last_app (b ++ c ++ d)) in Heq.
Qed.

(** It is none of the chunk files. *)
Lemma unwrap_tmp_not_chunk (pid : N) (out dir : path) (i : N) :
  unwrap_tmp_path pid out ≠ dir ++ [chunk_filename i].
Proof.
  intros Heq. destruct (last_sibling (lit ".seal-unwrap." ++ fmt_N pid ++ lit ".partial") out)
    as [name Hname].
  unfold unwrap_tmp_path in Heq. rewrite Heq, last_snoc in Hname. apply (inj Some) in Hname.
  by apply bin_not_partial in Hname.
Qed.

(** ** Recovering the chunks *)

(** What is recovered from the chunk files [cs]. *)
Definition recover_all (ctx : option (bytes * bytes)) (k : nat) (cs : list bytes)
    : result CliError (list bytes) :=
  map_res (λ p, recover_chunk ctx p.1 p.2) (enumerate_from k cs).

(** Chunk [i] of the archive is the file [c]. *)
Definition stored_at (archive : path) (s : fs) (i : nat) (c : bytes) : Prop :=
  read_file (chunks_path archive ++ [chunk_filename (N.of_nat i)]) s = Ok c
  ∧ (len_N c ≤ MAX_STORED_CHUNK_BYTES)%N.

Lemma read_stored_ok (archive : path) (s : fs) (i : nat) (c : bytes) :
  stored_at archive s i c → read_stored archive i s = Ok c.
Proof.
  intros [Hr Hcap]. unfold read_stored. rewrite Hr. cbn [map_err mbind result_bind].
  rewrite take_N_all by lia. by rewrite (proj2 (N.leb_le _ _) Hcap).
Qed.

Lemma read_file_inv (p : path) (s : fs) (c : bytes) :
  read_file p s = Ok c → ancestor_error p s = None ∧ s !! p = Some (File c).
Proof. unfold read_file. repeat case_match; intros [=]; by subst. Qed.

(** Writing the temporary file changes no chunk. *)
Lemma stored_at_insert (archive tmp : path) (s : fs) (i : nat) (c d : bytes) :
  s !! tmp ≠ Some Dir → (∀ dir n, tmp ≠ dir ++ [chunk_filename n]) →
  stored_at archive s i c → stored_at archive (<[tmp := File d]> s) i c.
Proof.
  intros Hd Hne [Hr Hcap]. split; [|done]. rewrite <-Hr.
  apply read_file_inv in Hr as [Ha _]. rewrite ancestor_error_None in Ha. apply read_file_ext.
  - by rewrite lookup_insert_ne by auto.
  - intros q Hq%Ha. rewrite lookup_insert_ne; [done|]. congruence.
Qed.

Lemma recover_step_eq (archive tmp : path) (ctx : option (bytes * bytes)) (s : fs) (i : nat)
    (c acc : bytes) :
  stored_at archive s i c → s !! tmp = Some (File acc) →
  recover_step archive ctx tmp i s = match recover_chunk ctx i c with
    | Ok d => (Ok tt, <[tmp := File (acc ++ d)]> s)
    | Err e => (Err e, s)
    end.
Proof.
  intros Hc%read_stored_ok Ht. unfold recover_step, mbind, io_bind, io_read, io_lift. rewrite Hc.
  destruct (recover_chunk ctx i c); [|done]. unfold io_map_err, append_write. by rewrite Ht.
Qed.

Lemma io_bind_eq {E A B} (m : io E A) (f : A → io E B) (s : fs) :
  (m ≫= f) s = match m s with (Ok a, s') => f a s' | (Err e, s') => (Err e, s') end.
Proof. done. Qed.

Lemma io_for_each_cons {E A} (f : A → io E unit) (x : A) (l : list A) (s : fs) :
  io_for_each f (x :: l) s = match f x s with
    | (Ok _, s') => io_for_each f l s'
    | (Err e, s') => (Err e, s')
    end.
Proof. done. Qed.

Lemma recover_loop (archive tmp : path) (ctx : option (bytes * bytes)) (s : fs) (cs : list bytes) (k : nat) (acc : bytes) :
  s !! tmp ≠ Some Dir → (∀ dir n, tmp ≠ dir ++ [chunk_filename n]) →
  (∀ i c, cs !! i = Some c → stored_at archive s (k + i) c) →
  ∃ acc', io_for_each (recover_step archive ctx tmp) (seq k (length cs)) (<[tmp := File acc]> s)
    = ((λ _, tt) <$> recover_all ctx k cs, <[tmp := File acc']> s)
  ∧ ∀ ds, recover_all ctx k cs = Ok ds → acc' = acc ++ concat ds.
Proof.
  intros Hd Hne. revert k acc. induction cs as [|c cs IH]; intros k acc Hall; cbn [length seq].
  { exists acc. split; [done|]. intros ds [= <-]. cbn. by rewrite app_nil_r. }
  assert (stored_at archive s k c) as Hc
    by (specialize (Hall 0 c eq_refl); by rewrite Nat.add_0_r in Hall).
  apply (stored_at_insert archive tmp s k c acc Hd Hne) in Hc.
  rewrite io_for_each_cons, (recover_step_eq _ _ ctx _ _ _ _ Hc (lookup_insert_eq _ _ _)).
  unfold recover_all. cbn [enumerate_from map_res fst snd].
  destruct (recover_chunk ctx k c) as [d|e]; cbn [mbind result_bind].
  2:{ exists acc. split; [done|]. by intros ds. }
  rewrite insert_insert_eq.
  destruct (IH (S k) (acc ++ d)) as (acc' & -> & Hacc').
  { intros i x Hi. rewrite Nat.add_succ_comm. by apply Hall. }
  exists acc'. unfold recover_all in *.
  destruct (map_res _ (enumerate_from (S k) cs)) as [ds|e]; cbn; (split; [done|]).
  - intros ds' [= <-]. rewrite (Hacc' ds eq_refl). cbn. by rewrite app_assoc.
  - by intros ds'.
Qed.

(** The file system after a recovery: a new output and no temporary file. *)
Definition recovered (out tmp : path) (data : bytes) (s : fs) : fs :=
  <[out := File data]> (delete tmp s).

Lemma remove_tmp (tmp : path) (s : fs) (acc : bytes) :
  ancestor_error tmp s = None → (remove_file tmp (<[tmp := File acc]> s)).2 = delete tmp s.
Proof.
  intros Ha. unfold remove_file. rewrite (ancestor_error_ext tmp s), Ha.
  - rewrite lookup_insert_eq. cbn. apply delete_insert_eq.
  - intros q Hq%ancestors_shorter. apply lookup_insert_ne. intros ->. lia.
Qed.

Lemma rename_tmp (tmp out : path) (s : fs) (acc : bytes) :
  tmp ≠ out → ancestor_error tmp s = None → ancestor_error out s = None →
  (∀ q, q ∈ ancestors out → q ≠ tmp) →
  rename tmp out (<[tmp := File acc]> s) =
  if is_dir out s then (Err IsADirectory, <[tmp := File acc]> s)
  else (Ok tt, recovered out tmp acc s).
Proof.
  intros Hne Ha Hb Hq. unfold rename, recovered, is_dir.
  rewrite (ancestor_error_ext tmp s), (ancestor_error_ext out s), Ha, Hb.
  - rewrite lookup_insert_eq, lookup_insert_ne, delete_insert_eq by done. by repeat case_match.
  - intros q Hin. apply lookup_insert_ne. intros ->. by apply (Hq q).
  - intros q Hin%ancestors_shorter. apply lookup_insert_ne. intros ->. lia.
Qed.

(** The whole recovery, on chunk files that are there. *)
Lemma recover_spec (args : UnwrapCmd) (pid : N) (ctx : option (bytes * bytes)) (s : fs) (cs : list bytes) :
  (∀ i c, cs !! i = Some c → stored_at (uc_archive args) s i c) →
  let out := uc_output args in let tmp := unwrap_tmp_path pid out in
  match recover args pid ctx (length cs) s with
  | (Ok _, s') => ancestor_error out s = None ∧ s !! out ≠ Some Dir ∧ s !! tmp ≠ Some Dir
      ∧ ∃ ds, recover_all ctx 0 cs = Ok ds ∧ s' = recovered out tmp (concat ds) s
  | (Err _, s') => (s' = s ∨ s' = delete tmp s)
      ∧ (ancestor_error out s = None → s !! out ≠ Some Dir → s !! tmp ≠ Some Dir →
         ∃ e, recover_all ctx 0 cs = Err e)
  end.
Proof.
  intros Hall out tmp. unfold recover, guarded. fold out. cbv zeta. fold tmp.
  pose proof (unwrap_tmp_reach pid out s) as Hreach. fold tmp in Hreach.
  rewrite io_bind_eq. unfold io_map_err at 1, create_write. rewrite Hreach.
  destruct (ancestor_error out s) as [e|] eqn:Ha; cbn [map_err].
  { unfold remove_file. rewrite Hreach. cbn. by split; [left|]. }
  assert (s !! tmp = Some Dir ∨ s !! tmp ≠ Some Dir) as [Ht|Ht]
    by (destruct (s !! tmp) as [[]|]; auto).
  { rewrite Ht. cbn [map_err]. unfold remove_file. rewrite Hreach, Ht. cbn. by split; [left|]. }
  assert (∀ X : result io_error unit * fs, match s !! tmp with Some Dir => X
    | _ => (Ok tt, <[tmp := File []]> s) end = (Ok tt, <[tmp := File []]> s)) as ->
    by (intros; by destruct (s !! tmp) as [[]|]).
  cbn [map_err]. rewrite io_bind_eq.
  destruct (recover_loop (uc_archive args) tmp ctx s cs 0 []) as (acc & -> & Hacc);
    [done|intros; apply unwrap_tmp_not_chunk|done|].
  destruct (recover_all ctx 0 cs) as [ds|e]; cbn [fmap result_fmap];
    [|rewrite remove_tmp by done; split; [by right|by eauto]].
  rewrite (Hacc ds eq_refl). unfold io_map_err. rewrite rename_tmp by
    (done || apply unwrap_tmp_ne || (intros q Hq; by eapply sibling_ancestors in Hq as [_ ?])).
  unfold is_dir. destruct (s !! out) as [[c|]|]; cbn [map_err];
    [|rewrite remove_tmp by done; by split; [right|]|].
  all: split_and!; [done..|]; by exists ds.
Qed.
(** ** The checks *)

(** What [unwrap] asks of the archive and the key before it writes. *)
Record unwrappable (args : UnwrapCmd) (passphrase : option bytes) (s : fs) (m : TrstManifest)
    (cs : list bytes) (ctx : option (bytes * bytes)) : Prop := {
  uw_intact : ∃ sig, intact (uc_archive args) s m sig cs;
  uw_version : require_supported_version (trst_version m) = Ok tt;
  uw_signer e : uc_device_pub args = Some e → normalize_device_pub e = dev_public_key (device m);
  uw_signature : ∃ sig canonical, signature m = Some sig ∧ to_canonical_bytes m = Ok canonical
    ∧ verify_manifest (dev_public_key (device m)) canonical sig = Ok true;
  uw_key : ∃ b, load_bundle (uc_device_key args) (uc_unencrypted args) passphrase s = Ok b
    ∧ decrypt_context b m = Ok ctx;
}.

Lemma check_signer_ok expected m :
  check_signer expected m = Ok tt ↔
  ∀ e, expected = Some e → normalize_device_pub e = dev_public_key (device m).
Proof.
  destruct expected as [e|]; cbn; [|done]. rewrite ensure_ok, bool_decide_eq_true. naive_solver.
Qed.

Lemma check_own_signature_ok m :
  check_own_signature m = Ok tt ↔ ∃ sig canonical, signature m = Some sig
    ∧ to_canonical_bytes m = Ok canonical
    ∧ verify_manifest (dev_public_key (device m)) canonical sig = Ok true.
Proof.
  unfold check_own_signature. split.
  - intros Hc. inv_ok. subst. eauto.
  - intros (sig & c & -> & -> & Hv). cbn. by rewrite Hv.
Qed.

Lemma intact_same (base : path) (s : fs) (m m' : TrstManifest) (sig sig' : bytes) (cs : list bytes) :
  intact base s m sig cs → read_manifest base s = Ok (m', sig') → m' = m ∧ sig' = sig.
Proof. intros [Hm _ _ _ _ _] Hm'. rewrite Hm in Hm'. by injection Hm' as -> ->. Qed.

(** The manifest that is read is the one on disk. *)
Lemma archive_manifest_is (base : path) (s : fs) (m m' : TrstManifest) (j sig d : bytes)
    (cs : list bytes) :
  is_archive base s (Some j) (Some sig) cs → manifest_from_json j = Ok m →
  read_manifest base s = Ok (m', d) → m' = m.
Proof.
  intros Hia Hj Hr. unfold read_manifest in Hr. apply bind_ok in Hr as (j' & Hj' & Hr).
  apply bind_ok in Hr as (m'' & Hm''%map_err_ok & Hr).
  unfold read_capped in Hj'. apply bind_ok in Hj' as (j'' & Hj''%map_err_ok & Hj').
  apply bind_ok in Hj' as ([] & Hcap%ensure_ok & Hj'). apply Ok_inj in Hj' as <-.
  apply read_file_inv in Hj'' as [_ Hj'']. rewrite (ia_manifest _ _ _ _ _ Hia) in Hj''.
  injection Hj'' as <-. apply N.leb_le in Hcap. rewrite len_take_N in Hcap.
  rewrite take_N_all, Hj in Hm'' by lia. apply Ok_inj in Hm'' as <-.
  inv_ok. case_match; inv_ok; congruence.
Qed.

Lemma unwrap_checks_ok (args : UnwrapCmd) (passphrase : option bytes) (s : fs) (m : TrstManifest)
    (ctx : option (bytes * bytes)) :
  unwrap_checks args passphrase s = Ok (m, ctx) ↔ ∃ cs, unwrappable args passphrase s m cs ctx.
Proof.
  unfold unwrap_checks. split.
  - intros Hc. apply bind_ok in Hc as (b & Hb & Hc).
    apply bind_ok in Hc as ([m1 sig] & Hm%map_err_ok & Hc).
    apply bind_ok in Hc as ([] & Hv%map_err_ok & Hc).
    apply bind_ok in Hc as ([] & Hp & Hc). rewrite check_signer_ok in Hp.
    apply bind_ok in Hc as ([] & Hsig%check_own_signature_ok & Hc).
    apply bind_ok in Hc as ([] & Hi%map_err_ok & Hc).
    apply validate_archive_intact in Hi as (m2 & sig2 & cs & Hi).
    apply bind_ok in Hc as (ctx1 & Hctx & Hc). apply Ok_inj in Hc. injection Hc as -> ->.
    destruct (intact_same _ _ _ _ _ _ _ Hi Hm) as [-> ->]. exists cs. constructor; eauto.
  - intros (cs & [[sig Hi] Hv Hp Hsig (b & Hb & Hctx)]).
    rewrite Hb. cbn [mbind result_bind]. rewrite (in_manifest _ _ _ _ _ Hi).
    cbn [map_err mbind result_bind]. rewrite Hv. cbn [map_err mbind result_bind].
    rewrite (proj2 (check_signer_ok _ m) Hp). cbn [mbind result_bind].
    rewrite (proj2 (check_own_signature_ok m) Hsig). cbn [mbind result_bind].
    rewrite (proj2 (validate_archive_intact _ s)) by eauto. cbn [map_err mbind result_bind].
    by rewrite Hctx.
Qed.

Lemma unwrappable_stored (args : UnwrapCmd) (pw : option bytes) (s : fs) (m : TrstManifest)
    (cs : list bytes) (ctx : option (bytes * bytes)) :
  unwrappable args pw s m cs ctx →
  length cs = length (segments m) ∧ ∀ i c, cs !! i = Some c → stored_at (uc_archive args) s i c.
Proof. intros [[sig [_ _ Hl Hf _ _]] _ _ _ _]. by split. Qed.

(** The output can be put in place. *)
Definition writable (out tmp : path) (s : fs) : Prop :=
  ancestor_error out s = None ∧ s !! out ≠ Some Dir ∧ s !! tmp ≠ Some Dir.

Lemma handle_unwrap_ok (args : UnwrapCmd) (pw : option bytes) (pid : N) (s s' : fs) :
  let out := uc_output args in let tmp := unwrap_tmp_path pid out in
  handle_unwrap args pw pid s = (Ok tt, s') ↔
  ∃ m cs ctx ds, unwrappable args pw s m cs ctx ∧ recover_all ctx 0 cs = Ok ds
    ∧ writable out tmp s ∧ s' = recovered out tmp (concat ds) s.
Proof.
  intros out tmp. unfold handle_unwrap. rewrite io_bind_eq. unfold io_read.
  destruct (unwrap_checks args pw s) as [[m ctx]|e] eqn:Hc.
  2:{ split; [done|]. intros (m & cs & ctx & ds & Hu & _).
      by rewrite (proj2 (unwrap_checks_ok _ _ _ m ctx)) in Hc by eauto. }
  apply unwrap_checks_ok in Hc as [cs Hu].
  destruct (unwrappable_stored _ _ _ _ _ _ Hu) as [<- Hst].
  pose proof (recover_spec args pid ctx s cs Hst) as Hspec. cbv zeta in Hspec.
  fold out in Hspec. fold tmp in Hspec. split.
  - intros E. rewrite E in Hspec. destruct Hspec as (? & ? & ? & ds & ? & ?).
    exists m, cs, ctx, ds. by split_and!.
  - intros (m' & cs' & ctx' & ds & Hu' & Hds & (Ha & Ho & Ht) & ->).
    assert (Ok (m, ctx) = Ok (m', ctx') :> result CliError _) as Heq
      by (rewrite <-(proj2 (unwrap_checks_ok args pw s m ctx)), <-(proj2 (unwrap_checks_ok args pw s m' ctx')); eauto).
    apply Ok_inj in Heq. injection Heq as <- <-.
    assert (cs' = cs) as ->.
    { destruct (unwrappable_stored _ _ _ _ _ _ Hu') as [Hl' Hst'].
      destruct (unwrappable_stored _ _ _ _ _ _ Hu) as [Hl _].
      apply list_eq_same_length with (length (segments m)); [done..|].
      intros i x y _ Hx Hy. apply Hst' in Hx as [Hx _]. apply Hst in Hy as [Hy _].
      rewrite Hx in Hy. by apply Ok_inj in Hy. }
    destruct (recover args pid ctx (length cs) s) as [[[]|e] s1].
    + destruct Hspec as (_ & _ & _ & ds' & Hds' & ->). rewrite Hds in Hds'.
      by apply Ok_inj in Hds' as ->.
    + destruct Hspec as [_ Hspec]. destruct (Hspec Ha Ho Ht) as [e' He]. congruence.
Qed.

Lemma handle_unwrap_err (args : UnwrapCmd) (pw : option bytes) (pid : N) (s s' : fs) (e : CliError) :
  handle_unwrap args pw pid s = (Err e, s') →
  s' = s ∨ s' = delete (unwrap_tmp_path pid (uc_output args)) s.
Proof.
  unfold handle_unwrap. rewrite io_bind_eq. unfold io_read.
  destruct (unwrap_checks args pw s) as [[m ctx]|e'] eqn:Hc; [|intros [= _ <-]; by left].
  apply unwrap_checks_ok in Hc as [cs Hu].
  destruct (unwrappable_stored _ _ _ _ _ _ Hu) as [<- Hst]. intros Hr.
  pose proof (recover_spec args pid ctx s cs Hst) as Hspec. cbv zeta in Hspec.
  rewrite Hr in Hspec. by destruct Hspec.
Qed.
End UnwrapLemmas.

(** ** [verify] *)

Section VerifyLemmas.
Context `{Blake3Laws} `{HexLaws} `{Base64Laws} `{Ed25519Laws} `{P256} `{SerdeJsonLaws}
  `{ManifestJson} `{IoText} `{ReportJson}.

(** The manifest is there, of a known version, and signed. *)
Definition signed_archive (base : path) (s : fs) (m : TrstManifest) (sig canonical : bytes) : Prop :=
  (∃ detached, read_manifest base s = Ok (m, detached)) ∧ trst_version m = lit "0.2.0"
  ∧ signature m = Some sig ∧ to_canonical_bytes m = Ok canonical.

(** What each exit code says of the archive. *)
Inductive verdict (base : path) (pub : bytes) (s : fs) : N → Prop :=
  | verdict_pass m sig c detached cs :
      signed_archive base s m sig c → verify_manifest pub c sig = Ok true →
      intact base s m detached cs → verdict base pub s 0
  | verdict_broken m sig c :
      signed_archive base s m sig c → verify_manifest pub c sig = Ok true →
      (∀ m' detached cs, ¬ intact base s m' detached cs) → verdict base pub s 11
  | verdict_forged m sig c :
      signed_archive base s m sig c → verify_manifest pub c sig ≠ Ok true → verdict base pub s 10
  | verdict_unsigned m detached :
      read_manifest base s = Ok (m, detached) →
      trst_version m ≠ lit "0.2.0" ∨ signature m = None → verdict base pub s 12
  | verdict_unreadable e : read_manifest base s = Err e → verdict base pub s 12.

(** serde prints the report, and the receipt that was asked for can be written. *)
Definition delivers (args : VerifyCmd) (s : fs) : Prop :=
  (vc_json args = true → ∀ r, ∃ t, report_to_json r = Ok t)
  ∧ ∀ p, vc_emit_receipt args = Some p →
      (∀ r, ∃ t, report_to_json_pretty r = Ok t) ∧ ∀ t, ∃ s', create_write p t s = (Ok tt, s').

(** An output succeeds, or fails with an ordinary error because it cannot be delivered. *)
Definition outputs (args : VerifyCmd) (s : fs) (out : io CliError unit) : Prop :=
  (∃ s', out s = (Ok tt, s')) ∨ ∃ e s', out s = (Err (Anyhow e), s') ∧ ¬ delivers args s.

Lemma print_json_outputs (args : VerifyCmd) (r : VerifyReport) (s : fs) :
  print_json args r s = (Ok tt, s) ∨ ∃ e, print_json args r s = (Err (Anyhow e), s) ∧ ¬ delivers args s.
Proof.
  unfold print_json. destruct (vc_json args) eqn:Ej; [|by left]. rewrite io_bind_eq. unfold io_lift.
  destruct (report_to_json r) as [t|e] eqn:Et; [by left|]. right. exists e. split; [done|].
  intros [Hj _]. destruct (Hj Ej r) as [t Ht]. congruence.
Qed.

Lemma emit_receipt_outputs (args : VerifyCmd) (r : VerifyReport) (s : fs) : outputs args s (emit_receipt args r).
Proof.
  unfold outputs, emit_receipt. destruct (vc_emit_receipt args) as [p|] eqn:Ep; [|left; by eexists].
  rewrite io_bind_eq. unfold io_lift, io_map_err. destruct (report_to_json_pretty r) as [t|e] eqn:Et; cbn [map_err].
  - destruct (create_write p t s) as [[[]|e] s'] eqn:Ec; [left; by eexists|]. right. eexists _, s'. split; [done|].
    intros [_ Hr]. destruct (Hr p Ep) as [_ Hw]. destruct (Hw t) as [s2 Hw']. congruence.
  - right. eexists _, s. split; [done|]. intros [_ Hr]. destruct (Hr p Ep) as [Ht _].
    destruct (Ht r) as [t Ht']. congruence.
Qed.

Lemma outputs_all (args : VerifyCmd) (r : VerifyReport) (s : fs) :
  outputs args s (output_success args r) ∧ outputs args s (output_error args r)
  ∧ outputs args s (output_continuity_error args r).
Proof.
  unfold outputs, output_success, output_error, output_continuity_error. rewrite !io_bind_eq.
  destruct (print_json_outputs args r s) as [->|(e & -> & Hd)]; [|split_and!; right; by eexists _, s].
  pose proof (emit_receipt_outputs args r s) as He. split_and!; [done..|]. case_match; [left; by eexists|done].
Qed.

(** The exit code is [code], or 1 because the output failed. *)
Definition exits (args : VerifyCmd) (s : fs) (m : io CliError unit) (code : N) : Prop :=
  exit_code (m s).1 = code ∨ exit_code (m s).1 = 1%N ∧ ¬ delivers args s.

Lemma fail_with_exits (args : VerifyCmd) (out : io CliError unit) (code : N) (msg : bytes) (s : fs) :
  outputs args s out → exits args s (fail_with out code msg) code.
Proof.
  unfold exits, fail_with. rewrite io_bind_eq. intros [[s' ->]|(e & s' & -> & Hd)]; [by left|by right].
Qed.

(** The step after the signature is known to be there. *)
Lemma verify_signature_exits (args : VerifyCmd) (ms : N) (m : TrstManifest) (r : VerifyReport)
    (c sig : bytes) (s : fs) :
  exits args s (verify_signature_step args ms m r c sig)
    match verify_manifest (normalize_device_pub (vc_device_pub args)) c sig with
    | Ok true => match validate_archive (vc_archive args) s with Ok _ => 0 | Err _ => 11 end
    | _ => 10
    end%N.
Proof.
  unfold verify_signature_step. destruct (verify_manifest _ c sig) as [[]|e]; [|apply fail_with_exits, outputs_all..].
  unfold exits. rewrite io_bind_eq. unfold io_read. destruct (validate_archive (vc_archive args) s) as [u|e].
  - destruct (outputs_all args (set_outcome "pass" "pass" ms None r) s) as [[[s' ->]|(e & s' & -> & Hd)] _];
      [by left|by right].
  - apply fail_with_exits, outputs_all.
Qed.

Lemma handle_verify_exits (args : VerifyCmd) (ms : N) (s : fs) :
  exits args s (handle_verify args ms)
    match read_manifest (vc_archive args) s with
    | Err _ => 12
    | Ok (m, _) =>
        match require_supported_version (trst_version m), signature m with
        | Err _, _ | _, None => 12
        | Ok _, Some sig =>
            match to_canonical_bytes m with
            | Err _ => 14
            | Ok c =>
                match verify_manifest (normalize_device_pub (vc_device_pub args)) c sig with
                | Ok true => match validate_archive (vc_archive args) s with Ok _ => 0 | Err _ => 11 end
                | _ => 10
                end
            end
        end
    end%N.
Proof.
  unfold exits, handle_verify. rewrite io_bind_eq. unfold io_read.
  destruct (read_manifest (vc_archive args) s) as [[m d]|e]; [|apply fail_with_exits, outputs_all].
  destruct (require_supported_version (trst_version m)) as [u|e]; [|apply fail_with_exits, outputs_all].
  destruct (signature m) as [sig|]; [|apply fail_with_exits, outputs_all].
  destruct (to_canonical_bytes m) as [c|e]; [|apply fail_with_exits, outputs_all].
  apply verify_signature_exits.
Qed.

Lemma supported_version v : require_supported_version v = Ok tt ↔ v = lit "0.2.0".
Proof. unfold require_supported_version. repeat case_decide; naive_solver. Qed.

(** The exit code is 1 only when the output fails. *)
Lemma verify_delivers (args : VerifyCmd) (ms : N) (s : fs) :
  delivers args s → exit_code (handle_verify args ms s).1 ≠ 1%N.
Proof.
  intros Hd. destruct (handle_verify_exits args ms s) as [->|[_ Hn]]; [|done]. by repeat case_match.
Qed.

Lemma verify_verdict (args : VerifyCmd) (ms : N) (s : fs) (n : N) :
  exit_code (handle_verify args ms s).1 ≠ 1%N →
  exit_code (handle_verify args ms s).1 = n ↔
  verdict (vc_archive args) (normalize_device_pub (vc_device_pub args)) s n.
Proof.
  intros Hq. destruct (handle_verify_exits args ms s) as [->|[? _]]; [|done]. clear Hq. split.
  - intros <-. destruct (read_manifest (vc_archive args) s) as [[m d]|e] eqn:Hr;
      [|by eapply verdict_unreadable].
    destruct (require_supported_version (trst_version m)) as [[]|e] eqn:Hv.
    2:{ eapply verdict_unsigned; [done|]. left. intros Hx%supported_version. congruence. }
    apply supported_version in Hv.
    destruct (signature m) as [sig|] eqn:Hsig; [|eapply verdict_unsigned; eauto].
    destruct (to_canonical_bytes m) as [c|e] eqn:Hc; [|done].
    assert (signed_archive (vc_archive args) s m sig c) as Hsa by (split_and!; eauto).
    destruct (verify_manifest _ c sig) as [[]|e] eqn:Hvm;
      [|by eapply verdict_forged; [|rewrite Hvm]..].
    destruct (validate_archive (vc_archive args) s) as [[]|e] eqn:Hva.
    + apply validate_archive_intact in Hva as (m' & d' & cs & Hi).
      pose proof (in_manifest _ _ _ _ _ Hi) as Hm'. rewrite Hr in Hm'. injection Hm' as -> ->.
      by eapply verdict_pass.
    + eapply verdict_broken; [done..|]. intros m' d' cs Hi.
      by rewrite (proj2 (validate_archive_intact (vc_archive args) s)) in Hva by eauto.
  - intros [m sig c d cs ((d' & ->) & Hv%supported_version & Hs & Hc) Hvm Hi
           |m sig c ((d' & ->) & Hv%supported_version & Hs & Hc) Hvm Hi
           |m sig c ((d' & ->) & Hv%supported_version & Hs & Hc) Hvm
           |m d -> Hd|e ->]; [..|done].
    + rewrite Hv, Hs, Hc, Hvm. by rewrite (proj2 (validate_archive_intact _ s)) by eauto.
    + rewrite Hv, Hs, Hc, Hvm. destruct (validate_archive (vc_archive args) s) as [[]|] eqn:E; [|done].
      apply validate_archive_intact in E as (m' & d & cs & E). by apply Hi in E.
    + rewrite Hv, Hs, Hc. by destruct (verify_manifest _ c sig) as [[]|e].
    + destruct (require_supported_version (trst_version m)) as [[]|] eqn:E; [|done].
      apply supported_version in E.
      destruct Hd as [Hd| ->]; [done|done].
Qed.
End VerifyLemmas.
