(* ===== verification/Browser.v ===== *)
(** * The browser verifier

    crates/seal-wasm/src/lib.rs and crypto.rs, with crates/wasm/src/crypto.rs, which repeats the
    latter: verification of a manifest or of an archive directory in the browser, and the string
    encryption offered to scripts.  The directory handle is a path; a [JsValue] is its text. *)

From S2P Require Import Prelude External Utf8 FileSystem Json Manifest Chain Crypto Archive.

Record WasmVerification := mkWasmVerification {
  wv_signature : bytes;
  wv_continuity : bytes;
  wv_segment_count : N; (* u32 *)
}.

Definition SUPPORTED_TRST_VERSION : bytes := lit "0.2.0".

Definition wasm_require_supported_version (trst_version : bytes) : result bytes unit :=
  if bool_decide (trst_version = SUPPORTED_TRST_VERSION) then Ok tt
  else if bool_decide (trst_version = lit "0.1.0") then
    Err (lit "unsupported legacy archive format 0.1.0 (pre-C4); re-wrap with a current seal build")
  else Err (lit "unsupported archive version " ++ trst_version ++ lit " (expected "
            ++ SUPPORTED_TRST_VERSION ++ lit ")").

Definition js_pass (b : bool) : bytes := if b then lit "pass" else lit "fail".

(** What a directory handle takes for the name of an entry. *)
Definition handle_name (name : bytes) : bool :=
  negb (is_empty name) && negb (bool_decide (name = lit ".")) && negb (bool_decide (name = lit ".."))
  && negb (existsb (λ c, bool_decide (c = "/"%char)) name).

(** The [Debug] text of the error of a file operation in the browser *)
Class JsError := js_error : io_error → bytes.

Section Browser.
Context `{Base64} `{Ed25519} `{SerdeJson} `{ManifestJson} `{JsError}.

Definition verify_ed25519_signature (device_pub canonical_bytes signature_str : bytes)
    : result bytes bool :=
  ensure (starts_with ed_prefix device_pub) (lit "Public key must start with 'ed25519:'") ≫= λ _,
  let b64_part := drop 8 device_pub in
  pub_bytes ← ok_or (base64_decode b64_part)
    (lit "Invalid public key base64: " ++ base64_error b64_part);
  ensure (length pub_bytes =? 32)%nat (lit "Public key must be 32 bytes") ≫= λ _,
  ensure (ed_key_ok pub_bytes) (lit "Invalid public key: " ++ ed_key_error pub_bytes) ≫= λ _,
  ensure (starts_with ed_prefix signature_str) (lit "Signature must start with 'ed25519:'") ≫= λ _,
  let sig_b64_part := drop 8 signature_str in
  sig_bytes ← ok_or (base64_decode sig_b64_part)
    (lit "Invalid signature base64: " ++ base64_error sig_b64_part);
  ensure (length sig_bytes =? 64)%nat (lit "Signature must be 64 bytes") ≫= λ _,
  Ok (ed_verify pub_bytes canonical_bytes sig_bytes).

Definition wasm_device_pub (device_pub : bytes) : bytes :=
  if starts_with ed_prefix device_pub then device_pub else ed_prefix ++ device_pub.

(** From the bytes of the manifest to the result of the signature check. *)
Definition wasm_signature (manifest_bytes device_pub : bytes) : result bytes (TrstManifest * bool) :=
  manifest ← map_err (λ e, lit "Failed to parse manifest: " ++ e) (manifest_from_json manifest_bytes);
  wasm_require_supported_version (trst_version manifest) ≫= λ _,
  signature_str ← ok_or (signature manifest) (lit "Manifest has no signature");
  canonical_bytes ← map_err (λ e, lit "Canonicalization failed: " ++ manifest_error_text e)
    (to_canonical_bytes manifest);
  Ok (manifest,
      match verify_ed25519_signature (wasm_device_pub device_pub) canonical_bytes signature_str with
      | Ok b => b
      | Err _ => false
      end).

(** Without the chunks, continuity is reported like the signature. *)
Definition wasm_verify_manifest (manifest_bytes device_pub : bytes) : result bytes WasmVerification :=
  '(manifest, valid) ← wasm_signature manifest_bytes device_pub;
  Ok (mkWasmVerification (js_pass valid) (js_pass valid) (as_u32 (N.of_nat (length (segments manifest))))).

Definition read_file_from_directory (dir : path) (filename : bytes) (s : fs) : result bytes bytes :=
  map_err (λ e, lit "Failed to get file handle for " ++ filename ++ lit ": " ++ js_error e)
    (read_file (dir ++ [filename]) s).

Definition check_file_exists (dir : path) (filename : bytes) (s : fs) : bool :=
  handle_name filename && is_ok (read_file (dir ++ [filename]) s).

(** Every declared chunk file is there; its content is not read. *)
Definition verify_archive_continuity (dir : path) (manifest : TrstManifest) (s : fs) : result bytes unit :=
  ensure (is_dir (chunks_path dir) s) (lit "Failed to access chunks directory") ≫= λ _,
  for_each (λ segment, ensure (check_file_exists (chunks_path dir) (chunk_file segment) s)
    (lit "Missing chunk file: " ++ chunk_file segment)) (segments manifest).

Definition wasm_verify_archive (dir : path) (device_pub : bytes) (s : fs) : result bytes WasmVerification :=
  manifest_content ← read_file_from_directory dir (lit "manifest.json") s;
  wasm_signature manifest_content device_pub ≫= λ checked : TrstManifest * bool,
  let '(manifest, valid) := checked in
  let continuity := if valid then is_ok (verify_archive_continuity dir manifest s) else false in
  Ok (mkWasmVerification (js_pass valid) (js_pass continuity)
        (as_u32 (N.of_nat (length (segments manifest))))).
End Browser.

(** ** Encryption of strings *)

Record EncryptedData := mkEncryptedData {
  ed_ciphertext : bytes;
  ed_nonce : bytes;
  ed_key_id : option bytes;
}.

Section WasmCrypto.
Context `{Base64} `{Aead}.

Definition generate_key (random : bytes) : bytes := base64_encode random.
Definition generate_nonce (random : bytes) : bytes := base64_encode random.
Definition generate_random_bytes (random : bytes) : bytes := base64_encode random.

Definition decode_key (key_b64 : bytes) : result bytes bytes :=
  key_bytes ← ok_or (base64_decode key_b64) (lit "Invalid key format: " ++ base64_error key_b64);
  ensure (length key_bytes =? 32)%nat (lit "Key must be 32 bytes (256 bits)") ≫= λ _, Ok key_bytes.
Definition decode_nonce (nonce_b64 : bytes) : result bytes bytes :=
  ok_or (base64_decode nonce_b64) (lit "Invalid nonce format: " ++ base64_error nonce_b64).

(** [random] is the nonce that is drawn when none is given. *)
Definition wasm_encrypt (random data key_b64 : bytes) (nonce_b64 : option bytes) : result bytes EncryptedData :=
  key ← decode_key key_b64;
  nonce ← match nonce_b64 with
          | Some nonce_str =>
              nonce_bytes ← decode_nonce nonce_str;
              ensure (length nonce_bytes =? 12)%nat (lit "Nonce must be 12 bytes (96 bits)") ≫= λ _,
              Ok nonce_bytes
          | None => Ok random
          end;
  ciphertext ← ok_or (aead_encrypt Aes256Gcm key nonce [] data) (lit "Encryption failed: " ++ aead_error);
  Ok (mkEncryptedData (base64_encode ciphertext) (base64_encode nonce) None).

(** The position of the error is left out of the text for bytes that are not UTF-8. *)
Definition wasm_decrypt (e : EncryptedData) (key_b64 : bytes) : result bytes bytes :=
  key ← decode_key key_b64;
  nonce ← decode_nonce (ed_nonce e);
  ciphertext ← ok_or (base64_decode (ed_ciphertext e))
    (lit "Invalid ciphertext format: " ++ base64_error (ed_ciphertext e));
  ensure (length nonce =? 12)%nat (lit "Nonce must be 12 bytes (96 bits)") ≫= λ _,
  plaintext ← ok_or (aead_decrypt Aes256Gcm key nonce [] ciphertext) (lit "Decryption failed: " ++ aead_error);
  ensure (utf8_valid plaintext) (lit "Invalid UTF-8 in decrypted data") ≫= λ _,
  Ok plaintext.

Definition encrypt_simple (random data key_b64 : bytes) : result bytes EncryptedData :=
  wasm_encrypt random data key_b64 None.

Definition validate_key (key_b64 : bytes) : bool :=
  match base64_decode key_b64 with Some b => (length b =? 32)%nat | None => false end.
Definition validate_nonce (nonce_b64 : bytes) : bool :=
  match base64_decode nonce_b64 with Some b => (length b =? 12)%nat | None => false end.
End WasmCrypto.
