(* ===== verification/SealCorrect.v ===== *)
(** * From [wrap] to [unwrap]

    An archive that [wrap] wrote opens for its device and for every recipient, and the
    recovered chunks are the ones that were read. *)

From S2P Require Import Prelude External Utf8 FileSystem Json Float64 Manifest ManifestCanon.
From S2P Require Import Chain Crypto Keywrap Chronicle Archive ArchiveLemmas ArchiveCorrect.
From S2P Require Import VerifyChronicle Cli CliCorrect Wrap WrapCorrect Unwrap UnwrapCorrect.

Section SealLemmas.
Context `{Blake3Laws} `{HexLaws} `{Base64Laws} `{Ed25519Laws} `{P256} `{AeadLaws} `{KdfLaws}
  `{HpkeLaws} `{SerdeJsonLaws} `{SerdeValue} `{BundleJson} `{ManifestJson} `{StateJson} `{IoText}
  `{SeededRng} `{Rfc3339} `{ReportJson}.

(** ** The content key *)

Lemma recipient_pubs_elem (ka : bytes) (rs : list bytes) (r : bytes) :
  r ∈ ka :: rs → r ∈ recipient_pubs ka rs.
Proof.
  assert (∀ rs acc, r ∈ acc ∨ r ∈ rs →
    r ∈ foldl (λ acc r, if decide (r ∈ acc) then acc else acc ++ [r]) acc rs) as Hgen.
  { clear. induction rs as [|x rs IH]; intros acc [Hr|Hr]; cbn; [done|set_solver| |];
      apply IH; case_decide; set_solver. }
  intros Hr. apply Hgen. set_solver.
Qed.

Lemma wrap_encryption_inv a env pub ka m m' :
  wc_sign_only a = false → wrap_encryption a env pub ka m = Ok m' →
  ∃ c rs, to_canonical_bytes m = Ok c
    ∧ Forall2 (λ p r, seal_recipient (dr_hpke (wrap_draws a env)) (cek_wrap_info pub (trst_version m))
        (segment_hash c) (dr_cek (wrap_draws a env)) p = Ok r)
        (enumerate (recipient_pubs ka (wc_recipients a))) rs
    ∧ m' = set_encryption (Some (mkEncryptionBlock CONTENT_AEAD_ID
             (mkHpkeSuite HPKE_KEM_ID HPKE_KDF_ID HPKE_AEAD_ID) rs)) m.
Proof.
  intros Hs. unfold wrap_encryption, wrap_cek. rewrite Hs. intros He.
  apply bind_ok in He as (c & Hc%map_err_ok & He). apply bind_ok in He as (rs & Hrs%map_res_ok & He).
  apply Ok_inj in He as <-. by exists c, rs.
Qed.

Lemma seal_recipient_inv rng info aad cek p r :
  seal_recipient rng info aad cek p = Ok r → recipient_pub r = p.2
  ∧ hpke_seal_cek_with_rng (rng p.1) p.2 info aad cek = Ok (enc r, wrapped_cek r).
Proof. unfold seal_recipient. intros Hs. inv_ok. case_match. inv_ok. by subst. Qed.

(** The first entry for a recipient's key opens to the content key. *)
Lemma find_recipient (k : KeyAgreementKeypair) rng info aad cek pubs rs :
  length cek = 32 → k = ka_of_secret (ka_secret k) → ka_public_string k ∈ pubs →
  Forall2 (λ p r, seal_recipient rng info aad cek p = Ok r) (enumerate pubs) rs →
  ∃ r, List.find (λ r, bool_decide (recipient_pub r = ka_public_string k)) rs = Some r
    ∧ hpke_open_cek k (enc r) info aad (wrapped_cek r) = Ok cek.
Proof.
  intros Hl Hk. unfold enumerate. generalize 0 as i. revert rs.
  induction pubs as [|p pubs IH]; intros rs i Hin Hf; [set_solver|].
  cbn [enumerate_from] in Hf. apply Forall2_cons_inv_l in Hf as (r & rs' & Hr & Hf & ->).
  apply seal_recipient_inv in Hr as [Hp Hr]. cbn [fst snd] in Hp, Hr. cbn [List.find].
  case_bool_decide as Heq.
  - exists r. split; [done|]. eapply hpke_open_seal_cek; [done|done|].
    by rewrite <-Heq, Hp.
  - eapply IH; [|done]. apply elem_of_cons in Hin as [Hx|?]; [congruence|done].
Qed.

(** What [unwrap] derives from the manifest that [wrap] wrote. *)
Definition context_of (a : WrapCmd) (env : WrapEnv) (b : DeviceBundle) : option (bytes * bytes) :=
  (λ cek, (cek, chunk_aad_v2 (public (signing b)) (wc_profile a) (wrap_started_at a env)))
    <$> wrap_cek a env.

Lemma wrapped_context a env b b' cs link m sig :
  env_typed a env → wf_bundle b → wf_bundle b' → wrapped_manifest a env b cs link m sig →
  (wc_sign_only a = false → ka_public_string (key_agreement b')
    ∈ ka_public_string (key_agreement b) :: wc_recipients a) →
  decrypt_context b' m = Ok (context_of a env b).
Proof.
  intros Het Hwf (_ & _ & Hk) Hw Hr. pose proof (wrapped_signature _ _ _ _ _ _ _ Hwf Hw)
    as (Hv & Hp & Hd & _). pose proof Hw as [_ (id & md & m0 & _ & Hmd & He & _ & Hm)].
  assert (manifest_started_at m = wrap_started_at a env) as Hst.
  { eapply wrap_metadata_started; [done|]. rewrite Hm.
    apply wrap_encryption_frame in He as (e & -> & _ & _). by destruct link. }
  unfold decrypt_context, context_of. rewrite Hst, Hd, Hp, Hv, Hm.
  destruct (wc_sign_only a) eqn:Hs.
  { apply wrap_encryption_frame in He as (e & -> & He & _). rewrite (He Hs).
    unfold wrap_cek. rewrite Hs. by destruct link. }
  apply wrap_encryption_inv in He as (c & rs & Hc & Hrs & ->); [|done].
  unfold wrap_cek. rewrite Hs. cbn [set_signature set_sig set_encryption encryption recipients].
  replace (trst_version _) with (lit "0.2.0") in Hrs by (by destruct link).
  eapply find_recipient in Hrs as (r & -> & Hopen);
    [|apply (et_cek _ _ Het)|apply Hk|by apply recipient_pubs_elem, Hr].
  cbn [ok_or mbind result_bind].
  match goal with |- context [to_canonical_bytes ?x] =>
    assert (to_canonical_bytes x = Ok c) as -> by (rewrite <-Hc; by destruct link) end.
  cbn [map_err mbind result_bind]. by rewrite Hopen.
Qed.

(** ** The chunks *)

Lemma recover_stored a env b i nonce d c :
  length nonce = 24 →
  store_chunk (wrap_cek a env)
    (chunk_aad_v2 (public (signing b)) (wc_profile a) (wrap_started_at a env)) nonce d = Ok c →
  recover_chunk (context_of a env b) i c = Ok d.
Proof.
  intros Hn. unfold context_of. destruct (wrap_cek a env) as [cek|]; cbn; [|by intros [= ->]].
  unfold encrypt_segment. intros Hs. inv_ok.
  match goal with E : aead_encrypt _ _ _ _ _ = Some _ |- _ => apply aead_decrypt_encrypt in E as Hd end.
  rewrite length_app, Hn. cbn [ensure mbind result_bind Nat.leb Nat.add].
  rewrite take_app_length', drop_app_length' by done. unfold decrypt_segment. by rewrite Hd.
Qed.

Lemma recover_all_stored a env b data cs :
  env_typed a env → stored_chunks a env b data = Ok cs →
  recover_all (context_of a env b) 0 cs
  = Ok (input_chunks (env_reads env) (wc_chunk_size a) data).
Proof.
  intros Het Hcs%map_res_ok. apply map_res_ok.
  apply Forall2_same_length_lookup_2.
  { apply Forall2_length in Hcs. unfold enumerate in Hcs. by rewrite !length_enumerate_from in *. }
  intros k [i c] d Hc Hd. rewrite lookup_enumerate_from in Hc.
  apply fmap_Some in Hc as (c' & Hc & [= -> ->]). cbn [fst snd].
  eapply Forall2_lookup_r in Hcs as ([i' d'] & Hd' & Hst); [|done].
  unfold enumerate in Hd'. rewrite lookup_enumerate_from, Hd in Hd'. injection Hd' as <- <-.
  eapply recover_stored; [apply (et_nonce _ _ Het)|done].
Qed.

(** ** The archive *)

(** [wrap] of [data] into a new directory succeeded and wrote the manifest text [j], which serde
    reads as what it printed. *)
Record wrap_run (a : WrapCmd) (env : WrapEnv) (s s' : fs) (res : WrapResult) (b : DeviceBundle)
    (data j : bytes) : Prop := {
  wr_typed : env_typed a env;
  wr_absent : absent (wc_output a) s;
  wr_state p : wc_chronicle a = Some p → ¬ wc_output a `prefix_of` p;
  wr_key : ∃ s1, load_or_generate_bundle (wc_device_key a) (wc_unencrypted a) (env_key env) s
                 = (Ok b, s1) ∧ read_file (wc_input a) s1 = Ok data;
  wr_count : (N.of_nat (length (input_chunks (env_reads env) (wc_chunk_size a) data)) ≤ u32_max)%N;
  wr_ok : handle_wrap a env s = (Ok res, s');
  wr_written : s' !! manifest_path (wc_output a) = Some (File j);
  wr_reads_back m : manifest_to_json m = Ok j → manifest_from_json j = Ok m;
}.

(** What the run wrote: a signed archive, which is intact when its manifest is valid. *)
Record wrapped_archive (a : WrapCmd) (env : WrapEnv) (s' : fs) (b : DeviceBundle) (data j : bytes)
    (m : TrstManifest) (sig : bytes) (cs : list bytes) : Prop := {
  wa_bundle : wf_bundle b;
  wa_json : manifest_to_json m = Ok j;
  wa_chunks : stored_chunks a env b data = Ok cs;
  wa_manifest : ∃ link, wrapped_manifest a env b cs link m sig;
  wa_read : read_manifest (wc_output a) s' = Ok (m, sig);
  wa_intact : valid_manifest m → intact (wc_output a) s' m sig cs;
  wa_data : data ≠ [];
}.

Lemma wrap_run_archive (a : WrapCmd) (env : WrapEnv) (s s' : fs) (res : WrapResult)
    (b : DeviceBundle) (data j : bytes) :
  wrap_run a env s s' res b data j → ∃ m sig cs, wrapped_archive a env s' b data j m sig cs.
Proof.
  intros [Het Habs Hstate (s1 & Hb & Hdata) Hcount Hok Hj Hback].
  destruct (handle_wrap_ok a env s s' res Het Habs Hstate Hok)
    as (b0 & s10 & data0 & Hb0 & Hwf & Hdata0 & Hne & Hsz & Har).
  rewrite Hb in Hb0. injection Hb0 as <- <-. rewrite Hdata in Hdata0. apply Ok_inj in Hdata0 as <-.
  destruct (Har Hcount) as (cs & link & m & j0 & sig & Hcs & Hm & Hj0 & Hcap & Hia & _).
  rewrite (ia_manifest _ _ _ _ _ Hia) in Hj. injection Hj as ->.
  destruct (wrapped_signature _ _ _ _ _ _ _ Hwf Hm) as (_ & _ & _ & Hsig & _).
  destruct (wrapped_sig_text _ _ _ _ _ _ _ Hm) as [Htext Hsc].
  exists m, sig, cs. constructor; [done|done|done|by exists link| | |done].
  - eapply archive_read_manifest; [done|by apply Hback| |done|done]. rewrite Hsig. by intros e [= <-].
  - intros Hv. eapply archive_intact; [done|]. eapply wrapped_storable; try done. by apply Hback.
Qed.

(** A valid manifest has segments, so that the chunks are those of the input. *)
Lemma wrapped_valid_chunks a env s' b data j m sig cs :
  wrapped_archive a env s' b data j m sig cs → valid_manifest m →
  concat (input_chunks (env_reads env) (wc_chunk_size a) data) = data.
Proof.
  intros [Hwf _ Hcs (link & Hm) _ _ _] Hv.
  destruct (N.eq_0_gt_0_cases (wc_chunk_size a)) as [Hz|Hpos].
  - unfold stored_chunks in Hcs. rewrite Hz, input_chunks_zero in Hcs. apply Ok_inj in Hcs as <-.
    destruct (wrapped_signature _ _ _ _ _ _ _ Hwf Hm) as (_ & _ & _ & _ & Hsegs & _).
    by destruct (vm_nonempty _ Hv).
  - by destruct (input_chunks_split (env_reads env) (wc_chunk_size a) data Hpos).
Qed.

(** Complete flags and a well-formed link make a valid manifest. *)
Lemma wrapped_flags_valid a env s' b data j m sig cs :
  wrapped_archive a env s' b data j m sig cs → rfc3339_nonempty → flags_complete a env →
  valid_link (sequence m) (prev_archive_hash m) → valid_manifest m.
Proof.
  intros [Hwf _ Hcs (link & Hm) _ _ Hne] Hrfc Hfc Hlink. eapply wrapped_valid; try done.
  intros ->. apply map_res_ok, Forall2_length in Hcs. unfold enumerate in Hcs.
  rewrite length_enumerate_from in Hcs. apply nil_length_inv in Hcs.
  destruct (input_chunks_split (env_reads env) (wc_chunk_size a) data (fc_chunk_size _ _ Hfc)) as [Hcat _ _].
  rewrite Hcs in Hcat. by destruct data.
Qed.

(** The archive verifies under the device's key exactly when the manifest is valid. *)
Lemma wrapped_verdict a env s' b data j m sig cs n :
  wrapped_archive a env s' b data j m sig cs →
  (valid_manifest m ∧ n = 0%N ∨ ¬ valid_manifest m ∧ n = 11%N) →
  verdict (wc_output a) (public (signing b)) s' n.
Proof.
  intros [Hwf _ Hcs (link & Hm) Hr Hi _] Hn.
  destruct (wrapped_signature _ _ _ _ _ _ _ Hwf Hm) as (Hv & _ & _ & Hsig & _ & c & Hc & Hver).
  assert (signed_archive (wc_output a) s' m sig c) as Hsa by (split_and!; eauto).
  destruct Hn as [[Hvm ->]|[Hvm ->]].
  - eapply verdict_pass; [done|done|by apply Hi].
  - eapply verdict_broken; [done|done|]. intros m' d' cs' Hi'. apply Hvm.
    pose proof (in_manifest _ _ _ _ _ Hi') as Hr'. rewrite Hr in Hr'. apply Ok_inj in Hr'. injection Hr' as -> ->.
    apply Hi'.
Qed.

(** A valid archive unwraps to the input with any key it was made for, an invalid one with none. *)
Lemma wrapped_unwraps (a : WrapCmd) (env : WrapEnv) (s' : fs) (b b' : DeviceBundle) (data j sig : bytes)
    (m : TrstManifest) (cs : list bytes) (args : UnwrapCmd) (pw : option bytes) (pid : N) :
  wrapped_archive a env s' b data j m sig cs → env_typed a env → valid_manifest m → uc_archive args = wc_output a →
  (∀ e, uc_device_pub args = Some e → normalize_device_pub e = public (signing b)) →
  load_bundle (uc_device_key args) (uc_unencrypted args) pw s' = Ok b' →
  (wc_sign_only a = false → ka_public_string (key_agreement b')
    ∈ ka_public_string (key_agreement b) :: wc_recipients a) →
  writable (uc_output args) (unwrap_tmp_path pid (uc_output args)) s' →
  handle_unwrap args pw pid s'
  = (Ok tt, recovered (uc_output args) (unwrap_tmp_path pid (uc_output args)) data s').
Proof.
  intros Hwa Het Hvm Harch Hpin Hload Hr Hw. pose proof (wrapped_valid_chunks _ _ _ _ _ _ _ _ _ Hwa Hvm) as Hcat.
  destruct Hwa as [Hwf _ Hcs (link & Hm) _ Hi _].
  destruct (wrapped_signature _ _ _ _ _ _ _ Hwf Hm) as (Hv & _ & Hd & Hsig & _ & c & Hc & Hver).
  apply handle_unwrap_ok. exists m, cs, (context_of a env b),
    (input_chunks (env_reads env) (wc_chunk_size a) data).
  split_and!; [|by apply recover_all_stored|done|by rewrite Hcat].
  constructor.
  - rewrite Harch. exists sig. by apply Hi.
  - by apply supported_version.
  - intros e He. rewrite Hd. auto.
  - exists sig, c. by rewrite Hd.
  - exists b'. split; [done|]. eapply wrapped_context; try done. by eapply load_bundle_wf.
Qed.

Lemma wrapped_invalid_refused (a : WrapCmd) (env : WrapEnv) (s' : fs) (b : DeviceBundle) (data j sig : bytes)
    (m : TrstManifest) (cs : list bytes) (args : UnwrapCmd) (pw : option bytes) (pid : N) :
  wrapped_archive a env s' b data j m sig cs → ¬ valid_manifest m → uc_archive args = wc_output a →
  is_ok (handle_unwrap args pw pid s').1 = false.
Proof.
  intros Hwa Hvm Harch. destruct (handle_unwrap args pw pid s') as [[[]|e] s2] eqn:Hu; [|done]. exfalso.
  apply handle_unwrap_ok in Hu as (m' & cs' & ctx & ds & [[sig' Hi] _ _ _ _] & _). apply Hvm.
  pose proof (in_manifest _ _ _ _ _ Hi) as Hr. rewrite Harch, (wa_read _ _ _ _ _ _ _ _ _ Hwa) in Hr.
  apply Ok_inj in Hr. injection Hr as -> ->. apply Hi.
Qed.
End SealLemmas.
