(* ===== verification/VerifyEngineCorrect.v ===== *)
(** * Correctness of the verification engine

    Which reports pass, and that what the command line accepts and submits does. *)

From S2P Require Import Prelude External Utf8 FileSystem Json Float64 Manifest ManifestCanon.
From S2P Require Import Chain Crypto Keywrap Chronicle Attestation Archive ArchiveLemmas.
From S2P Require Import ArchiveCorrect VerifyChronicle Cli Wrap Unwrap UnwrapCorrect.
From S2P Require Import VerifyEngine Commands.

(** ** Sorting by a key that is the position *)

Lemma sorted_positions {A} (key : A → N) (l : list A) :
  (∀ i x, l !! i = Some x → key x = N.of_nat i) → StronglySorted (key_le key) l.
Proof.
  intros Hk. assert (∀ k, (∀ i x, l !! i = Some x → key x = N.of_nat (k + i)) →
    StronglySorted (key_le key) l) as Hgen; [|by apply (Hgen 0)]. clear Hk.
  induction l as [|x l IH]; intros k Hk; constructor.
  - apply (IH (S k)). intros i y Hy. rewrite (Hk (S i) y Hy). lia.
  - apply Forall_lookup. intros i y Hy. rewrite (Hk (S i) y Hy), (Hk 0 x eq_refl). lia.
Qed.

Lemma sort_by_position {A} (key : A → N) (l cs : list A) :
  cs ≡ₚ l → (∀ i x, cs !! i = Some x → key x = N.of_nat i) → sort_by_key key l = cs.
Proof.
  intros Hp Hk. assert (sort_by_key key l ≡ₚ cs) as Hpc by (by rewrite sort_by_key_perm).
  assert (key <$> sort_by_key key l = key <$> cs) as Hkeys.
  { apply (StronglySorted_unique N.le).
    - eapply StronglySorted_fmap; [|apply sort_by_key_sorted]. done.
    - eapply StronglySorted_fmap; [|by apply sorted_positions]. done.
    - by rewrite Hpc. }
  apply list_eq_same_length with (length cs); [done|by apply Permutation_length|].
  intros i x y _ Hx Hy. assert (x ∈ cs) as (j & Hj)%list_elem_of_lookup_1
    by (rewrite <-Hpc; by eapply list_elem_of_lookup_2).
  assert (key x = key y) as Hxy.
  { apply (f_equal (lookup i)) in Hkeys. rewrite !list_lookup_fmap, Hx, Hy in Hkeys.
    by injection Hkeys. }
  rewrite (Hk _ _ Hj), (Hk _ _ Hy) in Hxy. apply Nat2N.inj in Hxy as ->. congruence.
Qed.

Section EngineLemmas.
Context `{Blake3Laws} `{HexLaws} `{Base64Laws} `{Ed25519Laws} `{P256} `{SerdeJsonLaws}
  `{ManifestValue}.

(** ** Hashes *)

Lemma hex_no_prefix b : strip_prefix (lit "b3:") (hex_encode b) = None.
Proof.
  destruct (strip_prefix (lit "b3:") (hex_encode b)) as [r|] eqn:E; [|done].
  apply strip_prefix_spec in E. pose proof (hex_encode_lower b) as Hl. rewrite E in Hl.
  apply (Forall_lookup_1 _ _ 2 ":"%char) in Hl as [Hl _]; [|done]. by vm_compute in Hl.
Qed.

Lemma decode_hex_32 b : length b = 32 → decode_b3_hex_32 (hex_encode b) = Some b.
Proof.
  intros Hb. unfold decode_b3_hex_32. rewrite hex_no_prefix. cbn [default].
  rewrite hex_decode_encode. cbn. by rewrite Hb.
Qed.

Lemma lower_hex b : to_ascii_lowercase (hex_encode b) = hex_encode b.
Proof. apply hex_decode_lower, hex_decode_encode. Qed.

(** ** Continuity *)

Definition normalized (h : bytes) : bytes :=
  to_ascii_lowercase (default h (strip_prefix (lit "b3:") h)).

(** The submitted segments are those of the manifest, in any order; the manifest's hashes
    are [hs] and its continuity hashes the chain over them. *)
Record continuity_ok (m : TrstManifest) (client : list SegmentRef) (hs : list hash32) : Prop := {
  ct_hashes : Forall2 (λ seg h, decode_b3_hex_32 (blake3_hash seg) = Some h) (segments m) hs;
  ct_chain : Forall2 (λ seg c, decode_b3_hex_32 (continuity_hash seg) = Some c) (segments m)
               (chain_from genesis hs);
  ct_client : ∃ cs, cs ≡ₚ client ∧ Forall2 (λ p seg, sr_index p.2 = N.of_nat p.1
                ∧ normalized (sr_hash p.2) = to_ascii_lowercase (blake3_hash seg))
                (enumerate cs) (segments m);
}.

Lemma decode_segment_ok p seg :
  decode_segment p = Ok seg ↔ decode_b3_hex_32 (blake3_hash p.2) = Some (stored_hash seg)
    ∧ decode_b3_hex_32 (continuity_hash p.2) = Some (stored_continuity seg) ∧ index seg = p.1.
Proof.
  unfold decode_segment. split.
  - intros Hd. inv_ok. done.
  - intros (-> & -> & Hi). destruct seg. cbn in *. by subst.
Qed.

Lemma bind_segment_ok segs p :
  bind_segment segs p = Ok tt ↔ sr_index p.2 = N.of_nat p.1 ∧ ∃ seg, segs !! p.1 = Some seg
    ∧ normalized (sr_hash p.2) = to_ascii_lowercase (blake3_hash seg).
Proof.
  destruct p as [i cs]. unfold bind_segment. cbn [fst snd].
  rewrite bind_unit_ok, ensure_ok, Nat.eqb_eq, bind_ok. setoid_rewrite ok_or_ok.
  setoid_rewrite ensure_ok. setoid_rewrite bool_decide_eq_true. unfold normalized.
  split; intros [Hi ?]; (split; [lia|done]).
Qed.

Lemma bind_client_ok segs client :
  bind_client_segments segs client = Ok tt ↔
  ∃ cs, cs ≡ₚ client ∧ Forall2 (λ p seg, sr_index p.2 = N.of_nat p.1
    ∧ normalized (sr_hash p.2) = to_ascii_lowercase (blake3_hash seg)) (enumerate cs) segs.
Proof.
  unfold bind_client_segments. rewrite bind_unit_ok, ensure_ok, Nat.eqb_eq, for_each_ok.
  setoid_rewrite bind_segment_ok. unfold enumerate. split.
  - intros [Hl Hall]. exists (sort_by_key sr_index client). split; [apply sort_by_key_perm|].
    apply Forall2_same_length_lookup_2.
    { by rewrite length_enumerate_from, sort_by_key_perm. }
    intros i p seg Hp Hseg. eapply Forall_lookup_1 in Hall as (Hi & seg' & Hseg' & Hn); [|done].
    rewrite lookup_enumerate_from in Hp. apply fmap_Some in Hp as (c & _ & ->). cbn in *.
    rewrite Hseg in Hseg'. by injection Hseg' as <-.
  - intros (cs & Hp & Hf). pose proof (Forall2_length _ _ _ Hf) as Hl.
    rewrite length_enumerate_from in Hl. split; [by rewrite <-(Permutation_length Hp)|].
    rewrite (sort_by_position sr_index client cs Hp).
    + apply Forall_lookup. intros i p Hpi.
      eapply Forall2_lookup_l in Hf as (seg & Hseg & Hi & Hn); [|done].
      rewrite lookup_enumerate_from in Hpi. apply fmap_Some in Hpi as (c & _ & ->). cbn in *. eauto.
    + intros i x Hx. eapply (Forall2_lookup_l _ _ _ i (i, x)) in Hf as (seg & _ & Hi & _); [done|].
      by rewrite lookup_enumerate_from, Hx.
Qed.

Lemma decode_chain_ok segs chain :
  map_res decode_segment (enumerate segs) = Ok chain ↔
  Forall2 (λ seg h, decode_b3_hex_32 (blake3_hash seg) = Some h) segs (stored_hash <$> chain)
  ∧ Forall2 (λ seg c, decode_b3_hex_32 (continuity_hash seg) = Some c) segs
      (stored_continuity <$> chain)
  ∧ ∀ i s, chain !! i = Some s → index s = i.
Proof.
  rewrite map_res_ok. unfold enumerate.
  assert (∀ k, Forall2 (λ x y, decode_segment x = Ok y) (enumerate_from k segs) chain ↔
    Forall2 (λ seg h, decode_b3_hex_32 (blake3_hash seg) = Some h) segs (stored_hash <$> chain)
    ∧ Forall2 (λ seg c, decode_b3_hex_32 (continuity_hash seg) = Some c) segs
        (stored_continuity <$> chain) ∧ ∀ i s, chain !! i = Some s → index s = k + i) as ->; [|done].
  revert chain. induction segs as [|seg segs IH]; intros chain k; cbn [enumerate_from].
  { split.
    - intros ->%Forall2_nil_inv_l. by split_and!; [constructor..|].
    - intros (Hf & _ & _). apply Forall2_nil_inv_l, fmap_nil_inv in Hf as ->. constructor. }
  destruct chain as [|c chain]; [split; [by intros ?%Forall2_cons_nil_inv|]; by intros (?%Forall2_cons_nil_inv & _)|].
  rewrite Forall2_cons, IH, decode_segment_ok, !fmap_cons, !Forall2_cons. cbn [fst snd]. split.
  - intros ((? & ? & Hi) & ? & ? & Hall). split_and!; try done.
    intros [|i] s; cbn; [intros [= <-]; lia|]. intros Hs%Hall. lia.
  - intros ([? ?] & [? ?] & Hall). split_and!; try done.
    + specialize (Hall 0 c eq_refl). lia.
    + intros i s Hs. specialize (Hall (S i) s Hs). lia.
Qed.

Lemma verify_continuity_ok m client :
  passed (co_result (verify_continuity m client)) = true ↔ ∃ hs, continuity_ok m client hs.
Proof.
  unfold verify_continuity. split.
  - destruct (_ ≫= _) as [chain|msg] eqn:E; [|done]. intros _.
    apply bind_ok in E as (chain' & Hc & E). apply bind_ok in E as ([] & Hb & E).
    apply bind_ok in E as ([] & Hv%map_err_ok & E). apply Ok_inj in E as ->.
    apply decode_chain_ok in Hc as (Hh & Hcc & _). apply bind_client_ok in Hb.
    apply validate_chain_ok in Hv as [_ Hv]. exists (stored_hash <$> chain).
    constructor; [done| |done]. by rewrite <-Hv.
  - intros (hs & [Hh Hc Hb]). apply bind_client_ok in Hb.
    set (chain := (λ p, mkChainSegment p.1 p.2.1 p.2.2) <$> enumerate (zip hs (chain_from genesis hs))).
    assert (stored_hash <$> chain = hs ∧ stored_continuity <$> chain = chain_from genesis hs
      ∧ ∀ i s, chain !! i = Some s → index s = i) as (E1 & E2 & E3).
    { unfold chain. split_and!.
      - rewrite <-list_fmap_compose. transitivity ((enumerate (zip hs (chain_from genesis hs))).*2.*1).
        + by rewrite <-list_fmap_compose.
        + unfold enumerate. rewrite enumerate_from_fmap, fst_zip; [done|].
          by rewrite length_chain_from.
      - rewrite <-list_fmap_compose. transitivity ((enumerate (zip hs (chain_from genesis hs))).*2.*2).
        + by rewrite <-list_fmap_compose.
        + unfold enumerate. rewrite enumerate_from_fmap, snd_zip; [done|].
          by rewrite length_chain_from.
      - intros i s Hs. rewrite list_lookup_fmap in Hs. unfold enumerate in Hs.
        rewrite lookup_enumerate_from in Hs.
        destruct (zip hs (chain_from genesis hs) !! i); [|done]. by injection Hs as <-. }
    rewrite (proj2 (decode_chain_ok (segments m) chain)) by (rewrite E1, E2; done).
    cbn [mbind result_bind]. rewrite Hb. cbn [mbind result_bind].
    rewrite (proj2 (validate_chain_ok chain)); [done|]. constructor; [done|]. by rewrite E1, E2.
Qed.

(** The tip of a passing report. *)
Lemma verify_continuity_tip m client hs :
  continuity_ok m client hs →
  co_chain_tip (verify_continuity m client) = format_b3 (chain_tip genesis hs)
  ∧ co_verified_segments (verify_continuity m client) = as_u32 (N.of_nat (length (segments m))).
Proof.
  intros [Hh Hc Hb]. pose proof (proj2 (verify_continuity_ok m client)
    (ex_intro _ hs (Build_continuity_ok m client hs Hh Hc Hb))) as Hp.
  unfold verify_continuity in *. destruct (_ ≫= _) as [chain|msg] eqn:E; [|done]. clear Hp.
  apply bind_ok in E as (chain' & Hd & E). apply bind_ok in E as ([] & _ & E).
  apply bind_ok in E as ([] & Hv%map_err_ok & E). apply Ok_inj in E as ->.
  apply decode_chain_ok in Hd as (Hh' & Hc' & _). apply validate_chain_ok in Hv as [_ Hv].
  assert (stored_hash <$> chain = hs) as Hhs.
  { clear -Hh Hh'. revert hs Hh. generalize dependent (stored_hash <$> chain).
    induction (segments m) as [|seg l IH]; intros l' Hl' hs Hh.
    - apply Forall2_nil_inv_l in Hl' as ->. by apply Forall2_nil_inv_l in Hh as ->.
    - apply Forall2_cons_inv_l in Hl' as (x & l1 & Hx & Hl1 & ->).
      apply Forall2_cons_inv_l in Hh as (y & l2 & Hy & Hl2 & ->). f_equal; [congruence|eauto]. }
  split.
  - cbn [co_chain_tip]. destruct (decide (chain = [])) as [->|Hne].
    { subst hs. done. }
    assert (hs ≠ []) as Hhne by (intros ->; by apply fmap_nil_inv in Hhs).
    apply (last_chain_from genesis) in Hhne. rewrite <-Hhs, <-Hv, fmap_last in Hhne.
    rewrite Hhs in Hhne. destruct (last chain) as [s|]; [|done]. by injection Hhne as ->.
  - cbn [co_verified_segments]. apply Forall2_length in Hh'. by rewrite Hh', length_fmap.
Qed.

(** ** The report *)

(** The posted manifest is of the supported version, claims the given key and is signed by it. *)
Definition manifest_signed (m : TrstManifest) (pub : bytes) : Prop :=
  trst_version m = SUPPORTED_TRST_VERSION ∧ dev_public_key (device m) = pub
  ∧ ∃ sig c, signature m = Some sig ∧ to_canonical_bytes m = Ok c ∧ signed_by pub c sig.

Lemma signed_by_prefix pub c sig :
  signed_by pub c sig → starts_with (lit "ed25519:") pub || starts_with (lit "ecdsa-p256:") pub = true.
Proof.
  intros [k s Hk _ _ _ _ _|k s Hk _ _ _ _]; apply orb_true_iff; [left|right];
    apply starts_with_spec; rewrite Hk; by eexists.
Qed.

Lemma verify_signature_passed m pub r :
  verify_signature m pub = Ok r → passed r = true →
  dev_public_key (device m) = pub
  ∧ ∃ sig c, signature m = Some sig ∧ to_canonical_bytes m = Ok c ∧ signed_by pub c sig.
Proof.
  unfold verify_signature. intros Hv Hp. apply bind_ok in Hv as ([] & _ & Hv).
  case_bool_decide as Hk; cbn [negb] in Hv; [|by apply Ok_inj in Hv as <-].
  apply bind_ok in Hv as (sig & Hsig%ok_or_ok & Hv). apply bind_ok in Hv as (c & Hc%map_err_ok & Hv).
  split; [done|]. exists sig, c. split_and!; [done..|]. apply verify_manifest_ok.
  destruct (verify_manifest pub c sig) as [[]|e]; [done|..]; by apply Ok_inj in Hv as <-.
Qed.

Lemma verify_signature_signed m pub :
  manifest_signed m pub → verify_signature m pub = Ok (mkVerificationResult true None).
Proof.
  intros (_ & Hk & sig & c & Hsig & Hc & Hs). unfold verify_signature.
  rewrite (signed_by_prefix _ _ _ Hs). cbn [ensure mbind result_bind].
  rewrite bool_decide_true by done. cbn [negb]. rewrite Hsig, Hc. cbn [ok_or map_err mbind result_bind].
  by rewrite (proj2 (verify_manifest_ok _ _ _) Hs).
Qed.

Definition both_passed (r : VerifyReport) : bool :=
  passed (signature_verification r) && passed (continuity_verification r).

Lemma verify_to_report_passes v client pub :
  (∃ r, verify_to_report v client pub = Ok r ∧ both_passed r = true) ↔
  ∃ m hs, manifest_from_value v = Ok m ∧ manifest_signed m pub ∧ continuity_ok m client hs.
Proof.
  unfold verify_to_report, both_passed. split.
  - intros (r & Hr & Hp). apply bind_ok in Hr as (m & Hm%map_err_ok & Hr).
    apply bind_ok in Hr as ([] & Hv%ensure_ok & Hr). apply bool_decide_eq_true in Hv.
    apply bind_ok in Hr as (sr & Hs & Hr). apply Ok_inj in Hr as <-.
    cbn in Hp. apply andb_true_iff in Hp as [Hp1 Hp2].
    apply verify_continuity_ok in Hp2 as [hs Hc].
    destruct (verify_signature_passed _ _ _ Hs Hp1) as (? & ?). exists m, hs. by split_and!.
  - intros (m & hs & Hm & Hs & Hc). rewrite Hm. cbn [map_err mbind result_bind].
    rewrite bool_decide_true by apply Hs. cbn [ensure mbind result_bind].
    rewrite (verify_signature_signed m pub Hs). cbn [mbind result_bind]. eexists. split; [done|].
    cbn. apply verify_continuity_ok. eauto.
Qed.

Lemma verify_to_report_tip v client pub r m hs :
  verify_to_report v client pub = Ok r → manifest_from_value v = Ok m → continuity_ok m client hs →
  vm_chain_tip (report_metadata r) = format_b3 (chain_tip genesis hs).
Proof.
  unfold verify_to_report. intros Hr Hm Hc. rewrite Hm in Hr. cbn [map_err mbind result_bind] in Hr.
  apply bind_ok in Hr as ([] & _ & Hr). apply bind_ok in Hr as (sr & _ & Hr).
  apply Ok_inj in Hr as <-. cbn. by apply verify_continuity_tip.
Qed.

(** ** Validation *)

Lemma hash_regex_ok h :
  hash_regex h = true ↔ ∃ x, h = lit "b3:" ++ x ∧ length x = 64
    ∧ Forall (λ b, is_lower_hex b = true) x.
Proof.
  unfold hash_regex. split.
  - case_match eqn:E; [|done]. apply strip_prefix_spec in E as ->.
    rewrite andb_true_iff, Nat.eqb_eq, forallb_Forall. intros [??]. eauto.
  - intros (x & -> & Hl & Hf). rewrite strip_prefix_app, Hl. by apply forallb_Forall.
Qed.

Lemma hash_regex_hex b : length b = 32 → hash_regex (lit "b3:" ++ hex_encode b) = true.
Proof.
  intros Hb. apply hash_regex_ok. exists (hex_encode b). split_and!; [done|by rewrite length_hex_encode, Hb|].
  eapply Forall_impl; [apply hex_encode_lower|]. intros c [Hh Hl].
  destruct c as [[] [] [] [] [] [] [] []]; vm_compute in Hh, Hl; try done; vm_compute; done.
Qed.
End EngineLemmas.
