(* ===== verification/Witness.v ===== *)
(** * Witness and revocation decisions

    crates/platform/src/witness.rs and crates/platform/src/revocation.rs: the pure
    decisions of the platform about witness requests, revocations and rotation
    lineage.  chrono's RFC 3339 parser is a parameter. *)

From S2P Require Import Prelude External Utf8 FileSystem Json Float64 Manifest ManifestCanon.
From S2P Require Import Chain Crypto Keywrap Chronicle.

(** ** The ledger decision *)

Record WitnessEntry := mkWitnessEntry {
  we_sequence : N; (* u64 *)
  we_tip : bytes;
  we_observed_at : bytes;
}.

Global Instance witness_entry_eq_dec : EqDecision WitnessEntry.
Proof. solve_decision. Defined.

Inductive WitnessDecision :=
  | Record_ (prev : option WitnessEntry)
  | Replay (existing : WitnessEntry) (prev : option WitnessEntry)
  | Fork (existing_tip : bytes)
  | Rollback (max_sequence : N).

(** [iter.max_by_key(|e| e.sequence)]: the last of the maximal elements. *)
Definition max_by_sequence (l : list WitnessEntry) : option WitnessEntry :=
  foldl (λ acc e, match acc with
                  | None => Some e
                  | Some m => if (we_sequence m <=? we_sequence e)%N then Some e else Some m
                  end) None l.

Definition prev_entry (existing : list WitnessEntry) (sequence : N) : option WitnessEntry :=
  max_by_sequence (List.filter (λ e, we_sequence e <? sequence)%N existing).

(** [iter.map(|e| e.sequence).max()] *)
Definition max_sequence_of (l : list WitnessEntry) : option N :=
  foldl (λ acc e, match acc with
                  | None => Some (we_sequence e)
                  | Some m => Some (N.max m (we_sequence e))
                  end) None l.

Definition decide_witness (existing : list WitnessEntry) (sequence : N) (tip : bytes)
    : WitnessDecision :=
  match List.find (λ e, we_sequence e =? sequence)%N existing with
  | Some same =>
      if decide (we_tip same = tip) then Replay same (prev_entry existing sequence)
      else Fork (we_tip same)
  | None =>
      match max_sequence_of existing with
      | Some m =>
          if (sequence <=? m)%N then Rollback m else Record_ (prev_entry existing sequence)
      | None => Record_ (prev_entry existing sequence)
      end
  end.

Record WitnessReceipt := mkWitnessReceipt {
  wrc_device_pub : bytes;
  wrc_device_registered : bool;
  wrc_sequence : N;
  wrc_tip : bytes;
  wrc_observed_at : bytes;
  wrc_prev_sequence : option N;
  wrc_prev_tip : option bytes;
  wrc_prev_observed_at : option bytes;
  wrc_jti : bytes;
}.

Definition build_receipt (device_pub : bytes) (registered : bool) (sequence : N) (tip : bytes)
    (observed_at : bytes) (prev : option WitnessEntry) (jti : bytes) : WitnessReceipt :=
  mkWitnessReceipt device_pub registered sequence tip observed_at
    (we_sequence <$> prev) (we_tip <$> prev) (we_observed_at <$> prev) jti.

(** ** Revocation *)

Record RevocationState := mkRevocationState {
  revoked_at : option bytes;
  min_epoch : option N; (* u32 *)
}.

(** [DateTime::parse_from_rfc3339]: the instant in nanoseconds. *)
Class Chrono := parse_rfc3339 : bytes → option Z.

Inductive RevokeOutcome :=
  | Apply (revoked_at : bytes) (min_epoch : option N)
  | Reject (msg : bytes).

Section Revocation.
Context `{Chrono}.

Definition malformed (r : bytes) : bytes := lit "malformed revoked_at: " ++ r.

Definition new_revoked_at (current req : option bytes) (now : bytes) : result bytes bytes :=
  match current, req with
  | None, None => Ok now
  | None, Some r =>
      match parse_rfc3339 r with None => Err (malformed r) | Some _ => Ok r end
  | Some c, None => Ok c
  | Some c, Some r =>
      match parse_rfc3339 c, parse_rfc3339 r with
      | Some cd, Some rd =>
          if (rd <=? cd)%Z then Ok r
          else Err (lit "revoked_at may only move earlier, never later")
      | _, _ => Err (malformed r)
      end
  end.

Definition new_min_epoch (current req : option N) : result bytes (option N) :=
  match current, req with
  | cur, None => Ok cur
  | None, Some r => Ok (Some r)
  | Some c, Some r =>
      if (c <=? r)%N then Ok (Some r)
      else Err (lit "min_epoch must be non-decreasing (current " ++ fmt_N c ++ lit ", got "
                ++ fmt_N r ++ lit ")")
  end.

Definition decide_revoke (current : RevocationState) (req_revoked_at : option bytes)
    (req_min_epoch : option N) (now : bytes) : RevokeOutcome :=
  match new_revoked_at (revoked_at current) req_revoked_at now with
  | Err msg => Reject msg
  | Ok ra =>
      match new_min_epoch (min_epoch current) req_min_epoch with
      | Err msg => Reject msg
      | Ok me => Apply ra me
      end
  end.
End Revocation.

Definition is_revoked (st : RevocationState) : bool :=
  match revoked_at st with Some _ => true | None => false end.

Definition epoch_allowed (floor : option N) (archive_epoch : N) : bool :=
  match floor with Some f => (f <=? archive_epoch)%N | None => true end.

Definition is_record (d : WitnessDecision) : bool :=
  match d with Record_ _ => true | _ => false end.

Definition refuse_revoked_witness (revoked : bool) (d : WitnessDecision) : bool :=
  revoked && is_record d.

Definition refuse_superseded (rotation_seq : option N) (sequence : N) (d : WitnessDecision) : bool :=
  match rotation_seq with
  | Some rseq => (rseq <? sequence)%N && is_record d
  | None => false
  end.

Inductive LineageCheck :=
  | LineageOk (old_pub : bytes) (rotation_seq : N)
  | LineageReject (msg : bytes).

Section Lineage.
Context `{Blake3} `{Hex} `{Base64} `{Ed25519} `{P256} `{SerdeJson}.

Definition verify_lineage_rotation (rec : RotationRecord) (req_device_pub : bytes)
    (req_sequence : N) (req_tip : bytes) : LineageCheck :=
  if negb (rotation_verify rec) then
    LineageReject (lit "rotation co-signature/epoch verification failed")
  else if negb (bool_decide (new_public_key (rr_new rec) = req_device_pub)) then
    LineageReject (lit "rotation new.public_key does not match the request device_pub")
  else if negb (rr_sequence rec =? req_sequence)%N then
    LineageReject (lit "rotation sequence " ++ fmt_N (rr_sequence rec)
      ++ lit " does not match request sequence " ++ fmt_N req_sequence)
  else if negb (bool_decide (format_archive_id (rotation_digest rec) = req_tip)) then
    LineageReject (lit "rotation digest does not match the witnessed tip")
  else LineageOk (old_public_key (rr_old rec)) (rr_sequence rec).
End Lineage.

(** ** The ledger decision, characterized *)

Lemma max_sequence_of_go l acc :
  foldl (λ acc e, match acc with
                  | None => Some (we_sequence e)
                  | Some m => Some (N.max m (we_sequence e))
                  end) (Some acc) l
  = Some (foldr N.max acc (we_sequence <$> l)).
Proof.
  revert acc; induction l as [|e l IH]; intros acc; cbn; [done|]. rewrite IH. f_equal.
  clear IH. induction l as [|x l IH]; cbn; [lia|]. rewrite IH. lia.
Qed.

Lemma max_sequence_of_None l : max_sequence_of l = None ↔ l = [].
Proof.
  destruct l as [|e l]; [done|]. unfold max_sequence_of. cbn. by rewrite max_sequence_of_go.
Qed.

Lemma max_sequence_of_Some l m :
  max_sequence_of l = Some m ↔
  (∃ e, e ∈ l ∧ we_sequence e = m) ∧ ∀ e, e ∈ l → (we_sequence e ≤ m)%N.
Proof.
  assert (∀ l acc, (∀ e, e ∈ l → we_sequence e ≤ foldr N.max acc (we_sequence <$> l))%N
    ∧ (acc ≤ foldr N.max acc (we_sequence <$> l))%N
    ∧ (foldr N.max acc (we_sequence <$> l) = acc
       ∨ ∃ e, e ∈ l ∧ we_sequence e = foldr N.max acc (we_sequence <$> l))) as Hgo.
  { clear. induction l as [|x l IH]; intros acc; cbn.
    - split_and!; [set_solver|lia|by left].
    - destruct (IH acc) as (Hall & Hacc & Hwit). split_and!.
      + intros e [->|He]%elem_of_cons; [lia|]. apply Hall in He. lia.
      + lia.
      + destruct (N.max_spec (we_sequence x) (foldr N.max acc (we_sequence <$> l))) as [[? ->]|[? ->]].
        * destruct Hwit as [?|(e & ? & ?)]; [by left|right; exists e; set_solver].
        * right. exists x. set_solver. }
  destruct l as [|e l].
  { split; [done|]. intros [(e & He & _) _]. set_solver. }
  unfold max_sequence_of. cbn. rewrite max_sequence_of_go.
  destruct (Hgo l (we_sequence e)) as (Hall & Hacc & Hwit). split.
  - intros [= <-]. split.
    + destruct Hwit as [->|(x & ? & ?)]; [exists e|exists x]; set_solver.
    + intros x [->|Hx]%elem_of_cons; auto.
  - intros [(x & Hx & <-) Hub]. f_equal. apply N.le_antisymm.
    + destruct Hwit as [->|(y & Hy & <-)]; apply Hub; set_solver.
    + apply elem_of_cons in Hx as [->|Hx]; auto.
Qed.

Lemma find_sequence_None l q :
  List.find (λ e, we_sequence e =? q)%N l = None ↔ ∀ e, e ∈ l → we_sequence e ≠ q.
Proof.
  split.
  - intros Hf e He. apply list_elem_of_In in He. apply (List.find_none _ _ Hf), N.eqb_neq in He. done.
  - intros Hall. destruct (List.find _ _) as [e|] eqn:E; [|done].
    apply List.find_some in E as [He%list_elem_of_In Heq%N.eqb_eq]. by destruct (Hall e He).
Qed.

(** A tip is recorded exactly when its sequence is above every witnessed one. *)
Lemma decide_record_iff l q t :
  is_record (decide_witness l q t) = true ↔ ∀ e, e ∈ l → (we_sequence e < q)%N.
Proof.
  unfold decide_witness. destruct (List.find _ _) as [same|] eqn:Hf.
  - apply List.find_some in Hf as [Hin%list_elem_of_In Heq%N.eqb_eq].
    split; [by case_decide|]. intros Hall. apply Hall in Hin. lia.
  - rewrite find_sequence_None in Hf.
    destruct (max_sequence_of l) as [m|] eqn:Hm.
    + apply max_sequence_of_Some in Hm as [(e & He & <-) Hub].
      destruct (N.leb_spec q (we_sequence e)); cbn.
      * split; [done|]. intros Hall. apply Hall in He. lia.
      * split; [|done]. intros _ x Hx. apply Hub in Hx. lia.
    + apply max_sequence_of_None in Hm as ->. split; [|done]. set_solver.
Qed.

Lemma find_sequence_Some l q e :
  List.find (λ e, we_sequence e =? q)%N l = Some e → e ∈ l ∧ we_sequence e = q.
Proof. intros [? ?%N.eqb_eq]%List.find_some. split; [by apply list_elem_of_In|done]. Qed.

Lemma decide_replay_inv l q t e p :
  decide_witness l q t = Replay e p → e ∈ l ∧ we_sequence e = q ∧ we_tip e = t.
Proof.
  unfold decide_witness. destruct (List.find _ _) as [same|] eqn:Hf.
  - apply find_sequence_Some in Hf as [? ?]. case_decide; [|done]. by intros [= <- _].
  - repeat case_match; done.
Qed.

(** With one row per sequence, the decision is determined by the ledger. *)
Definition unique_sequences (l : list WitnessEntry) : Prop :=
  ∀ e e', e ∈ l → e' ∈ l → we_sequence e = we_sequence e' → e = e'.

Lemma decide_cases l q t :
  unique_sequences l →
  match decide_witness l q t with
  | Record_ p => (∀ e, e ∈ l → we_sequence e < q)%N ∧ p = max_by_sequence l
  | Replay e p => e ∈ l ∧ we_sequence e = q ∧ we_tip e = t ∧ p = prev_entry l q
  | Fork t' => ∃ e, e ∈ l ∧ we_sequence e = q ∧ we_tip e = t' ∧ t' ≠ t
  | Rollback m => (∀ e, e ∈ l → we_sequence e ≠ q) ∧ (q < m)%N
      ∧ (∃ e, e ∈ l ∧ we_sequence e = m) ∧ ∀ e, e ∈ l → (we_sequence e ≤ m)%N
  end.
Proof.
  intros Hu. pose proof (decide_record_iff l q t) as Hrec. unfold decide_witness in *.
  destruct (List.find _ _) as [same|] eqn:Hf.
  - apply find_sequence_Some in Hf as [? ?]. case_decide; [done|]. eauto.
  - rewrite find_sequence_None in Hf.
    assert ((∀ e, e ∈ l → we_sequence e < q)%N → prev_entry l q = max_by_sequence l) as Hprev.
    { intros Hall. unfold prev_entry. f_equal. clear -Hall.
      induction l as [|x l IH]; cbn; [done|].
      rewrite (proj2 (N.ltb_lt _ _)) by (apply Hall; set_solver). f_equal. apply IH. set_solver. }
    destruct (max_sequence_of l) as [m|] eqn:Hm; [|naive_solver].
    apply max_sequence_of_Some in Hm as [(e & He & <-) Hub].
    destruct (N.leb_spec q (we_sequence e)).
    + split_and!; [done| |eauto|done]. specialize (Hf e He). lia.
    + naive_solver.
Qed.

(** ** The previous entry *)

Lemma max_by_sequence_spec l :
  match max_by_sequence l with
  | None => l = []
  | Some m => m ∈ l ∧ ∀ e, e ∈ l → (we_sequence e ≤ we_sequence m)%N
  end.
Proof.
  induction l as [|x l IH] using rev_ind; [done|].
  unfold max_by_sequence in *. rewrite foldl_snoc.
  destruct (foldl _ None l) as [m|].
  - destruct IH as [Hm Hub]. destruct (N.leb_spec (we_sequence m) (we_sequence x)).
    + split; [set_solver|]. intros e. rewrite elem_of_app, list_elem_of_singleton.
      intros [He| ->]; [apply Hub in He; lia|lia].
    + split; [set_solver|]. intros e. rewrite elem_of_app, list_elem_of_singleton.
      intros [He| ->]; [auto|lia].
  - subst. cbn. split; [set_solver|]. intros e. rewrite list_elem_of_singleton. by intros ->.
Qed.

(** ** Revocation is monotone *)

Section RevocationLemmas.
Context `{Chrono}.

(** [st'] is at least as strict as [st]: once revoked always revoked, never from a later
    instant, and the epoch floor never sinks. *)
Record stricter (st st' : RevocationState) : Prop := {
  sr_revoked c : revoked_at st = Some c → ∃ r, revoked_at st' = Some r
    ∧ (r = c ∨ ∃ cd rd, parse_rfc3339 c = Some cd ∧ parse_rfc3339 r = Some rd ∧ (rd ≤ cd)%Z);
  sr_floor f : min_epoch st = Some f → ∃ f', min_epoch st' = Some f' ∧ (f ≤ f')%N;
}.

Lemma new_revoked_at_ok c r now ra :
  new_revoked_at c r now = Ok ra →
  match c with
  | None => ra = default now r
  | Some c => ra = c
      ∨ ∃ cd rd, parse_rfc3339 c = Some cd ∧ parse_rfc3339 ra = Some rd ∧ (rd ≤ cd)%Z
  end.
Proof.
  unfold new_revoked_at. destruct c as [c|], r as [r|]; cbn.
  - destruct (parse_rfc3339 c) as [cd|] eqn:Hc, (parse_rfc3339 r) as [rd|] eqn:Hr; try done.
    destruct (Z.leb_spec rd cd); [|done]. intros [= <-]. right. eauto.
  - intros [= <-]. by left.
  - destruct (parse_rfc3339 r); [by intros [= <-]|done].
  - by intros [= <-].
Qed.

Lemma new_min_epoch_ok c r me :
  new_min_epoch c r = Ok me → ∀ f, c = Some f → ∃ f', me = Some f' ∧ (f ≤ f')%N.
Proof.
  unfold new_min_epoch. intros Hm f ->. destruct r as [r|].
  - destruct (N.leb_spec f r); [|done]. injection Hm as <-. eauto.
  - injection Hm as <-. eauto.
Qed.

Lemma decide_revoke_stricter st r me now ra me' :
  decide_revoke st r me now = Apply ra me' →
  stricter st (mkRevocationState (Some ra) me').
Proof.
  unfold decide_revoke. destruct (new_revoked_at _ _ _) as [ra'|] eqn:Hra; [|done].
  destruct (new_min_epoch _ _) as [me''|] eqn:Hme; [|done]. intros [= -> ->].
  apply new_revoked_at_ok in Hra. constructor.
  - intros c Hc. rewrite Hc in Hra. exists ra. eauto.
  - intros f Hf. by apply (new_min_epoch_ok _ _ _ Hme).
Qed.

Lemma stricter_refl st : stricter st st.
Proof. constructor; [eauto|]. intros f ->. exists f. split; [done|lia]. Qed.

Lemma stricter_trans st1 st2 st3 : stricter st1 st2 → stricter st2 st3 → stricter st1 st3.
Proof.
  intros [R1 F1] [R2 F2]. constructor.
  - intros c Hc. destruct (R1 c Hc) as (r & Hr & Hle). destruct (R2 r Hr) as (r' & Hr' & Hle').
    exists r'. split; [done|].
    destruct Hle as [->|(cd & rd & ? & ? & ?)], Hle' as [->|(cd' & rd' & ? & ? & ?)]; eauto 10.
    right. exists cd, rd'. split_and!; [done|done|]. simplify_eq. lia.
  - intros f Hf. destruct (F1 f Hf) as (f' & Hf' & ?). destruct (F2 f' Hf') as (f'' & ? & ?).
    exists f''. split; [done|lia].
Qed.
End RevocationLemmas.

Section LineageLemmas.
Context `{Blake3} `{Hex} `{Base64} `{Ed25519} `{P256} `{SerdeJson}.

Lemma verify_lineage_ok rec pub q t old rq :
  verify_lineage_rotation rec pub q t = LineageOk old rq ↔
  rotation_verify rec = true ∧ new_public_key (rr_new rec) = pub ∧ rr_sequence rec = q
  ∧ format_archive_id (rotation_digest rec) = t
  ∧ old = old_public_key (rr_old rec) ∧ rq = rr_sequence rec.
Proof.
  unfold verify_lineage_rotation. destruct (rotation_verify rec); cbn; [|naive_solver].
  case_bool_decide; cbn; [|naive_solver].
  destruct (N.eqb_spec (rr_sequence rec) q); cbn; [|naive_solver].
  case_bool_decide; cbn; naive_solver.
Qed.
End LineageLemmas.
