(* ===== verification/CommandsCorrect.v ===== *)
(** * Correctness of the other commands

    The request that [emit-request] makes of an archive and the platform's answer; the
    public key file; the rotation entry that [rekey] writes. *)

From S2P Require Import Prelude External Utf8 FileSystem Json Float64 Manifest ManifestCanon.
From S2P Require Import Chain Crypto Keywrap Chronicle Attestation Archive ArchiveLemmas.
From S2P Require Import ArchiveCorrect VerifyChronicle VerifyChronicleCorrect Cli CliCorrect.
From S2P Require Import Wrap WrapCorrect Unwrap UnwrapCorrect VerifyEngine VerifyEngineCorrect.
From S2P Require Import Commands Witness.

(** ** Lines and trimming *)

Lemma split_on_app c (l r : bytes) :
  Forall (λ b, b ≠ c) l → split_on c (l ++ c :: r) = l :: split_on c r.
Proof.
  induction 1 as [|b l Hb _ IH]; cbn; [by rewrite decide_True|].
  by rewrite decide_False, IH by done.
Qed.

Section CommandLemmas.
Context `{Blake3Laws} `{HexLaws} `{Base64Laws} `{Ed25519Laws} `{P256} `{AeadLaws} `{KdfLaws}
  `{HpkeLaws} `{SerdeJsonLaws} `{SerdeValue} `{BundleJson} `{ManifestJson} `{StateJson}
  `{RotationJson} `{IoText} `{RequestJson} `{ManifestValue} `{AttestationJson}.

(** ** The key file that [keygen] writes *)

Lemma base64_solid b : Forall solid (base64_encode b).
Proof.
  eapply Forall_impl; [apply base64_encode_alphabet|]. intros c.
  unfold is_base64_byte, solid, byte_in. rewrite !orb_true_iff, !andb_true_iff, !N.leb_le. lia.
Qed.

Lemma solid_not_newline s : Forall solid s → Forall (λ b, b ≠ newline) s.
Proof. intros Hs. eapply Forall_impl; [done|]. by intros c Hc ->. Qed.

Lemma trim_key (prefix : bytes) b :
  Forall solid prefix → trim (prefix ++ base64_encode b) = prefix ++ base64_encode b.
Proof. intros Hp. apply trim_all_solid, Forall_app_2; [done|apply base64_solid]. Qed.

Lemma last_removelast_snoc {A} (l : list A) x : removelast (l ++ [x]) = l.
Proof. by rewrite removelast_last. Qed.

Lemma strip_cr_solid s : Forall solid s → strip_cr s = s.
Proof.
  intros Hs. unfold strip_cr. destruct (last s) as [c|] eqn:E; [|done].
  rewrite decide_False; [done|]. intros ->. apply last_Some in E as [l ->].
  apply Forall_app in Hs as [_ Hs]. by apply Forall_cons in Hs as [? _].
Qed.

(** The Ed25519 key is the one selected from the file. *)
Lemma select_public_lines b : wf_bundle b → select_device_pub (public_lines b) = public (signing b).
Proof.
  intros ([_ Hpub] & _ & _).
  assert (∀ k, base64_encode (ed_public k) ≠ []) as Hne.
  { intros k Heq. apply (f_equal length) in Heq.
    rewrite length_base64_encode, length_ed_public in Heq. done. }
  assert (Forall solid (public (signing b))) as Hs.
  { rewrite Hpub. apply Forall_app. split; [by repeat constructor|apply base64_solid]. }
  assert (Forall solid (ka_public_string (key_agreement b))) as Hk.
  { apply Forall_app. split; [by repeat constructor|apply base64_solid]. }
  assert (split_on newline (public_lines b)
    = [public (signing b); ka_public_string (key_agreement b); []]) as Hsplit.
  { unfold public_lines. cbn [app].
    rewrite split_on_app by by apply solid_not_newline.
    rewrite split_on_app by by apply solid_not_newline. done. }
  unfold select_device_pub, lines. rewrite Hsplit. cbn [last removelast fmap list_fmap].
  rewrite (strip_cr_solid (public (signing b))) by done.
  assert (trim (public (signing b)) = public (signing b)) as ->
    by (rewrite Hpub; apply trim_key; by repeat constructor).
  cbn [List.find]. rewrite (proj2 (starts_with_spec (lit "ed25519:") (public (signing b))));
    [done|rewrite Hpub; by eexists].
Qed.

(** ** The request of an archive *)

(** The segments that are submitted for the chunk files [cs]. *)
Definition emitted (cs : list bytes) : list SegmentRef :=
  (λ p, mkSegmentRef (N.of_nat p.1) (lit "b3:" ++ hex_encode (blake3 p.2))) <$> enumerate cs.

Lemma normalized_b3 b : normalized (lit "b3:" ++ hex_encode b) = hex_encode b.
Proof. unfold normalized. rewrite strip_prefix_app. apply lower_hex. Qed.

Lemma emit_segment_ok (base : path) (s : fs) (i : nat) (seg : SegmentInfo) (r : SegmentRef) :
  (N.of_nat i ≤ u32_max)%N →
  emit_segment base s (i, seg) = Ok r ↔
  chunk_file seg = chunk_filename (N.of_nat i) ∧ ∃ c, stored_at base s i c
    ∧ r = mkSegmentRef (N.of_nat i) (lit "b3:" ++ hex_encode (blake3 c)).
Proof.
  intros Hi. assert (as_u32 (N.of_nat i) = N.of_nat i) as Hu.
  { unfold as_u32, u32_max in *. apply N.mod_small. lia. }
  unfold emit_segment, stored_at. rewrite Hu. split.
  - intros He. inv_ok. split; [by eapply bool_decide_eq_true_1|]. eexists. split; [|done].
    split; [done|]. by apply N.leb_le.
  - intros (-> & c & [Hr Hcap] & ->). rewrite bool_decide_true by done. cbn [ensure mbind result_bind].
    rewrite Hr. cbn [map_err mbind result_bind]. by rewrite (proj2 (N.leb_le _ _) Hcap).
Qed.

Lemma emit_segments_ok (base : path) (s : fs) (segs : list SegmentInfo) (refs : list SegmentRef) :
  (N.of_nat (length segs) ≤ u32_max)%N →
  map_res (emit_segment base s) (enumerate segs) = Ok refs ↔
  ∃ cs, refs = emitted cs ∧ length cs = length segs
    ∧ (∀ i c, cs !! i = Some c → stored_at base s i c)
    ∧ ∀ i seg, segs !! i = Some seg → chunk_file seg = chunk_filename (N.of_nat i).
Proof.
  intros Hlen. rewrite map_res_ok. unfold enumerate, emitted, enumerate.
  assert (∀ k, (N.of_nat (k + length segs) ≤ u32_max)%N →
    Forall2 (λ x y, emit_segment base s x = Ok y) (enumerate_from k segs) refs ↔
    ∃ cs, refs = (λ p, mkSegmentRef (N.of_nat p.1) (lit "b3:" ++ hex_encode (blake3 p.2)))
                   <$> enumerate_from k cs ∧ length cs = length segs
      ∧ (∀ i c, cs !! i = Some c → stored_at base s (k + i) c)
      ∧ ∀ i seg, segs !! i = Some seg → chunk_file seg = chunk_filename (N.of_nat (k + i))) as Hgen;
    [|by apply (Hgen 0)]. clear Hlen. revert refs.
  induction segs as [|seg segs IH]; intros refs k Hlen; cbn [enumerate_from].
  { split; [intros ->%Forall2_nil_inv_l; by exists []|].
    intros (cs & -> & Hl & _). apply nil_length_inv in Hl as ->. constructor. }
  cbn [length] in Hlen. split.
  - intros (r & refs' & Hr & Hf & ->)%Forall2_cons_inv_l.
    apply emit_segment_ok in Hr as (Hn & c & Hc & ->); [|lia].
    apply IH in Hf as (cs & -> & Hl & Hst & Hnames); [|lia]. exists (c :: cs).
    split_and!; [done|by cbn; rewrite Hl|..].
    + intros [|i] x; cbn; [intros [= <-]; by rewrite Nat.add_0_r|].
      intros Hx%Hst. by rewrite <-Nat.add_succ_comm.
    + intros [|i] x; cbn; [intros [= <-]; by rewrite Nat.add_0_r|].
      intros Hx%Hnames. by rewrite <-Nat.add_succ_comm.
  - intros (cs & -> & Hl & Hst & Hnames). destruct cs as [|c cs]; [done|]. cbn [enumerate_from].
    rewrite fmap_cons. constructor.
    + apply emit_segment_ok; [lia|]. specialize (Hnames 0 seg eq_refl). specialize (Hst 0 c eq_refl).
      rewrite Nat.add_0_r in *. eauto.
    + apply IH; [lia|]. exists cs. split_and!; [done|by injection Hl|..].
      * intros i x Hx. rewrite Nat.add_succ_comm. by apply Hst.
      * intros i x Hx. rewrite Nat.add_succ_comm. by apply Hnames.
Qed.

(** The request names the chunk files of the archive. *)
Lemma emit_request_ok (a : EmitRequestCmd) (s : fs) (req : VerifyRequest) (m : TrstManifest)
    (detached : bytes) :
  emit_request a s = Ok req → read_manifest (em_archive a) s = Ok (m, detached) →
  (N.of_nat (length (segments m)) ≤ u32_max)%N →
  ∃ cs, vq_segments req = emitted cs ∧ length cs = length (segments m)
    ∧ (∀ i c, cs !! i = Some c → stored_at (em_archive a) s i c)
    ∧ manifest_to_value m = Ok (vq_manifest req).
Proof.
  unfold emit_request. intros He Hm Hlen. rewrite Hm in He. cbn [map_err mbind result_bind] in He.
  apply bind_ok in He as (refs & Hr & He). apply bind_ok in He as (pub & _ & He).
  apply bind_ok in He as (v & Hv%map_err_ok & He). apply Ok_inj in He as <-.
  apply emit_segments_ok in Hr as (cs & -> & Hl & Hst & _); [|done]. by exists cs.
Qed.

(** ** What the platform says of it *)

Lemma hex_decode_no_prefix x b : hex_decode x = Some b → strip_prefix (lit "b3:") x = None.
Proof.
  intros Hd%hex_decode_lower. destruct (strip_prefix (lit "b3:") x) as [r|] eqn:E; [|done].
  apply strip_prefix_spec in E as ->. pose proof (hex_no_prefix b) as Hn. rewrite <-Hd in Hn.
  by rewrite (proj2 (strip_prefix_spec (lit "b3:") _ (to_ascii_lowercase r))) in Hn.
Qed.

Lemma decode_of_hex x b : hex_decode x = Some b → length b = 32 → decode_b3_hex_32 x = Some b.
Proof.
  intros Hd Hl. unfold decode_b3_hex_32. rewrite (hex_decode_no_prefix _ _ Hd). cbn [default].
  rewrite Hd. cbn. by rewrite Hl.
Qed.

(** An intact archive's segments agree with its manifest. *)
Lemma intact_continuity (base : path) (s : fs) m sig cs :
  intact base s m sig cs → continuity_ok m (emitted cs) (blake3 <$> cs).
Proof.
  intros [_ _ Hl _ Hseg _]. constructor.
  - apply Forall2_same_length_lookup_2; [by rewrite length_fmap|].
    intros i seg h Hi Hh. rewrite list_lookup_fmap in Hh. apply fmap_Some in Hh as (c & Hc & ->).
    destruct (Hseg i seg c Hi Hc) as [_ -> _]. apply decode_hex_32, length_blake3.
  - apply Forall2_same_length_lookup_2; [by rewrite length_chain_from, length_fmap|].
    intros i seg h Hi Hh. apply chain_from_lookup in Hh as [Hlt ->]. rewrite length_fmap in Hlt.
    apply lookup_lt_is_Some in Hlt as [c Hc]. destruct (Hseg i seg c Hi Hc) as [_ _ Hcont].
    rewrite <-fmap_take. apply decode_of_hex; [exact Hcont|]. apply length_chain_tip.
  - exists (emitted cs). split; [done|]. apply Forall2_same_length_lookup_2.
    { unfold emitted, enumerate. by rewrite length_enumerate_from, length_fmap, length_enumerate_from. }
    intros i p seg Hp Hi. unfold enumerate in Hp. rewrite lookup_enumerate_from in Hp.
    apply fmap_Some in Hp as (r & Hr & ->). unfold emitted, enumerate in Hr.
    rewrite list_lookup_fmap, lookup_enumerate_from in Hr. rewrite <-option_fmap_compose in Hr.
    apply fmap_Some in Hr as (c & Hc & ->). cbn [fst snd compose sr_index sr_hash].
    destruct (Hseg i seg c Hi Hc) as [_ -> _]. by rewrite normalized_b3, lower_hex.
Qed.

(** The files of an archive are determined by the file system. *)
Lemma stored_intact (base : path) (s : fs) m sig cs cs' :
  intact base s m sig cs → length cs' = length (segments m) →
  (∀ i c, cs' !! i = Some c → stored_at base s i c) → cs' = cs.
Proof.
  intros [_ _ Hl Hf _ _] Hl' Hst. apply list_eq_same_length with (length cs); [done|congruence|].
  intros i x y _ Hx Hy. destruct (Hst i x Hx) as [Hrx _], (Hf i y Hy) as [Hry _].
  rewrite Hrx in Hry. by apply Ok_inj in Hry.
Qed.

(** If they agree, the manifest's hashes are those of the files. *)
Lemma emitted_continuity m cs hs :
  length cs = length (segments m) → continuity_ok m (emitted cs) hs → hs = blake3 <$> cs.
Proof.
  intros Hl [Hh _ Hcl]. apply bind_client_ok in Hcl. unfold bind_client_segments in Hcl.
  apply bind_unit_ok in Hcl as [_ Hcl]. apply for_each_ok in Hcl.
  rewrite (sort_by_position sr_index (emitted cs) (emitted cs)) in Hcl; [|done|].
  2:{ intros i r Hr. unfold emitted, enumerate in Hr.
      rewrite list_lookup_fmap, lookup_enumerate_from in Hr.
      destruct (cs !! i); [|done]. by injection Hr as <-. }
  apply list_eq_same_length with (length cs);
    [by rewrite length_fmap|by rewrite <-(Forall2_length _ _ _ Hh)|].
  intros i h x _ Hi Hx. rewrite list_lookup_fmap in Hx. apply fmap_Some in Hx as (c & Hc & ->).
  eapply Forall2_lookup_r in Hh as (seg & Hseg & Hd); [|done].
  apply (Forall_lookup_1 _ _ i (i, mkSegmentRef (N.of_nat i) (lit "b3:" ++ hex_encode (blake3 c)))) in Hcl.
  2:{ unfold enumerate, emitted, enumerate. rewrite lookup_enumerate_from, list_lookup_fmap.
      by rewrite lookup_enumerate_from, Hc. }
  apply bind_segment_ok in Hcl as (_ & seg' & Hseg' & Hn). cbn [fst snd sr_hash] in *.
  rewrite Hseg in Hseg'. injection Hseg' as <-. rewrite normalized_b3 in Hn.
  unfold decode_b3_hex_32 in Hd. apply bind_Some in Hd as (b & Hb & Hd).
  case_match; [|done]. injection Hd as ->.
  destruct (strip_prefix (lit "b3:") (blake3_hash seg)) as [r|] eqn:E; cbn [default] in Hb.
  - apply strip_prefix_spec in E. rewrite E in Hn. pose proof (hex_no_prefix (blake3 c)) as Hnp.
    rewrite Hn in Hnp. by rewrite (proj2 (strip_prefix_spec (lit "b3:") _ (to_ascii_lowercase r))) in Hnp.
  - apply hex_decode_lower in Hb. rewrite Hb in Hn. by apply hex_encode_inj in Hn.
Qed.

(** ** Witness requests *)

Lemma witness_request_ok (a : WitnessCmd) (pw : option bytes) (sa : bytes) (s : fs)
    (st : ChronicleState) (req : WitnessRequest) :
  witness_request a pw sa s = Ok req → load (wt_chronicle a) s = Ok st →
  witness_verify req = true ∧ wr_device_pub req = cs_device_pub st
  ∧ wr_sequence req = cs_sequence st ∧ wr_tip req = cs_tip st
  ∧ match wt_rotation a with
    | Some dir => ∃ rec, read_rotation dir s = Ok rec ∧ wr_rotation req = Some rec
        ∧ format_archive_id (rotation_digest rec) = cs_tip st
    | None => wr_rotation req = None
    end.
Proof.
  unfold witness_request. intros Hw Hl. rewrite Hl in Hw. cbn [map_err mbind result_bind] in Hw.
  apply bind_ok in Hw as (b & Hb%load_bundle_wf & Hw).
  apply bind_ok in Hw as ([] & Hp%ensure_ok & Hw). apply bool_decide_eq_true in Hp.
  apply bind_ok in Hw as (req0 & Hreq%map_err_ok & Hw).
  destruct (witness_signed_verifies (signing b) (cs_sequence st) (cs_tip st) sa (proj1 Hb))
    as (r & Hr & Hv & Hd & Hq & Ht & Hn).
  rewrite Hreq in Hr. apply Ok_inj in Hr as <-. unfold attach_rotation in Hw.
  destruct (wt_rotation a) as [dir|]; [|apply Ok_inj in Hw as <-; by split_and!; try congruence].
  apply bind_ok in Hw as (rec & Hrec%map_err_ok & Hw).
  apply bind_ok in Hw as ([] & Hd'%ensure_ok & Hw). apply bool_decide_eq_true in Hd'.
  apply Ok_inj in Hw as <-. cbn. split_and!; [done|congruence..|]. by exists rec.
Qed.

(** ** Attestations *)

Lemma read_file_keep (p q : path) (c d : bytes) (s : fs) :
  p ≠ q → s !! q ≠ Some Dir → read_file p s = Ok d → read_file p (<[q := File c]> s) = Ok d.
Proof.
  intros Hne Hq (Ha & Hp)%read_file_inv. apply read_file_ok; [|by rewrite lookup_insert_ne].
  rewrite ancestor_error_None in Ha |- *. intros r Hr. apply insert_keeps_dir; auto.
Qed.

Lemma load_signing_keypair_wf (p : path) (unencrypted : bool) (pw : option bytes) (s : fs)
    (kp : DeviceKeypair) :
  load_signing_keypair p unencrypted pw s = Ok kp → wf_keypair kp.
Proof.
  unfold load_signing_keypair. intros (data & _ & Hb)%bind_ok. case_match.
  - apply bind_ok in Hb as ([] & _ & Hb). apply bind_ok in Hb as (pass & _ & Hb).
    destruct (import_encrypted data pass) as [b|] eqn:E; [|done]. apply Ok_inj in Hb as <-.
    unfold import_encrypted in E. inv_ok. repeat match goal with x : _ * _ |- _ => destruct x end.
    inv_ok. match goal with E : from_plaintext _ = Ok _ |- _ => apply from_plaintext_wf in E as [? _] end.
    done.
  - destruct unencrypted.
    + apply bind_ok in Hb as ([] & _ & Hb). destruct (from_plaintext _) eqn:E.
      * apply Ok_inj in Hb as <-. by apply from_plaintext_wf in E as [? _].
      * apply map_err_ok in Hb. by eapply import_secret_wf.
    + case_match; [|done]. apply bind_ok in Hb as (pass & _ & Hb%map_err_ok).
      by apply import_encrypted_inv in Hb as [? _].
Qed.

(** What [verify-attestation] accepts. *)
Record attestation_accepted (a : VerifyAttestationCmd) (s : fs) (att : PointAttestation)
    (pub : bytes) : Prop := {
  aa_document : ∃ j, read_file (va_attestation a) s = Ok j ∧ utf8_valid j = true
                  ∧ attestation_from_json j = Ok att;
  aa_key : if starts_with (lit "ed25519:") (va_device_pub a) then pub = va_device_pub a
           else ∃ c, read_file (va_device_pub_path a) s = Ok c ∧ utf8_valid c = true
                  ∧ pub = select_device_pub c;
  aa_signature : ∃ sig, pa_signature att = Some sig
                  ∧ signed_by pub (jprint (attestation_json (set_pa_signature None att))) sig;
  aa_binary p : va_binary a = Some p → hash_file p s = Ok (ar_hash (pa_subject att));
  aa_sbom p : va_sbom a = Some p → hash_file p s = Ok (ar_hash (pa_evidence att));
}.

Lemma read_text_ok (p : path) (err : CliError) (s : fs) (b : bytes) :
  read_text p err s = Ok b ↔ read_file p s = Ok b ∧ utf8_valid b = true.
Proof.
  unfold read_text. rewrite bind_ok. setoid_rewrite map_err_ok. setoid_rewrite bind_ok. split.
  - intros (c & Hc & [] & Hu%ensure_ok & Hb%Ok_inj). by subst.
  - intros [Hr Hu]. exists b. split; [done|]. exists tt. by rewrite ensure_ok.
Qed.

Lemma check_artifact_ok (o : option path) (r : ArtifactRef) (s : fs) :
  check_artifact o r s = Ok tt ↔ ∀ p, o = Some p → hash_file p s = Ok (ar_hash r).
Proof.
  unfold check_artifact. destruct o as [p|]; [|by split].
  rewrite bind_ok. setoid_rewrite ensure_ok. setoid_rewrite bool_decide_eq_true. split.
  - intros (h & Hh & ->). by intros p' [= <-].
  - intros Hp. eexists. split; [by apply Hp|done].
Qed.

Lemma pa_verify_ok att pub :
  pa_verify_signature att pub = Ok true ↔ ∃ sig, pa_signature att = Some sig
    ∧ signed_by pub (jprint (attestation_json (set_pa_signature None att))) sig.
Proof.
  unfold pa_verify_signature. rewrite bind_ok. setoid_rewrite ok_or_ok. split.
  - intros (sig & Hs & Hv). apply bind_ok in Hv as (c & <-%Ok_inj & Hv%map_err_ok).
    exists sig. split; [done|]. by apply verify_manifest_ok.
  - intros (sig & Hs & Hv%verify_manifest_ok). exists sig. split; [done|].
    cbn [canonical_bytes mbind result_bind]. unfold canonical_bytes. cbn [mbind result_bind].
    by rewrite Hv.
Qed.

Lemma verify_attestation_ok (a : VerifyAttestationCmd) (s : fs) :
  handle_verify_attestation a s = Ok tt ↔ ∃ att pub, attestation_accepted a s att pub.
Proof.
  unfold handle_verify_attestation. split.
  - intros (j & [Hj Hu]%read_text_ok & Hh)%bind_ok.
    apply bind_ok in Hh as (att & Hatt%map_err_ok & Hh). apply bind_ok in Hh as (pub & Hpub & Hh).
    apply bind_ok in Hh as (ok & Hok%map_err_ok & Hh). apply bind_ok in Hh as ([] & Hf%map_err_ok & Hh).
    apply ensure_ok in Hh as ->. unfold verify_file_hashes in Hf.
    apply bind_unit_ok in Hf as [Hb Hs]. rewrite check_artifact_ok in Hb, Hs.
    exists att, pub. constructor; [by eauto| |by apply pa_verify_ok|done|done].
    case_match; [by apply Ok_inj in Hpub|].
    apply bind_ok in Hpub as (c & [Hc Hcu]%read_text_ok & Hp%Ok_inj). eauto.
  - intros (att & pub & [(j & Hj & Hu & Hatt) Hkey Hsig Hb Hs]).
    rewrite (proj2 (read_text_ok _ _ _ _) (conj Hj Hu)). cbn [mbind result_bind].
    rewrite Hatt. cbn [map_err mbind result_bind].
    match goal with |- context [if ?b then Ok (va_device_pub a) else ?r] =>
      assert ((if b then Ok (va_device_pub a) else r) = Ok pub) as -> end.
    { case_match; [by subst|]. destruct Hkey as (c & Hc & Hcu & ->).
      by rewrite (proj2 (read_text_ok _ _ _ _) (conj Hc Hcu)). }
    cbn [mbind result_bind]. rewrite (proj2 (pa_verify_ok att pub) Hsig).
    cbn [map_err mbind result_bind]. unfold verify_file_hashes.
    rewrite (proj2 (check_artifact_ok _ _ _) Hb). cbn [mbind result_bind].
    by rewrite (proj2 (check_artifact_ok _ _ _) Hs).
Qed.

(** What [attest-sbom] writes is accepted, for the files it was made of. *)
Lemma attest_sbom_accepted (a : AttestSbomCmd) (pw : option bytes) (version now nonce : bytes)
    (dl : N) (s s' : fs) (kp : DeviceKeypair) :
  let out := default [lit "attestation.se-attestation.json"] (as_out a) in
  (∀ x j, attestation_to_json x = Ok j → attestation_from_json j = Ok x ∧ utf8_valid j = true) →
  handle_attest_sbom a pw version now nonce dl s = (Ok tt, s') →
  load_signing_keypair (as_device_key a) (as_unencrypted a) pw s = Ok kp →
  out ≠ as_binary a → out ≠ as_sbom a →
  ∃ att pub, attestation_accepted (mkVerifyAttestationCmd out (public kp) []
    (Some (as_binary a)) (Some (as_sbom a))) s' att pub.
Proof.
  intros out Hjson Hh Hkp Hnb Hns. unfold handle_attest_sbom in Hh.
  apply io_bind_ok in Hh as (j & s1 & [Hj ->]%io_read_ok & Hh). fold out in Hh.
  apply io_bind_ok in Hh as ([] & s1 & Hw%io_map_err_ok & Hperm%io_map_err_ok).
  assert (s' = s1) as ->.
  { unfold set_permissions in Hperm. by repeat case_match; simplify_eq. }
  apply create_write_inv in Hw as (-> & Hnd & Ha).
  unfold attest_sbom in Hj. apply bind_ok in Hj as (size & _ & Hj).
  apply bind_ok in Hj as ([] & _ & Hj). apply bind_ok in Hj as ([] & _ & Hj).
  apply bind_ok in Hj as (sbom & _ & Hj). apply bind_ok in Hj as (v & _ & Hj).
  rewrite Hkp in Hj. cbn [mbind result_bind] in Hj.
  apply bind_ok in Hj as (att & Hatt%map_err_ok & Hj%map_err_ok).
  destruct (Hjson _ _ Hj) as [Hread Hutf].
  pose proof (load_signing_keypair_wf _ _ _ _ _ Hkp) as Hwf.
  destruct (pa_create_ok _ _ _ _ _ _ _ _ _ _ Hwf Hatt) as (_ & _ & [Hb Hs] & Hsig).
  assert (∀ p h, p ≠ out → hash_file p s = Ok h → hash_file p (<[out:=File j]> s) = Ok h) as Hkeep.
  { intros p h Hne (data & Hr & ->)%hash_file_ok. apply hash_file_ok. exists data. split; [|done].
    eapply read_file_keep; done. }
  assert (starts_with (lit "ed25519:") (public kp) = true) as Hpre.
  { rewrite (proj2 Hwf). apply starts_with_spec. by eexists. }
  exists att, (public kp).
  constructor; cbn [va_attestation va_device_pub va_device_pub_path va_binary va_sbom].
  - exists j. split_and!; [|done|done]. apply read_file_ok; [|by rewrite lookup_insert_eq].
    rewrite ancestor_error_None in Ha |- *. intros q Hq. apply insert_keeps_dir; auto.
  - by rewrite Hpre.
  - by apply pa_verify_ok.
  - intros p [= <-]. by apply Hkeep.
  - intros p [= <-]. by apply Hkeep.
Qed.
End CommandLemmas.

(** * A key rotation continues the chronicle

    The files of an archive are its own: writes outside its directory leave it intact.
    The entry that [rekey] writes is the next one of the chronicle. *)

(** ** Framing *)

(** [s'] has the same files below [base] as [s], and every directory of [s]. *)
Record same_below (base : path) (s s' : fs) : Prop := {
  sb_below q : s' !! (base ++ q) = s !! (base ++ q);
  sb_dirs (q : path) : s !! q = Some Dir → s' !! q = Some Dir;
}.

Lemma read_file_frame (p : path) (s s' : fs) (c : bytes) :
  s' !! p = s !! p → (∀ q : path, s !! q = Some Dir → s' !! q = Some Dir) →
  read_file p s = Ok c → read_file p s' = Ok c.
Proof.
  intros Hp Hd (Ha & Hc)%read_file_inv. apply read_file_ok; [|by rewrite Hp].
  rewrite ancestor_error_None in Ha |- *. auto.
Qed.

Lemma read_dir_intro (p : path) (s : fs) (name : bytes) (n : node) :
  s !! (p ++ [name]) = Some n → name ∈ read_dir p s.
Proof.
  intros Hn. unfold read_dir. apply list_elem_of_omap. exists (p ++ [name], n).
  split; [by apply elem_of_map_to_list|]. cbn.
  by rewrite take_app_length, drop_app_length, decide_True.
Qed.

Section Framing.
Context `{Blake3Laws} `{HexLaws} `{ManifestJson}.

Lemma read_capped_frame (p : path) (n : N) (s s' : fs) (c : bytes) :
  s' !! p = s !! p → (∀ q : path, s !! q = Some Dir → s' !! q = Some Dir) →
  read_capped p n s = Ok c → read_capped p n s' = Ok c.
Proof.
  intros Hp Hd Hr. unfold read_capped in *. apply bind_ok in Hr as (d & Hr%map_err_ok & Hc).
  by rewrite (read_file_frame p s s' d).
Qed.

Lemma intact_frame (base : path) (s s' : fs) (m : TrstManifest) (sig : bytes) (cs : list bytes) :
  same_below base s s' → intact base s m sig cs → intact base s' m sig cs.
Proof.
  intros [Hb Hd] [Hm Hv Hl Hf Hs Ho]. constructor; [|done|done| |done|].
  - unfold read_manifest in *. apply bind_ok in Hm as (j & Hj & Hm).
    rewrite (read_capped_frame (manifest_path base) _ s s' j) by (done || apply Hb). cbn [mbind result_bind].
    apply bind_ok in Hm as (m' & Hm' & Hm). rewrite Hm'. cbn [mbind result_bind].
    apply bind_ok in Hm as (d & Hdet & Hm).
    by rewrite (read_capped_frame (sig_path base) _ s s' d) by (done || apply Hb).
  - intros i c Hi. destruct (Hf i c Hi) as [Hr Hc]. split; [|done].
    eapply read_file_frame; [|done|done]. unfold chunks_path. rewrite <-app_assoc. apply Hb.
  - intros name Hdir Hin Hbin. apply Ho; [| |done].
    + unfold is_dir, chunks_path in *. by rewrite <-Hb.
    + apply read_dir_elem in Hin as [n Hn]. eapply read_dir_intro.
      unfold chunks_path in *. rewrite <-app_assoc in *. by rewrite <-Hb.
Qed.
End Framing.

Section RekeyLemmas.
Context `{Blake3Laws} `{HexLaws} `{Base64Laws} `{Ed25519Laws} `{P256} `{AeadLaws} `{KdfLaws}
  `{HpkeLaws} `{SerdeJsonLaws} `{SerdeValue} `{BundleJson} `{ManifestJson} `{StateJson}
  `{RotationJson} `{IoText} `{RequestJson} `{ManifestValue} `{AttestationJson}.

(** The entries keep leading to the same identity. *)
Lemma active_frame (s s' : fs) (g : bytes) (es : list Entry) (k : bytes) (ep : N) (n : nat) :
  (∀ e m, e ∈ es → e_kind e = EArchive m → same_below (e_path e) s s') →
  active s g es k ep n → active s' g es k ep n.
Proof.
  intros Hsame Ha. induction Ha as [|es k ep n e m Ha IH Hk [Hs He Hsig Hi]|es k ep n e r Ha IH Hk Hr].
  - constructor.
  - eapply active_archive; [apply IH; set_solver|done|]. constructor; [done..|].
    apply validate_archive_intact in Hi as (m' & sig & cs & Hi). apply validate_archive_intact.
    exists m', sig, cs. eapply intact_frame; [|done]. eapply Hsame; [set_solver|done].
  - eapply active_rotation; [apply IH; set_solver|done|done].
Qed.

(** ** What [rekey] writes *)

Lemma rekey_checks_ok (a : RekeyCmd) (op np : option bytes) (s : fs) (st : ChronicleState)
    (old new : DeviceBundle) :
  rekey_checks a op np s = Ok (st, old, new) →
  load (rk_chronicle a) s = Ok st ∧ wf_bundle old ∧ wf_bundle new
  ∧ public (signing old) = cs_device_pub st ∧ public (signing new) ≠ public (signing old)
  ∧ s !! rk_out a = None.
Proof.
  unfold rekey_checks, load_named_bundle. intros Hc.
  apply bind_ok in Hc as ([] & _ & Hc). apply bind_ok in Hc as (st' & Hst%map_err_ok & Hc).
  apply bind_ok in Hc as (old' & Hold%map_err_ok & Hc).
  apply bind_ok in Hc as (new' & Hnew%map_err_ok & Hc).
  apply bind_ok in Hc as ([] & H1'%ensure_ok & Hc). apply bind_ok in Hc as ([] & H2'%ensure_ok & Hc).
  apply bind_ok in Hc as ([] & H3'%ensure_ok & Hc). apply Ok_inj in Hc. injection Hc as <- <- <-.
  apply bool_decide_eq_true in H1'. apply negb_true_iff in H2', H3'.
  apply bool_decide_eq_false in H2'. unfold path_exists in H3'. destruct (s !! rk_out a); [done|].
  split_and!; [done|by eapply load_bundle_wf|by eapply load_bundle_wf|done..].
Qed.

Lemma create_dir_all_inv (p : path) (s s' : fs) (u : unit) :
  create_dir_all p s = (Ok u, s') →
  (∀ q, q ∈ ancestors p ++ [p] → s' !! q = Some Dir)
  ∧ (∀ q, q ∉ ancestors p ++ [p] → s' !! q = s !! q)
  ∧ ∀ q, s !! q = Some Dir → s' !! q = Some Dir.
Proof.
  unfold create_dir_all. intros Hc. pose proof (create_dirs_inv _ _ _ _ Hc) as Hin.
  destruct (create_dirs_ok _ _ Hin) as (s1 & Hs1 & Hd & Ho). rewrite Hc in Hs1.
  injection Hs1 as _ <-. split_and!; [done..|]. intros q Hq.
  destruct (decide (q ∈ ancestors p ++ [p])) as [Hi|Hi]; [by apply Hd|by rewrite Ho].
Qed.

(** The files after a successful [rekey]. *)
Lemma handle_rekey_ok (a : RekeyCmd) (op np : option bytes) (ra ua : bytes) (s s' : fs) :
  handle_rekey a op np ra ua s = (Ok tt, s') →
  ∃ st old new r j js s1, rekey_checks a op np s = Ok (st, old, new)
    ∧ rotation_create_signed (signing old) (cs_key_epoch st) new
        (wrapping_add64 (cs_sequence st) 1) (cs_tip st) ra = Ok r
    ∧ create_dir_all (rk_out a) s = (Ok tt, s1)
    ∧ rotation_to_json r = Ok j
    ∧ state_to_json (mkChronicleState (public (signing new)) (wrapping_add64 (cs_sequence st) 1)
        (format_archive_id (rotation_digest r)) (new_key_epoch (rr_new r)) ua) = Ok js
    ∧ ancestor_error (rotation_path (rk_out a)) s1 = None
    ∧ s1 !! rotation_path (rk_out a) ≠ Some Dir
    ∧ s1 !! rk_chronicle a ≠ Some Dir ∧ s1 !! tmp_sibling (rk_chronicle a) ≠ Some Dir
    ∧ s' = <[rk_chronicle a := File js]> (delete (tmp_sibling (rk_chronicle a))
             (<[rotation_path (rk_out a) := File (j ++ [newline])]> s1)).
Proof.
  unfold handle_rekey. intros ([[st old] new] & s0 & [Hc ->]%io_read_ok & Hh)%io_bind_ok.
  cbv zeta in Hh. apply io_bind_ok in Hh as (r & s0 & [Hr%map_err_ok ->]%io_lift_ok & Hh).
  apply io_bind_ok in Hh as ([] & s1 & Hd%io_map_err_ok & Hh).
  apply io_bind_ok in Hh as (j & s0 & [Hj%map_err_ok ->]%io_lift_ok & Hh).
  apply io_bind_ok in Hh as ([] & s2 & Hw%io_map_err_ok & Hh%io_map_err_ok).
  apply create_write_inv in Hw as (-> & Hnd & Ha).
  apply save_inv in Hh as (js & Hjs & -> & Hcd & Htd).
  exists st, old, new, r, j, js, s1. split_and!; try done.
  - intros Hbad. apply Hcd. by apply insert_keeps_dir.
  - intros Hbad. apply Htd. by apply insert_keeps_dir.
Qed.

(** Where the command may write: a new directory, apart from the state file. *)
Record rekey_layout (a : RekeyCmd) (s : fs) : Prop := {
  rl_out : rk_out a ≠ [];
  rl_state : rk_chronicle a ≠ [];
  rl_absent : absent (rk_out a) s;
  rl_apart : ¬ rk_out a `prefix_of` rk_chronicle a;
}.

(** The archive's directory is apart from what [rekey] writes. *)
Record entry_apart (a : RekeyCmd) (s : fs) (e : Entry) : Prop := {
  ea_root : e_path e ≠ [];
  ea_dir : s !! e_path e = Some Dir;
  ea_state : ¬ e_path e `prefix_of` rk_chronicle a;
  ea_out : ¬ e_path e `prefix_of` rk_out a;
}.

Lemma prefix_ancestor (p q : path) : q ∈ ancestors p ++ [p] → q `prefix_of` p.
Proof.
  rewrite elem_of_app, list_elem_of_singleton. intros [Hq| ->]; [|done].
  unfold ancestors in Hq. apply list_elem_of_fmap in Hq as (n & -> & _).
  exists (drop n p). by rewrite take_drop.
Qed.

(** Entries apart from the written files stay as they were. *)
Lemma rekey_same_below (a : RekeyCmd) (s s1 : fs) (e : Entry) (j js : bytes) :
  create_dir_all (rk_out a) s = (Ok tt, s1) → s1 !! rotation_path (rk_out a) ≠ Some Dir →
  s1 !! rk_chronicle a ≠ Some Dir → s1 !! tmp_sibling (rk_chronicle a) ≠ Some Dir →
  entry_apart a s e →
  same_below (e_path e) s (<[rk_chronicle a := File js]> (delete (tmp_sibling (rk_chronicle a))
    (<[rotation_path (rk_out a) := File j]> s1))).
Proof.
  intros (_ & Hout & Hkeep)%create_dir_all_inv Hr Hc Ht [Hroot Hdir Hstate Ho].
  assert (∀ q, tmp_sibling (rk_chronicle a) ≠ e_path e ++ q) as Htmp.
  { intros q Heq. destruct (sibling_below _ _ _ _ Hroot Heq) as [?| ->]; [done|].
    rewrite app_nil_r in Heq. rewrite Heq in Ht. auto. }
  assert (∀ q, rotation_path (rk_out a) ≠ e_path e ++ q) as Hrp.
  { intros q Heq. unfold rotation_path in Heq. destruct q as [|x q _] using rev_ind.
    - rewrite app_nil_r in Heq. unfold rotation_path in Hr. rewrite Heq in Hr. auto.
    - rewrite app_assoc in Heq. apply app_inj_2 in Heq as [Heq _]; [|done]. apply Ho. rewrite Heq.
      by eexists. }
  constructor.
  - intros q. rewrite lookup_insert_ne, lookup_delete_ne, lookup_insert_ne by
      (done || intros Heq; apply Hstate; rewrite Heq; by eexists).
    apply Hout. intros Hq%prefix_ancestor. apply Ho. etrans; [|exact Hq]. by eexists.
  - intros q Hq%Hkeep. rewrite lookup_insert_ne, lookup_delete_ne, lookup_insert_ne by congruence.
    done.
Qed.

(** The next entry of the chronicle is on disk, and the state names it. *)
Lemma rekey_entry (a : RekeyCmd) (op np : option bytes) (ra ua : bytes) (s s' : fs)
    (st : ChronicleState) (old new : DeviceBundle) :
  handle_rekey a op np ra ua s = (Ok tt, s') → rekey_layout a s →
  rekey_checks a op np s = Ok (st, old, new) →
  (cs_key_epoch st < u32_max)%N → (cs_sequence st < u64_max)%N →
  (∀ r j, rotation_to_json r = Ok j → rotation_from_json (j ++ [newline]) = Ok r) →
  (∀ x j, state_to_json x = Ok j → state_from_json j = Ok x) →
  ∃ r, rotation_from (cs_device_pub st) (cs_key_epoch st) r
    ∧ new_public_key (rr_new r) = public (signing new)
    ∧ new_key_epoch (rr_new r) = (cs_key_epoch st + 1)%N
    ∧ read_entry s' (rk_out a) = Ok (mkEntry (cs_sequence st + 1) (rotation_digest r)
        (Some (cs_tip st)) (rk_out a) (ERotation r))
    ∧ load (rk_chronicle a) s' = Ok (mkChronicleState (public (signing new)) (cs_sequence st + 1)
        (format_archive_id (rotation_digest r)) (cs_key_epoch st + 1) ua)
    ∧ ∀ e, entry_apart a s e → same_below (e_path e) s s'.
Proof.
  intros Hh [Hro Hrs Habs Hap] Hck Hep Hsq Hrj Hsj.
  destruct (handle_rekey_ok _ _ _ _ _ _ _ Hh)
    as (st' & old' & new' & r & j & js & s1 & Hck' & Hr & Hd & Hj & Hjs & Ha & Hnd & Hcd & Htd & ->).
  rewrite Hck in Hck'. apply Ok_inj in Hck'. injection Hck' as <- <- <-.
  destruct (rekey_checks_ok _ _ _ _ _ _ _ Hck) as (_ & Hwo & Hwn & Hpub & _ & _).
  rewrite wrapping_succ in * by done.
  destruct (rotation_signed_verifies (signing old) (cs_key_epoch st) new (cs_sequence st + 1)
    (cs_tip st) ra (proj1 Hwo) Hwn Hep) as (r' & Hr' & Hv & Ho & Hn & Hne & Hseq & Hprev).
  rewrite Hr in Hr'. apply Ok_inj in Hr' as <-. exists r.
  assert (old_key_epoch (rr_old r) = cs_key_epoch st ∧ rr_trst_version r = lit "0.2.0") as [Hoe Hver].
  { unfold rotation_create_signed in Hr. inv_ok. done. }
  assert (tmp_sibling (rk_chronicle a) ≠ rotation_path (rk_out a)) as Htr.
  { intros Heq. destruct (sibling_below _ _ (rk_out a) [lit "rotation.json"] Hro Heq); done. }
  assert (rk_chronicle a ≠ rotation_path (rk_out a)) as Hcr.
  { intros Heq. apply Hap. rewrite Heq. by eexists. }
  split_and!; [constructor; congruence|done|done| | |].
  - unfold read_entry, is_file. fold (rotation_path (rk_out a)).
    assert (read_file (rotation_path (rk_out a)) (<[rk_chronicle a:=File js]>
      (delete (tmp_sibling (rk_chronicle a)) (<[rotation_path (rk_out a):=File (j ++ [newline])]> s1)))
      = Ok (j ++ [newline])) as Hread.
    { apply read_file_ok.
      - rewrite ancestor_error_None in Ha |- *. intros q Hq. specialize (Ha q Hq).
        rewrite lookup_insert_ne, lookup_delete_ne by congruence. apply insert_keeps_dir; auto.
      - by rewrite lookup_insert_ne, lookup_delete_ne, lookup_insert_eq. }
    rewrite lookup_insert_ne, lookup_delete_ne, lookup_insert_eq by done.
    unfold read_rotation. fold (rotation_path (rk_out a)). rewrite Hread.
    cbn [map_err mbind result_bind]. rewrite (Hrj _ _ Hj). cbn [map_err mbind result_bind].
    rewrite Hver. cbn [require_supported_version]. unfold require_supported_version.
    rewrite decide_True by done. cbn [map_err mbind result_bind]. by rewrite Hseq, Hprev.
  - unfold load. assert (ancestor_error (rk_chronicle a) s1 = None) as Hac.
    { unfold handle_rekey in Hh. clear -Hck Hd.
      destruct (rekey_checks_ok _ _ _ _ _ _ _ Hck) as (Hl & _). unfold load in Hl.
      apply bind_ok in Hl as (b & Hb%map_err_ok & _). apply read_file_inv in Hb as [Ha _].
      apply create_dir_all_inv in Hd as (_ & _ & Hk). rewrite ancestor_error_None in Ha |- *. auto. }
    rewrite (read_file_ok _ _ js); [| |apply lookup_insert_eq].
    + cbn [map_err mbind result_bind]. rewrite <-Hne. by rewrite (Hsj _ _ Hjs).
    + rewrite ancestor_error_None in Hac |- *. intros q Hq. specialize (Hac q Hq).
      rewrite lookup_insert_ne, lookup_delete_ne by congruence. apply insert_keeps_dir; auto.
  - intros e He. by eapply rekey_same_below.
Qed.
End RekeyLemmas.
