(* ===== verification/Jwks.v ===== *)
(** * The platform's signing key

    crates/platform/src/verify/jwks.rs ([KeyManager]: the key file, the published key
    set, rotation) and crates/platform/src/verify/signing.rs (receipts as JWS).  The
    environment variables, the build profile, the clock and the random draws are
    arguments; the jsonwebtoken encoder is a parameter. *)

From S2P Require Import Prelude External Utf8 FileSystem Json Float64 Manifest ManifestCanon.
From S2P Require Import Chain Crypto Keywrap Chronicle Archive VerifyChronicle Cli VerifyEngine.
From S2P Require Import Witness.
From S2P Require Import CliCorrect UnwrapCorrect CommandsCorrect.

Record KeyManager := mkKeyManager {
  km_key_path : path;
  km_passphrase : option bytes;
  km_current_key : bytes; (* the 32-byte seed *)
  km_current_kid : bytes;
  km_previous_key : option bytes;
  km_previous_kid : option bytes;
}.

Record StoredKey := mkStoredKey {
  sk_kid : bytes;
  sk_private_key : bytes;
  sk_created_at : bytes;
}.

(** serde on stored keys and pretty-printed values *)
Class StoredKeyJson := {
  stored_to_json : StoredKey → result bytes bytes;
  stored_from_json : bytes → result bytes StoredKey;
  value_to_json_pretty : value → result bytes bytes;
}.

(** What writing a key draws, and how the program was built. *)
Record JwksEnv := mkJwksEnv {
  je_release : bool; (* not cfg!(debug_assertions) *)
  je_seed : bytes;
  je_uuid : bytes;
  je_now : bytes;
  je_salt : bytes;
  je_nonce : bytes;
  je_pid : N;
  je_tmp_seq : N;
}.

(** ** Configuration *)

Definition nonempty_path (p : path) : bool := match p with [] => false | _ => true end.

Definition path_required : bytes :=
  lit "JWKS_KEY_PATH must be set in release builds — refusing to place the platform signing key "
  ++ lit "(JWKS + witness/timestamp root) in a temp directory".
Definition passphrase_required : bytes :=
  lit "JWKS_KEY_PASSPHRASE must be set in release builds — the platform signing key (which signs "
  ++ lit "witness/timestamp receipts, the revocation root) must be encrypted at rest".

Definition resolve_key_path (release : bool) (var : option path) (temp_dir : path)
    : result bytes path :=
  match var with
  | Some p => if nonempty_path p then Ok p
              else if release then Err path_required
              else Ok (temp_dir ++ [lit "sealedge_signing_key.json"])
  | None => if release then Err path_required
            else Ok (temp_dir ++ [lit "sealedge_signing_key.json"])
  end.

Definition resolve_passphrase (release : bool) (var : option bytes) : result bytes (option bytes) :=
  match var with
  | Some p => if is_empty p then
                if release then Err passphrase_required else Ok None
              else Ok (Some p)
  | None => if release then Err passphrase_required else Ok None
  end.

Definition rotated (km : KeyManager) (seed kid : bytes) : KeyManager :=
  mkKeyManager (km_key_path km) (km_passphrase km) seed kid (Some (km_current_key km))
    (Some (km_current_kid km)).

Definition fresh_kid (uuid : bytes) : bytes := lit "key_" ++ uuid.

Section KeyManager.
Context `{Blake3} `{Hex} `{Base64} `{Ed25519} `{Aead} `{Kdf} `{SerdeJson} `{SerdeValue}
  `{StoredKeyJson} `{IoText}.

(** ** The published keys; serde_json sorts the members *)

Definition key_to_jwk (public kid : bytes) : value :=
  VObj [(lit "alg", VStr (lit "EdDSA")); (lit "crv", VStr (lit "Ed25519")); (lit "kid", VStr kid);
        (lit "kty", VStr (lit "OKP")); (lit "use", VStr (lit "sig"));
        (lit "x", VStr (base64url_encode public))].

Definition to_jwks (km : KeyManager) : value :=
  let current := key_to_jwk (ed_public (km_current_key km)) (km_current_kid km) in
  let previous := match km_previous_key km, km_previous_kid km with
                  | Some k, Some kid => [key_to_jwk (ed_public k) kid]
                  | _, _ => []
                  end in
  VObj [(lit "keys", VArr (current :: previous))].

Definition jwks_path (km : KeyManager) : path := removelast (km_key_path km) ++ [lit "jwks.json"].

(** ** Files *)

Definition finalize_error (p : path) : io_error → bytes := λ _,
  lit "Failed to finalize signing key at " ++ path_display p.

Definition save_to_file (km : KeyManager) (env : JwksEnv) : io bytes unit :=
  io_lift (stored_to_json (mkStoredKey (km_current_kid km) (base64_encode (km_current_key km))
             (je_now env))) ≫= λ json,
  match km_passphrase km with
  | Some pass =>
      io_lift (map_err (λ e, lit "failed to encrypt signing key: " ++ crypto_error_text e)
        (seal_secret json pass (je_salt env) (je_nonce env))) ≫= λ blob,
      io_map_err (finalize_error (km_key_path km))
        (write_secure (km_key_path km) blob (je_pid env) (je_tmp_seq env))
  | None =>
      if je_release env then
        io_lift (Err (lit "refusing to write an unencrypted signing key in a release build"))
      else
        io_map_err (finalize_error (km_key_path km))
          (write_secure (km_key_path km) json (je_pid env) (je_tmp_seq env))
  end.

Definition write_jwks_file (km : KeyManager) : io bytes unit :=
  let p := jwks_path km in
  io_map_err (λ _, lit "Failed to create directory for " ++ path_display p)
    (if (1 <? length p)%nat then create_dir_all (removelast p) else mret tt) ≫= λ _,
  io_lift (value_to_json_pretty (to_jwks km)) ≫= λ content,
  io_map_err (λ _, lit "Failed to write JWKS file to " ++ path_display p) (create_write p content).

Definition generate_new (key_path : path) (passphrase : option bytes) (env : JwksEnv)
    : io bytes KeyManager :=
  let km := mkKeyManager key_path passphrase (je_seed env) (fresh_kid (je_uuid env)) None None in
  save_to_file km env ≫= λ _,
  write_jwks_file km ≫= λ _,
  mret km.

(** The stored key, decrypted when the file is sealed. *)
Definition read_stored_key (key_path : path) (passphrase : option bytes) (b : bytes)
    : result bytes StoredKey :=
  if starts_with SEALED_SECRET_HEADER_V1 b then
    pass ← ok_or passphrase (lit "key file " ++ path_display key_path
      ++ lit " is encrypted but JWKS_KEY_PASSPHRASE is not set");
    plaintext ← map_err (λ e, lit "failed to decrypt signing key at " ++ path_display key_path
      ++ lit ": " ++ crypto_error_text e) (open_secret b pass);
    map_err (λ _, lit "Failed to parse decrypted signing key from " ++ path_display key_path)
      (stored_from_json plaintext)
  else
    ensure (bool_decide (passphrase = None)) (lit "key file " ++ path_display key_path
      ++ lit " is unencrypted but a passphrase is configured; remove it to regenerate an encrypted key")
      ≫= λ _,
    map_err (λ _, lit "Failed to parse signing key JSON from " ++ path_display key_path)
      (stored_from_json b).

Definition load_from_file (key_path : path) (passphrase : option bytes) (s : fs)
    : result bytes KeyManager :=
  b ← map_err (λ _, lit "Failed to read signing key from " ++ path_display key_path)
    (read_file key_path s);
  stored ← read_stored_key key_path passphrase b;
  seed ← ok_or (base64_decode (sk_private_key stored)) (base64_error (sk_private_key stored));
  ensure (length seed =? 32)%nat (lit "Invalid private key length") ≫= λ _,
  Ok (mkKeyManager key_path passphrase seed (sk_kid stored) None None).

Definition open_or_generate (key_path : path) (passphrase : option bytes) (env : JwksEnv)
    : io bytes KeyManager := λ s,
  if path_exists key_path s then (load_from_file key_path passphrase s, s)
  else generate_new key_path passphrase env s.

(** [KeyManager::new] *)
Definition new_manager (path_var : option path) (pass_var : option bytes) (temp_dir : path)
    (env : JwksEnv) : io bytes KeyManager :=
  io_lift (resolve_key_path (je_release env) path_var temp_dir) ≫= λ key_path,
  io_lift (resolve_passphrase (je_release env) pass_var) ≫= λ passphrase,
  open_or_generate key_path passphrase env.

(** [KeyManager::new_with_path] and [KeyManager::new_sealed] *)
Definition new_with_path (key_path : path) (pass_var : option bytes) (env : JwksEnv) : io bytes KeyManager :=
  io_lift (resolve_passphrase (je_release env) pass_var) ≫= λ passphrase,
  open_or_generate key_path passphrase env.
Definition new_sealed (key_path : path) (passphrase : bytes) (env : JwksEnv) : io bytes KeyManager :=
  open_or_generate key_path (Some passphrase) env.

(** The files of [rotate_key]; the manager is [rotated] also when they cannot be written. *)
Definition rotate_key (km : KeyManager) (env : JwksEnv) : io bytes unit :=
  let km' := rotated km (je_seed env) (fresh_kid (je_uuid env)) in
  save_to_file km' env ≫= λ _,
  write_jwks_file km'.
End KeyManager.

(** ** Signing receipts *)

(** jsonwebtoken's [encode] with [alg = EdDSA], [typ = JWT] and a key id, for a key in
    PKCS#8 DER. *)
Class Jwt := jwt_encode (kid : bytes) (payload : value) (der : bytes) : result bytes bytes.

Definition ed25519_pkcs8_der (secret : bytes) : bytes :=
  (byte_of_N <$> [48; 46; 2; 1; 0; 48; 5; 6; 3; 43; 101; 112; 4; 34; 4; 32]%N) ++ secret.

Definition dot_join (parts : list bytes) : bytes :=
  match parts with
  | [] => []
  | x :: l => x ++ mjoin ((λ y, dot :: y) <$> l)
  end.

(** RFC 7515 and 8037: the token of a key's DER is the encoded header and payload, signed. *)
Class JwtLaws `{Base64} `{Ed25519} `{SerdeValue} `{Jwt} : Prop := {
  jwt_encode_token kid payload seed t :
    jwt_encode kid payload (ed25519_pkcs8_der seed) = Ok t →
    ∃ h hv p, value_from_str h = Ok hv ∧ get_str hv "kid" = Some kid ∧ value_from_str p = Ok payload
      ∧ t = dot_join [base64url_encode h; base64url_encode p;
              base64url_encode (ed_sign seed (dot_join [base64url_encode h; base64url_encode p]))];
}.

Definition opt_value {A} (k : string) (f : A → value) (o : option A) : list (bytes * value) :=
  match o with Some x => [(lit k, f x)] | None => [] end.
Definition vN (n : N) : value := VNum (PosInt n).
(** An [i64] *)
Definition vZ (z : Z) : value :=
  VNum (if (z <? 0)%Z then NegInt z else PosInt (Z.to_N z)).

(** serde on a receipt body: the token encodes the struct itself, whose members come in the order
    of their declaration, while a key set goes through serde_json's map, which sorts them. *)
Definition witness_receipt_value (r : WitnessReceipt) : value :=
  VObj ([(lit "device_pub", VStr (wrc_device_pub r));
         (lit "device_registered", VBool (wrc_device_registered r));
         (lit "sequence", vN (wrc_sequence r)); (lit "tip", VStr (wrc_tip r));
         (lit "observed_at", VStr (wrc_observed_at r))]
        ++ opt_value "prev_sequence" vN (wrc_prev_sequence r)
        ++ opt_value "prev_tip" VStr (wrc_prev_tip r)
        ++ opt_value "prev_observed_at" VStr (wrc_prev_observed_at r)
        ++ [(lit "jti", VStr (wrc_jti r))]).

Definition result_value (r : VerificationResult) : value :=
  VObj [(lit "passed", VBool (passed r));
        (lit "error", match error r with Some e => VStr e | None => VNull end)].
Definition report_value (r : VerifyReport) : value :=
  let md := report_metadata r in
  VObj [(lit "signature_verification", result_value (signature_verification r));
        (lit "continuity_verification", result_value (continuity_verification r));
        (lit "metadata", VObj [(lit "total_segments", vN (total_segments md));
           (lit "verified_segments", vN (verified_segments md));
           (lit "chain_tip", VStr (vm_chain_tip md)); (lit "genesis_hash", VStr (genesis_hash md))])].
Definition claims_value (c : ReceiptClaims) : value :=
  VObj [(lit "verification_id", VStr (verification_id c)); (lit "signer_pub", VStr (signer_pub c));
        (lit "device_id", VStr (rc_device_id c));
        (lit "device_registered", VBool (device_registered c));
        (lit "manifest_digest", VStr (manifest_digest c)); (lit "chain_tip", VStr (rc_chain_tip c));
        (lit "timestamp", VStr (timestamp c)); (lit "kid", VStr (kid c));
        (lit "result", report_value (rc_result c))].

Section Signing.
Context `{Jwt}.

(** [now]: seconds since the epoch; [sign_witness_jws] *)
Definition sign_witness_token (km : KeyManager) (now : Z) (r : WitnessReceipt) : result bytes bytes :=
  map_err (λ e, lit "Failed to encode witness JWT: " ++ e)
    (jwt_encode (km_current_kid km)
      (VObj [(lit "iss", VStr (lit "sealedge-verify-service")); (lit "sub", VStr (wrc_device_pub r));
             (lit "typ", VStr (lit "witness")); (lit "iat", vZ now);
             (lit "witness", witness_receipt_value r)])
      (ed25519_pkcs8_der (km_current_key km))).

(** [exp = now + ttl as i64]: wraps in a release build *)
Definition sign_receipt_jws (km : KeyManager) (now : Z) (ttl : N) (c : ReceiptClaims)
    : result bytes bytes :=
  map_err (λ e, lit "Failed to encode JWT: " ++ e)
    (jwt_encode (km_current_kid km)
      (VObj [(lit "iss", VStr (lit "sealedge-verify-service")); (lit "sub", VStr (signer_pub c));
             (lit "iat", vZ now); (lit "exp", vZ (u64_as_i64 (i64_as_u64 (now + u64_as_i64 ttl))));
             (lit "receipt", claims_value c)])
      (ed25519_pkcs8_der (km_current_key km))).
End Signing.

(** ** What the handlers ask of a signing key *)

Class JwsSigner := {
  signer_kid : bytes;
  sign_witness_jws : WitnessReceipt → result bytes bytes;
  sign_receipt : ReceiptClaims → result bytes bytes;
}.

(** The key manager, at a point in time. *)
Definition manager_signer `{Jwt} (km : KeyManager) (now : Z) (ttl : N) : JwsSigner := {|
  signer_kid := km_current_kid km;
  sign_witness_jws := sign_witness_token km now;
  sign_receipt := sign_receipt_jws km now ttl;
|}.

(** * Correctness of the platform's signing key

    The tokens that the platform signs, read by the command-line tool against the
    published keys, and the key file across restarts. *)

(** serde_json writes a stored key as an object and reads it back. *)
Class StoredKeyLaws `{StoredKeyJson} : Prop := {
  stored_from_to_json k j : stored_to_json k = Ok j → stored_from_json j = Ok k;
  stored_is_object k j : stored_to_json k = Ok j → head j = Some lbrace;
}.

(** The key manager after rotations that draw these seeds and identifiers. *)
Definition rotate_all (km : KeyManager) (draws : list (bytes * bytes)) : KeyManager :=
  foldl (λ k d, rotated k d.1 (fresh_kid d.2)) km draws.

(** A key manager as a restart reads it from the key file. *)
Definition restarted (km : KeyManager) : KeyManager :=
  mkKeyManager (km_key_path km) (km_passphrase km) (km_current_key km) (km_current_kid km) None None.

Lemma rotate_all_snoc km draws d :
  rotate_all km (draws ++ [d]) = rotated (rotate_all km draws) d.1 (fresh_kid d.2).
Proof. unfold rotate_all. by rewrite foldl_app. Qed.

Section JwksLemmas.
Context `{Blake3Laws} `{HexLaws} `{Base64Laws} `{Ed25519Laws} `{P256} `{AeadLaws} `{KdfLaws}
  `{SerdeJsonLaws} `{SerdeValue} `{StoredKeyLaws} `{IoText} `{Jwt} `{!JwtLaws}.

(** ** Tokens *)

Lemma base64url_no_dot b : Forall (λ c, c ≠ dot) (base64url_encode b).
Proof. eapply Forall_impl; [apply base64url_encode_solid|]. by intros c [_ ?]. Qed.
Lemma base64url_all_solid b : Forall solid (base64url_encode b).
Proof. eapply Forall_impl; [apply base64url_encode_solid|]. by intros c [? _]. Qed.

Lemma split_on_none c (l : bytes) : Forall (λ b, b ≠ c) l → split_on c l = [l].
Proof.
  induction 1 as [|b l Hb _ IH]; [done|]. cbn. by rewrite decide_False, IH by done.
Qed.

Lemma token_parts h p s :
  split_on dot (trim (dot_join [base64url_encode h; base64url_encode p; base64url_encode s]))
  = [base64url_encode h; base64url_encode p; base64url_encode s].
Proof.
  unfold dot_join. cbn [fmap list_fmap mjoin list_join]. rewrite app_nil_r.
  rewrite trim_all_solid.
  - cbn [app]. rewrite split_on_app by apply base64url_no_dot.
    rewrite split_on_app by apply base64url_no_dot.
    by rewrite split_on_none by apply base64url_no_dot.
  - pose proof base64url_all_solid. assert (solid dot) by done.
    repeat first [apply Forall_app_2 | apply Forall_cons; split]; auto.
Qed.

Lemma token_signature seed msg :
  verify_manifest (ed_prefix ++ base64_encode (ed_public seed)) msg
    (ed_prefix ++ base64_encode (ed_sign seed msg)) = Ok true.
Proof.
  apply verify_manifest_ok. eapply signed_ed25519; [done|apply length_ed_public|apply ed_public_ok
    |done|apply length_ed_sign|apply ed_verify_sign].
Qed.

(** The claims that the tool reads in a receipt. *)
Definition receipt_facts (r : WitnessReceipt) : bytes * N * bytes :=
  (wrc_device_pub r, wrc_sequence r, wrc_tip r).

Lemma witness_claims r now :
  receipt_claims (VObj [(lit "iss", VStr (lit "sealedge-verify-service"));
      (lit "sub", VStr (wrc_device_pub r)); (lit "typ", VStr (lit "witness")); (lit "iat", vZ now);
      (lit "witness", witness_receipt_value r)]) = Ok (receipt_facts r).
Proof. done. Qed.

(** ** Verification against a key set *)

Definition no_key : CliError := Anyhow (lit "no JWKS key matches the receipt's kid").

(** The public key a published set has for an identifier. *)
Definition published (km : KeyManager) (kid : bytes) : option bytes :=
  if decide (km_current_kid km = kid) then Some (ed_public (km_current_key km))
  else match km_previous_key km, km_previous_kid km with
       | Some k, Some pk => if decide (pk = kid) then Some (ed_public k) else None
       | _, _ => None
       end.

Lemma select_published km kid :
  select_key (Some kid) (to_jwks km)
  = match published km kid with
    | Some pub => Ok (base64url_encode pub)
    | None => Err no_key
    end.
Proof.
  unfold select_key, to_jwks, published.
  set (cur := key_to_jwk (ed_public (km_current_key km)) (km_current_kid km)).
  change (value_get (VObj [(lit "keys", ?l)]) (lit "keys")) with (Some l).
  cbn [as_array mbind option_bind ok_or result_bind].
  assert (∀ pub k, get_str (key_to_jwk pub k) "kid" = Some k) as Hkid by done.
  assert (∀ pub k, get_str (key_to_jwk pub k) "x" = Some (base64url_encode pub)) as Hx by done.
  cbn [List.find]. unfold cur. rewrite Hkid.
  rewrite (bool_decide_eq_false_2 (Some kid = None)) by done. cbn [orb].
  destruct (decide (km_current_kid km = kid)) as [->|Hne].
  { rewrite bool_decide_eq_true_2 by done. cbn [ok_or mbind result_bind]. by rewrite Hx. }
  rewrite bool_decide_eq_false_2 by congruence.
  destruct (km_previous_key km) as [k|], (km_previous_kid km) as [pk|]; try done.
  cbn [List.find]. rewrite Hkid.
  cbn [orb]. destruct (decide (pk = kid)) as [->|Hne'].
  { rewrite bool_decide_eq_true_2 by done. cbn [ok_or mbind result_bind]. by rewrite Hx. }
  by rewrite bool_decide_eq_false_2 by congruence.
Qed.

(** A witness token is accepted under its signer's key, and refused without it. *)
Lemma witness_token_verifies km km' now r t j :
  sign_witness_token km now r = Ok t → value_from_str j = Ok (to_jwks km') →
  (published km' (km_current_kid km) = Some (ed_public (km_current_key km)) →
   verify_witness_receipt_jws t j = Ok (receipt_facts r)) ∧
  (published km' (km_current_kid km) = None → verify_witness_receipt_jws t j = Err no_key).
Proof.
  unfold sign_witness_token. intros Ht Hj.
  destruct (jwt_encode _ _ _) as [tok|e] eqn:E; [|done]. apply Ok_inj in Ht as <-.
  apply jwt_encode_token in E as (h & hv & p & Hh & Hkid & Hp & ->).
  unfold verify_witness_receipt_jws. rewrite token_parts.
  assert (∀ b, decode_part (base64url_encode b) = Ok b) as Hdec
    by (intros b; unfold decode_part; by rewrite base64url_decode_encode).
  rewrite !Hdec. cbn [mbind result_bind]. rewrite Hh. cbn [map_err mbind result_bind].
  rewrite Hj. cbn [map_err mbind result_bind]. rewrite Hkid, select_published.
  split; intros ->; [|done]. cbn [mbind result_bind]. rewrite Hdec. cbn [mbind result_bind].
  replace (base64url_encode h ++ [dot] ++ base64url_encode p)
    with (dot_join [base64url_encode h; base64url_encode p])
    by (unfold dot_join; cbn; by rewrite app_nil_r).
  rewrite token_signature. cbn [map_err mbind result_bind ensure].
  rewrite Hp. cbn [map_err mbind result_bind]. apply witness_claims.
Qed.

Lemma published_current km : published km (km_current_kid km) = Some (ed_public (km_current_key km)).
Proof. unfold published. by rewrite decide_True. Qed.

Lemma current_kid_snoc km draws d :
  km_current_kid (rotate_all km (draws ++ [d])) = fresh_kid d.2.
Proof. by rewrite rotate_all_snoc. Qed.

(** Identifiers that were never drawn twice: a key is published until its second rotation. *)
Lemma published_rotate_all km draws :
  NoDup (km_current_kid km :: (fresh_kid ∘ snd <$> draws)) →
  published (rotate_all km draws) (km_current_kid km)
  = if decide (length draws ≤ 1) then Some (ed_public (km_current_key km)) else None.
Proof.
  intros [Hnin _]%NoDup_cons. rewrite list_elem_of_fmap in Hnin.
  assert (∀ d, d ∈ draws → fresh_kid d.2 ≠ km_current_kid km) as Hne by (intros d Hd Heq; eauto).
  destruct draws as [|d1 draws _] using rev_ind; [by rewrite published_current|].
  rewrite rotate_all_snoc. unfold published. cbn [rotated km_current_kid km_previous_key km_previous_kid].
  rewrite decide_False by (apply Hne; set_solver).
  destruct draws as [|d2 draws _] using rev_ind.
  { cbn. by rewrite decide_True. }
  rewrite current_kid_snoc, decide_False by (apply Hne; set_solver).
  rewrite decide_False; [done|]. rewrite !length_app. cbn. lia.
Qed.

(** ** The key file *)

Lemma stored_not_sealed k j : stored_to_json k = Ok j → starts_with SEALED_SECRET_HEADER_V1 j = false.
Proof.
  intros Hj%stored_is_object. destruct j as [|c j]; [done|]. injection Hj as ->. done.
Qed.

Lemma sealed_starts secret pass salt nonce data :
  seal_secret secret pass salt nonce = Ok data → starts_with SEALED_SECRET_HEADER_V1 data = true.
Proof.
  unfold seal_secret, encrypt_blob. intros Hs. inv_ok. subst. apply starts_with_spec. by eexists.
Qed.

(** What a successful save wrote. *)
Lemma save_to_file_ok (km : KeyManager) (env : JwksEnv) (s s' : fs) (u : unit) :
  km_key_path km ≠ [] → save_to_file km env s = (Ok u, s') →
  ∃ j b, stored_to_json (mkStoredKey (km_current_kid km) (base64_encode (km_current_key km))
             (je_now env)) = Ok j
    ∧ match km_passphrase km with
      | Some pass => seal_secret j pass (je_salt env) (je_nonce env) = Ok b
      | None => je_release env = false ∧ b = j
      end
    ∧ s' !! km_key_path km = Some (File b) ∧ ancestor_error (km_key_path km) s' = None.
Proof.
  intros Hp. unfold save_to_file. intros Hs.
  apply io_bind_ok in Hs as (j & s1 & [Hj ->]%io_lift_ok & Hs). exists j.
  destruct (km_passphrase km) as [pass|].
  - apply io_bind_ok in Hs as (b & s1 & [Hb ->]%io_lift_ok & Hs%io_map_err_ok).
    apply write_secure_ok in Hs as (Hf & Ha & _); [|done]. exists b. split_and!; try done.
    by apply map_err_ok in Hb.
  - destruct (je_release env); [done|]. apply io_map_err_ok in Hs.
    apply write_secure_ok in Hs as (Hf & Ha & _); [|done]. by exists j.
Qed.

(** A key file that holds what a manager saves is loaded as that manager, without a previous key. *)
Lemma load_saved (km : KeyManager) (env : JwksEnv) (s : fs) (j b : bytes) :
  length (km_current_key km) = 32 → length (je_nonce env) = 12 →
  metadata_reads_back 1 (je_salt env) (je_nonce env) →
  stored_to_json (mkStoredKey (km_current_kid km) (base64_encode (km_current_key km))
    (je_now env)) = Ok j →
  match km_passphrase km with
  | Some pass => seal_secret j pass (je_salt env) (je_nonce env) = Ok b
  | None => je_release env = false ∧ b = j
  end →
  read_file (km_key_path km) s = Ok b →
  load_from_file (km_key_path km) (km_passphrase km) s = Ok (restarted km).
Proof.
  intros Hl Hn Hm Hj Hb Hr. unfold load_from_file. rewrite Hr. cbn [map_err mbind result_bind].
  assert (read_stored_key (km_key_path km) (km_passphrase km) b
    = Ok (mkStoredKey (km_current_kid km) (base64_encode (km_current_key km)) (je_now env))) as ->.
  { unfold read_stored_key. destruct (km_passphrase km) as [pass|].
    - rewrite (sealed_starts _ _ _ _ _ Hb). cbn [ok_or mbind result_bind].
      rewrite (open_seal_secret _ _ _ _ _ Hn Hm Hb). cbn [map_err mbind result_bind].
      by rewrite (stored_from_to_json _ _ Hj).
    - destruct Hb as [_ ->]. rewrite (stored_not_sealed _ _ Hj).
      rewrite bool_decide_eq_true_2 by done. cbn [ensure mbind result_bind].
      by rewrite (stored_from_to_json _ _ Hj). }
  cbn [mbind result_bind sk_private_key sk_kid]. rewrite base64_decode_encode.
  cbn [ok_or mbind result_bind]. by rewrite Hl.
Qed.

(** Writing the published keys keeps every file but its own. *)
Lemma write_jwks_keeps (km : KeyManager) (s s' : fs) (u : unit) (p : path) (b : bytes) :
  write_jwks_file km s = (Ok u, s') → p ≠ jwks_path km →
  s !! p = Some (File b) → ancestor_error p s = None → read_file p s' = Ok b.
Proof.
  unfold write_jwks_file. intros Hw Hne Hp Ha.
  apply io_bind_ok in Hw as ([] & s1 & Hd%io_map_err_ok & Hw).
  apply io_bind_ok in Hw as (c & s2 & [_ ->]%io_lift_ok & Hw%io_map_err_ok).
  apply create_write_inv in Hw as (-> & Hj & _).
  assert (s1 !! p = Some (File b) ∧ ∀ q : path, s !! q = Some Dir → s1 !! q = Some Dir) as [Hp1 Hd1].
  { destruct (1 <? _)%nat; [|by injection Hd as <-].
    pose proof (create_dirs_inv _ _ _ _ Hd) as Hin.
    apply create_dir_all_inv in Hd as (_ & Ho & Hk). split; [|done].
    rewrite Ho; [done|]. intros Hq. destruct (Hin p Hq); congruence. }
  apply read_file_ok; [|by rewrite lookup_insert_ne].
  rewrite ancestor_error_None in Ha |- *. intros q Hq. apply Ha, Hd1 in Hq.
  rewrite lookup_insert_ne; [done|]. by intros <-.
Qed.

(** A saved key is what the next start loads. *)
Lemma save_restart (km : KeyManager) (env : JwksEnv) (s s1 s' : fs) (u u' : unit) :
  km_key_path km ≠ [] → km_key_path km ≠ jwks_path km →
  length (km_current_key km) = 32 → length (je_nonce env) = 12 →
  metadata_reads_back 1 (je_salt env) (je_nonce env) →
  save_to_file km env s = (Ok u, s1) → write_jwks_file km s1 = (Ok u', s') →
  path_exists (km_key_path km) s' = true ∧
  load_from_file (km_key_path km) (km_passphrase km) s' = Ok (restarted km).
Proof.
  intros Hp Hne Hl Hn Hm Hs Hw. apply save_to_file_ok in Hs as (j & b & Hj & Hb & Hf & Ha); [|done].
  assert (read_file (km_key_path km) s' = Ok b) as Hr by by eapply write_jwks_keeps.
  split; [|by eapply load_saved].
  apply read_file_inv in Hr as [_ Hr]. unfold path_exists. by rewrite Hr.
Qed.
End JwksLemmas.
