(* ===== verification/Platform.v ===== *)
(** * The platform's database and handlers

    crates/platform/src/database/queries.rs (the queries on the witness ledger, the
    device registry and the rotation lineage) and crates/platform/src/http/handlers.rs
    (the handlers of the postgres build, and the two stateless ones), with the bearer
    token check of crates/platform/src/http/auth.rs and the routes of
    crates/platform/src/http/router.rs.

    A handler is a program that issues database statements one at a time; each
    statement is atomic, the handler is not.  [run] executes a program alone;
    [step] is the service: any number of requests in flight, their statements
    interleaved, any statement may fail.  The clock, random ids and SHA-256
    are parameters; so is the signer, see [manager_signer].  The foreign keys of the
    schema never fail, since nothing deletes rows, and are left out; so are the rate
    limiter and the body size limit. *)

From S2P Require Import Prelude External Utf8 FileSystem Json Float64 Manifest ManifestCanon.
From S2P Require Import Chain Crypto Keywrap Chronicle Attestation Archive VerifyChronicle.
From S2P Require Import VerifyEngine Witness Jwks.
From S2P Require Import VerifyEngineCorrect.

(** ** Tables *)

Abbreviation uuid := N (only parsing).

Record LedgerRow := mkLedgerRow {
  lr_tip : bytes;
  lr_observed_at : bytes;
  lr_device_registered : bool;
  lr_signed_at : bytes;
}.

Record DeviceRow := mkDeviceRow {
  dr_org_id : uuid;
  dr_device_id : bytes;
  dr_device_pub : bytes;
  dr_label : option bytes;
  dr_status : bytes;
  dr_revoked_at : option bytes;
  dr_min_epoch : option Z; (* INTEGER *)
}.

Record LineageRow := mkLineageRow {
  ln_old_pub : bytes;
  ln_rotation_seq : Z; (* BIGINT *)
  ln_observed_at : bytes;
}.

Record VerificationRow := mkVerificationRow {
  vr_org_id : uuid;
  vr_device_id : option uuid;
  vr_manifest_digest : bytes;
  vr_result_json : value;
}.

Record ReceiptRow := mkReceiptRow {
  rr_verification_id : uuid;
  rr_jws : bytes;
  rr_kid : bytes;
}.

(** Primary keys: (device_pub, sequence as BIGINT), id, new_pub, id, id; of [api_keys] the
    unique token hash and its organization. *)
Record db := mkDb {
  witness_log : gmap (list ascii * Z) LedgerRow;
  devices : gmap N DeviceRow;
  device_lineage : gmap (list ascii) LineageRow;
  verifications : gmap N VerificationRow;
  receipts : gmap N ReceiptRow;
  api_keys : gmap (list ascii) N;
}.

Definition set_log (x : gmap (list ascii * Z) LedgerRow) (d : db) : db :=
  mkDb x (devices d) (device_lineage d) (verifications d) (receipts d) (api_keys d).
Definition set_devices (x : gmap N DeviceRow) (d : db) : db :=
  mkDb (witness_log d) x (device_lineage d) (verifications d) (receipts d) (api_keys d).
Definition set_lineage (x : gmap (list ascii) LineageRow) (d : db) : db :=
  mkDb (witness_log d) (devices d) x (verifications d) (receipts d) (api_keys d).
Definition set_verifications (x : gmap N VerificationRow) (d : db) : db :=
  mkDb (witness_log d) (devices d) (device_lineage d) x (receipts d) (api_keys d).
Definition set_receipts (x : gmap N ReceiptRow) (d : db) : db :=
  mkDb (witness_log d) (devices d) (device_lineage d) (verifications d) x (api_keys d).

Inductive db_error := UniqueViolation | Unavailable.

(** The text of a database error, and which of several matching rows
    [fetch_optional] returns when the statement has no ORDER BY. *)
Class Postgres := {
  db_error_text : db_error → bytes;
  pick_row {A} : list A → option A;
}.
Class PostgresLaws `{Postgres} : Prop := {
  pick_row_elem {A} (l : list A) x : pick_row l = Some x → x ∈ l;
  pick_row_None {A} (l : list A) : pick_row l = None → l = [];
}.

(** ** Queries *)

Section Queries.
Context `{Postgres}.

(** [ORDER BY sequence]: the column is signed. *)
Definition signed_key (q : Z) : N := Z.to_N (q + 2 ^ 63).

Definition entry_of_row (q : Z) (r : LedgerRow) : WitnessEntry :=
  mkWitnessEntry (i64_as_u64 q) (lr_tip r) (lr_observed_at r).

Definition witness_entries (device_pub : bytes) (d : db) : list WitnessEntry :=
  (λ p, entry_of_row p.1 p.2) <$>
    sort_by_key (λ p, signed_key p.1)
      (omap (λ kv : (list ascii * Z) * LedgerRow,
               if decide (kv.1.1 = device_pub) then Some (kv.1.2, kv.2) else None)
         (map_to_list (witness_log d))).

Definition witness_insert (device_pub : bytes) (sequence : N) (tip observed_at : bytes)
    (registered : bool) (signed_at : bytes) (d : db) : result db_error unit * db :=
  let key := (device_pub, u64_as_i64 sequence) in
  match witness_log d !! key with
  | Some _ => (Err UniqueViolation, d)
  | None =>
      (Ok tt, set_log (<[key := mkLedgerRow tip observed_at registered signed_at]> (witness_log d)) d)
  end.

Definition witness_entry_at (device_pub : bytes) (sequence : N) (d : db) : option WitnessEntry :=
  entry_of_row (u64_as_i64 sequence) <$> witness_log d !! (device_pub, u64_as_i64 sequence).

Definition row_revocation (r : DeviceRow) : RevocationState :=
  mkRevocationState (dr_revoked_at r) (i32_as_u32 <$> dr_min_epoch r).

Definition get_device_revocation_by_pub (device_pub : bytes) (d : db)
    : option (uuid * RevocationState) :=
  (λ kv : N * DeviceRow, (kv.1, row_revocation kv.2)) <$>
    List.find (λ kv, bool_decide (dr_device_pub kv.2 = device_pub)) (map_to_list (devices d)).

Definition get_device_revocation (org_id id : uuid) (d : db) : option (bytes * RevocationState) :=
  r ← devices d !! id;
  if (dr_org_id r =? org_id)%N then Some (dr_device_pub r, row_revocation r) else None.

Definition set_device_revocation (org_id id : uuid) (ra : bytes) (me : option N) (d : db)
    : bool * db :=
  match devices d !! id with
  | Some r =>
      if (dr_org_id r =? org_id)%N then
        (true, set_devices
           (<[id := mkDeviceRow (dr_org_id r) (dr_device_id r) (dr_device_pub r) (dr_label r)
                      (lit "revoked") (Some ra) (u32_as_i32 <$> me)]> (devices d)) d)
      else (false, d)
  | None => (false, d)
  end.

(** UNIQUE(org_id, device_id) and the unique index on device_pub; [id] is the fresh
    primary key that the database generates. *)
Definition create_device (org_id : uuid) (device_id device_pub : bytes) (label : option bytes)
    (id : uuid) (d : db) : result db_error unit * db :=
  if existsb (λ kv : N * DeviceRow,
       bool_decide (kv.1 = id)
       || ((dr_org_id kv.2 =? org_id)%N && bool_decide (dr_device_id kv.2 = device_id))
       || bool_decide (dr_device_pub kv.2 = device_pub)) (map_to_list (devices d))
  then (Err UniqueViolation, d)
  else (Ok tt, set_devices
          (<[id := mkDeviceRow org_id device_id device_pub label (lit "active") None None]>
             (devices d)) d).

(** The rows of an old key; the index on old_pub is not unique. *)
Definition lineage_rows (old_pub : bytes) (d : db) : list LineageRow :=
  List.filter (λ r, bool_decide (ln_old_pub r = old_pub)) (snd <$> map_to_list (device_lineage d)).

Definition lineage_rotation_seq (old_pub : bytes) (d : db) : option N :=
  (λ r, i64_as_u64 (ln_rotation_seq r)) <$> pick_row (lineage_rows old_pub d).

(** [ON CONFLICT (new_pub) DO NOTHING] *)
Definition lineage_insert (new_pub old_pub : bytes) (rotation_seq : N) (observed_at : bytes)
    (d : db) : db :=
  match device_lineage d !! new_pub with
  | Some _ => d
  | None => set_lineage
      (<[new_pub := mkLineageRow old_pub (u64_as_i64 rotation_seq) observed_at]> (device_lineage d)) d
  end.

(** (org_id, device_id) is unique. *)
Definition get_device_with_pub (org_id : uuid) (device_id : bytes) (d : db)
    : option (uuid * bytes) :=
  (λ kv : N * DeviceRow, (kv.1, dr_device_pub kv.2)) <$>
    List.find (λ kv, (dr_org_id kv.2 =? org_id)%N && bool_decide (dr_device_id kv.2 = device_id))
      (map_to_list (devices d)).

Definition create_verification (org_id : uuid) (device_id : option uuid) (digest : bytes)
    (result_json : value) (id : uuid) (d : db) : result db_error uuid * db :=
  match verifications d !! id with
  | Some _ => (Err UniqueViolation, d)
  | None => (Ok id, set_verifications
      (<[id := mkVerificationRow org_id device_id digest result_json]> (verifications d)) d)
  end.

Definition create_receipt (verification_id : uuid) (jws kid : bytes) (id : uuid) (d : db)
    : result db_error uuid * db :=
  match receipts d !! id with
  | Some _ => (Err UniqueViolation, d)
  | None => (Ok id, set_receipts (<[id := mkReceiptRow verification_id jws kid]> (receipts d)) d)
  end.

(** The join with [verifications]: a receipt is read by the organization it was made for. *)
Definition get_receipt (org_id id : uuid) (d : db) : option (bytes * bytes) :=
  r ← receipts d !! id;
  v ← verifications d !! rr_verification_id r;
  if (vr_org_id v =? org_id)%N then Some (rr_jws r, rr_kid r) else None.

Definition get_org_by_token_hash (h : bytes) (d : db) : option uuid := api_keys d !! h.

(** token_hash is UNIQUE; the organization is one that exists. *)
Definition create_api_key (org_id : uuid) (token_hash : bytes) (d : db) : result db_error unit * db :=
  match api_keys d !! token_hash with
  | Some _ => (Err UniqueViolation, d)
  | None => (Ok tt, mkDb (witness_log d) (devices d) (device_lineage d) (verifications d) (receipts d)
                      (<[token_hash := org_id]> (api_keys d)))
  end.

Definition get_device_by_pub (device_pub : bytes) (d : db) : option uuid :=
  fst <$> List.find (λ kv : N * DeviceRow, bool_decide (dr_device_pub kv.2 = device_pub)) (map_to_list (devices d)).
End Queries.

(** ** Statements and programs *)

Inductive db_op : Type → Type :=
  | OpRevocationByPub (device_pub : bytes) : db_op (option (uuid * RevocationState))
  | OpLineageSeq (old_pub : bytes) : db_op (option N)
  | OpWitnessEntries (device_pub : bytes) : db_op (list WitnessEntry)
  | OpWitnessInsert (device_pub : bytes) (sequence : N) (tip observed_at : bytes)
      (registered : bool) (signed_at : bytes) : db_op unit
  | OpWitnessEntryAt (device_pub : bytes) (sequence : N) : db_op (option WitnessEntry)
  | OpLineageInsert (new_pub old_pub : bytes) (rotation_seq : N) (observed_at : bytes) : db_op unit
  | OpGetRevocation (org_id id : uuid) : db_op (option (bytes * RevocationState))
  | OpSetRevocation (org_id id : uuid) (ra : bytes) (me : option N) : db_op bool
  | OpCreateDevice (org_id : uuid) (device_id device_pub : bytes) (label : option bytes)
      (id : uuid) : db_op unit
  | OpDeviceWithPub (org_id : uuid) (device_id : bytes) : db_op (option (uuid * bytes))
  | OpCreateVerification (org_id : uuid) (device_id : option uuid) (digest : bytes)
      (result_json : value) (id : uuid) : db_op uuid
  | OpCreateReceipt (verification_id : uuid) (jws kid : bytes) (id : uuid) : db_op uuid
  | OpGetReceipt (org_id id : uuid) : db_op (option (bytes * bytes))
  | OpOrgByToken (token_hash : bytes) : db_op (option uuid).

(** The body of an error response: none or a text, or a [ValidationError] as JSON. *)
Inductive http_body := Text (b : bytes) | JsonError (e : ValidationError).
Record http_error := mkHttpErr { status : N; body : http_body }.
Definition mkHttpError (st : N) (b : bytes) : http_error := mkHttpErr st (Text b).
Definition json_error (st : N) (e d : string) : http_error :=
  mkHttpErr st (JsonError (validation_error e d)).

Inductive prog (A : Type) : Type :=
  | Ret (r : result http_error A)
  | Op {B : Type} (op : db_op B) (k : result db_error B → prog A).
Arguments Ret {A} r.
Arguments Op {A B} op k.

Fixpoint prog_bind {A B} (p : prog A) (f : A → prog B) : prog B :=
  match p with
  | Ret (Ok a) => f a
  | Ret (Err e) => Ret (Err e)
  | Op op k => Op op (λ r, prog_bind (k r) f)
  end.
Global Instance prog_mbind : MBind prog := λ A B f p, prog_bind p f.

Definition lift {A} (r : result http_error A) : prog A := Ret r.
(** [statement.await.map_err(f)?] *)
Definition query {A} (op : db_op A) (f : db_error → http_error) : prog A :=
  Op op (λ r, Ret (map_err f r)).

(** A statement whose failure the handler deals with. *)
Definition attempt {A} (op : db_op A) : prog (result db_error A) := Op op (λ r, Ret (Ok r)).

Definition internal (msg : string) : db_error → http_error := λ _, mkHttpError 500 (lit msg).

(** ** Handlers *)

(** The hexadecimal SHA-256 digest; the hyphenated text of a UUID. *)
Class Sha256 := sha256_hex : bytes → bytes.
Class UuidText := uuid_to_string : N → bytes.

(** What the verify handler draws: the ids of the rows and of the claims, and the time. *)
Record VerifyEnv := mkVerifyEnv {
  en_verification : uuid;
  en_receipt : uuid;
  en_claims : bytes;
  en_now : bytes;
}.

Record VerifyResponse := mkVerifyResponse {
  vs_verification_id : bytes;
  vs_result : VerifyReport;
  vs_receipt : option bytes;
}.

Section Handlers.
Context `{Blake3} `{Hex} `{Base64} `{Ed25519} `{P256} `{SerdeJson} `{SerdeValue} `{ManifestValue}
  `{AttestationJson} `{Chrono} `{Postgres} `{JwsSigner} `{Sha256} `{UuidText}.

(** Steps 2 and 3: registry, lineage, ledger, and the gates on the decision. *)
Definition witness_decision (req : WitnessRequest) : prog (bool * WitnessDecision) :=
  reg ← query (OpRevocationByPub (wr_device_pub req)) (internal "registry lookup failed");
  let '(registered, revocation) :=
    match reg with
    | Some (_, st) => (true, st)
    | None => (false, mkRevocationState None None)
    end in
  superseded_seq ← query (OpLineageSeq (wr_device_pub req)) (internal "lineage lookup failed");
  existing ← query (OpWitnessEntries (wr_device_pub req)) (internal "witness ledger read failed");
  let decision := decide_witness existing (wr_sequence req) (wr_tip req) in
  lift (ensure (negb (refuse_revoked_witness (is_revoked revocation) decision))
    (mkHttpError 403 (lit "device key is revoked; new chronicle tips are refused"))) ≫= λ _,
  lift (ensure (negb (refuse_superseded superseded_seq (wr_sequence req) decision))
    (mkHttpError 409 (lit "superseded: this key rotated away at sequence "
      ++ fmt_N (default 0%N superseded_seq) ++ lit "; new tips beyond it are refused"))) ≫= λ _,
  lift (Ok (registered, decision)).

(** Acting on the decision: the trusted timestamp and the previous entry. *)
Definition witness_record (req : WitnessRequest) (observed_now : bytes) (registered : bool)
    (decision : WitnessDecision) : prog (bytes * option WitnessEntry) :=
  match decision with
  | Fork existing_tip =>
      lift (Err (mkHttpError 409 (lit "fork: sequence " ++ fmt_N (wr_sequence req)
        ++ lit " already witnessed with a different tip (" ++ existing_tip ++ lit ")")))
  | Rollback m =>
      lift (Err (mkHttpError 409 (lit "rollback: sequence " ++ fmt_N (wr_sequence req)
        ++ lit " is at or below the last witnessed sequence " ++ fmt_N m)))
  | Replay existing prev => lift (Ok (we_observed_at existing, prev))
  | Record_ prev =>
      query (OpWitnessInsert (wr_device_pub req) (wr_sequence req) (wr_tip req) observed_now
               registered (wr_signed_at req))
        (λ e, mkHttpError 409 (lit "witness ledger insert conflict: " ++ db_error_text e)) ≫= λ _,
      lift (Ok (observed_now, prev))
  end.

(** A rotation attached to the request: verify it and record the lineage. *)
Definition witness_lineage (req : WitnessRequest) (observed_at : bytes) : prog unit :=
  match wr_rotation req with
  | None => lift (Ok tt)
  | Some rec =>
      match verify_lineage_rotation rec (wr_device_pub req) (wr_sequence req) (wr_tip req) with
      | LineageReject msg =>
          lift (Err (mkHttpError 400 (lit "rotation lineage rejected: " ++ msg)))
      | LineageOk old_pub rotation_seq =>
          (if (0 <? rotation_seq)%N then
             prev ← query (OpWitnessEntryAt old_pub (rotation_seq - 1))
               (internal "lineage predecessor lookup failed");
             match prev with
             | Some e =>
                 lift (ensure (bool_decide (we_tip e = rr_prev_archive_hash rec))
                   (mkHttpError 409
                     (lit "rotation prev_archive_hash does not match the old key's witnessed chain")))
             | None => lift (Ok tt)
             end
           else lift (Ok tt)) ≫= λ _,
          query (OpLineageInsert (wr_device_pub req) old_pub rotation_seq observed_at)
            (internal "lineage insert failed")
      end
  end.

(** The handler up to the receipt body. *)
Definition witness_receipt (req : WitnessRequest) (observed_now jti : bytes)
    : prog WitnessReceipt :=
  lift (ensure (witness_verify req)
    (mkHttpError 401 (lit "invalid witness request signature"))) ≫= λ _,
  '(registered, decision) ← witness_decision req;
  '(observed_at, prev) ← witness_record req observed_now registered decision;
  witness_lineage req observed_at ≫= λ _,
  lift (Ok (build_receipt (wr_device_pub req) registered (wr_sequence req) (wr_tip req)
              observed_at prev jti)).

Definition witness_handler (req : WitnessRequest) (observed_now jti : bytes)
    : prog (WitnessReceipt * bytes) :=
  receipt ← witness_receipt req observed_now jti;
  jws ← lift (map_err (λ e, mkHttpError 500 (lit "failed to sign witness receipt: " ++ e))
                (sign_witness_jws receipt));
  lift (Ok (receipt, jws)).

Definition no_such_device : http_error :=
  mkHttpError 404 (lit "no such device in this organization").

Definition revoke_device_handler (org_id id : uuid) (req_ra : option bytes) (req_me : option N)
    (now : bytes) : prog (bytes * option N) :=
  found ← query (OpGetRevocation org_id id) (internal "device lookup failed");
  '(_, current) ← lift (ok_or found no_such_device);
  '(ra, me) ← lift (match decide_revoke current req_ra req_me now with
                    | Reject msg => Err (mkHttpError 409 msg)
                    | Apply ra me => Ok (ra, me)
                    end);
  updated ← query (OpSetRevocation org_id id ra me) (internal "revoke update failed");
  lift (ensure updated no_such_device) ≫= λ _,
  lift (Ok (ra, me)).

Definition register_device_handler (org_id : uuid) (device_id device_pub : bytes)
    (label : option bytes) (id : uuid) : prog unit :=
  query (OpCreateDevice org_id device_id device_pub label id) (λ _, mkHttpError 500 []).

(** *** [verify_handler] of the postgres build *)

(** The registered device a request is bound to, when there is a tenant to look it up. *)
Definition bind_device (ctx : option uuid) (req : VerifyRequest) : prog (option uuid * bool) :=
  match opt_device_id (vq_options req), ctx with
  | Some device_id, Some org_id =>
      record ← query (OpDeviceWithPub org_id device_id)
        (λ _, json_error 500 "database_error" "Failed to query device");
      match record with
      | None => lift (Err (json_error 403 "unknown_device"
                             "device_id is not registered for this organization"))
      | Some (id, stored_pub) =>
          if bool_decide (stored_pub = vq_device_pub req) then lift (Ok (Some id, true))
          else lift (Err (json_error 403 "device_key_mismatch"
                            "device_pub does not match the registered key for device_id"))
      end
  | _, _ => lift (Ok (None, false))
  end.

(** The epoch in the raw manifest, 0 when there is none. *)
Definition archive_epoch (manifest : value) : N :=
  as_u32 (default 0%N (value_get manifest (lit "device") ≫= λ d,
    value_get d (lit "key_epoch") ≫= as_u64_value)).

Definition opt_json {A} (f : A → value) (o : option A) : value :=
  match o with Some x => f x | None => VNull end.

(** The epoch floor of the signing key; what is known of its revocation is stored. *)
Definition check_revocation (req : VerifyRequest) : prog value :=
  found ← query (OpRevocationByPub (vq_device_pub req))
    (λ _, json_error 500 "database_error" "Failed to query device revocation");
  match found with
  | None => lift (Ok VNull)
  | Some (_, rev) =>
      lift (ensure (epoch_allowed (min_epoch rev) (archive_epoch (vq_manifest req)))
        (json_error 403 "epoch_below_min"
           "archive key_epoch is below the device's min_epoch floor")) ≫= λ _,
      lift (Ok (VObj [(lit "min_epoch", opt_json vN (min_epoch rev));
                      (lit "revoked_at", opt_json VStr (revoked_at rev))]))
  end.

Definition compute_manifest_digest_sha256 (manifest : value) : bytes :=
  sha256_hex (match value_to_string manifest with Ok s => s | Err _ => [] end).

(** serde_json sorts the members. *)
Definition result_for_db (report : VerifyReport) (revocation : value) : value :=
  let md := report_metadata report in
  let result r := VObj [(lit "error", opt_json VStr (error r)); (lit "passed", VBool (passed r))] in
  VObj [(lit "continuity_verification", result (continuity_verification report));
        (lit "metadata", VObj [(lit "chain_tip", VStr (vm_chain_tip md));
           (lit "genesis_hash", VStr (genesis_hash md));
           (lit "total_segments", vN (total_segments md));
           (lit "verified_segments", vN (verified_segments md))]);
        (lit "revocation", revocation);
        (lit "signature_verification", result (signature_verification report))].

Definition receipt_wanted (req : VerifyRequest) (report : VerifyReport) : bool :=
  return_receipt (vq_options req) && passed (signature_verification report)
  && passed (continuity_verification report).

(** The receipt and the id under which it was stored; not storing it is not an error. *)
Definition issue_receipt (req : VerifyRequest) (report : VerifyReport) (registered : bool)
    (verification : uuid) (env : VerifyEnv) : prog (option bytes * option uuid) :=
  if receipt_wanted req report then
    let claims := receipt_from_report (en_claims env) report
      (compute_manifest_digest_blake3 (vq_manifest req)) (vq_device_pub req)
      (default (lit "unknown_device") (opt_device_id (vq_options req))) registered signer_kid
      (en_now env) (vm_chain_tip (report_metadata report)) in
    jws ← lift (map_err (λ _, json_error 500 "receipt_signing_failed" "Receipt generation failed")
                  (sign_receipt claims));
    stored ← attempt (OpCreateReceipt verification jws signer_kid (en_receipt env));
    lift (Ok (Some jws, match stored with Ok id => Some id | Err _ => None end))
  else lift (Ok (None, None)).

(** [Uuid::nil] *)
Definition nil_uuid : uuid := 0%N.

Definition verify_handler (ctx : option uuid) (req : VerifyRequest) (env : VerifyEnv)
    : prog VerifyResponse :=
  lift (map_err (λ e, mkHttpErr 400 (JsonError e)) (validate_verify_request_full req)) ≫= λ _,
  '(device_id, registered) ← bind_device ctx req;
  revocation ← check_revocation req;
  report ← lift (map_err (λ _, json_error 400 "verification_failed" "Cryptographic verification failed")
    (verify_to_report (vq_manifest req) (vq_segments req) (vq_device_pub req)));
  id ← query (OpCreateVerification (default nil_uuid ctx) device_id
                (compute_manifest_digest_sha256 (vq_manifest req)) (result_for_db report revocation)
                (en_verification env))
    (λ _, json_error 500 "database_error" "Failed to create verification record");
  '(receipt, receipt_id) ← issue_receipt req report registered id env;
  lift (Ok (mkVerifyResponse
    (match receipt_id with
     | Some rid => uuid_to_string id ++ lit "/" ++ uuid_to_string rid
     | None => uuid_to_string id
     end) report receipt)).

(** *** [verify_handler] without a database, and [build_receipt_if_requested] *)

Definition build_receipt_if_requested (req : VerifyRequest) (report : VerifyReport)
    (claims_id now : bytes) : result ValidationError (option bytes) :=
  if receipt_wanted req report then
    map_err (λ _, validation_error "receipt_signing_failed" "Receipt generation failed")
      (Some <$> sign_receipt (receipt_from_report claims_id report
         (compute_manifest_digest_blake3 (vq_manifest req)) (vq_device_pub req)
         (default (lit "unknown_device") (opt_device_id (vq_options req))) false signer_kid
         now (vm_chain_tip (report_metadata report))))
  else Ok None.

Definition verify_stateless (req : VerifyRequest) (id claims_id now : bytes)
    : result http_error VerifyResponse :=
  map_err (λ e, mkHttpErr 400 (JsonError e)) (validate_verify_request_full req) ≫= λ _,
  report ← map_err (λ _, json_error 400 "verification_failed" "Cryptographic verification failed")
    (verify_to_report (vq_manifest req) (vq_segments req) (vq_device_pub req));
  receipt ← map_err (λ e, mkHttpErr 500 (JsonError e))
    (build_receipt_if_requested req report claims_id now);
  Ok (mkVerifyResponse (lit "v_" ++ id) report receipt).

(** *** [verify_attestation_handler] *)

Record AttestationResponse := mkAttestationResponse {
  ars_status : bytes;
  ars_receipt : option bytes;
  ars_details : value;
}.

Definition attestation_failed (reason : string) (a : PointAttestation) : AttestationResponse :=
  mkAttestationResponse (lit "failed") None
    (VObj [(lit "public_key", VStr (pa_public_key a)); (lit "reason", VStr (lit reason));
           (lit "timestamp", VStr (pa_timestamp a))]).

Definition attestation_claims (a : PointAttestation) (id now : bytes) : ReceiptClaims :=
  let canonical := match canonical_bytes a with Ok c => c | Err _ => [] end in
  mkReceiptClaims (lit "va_" ++ id) (pa_public_key a) (pa_public_key a) false
    (lit "b3:" ++ base64_encode (segment_hash canonical)) (lit "none") now signer_kid
    (mkVerifyReport (mkVerificationResult true None) (mkVerificationResult true None)
       (mkVerificationMetadata 0 0 (lit "none") (lit "none"))).

Definition verify_attestation_handler (doc id now : bytes) : result http_error AttestationResponse :=
  a ← map_err (λ _, json_error 400 "invalid_attestation" "Failed to parse attestation document")
    (attestation_from_json doc);
  ensure (bool_decide (pa_format a = FORMAT_V1))
    (json_error 400 "invalid_format" "Expected format te-point-attestation-v1") ≫= λ _,
  ensure (bool_decide (pa_signature a ≠ None))
    (json_error 400 "missing_signature" "Attestation document has no signature") ≫= λ _,
  match pa_verify_signature a (pa_public_key a) with
  | Err _ => Ok (attestation_failed "Cryptographic verification failed" a)
  | Ok false => Ok (attestation_failed "Signature verification failed" a)
  | Ok true =>
      jws ← map_err (λ _, json_error 500 "receipt_error" "Failed to sign receipt")
        (sign_receipt (attestation_claims a id now));
      Ok (mkAttestationResponse (lit "verified") (Some jws)
        (VObj [(lit "evidence_hash", VStr (ar_hash (pa_evidence a)));
               (lit "format", VStr (pa_format a)); (lit "public_key", VStr (pa_public_key a));
               (lit "signer_registered", VBool false);
               (lit "subject_hash", VStr (ar_hash (pa_subject a)));
               (lit "timestamp", VStr (pa_timestamp a));
               (lit "trust", VStr (lit "self-signed: signature valid for the embedded public key; signer identity not established"))]))
  end.

(** *** [get_receipt_handler] *)

Definition parse_jws_claims (jws : bytes) : option value :=
  match split_on dot jws with
  | [_; payload; _] =>
      decoded ← base64url_decode payload;
      match value_from_str decoded with Ok v => Some v | Err _ => None end
  | _ => None
  end.

Definition get_receipt_handler (org_id id : uuid) : prog (bytes * bytes * value) :=
  found ← query (OpGetReceipt org_id id) (λ _, mkHttpError 500 []);
  '(jws, kid) ← lift (ok_or found (mkHttpError 404 []));
  lift (Ok (jws, kid, default VNull (parse_jws_claims jws))).

(** *** The bearer token check; [header] is the Authorization header, when it is visible text *)

Definition hash_token (token : bytes) : bytes := sha256_hex token.
Definition hash_token_for_storage (token : bytes) : bytes := hash_token token.

(** [draw k]: the index that the generator draws below the length of the alphabet *)
Definition CHARSET : bytes := lit "ABCDEFGHIJKLMNOPQRSTUVWXYZabcdefghijklmnopqrstuvwxyz0123456789".
Definition TOKEN_LEN : nat := 32.
Definition generate_token (draw : nat → nat) : bytes :=
  (λ k, default "A"%char (CHARSET !! (draw k mod length CHARSET))) <$> seq 0 TOKEN_LEN.

Definition auth_middleware (header : option bytes) : prog uuid :=
  header ← lift (ok_or header (mkHttpError 401 []));
  lift (ensure (starts_with (lit "Bearer ") header) (mkHttpError 401 [])) ≫= λ _,
  found ← query (OpOrgByToken (hash_token (drop 7 header))) (λ _, mkHttpError 500 []);
  lift (ok_or found (mkHttpError 401 [])).

(** ** Executing statements *)

Definition exec_op {B} (op : db_op B) (d : db) : result db_error B * db :=
  match op in db_op B return result db_error B * db with
  | OpRevocationByPub pub => (Ok (get_device_revocation_by_pub pub d), d)
  | OpLineageSeq pub => (Ok (lineage_rotation_seq pub d), d)
  | OpWitnessEntries pub => (Ok (witness_entries pub d), d)
  | OpWitnessInsert pub q t obs reg sa => witness_insert pub q t obs reg sa d
  | OpWitnessEntryAt pub q => (Ok (witness_entry_at pub q d), d)
  | OpLineageInsert n o q obs => (Ok tt, lineage_insert n o q obs d)
  | OpGetRevocation org id => (Ok (get_device_revocation org id d), d)
  | OpSetRevocation org id ra me =>
      let '(b, d') := set_device_revocation org id ra me d in (Ok b, d')
  | OpCreateDevice org di dp l id => create_device org di dp l id d
  | OpDeviceWithPub org di => (Ok (get_device_with_pub org di d), d)
  | OpCreateVerification org di h v id => create_verification org di h v id d
  | OpCreateReceipt vid jws kid id => create_receipt vid jws kid id d
  | OpGetReceipt org id => (Ok (get_receipt org id d), d)
  | OpOrgByToken h => (Ok (get_org_by_token_hash h d), d)
  end.

(** A program alone on the database, no statement failing. *)
Fixpoint run {A} (p : prog A) (d : db) : result http_error A * db :=
  match p with
  | Ret r => (r, d)
  | Op op k => let '(r, d') := exec_op op d in run (k r) d'
  end.

(** ** The service *)

(** HTTP requests with what their handlers draw; [auth] is the Authorization header. *)
Inductive request :=
  | ReqWitness (req : WitnessRequest) (now jti : bytes)
  | ReqVerify (req : VerifyRequest) (env : VerifyEnv)
  | ReqAttestation (doc id now : bytes)
  | ReqRevoke (auth : option bytes) (id : uuid) (ra : option bytes) (me : option N) (now : bytes)
  | ReqRegister (auth : option bytes) (device_id device_pub : bytes) (label : option bytes) (id : uuid)
  | ReqReceipt (auth : option bytes) (id : uuid).

Inductive response :=
  | RespWitness (receipt : WitnessReceipt) (jws : bytes)
  | RespVerify (r : VerifyResponse)
  | RespAttestation (r : AttestationResponse)
  | RespRevoke (ra : bytes) (me : option N)
  | RespRegister
  | RespReceipt (jws kid : bytes) (claims : value).

(** [create_router]: the devices and receipts routes are behind the token check; witness,
    verify and verify-attestation are not, and so have no organization. *)
Definition handler (r : request) : prog response :=
  match r with
  | ReqWitness req now jti =>
      '(receipt, jws) ← witness_handler req now jti; lift (Ok (RespWitness receipt jws))
  | ReqVerify req env => r ← verify_handler None req env; lift (Ok (RespVerify r))
  | ReqAttestation doc id now =>
      r ← lift (verify_attestation_handler doc id now); lift (Ok (RespAttestation r))
  | ReqRevoke auth id ra me now =>
      org ← auth_middleware auth;
      '(ra', me') ← revoke_device_handler org id ra me now; lift (Ok (RespRevoke ra' me'))
  | ReqRegister auth di dp l id =>
      org ← auth_middleware auth;
      register_device_handler org di dp l id ≫= λ _, lift (Ok RespRegister)
  | ReqReceipt auth id =>
      org ← auth_middleware auth;
      '(jws, kid, claims) ← get_receipt_handler org id; lift (Ok (RespReceipt jws kid claims))
  end.

(** Sequences are 64-bit. *)
Definition request_typed (r : request) : Prop :=
  match r with
  | ReqWitness req _ _ => (wr_sequence req ≤ u64_max)%N
  | _ => True
  end.

Record service := mkService {
  database : db;
  running : gmap nat (prog response);
  answered : list response;
}.

(** A request arrives; a statement of a running request executes, or fails without
    effect; a finished request is answered; a request is dropped. *)
Inductive step : service → service → Prop :=
  | step_arrive d rs out i r :
      rs !! i = None → request_typed r →
      step (mkService d rs out) (mkService d (<[i := handler r]> rs) out)
  | step_exec d rs out i B (op : db_op B) k r d' :
      rs !! i = Some (Op op k) → exec_op op d = (r, d') →
      step (mkService d rs out) (mkService d' (<[i := k r]> rs) out)
  | step_fail d rs out i B (op : db_op B) k :
      rs !! i = Some (Op op k) →
      step (mkService d rs out) (mkService d (<[i := k (Err Unavailable)]> rs) out)
  | step_answer d rs out i a :
      rs !! i = Some (Ret (Ok a)) →
      step (mkService d rs out) (mkService d (delete i rs) (out ++ [a]))
  | step_drop d rs out i p :
      rs !! i = Some p →
      step (mkService d rs out) (mkService d (delete i rs) out).

(** A fresh database, with the API keys that were handed out. *)
Definition fresh_db (keys : gmap (list ascii) N) : db := mkDb ∅ ∅ ∅ ∅ ∅ keys.
Definition empty_db : db := fresh_db ∅.
Definition initial (keys : gmap (list ascii) N) : service := mkService (fresh_db keys) ∅ [].
Definition reachable (s : service) : Prop := ∃ keys, rtc step (initial keys) s.
End Handlers.

(** * Correctness of the platform's ledger

    What holds of the witness ledger, the receipts and the revocation state under
    every interleaving of requests, and what holds when requests run one at a
    time. *)

(** ** The ledger as a table *)

Definition extends (d d' : db) : Prop := witness_log d ⊆ witness_log d'.

Global Instance extends_preorder : PreOrder extends.
Proof. unfold extends. split; [by intros d|]. intros d1 d2 d3 ??. by etrans. Qed.

Definition i64_typed (z : Z) : Prop := (- 2 ^ 63 ≤ z < 2 ^ 63)%Z.

Lemma u64_as_i64_typed n : (n ≤ u64_max)%N → i64_typed (u64_as_i64 n).
Proof.
  unfold u64_as_i64, u64_max, i64_typed. intros Hn. case_match eqn:E.
  - apply N.ltb_lt in E. lia.
  - apply N.ltb_ge in E. lia.
Qed.

Lemma u64_i64_roundtrip z : i64_typed z → u64_as_i64 (i64_as_u64 z) = z.
Proof.
  unfold u64_as_i64, i64_as_u64, i64_typed. intros Hz.
  destruct (Z.ltb_spec z 0).
  - assert (z mod 2 ^ 64 = z + 2 ^ 64)%Z as ->.
    { rewrite <-(Z.mod_add z 1) by lia. rewrite Z.mod_small; lia. }
    destruct (N.ltb_spec (Z.to_N (z + 2 ^ 64)) (2 ^ 63)); lia.
  - rewrite Z.mod_small by lia.
    destruct (N.ltb_spec (Z.to_N z) (2 ^ 63)); lia.
Qed.

Definition log_typed (d : db) : Prop :=
  ∀ pub z row, witness_log d !! (pub, z) = Some row → i64_typed z.

Lemma elem_of_witness_entries pub d e :
  e ∈ witness_entries pub d ↔
  ∃ z row, witness_log d !! (pub, z) = Some row ∧ e = entry_of_row z row.
Proof.
  unfold witness_entries. rewrite list_elem_of_fmap. setoid_rewrite (sort_by_key_perm _ _).
  split.
  - intros ([z row] & -> & ([[p z'] row'] & Hin%elem_of_map_to_list & Heq)%list_elem_of_omap).
    cbn in Heq. case_decide; simplify_eq. eauto.
  - intros (z & row & Hrow & ->). exists (z, row). split; [done|]. apply list_elem_of_omap.
    exists ((pub, z), row). split; [by apply elem_of_map_to_list|]. cbn. by rewrite decide_True.
Qed.

(** One entry per sequence number. *)
Lemma witness_entries_unique pub d : log_typed d → unique_sequences (witness_entries pub d).
Proof.
  intros Ht e e' (z & row & Hr & ->)%elem_of_witness_entries
    (z' & row' & Hr' & ->)%elem_of_witness_entries. cbn. intros Heq.
  assert (z = z') as ->.
  { rewrite <-(u64_i64_roundtrip z), Heq, u64_i64_roundtrip; eauto. }
  congruence.
Qed.

Section Ledger.
Context `{Blake3} `{Hex} `{Base64} `{Ed25519} `{P256} `{SerdeJson} `{SerdeValue} `{ManifestValue}
  `{AttestationJson} `{Chrono} `{PostgresLaws} `{JwsSigner} `{Sha256} `{UuidText}.

(** The row of a device and sequence. *)
Definition row_at (pub : bytes) (q : N) (d : db) : option LedgerRow :=
  witness_log d !! (pub, u64_as_i64 q).

Lemma row_at_extends pub q d d' row :
  extends d d' → row_at pub q d = Some row → row_at pub q d' = Some row.
Proof. unfold row_at, extends. intros He Hr. by eapply lookup_weaken. Qed.

Lemma exec_op_extends {B} (op : db_op B) d r d' : exec_op op d = (r, d') → extends d d'.
Proof.
  unfold extends. destruct op; cbn; intros Heq; simplify_eq; try done.
  - unfold witness_insert in Heq. case_match eqn:E; simplify_eq; [done|].
    by apply insert_subseteq.
  - unfold lineage_insert. by case_match.
  - unfold set_device_revocation in Heq. by repeat case_match; simplify_eq.
  - unfold create_device in Heq. by case_match; simplify_eq.
  - unfold create_verification in Heq. by case_match; simplify_eq.
  - unfold create_receipt in Heq. by case_match; simplify_eq.
Qed.

(** ** Statements that a handler may issue *)

(** A signed request for this tip exists. *)
Definition authorized (pub : bytes) (q : N) (t : bytes) : Prop :=
  ∃ req, witness_verify req = true ∧ wr_device_pub req = pub ∧ wr_sequence req = q
    ∧ wr_tip req = t.

Definition op_ok {B} (op : db_op B) : Prop :=
  match op with
  | OpWitnessInsert pub q t _ _ _ => (q ≤ u64_max)%N ∧ authorized pub q t
  | OpCreateVerification org device _ _ _ => org = nil_uuid ∧ device = None
  | _ => True
  end.

(** Every row was put there by a signed request. *)
Definition log_ok (d : db) : Prop :=
  ∀ pub z row, witness_log d !! (pub, z) = Some row →
    ∃ q, u64_as_i64 q = z ∧ (q ≤ u64_max)%N ∧ authorized pub q (lr_tip row).

Lemma log_ok_typed d : log_ok d → log_typed d.
Proof. intros Hl pub z row (q & <- & Hq & _)%Hl. by apply u64_as_i64_typed. Qed.

Lemma exec_op_log_ok {B} (op : db_op B) d r d' :
  op_ok op → log_ok d → exec_op op d = (r, d') → log_ok d'.
Proof.
  intros Hop Hd. destruct op; cbn in *; intros Heq; simplify_eq; try done.
  - unfold witness_insert in Heq. case_match eqn:E; simplify_eq; [done|].
    intros pub z row. cbn. intros [[[= <- <-] <-]|[_ Hr]]%lookup_insert_Some; [|by apply Hd].
    destruct Hop. eauto.
  - unfold lineage_insert. by case_match.
  - unfold set_device_revocation in Heq. by repeat case_match; simplify_eq.
  - unfold create_device in Heq. by case_match; simplify_eq.
  - unfold create_verification in Heq. by case_match; simplify_eq.
  - unfold create_receipt in Heq. by case_match; simplify_eq.
Qed.

(** Every verification belongs to the anonymous organization and to no device. *)
Definition tenants_ok (d : db) : Prop :=
  ∀ id row, verifications d !! id = Some row → vr_org_id row = nil_uuid ∧ vr_device_id row = None.

Lemma exec_op_tenants_ok {B} (op : db_op B) d r d' :
  op_ok op → tenants_ok d → exec_op op d = (r, d') → tenants_ok d'.
Proof.
  intros Hop Hd. destruct op; cbn in *; intros Heq; simplify_eq; try done.
  - unfold witness_insert in Heq. by case_match; simplify_eq.
  - unfold lineage_insert. by case_match.
  - unfold set_device_revocation in Heq. by repeat case_match; simplify_eq.
  - unfold create_device in Heq. by case_match; simplify_eq.
  - unfold create_verification in Heq. case_match; simplify_eq; [done|].
    intros id' row. cbn. intros [[<- <-]|[_ Hr]]%lookup_insert_Some; [done|by eapply Hd].
  - unfold create_receipt in Heq. by case_match; simplify_eq.
Qed.

(** ** Programs under interference

    [safe Q p d]: from any database that extends [d], whatever other requests do
    between its statements and whichever statements fail, [p] issues only allowed
    statements and, if it succeeds, its result satisfies [Q] at that moment. *)
Fixpoint safe {A} (Q : A → db → Prop) (p : prog A) (d : db) : Prop :=
  match p with
  | Ret (Ok a) => Q a d
  | Ret (Err _) => True
  | Op op k => op_ok op ∧ ∀ d', extends d d' → log_ok d' →
      (∀ r d'', exec_op op d' = (r, d'') → safe Q (k r) d'') ∧ safe Q (k (Err Unavailable)) d'
  end.

Definition stable {A} (Q : A → db → Prop) : Prop := ∀ a d d', Q a d → extends d d' → Q a d'.

Lemma safe_stable {A} (Q : A → db → Prop) p d d' :
  stable Q → safe Q p d → extends d d' → safe Q p d'.
Proof.
  intros HQ. destruct p as [[a|]|]; cbn; [by eauto|done|].
  intros [Hop Hs] He. split; [done|]. intros d2 He2. apply Hs. by etrans.
Qed.

Lemma safe_bind {A B} (Q : B → db → Prop) (p : prog A) (f : A → prog B) d :
  safe (λ a, safe Q (f a)) p d → safe Q (p ≫= f) d.
Proof.
  change (p ≫= f) with (prog_bind p f). revert d.
  induction p as [[a|]|C op k IH]; intros d; cbn; [done|done|].
  intros [Hop Hs]. split; [done|]. intros d' He Hl. destruct (Hs d' He Hl) as [Hok Hfail].
  split; [intros r d'' Hex; apply IH; eauto|by apply IH].
Qed.

Lemma safe_query {A} (Q : A → db → Prop) (op : db_op A) f d :
  op_ok op →
  (∀ d' a d'', extends d d' → log_ok d' → exec_op op d' = (Ok a, d'') → Q a d'') →
  safe Q (query op f) d.
Proof.
  intros Hop HQ. split; [done|]. intros d' He Hl. split; [|done].
  intros [a|e] d'' Hex; cbn; [|done]. eauto.
Qed.

Lemma safe_lift {A} (Q : A → db → Prop) (r : result http_error A) d :
  (∀ a, r = Ok a → Q a d) → safe Q (lift r) d.
Proof. destruct r; cbn; auto. Qed.

Lemma safe_weaken {A} (Q Q' : A → db → Prop) p d :
  (∀ a d, Q a d → Q' a d) → safe Q p d → safe Q' p d.
Proof.
  intros HQ. revert d. induction p as [[a|]|C op k IH]; intros d; cbn; [by apply HQ|done|].
  intros [Hop Hs]. split; [done|]. intros d' He Hl. destruct (Hs d' He Hl).
  split; [eauto|by apply IH].
Qed.

(** ** Receipts agree with the ledger *)

Definition recorded (pub : bytes) (q : N) (t obs : bytes) (d : db) : Prop :=
  ∃ row, row_at pub q d = Some row ∧ lr_tip row = t ∧ lr_observed_at row = obs.

Lemma recorded_extends pub q t obs d d' :
  recorded pub q t obs d → extends d d' → recorded pub q t obs d'.
Proof. intros (row & Hr & ? & ?) He. exists row. eauto using row_at_extends. Qed.

Lemma entries_recorded pub d e :
  log_typed d → e ∈ witness_entries pub d →
  recorded pub (we_sequence e) (we_tip e) (we_observed_at e) d.
Proof.
  intros Ht (z & row & Hr & ->)%elem_of_witness_entries. exists row. cbn. unfold row_at.
  rewrite u64_i64_roundtrip by eauto. done.
Qed.

Lemma recorded_entries pub q t obs d :
  (q ≤ u64_max)%N → recorded pub q t obs d → mkWitnessEntry q t obs ∈ witness_entries pub d.
Proof.
  intros Hq (row & Hr & <- & <-). apply elem_of_witness_entries.
  exists (u64_as_i64 q), row. split; [done|]. unfold entry_of_row. by rewrite i64_u64_roundtrip.
Qed.

(** A decision to replay names a row that is there. *)
Definition decision_ok (req : WitnessRequest) (rd : bool * WitnessDecision) (d : db) : Prop :=
  ∀ e p, rd.2 = Replay e p →
    recorded (wr_device_pub req) (wr_sequence req) (wr_tip req) (we_observed_at e) d.

Lemma safe_decision req d : safe (decision_ok req) (witness_decision req) d.
Proof.
  unfold witness_decision. apply safe_bind, safe_query; [done|]. intros d1 reg ? _ _ _.
  destruct (match reg with Some (_, st) => (true, st) | None => (false, mkRevocationState None None) end)
    as [registered revocation].
  apply safe_bind, safe_query; [done|]. intros d2 sup ? _ _ _.
  apply safe_bind, safe_query; [done|]. intros d3 existing d4 _ Hl Hex.
  cbn in Hex. injection Hex as <- <-.
  apply safe_bind, safe_lift. intros [] _. apply safe_bind, safe_lift. intros [] _.
  apply safe_lift. intros rd [= <-] e p Hrd. cbn in Hrd.
  apply decide_replay_inv in Hrd as (Hin & <- & <-).
  apply entries_recorded; [by apply log_ok_typed|done].
Qed.

Lemma safe_record req now reg decision d :
  witness_verify req = true → (wr_sequence req ≤ u64_max)%N → decision_ok req (reg, decision) d →
  safe (λ op, recorded (wr_device_pub req) (wr_sequence req) (wr_tip req) op.1)
    (witness_record req now reg decision) d.
Proof.
  intros Hv Hq Hd. unfold witness_record. destruct decision as [prev|existing prev|tip|m]; [|..].
  - apply safe_bind, safe_query.
    + split; [done|]. by exists req.
    + intros d1 [] d2 _ _ Hex. cbn in Hex. unfold witness_insert in Hex.
      case_match; simplify_eq. apply safe_lift. intros ? [= <-]. cbn.
      eexists. split; [unfold row_at; cbn; apply lookup_insert_eq|done].
  - apply safe_lift. intros ? [= <-]. cbn. by eapply Hd.
  - done.
  - done.
Qed.

Lemma safe_lineage req obs (Q : db → Prop) d :
  (∀ d d', Q d → extends d d' → Q d') → Q d →
  safe (λ _, Q) (witness_lineage req obs) d.
Proof.
  intros HQ Hd. unfold witness_lineage. destruct (wr_rotation req) as [rec|]; [|done].
  destruct (verify_lineage_rotation _ _ _ _) as [old rq|msg]; [|done].
  assert (∀ d1, Q d1 → safe (λ _, Q) (query (OpLineageInsert (wr_device_pub req) old rq obs)
    (internal "lineage insert failed")) d1) as Hins.
  { intros d1 Hd1. apply safe_query; [done|]. intros d2 a d3 He _ Hex.
    apply exec_op_extends in Hex. eapply HQ; [|done]. by eapply HQ. }
  apply safe_bind. case_match; [|by apply Hins].
  apply safe_bind, safe_query; [done|]. intros d1 prev d2 He _ Hex.
  apply exec_op_extends in Hex. assert (Q d2) as Hd2 by (eapply HQ; [|done]; by eapply HQ).
  destruct prev as [e|]; [|by apply Hins].
  apply safe_lift. intros [] _. by apply Hins.
Qed.

Definition receipt_ok (rc : WitnessReceipt) (d : db) : Prop :=
  recorded (wrc_device_pub rc) (wrc_sequence rc) (wrc_tip rc) (wrc_observed_at rc) d.

Lemma safe_receipt req now jti d :
  (wr_sequence req ≤ u64_max)%N → safe receipt_ok (witness_receipt req now jti) d.
Proof.
  intros Hq. unfold witness_receipt. apply safe_bind, safe_lift. intros [] Hv%ensure_ok.
  apply safe_bind. eapply safe_weaken; [|apply safe_decision].
  intros [reg decision] d1 Hd1. apply safe_bind. eapply safe_weaken; [|by apply safe_record].
  intros [obs prev] d2 Hd2. cbn in Hd2. apply safe_bind.
  eapply safe_weaken; [|apply (safe_lineage req obs
    (recorded (wr_device_pub req) (wr_sequence req) (wr_tip req) obs)); [|done]].
  - intros [] d3 Hd3. apply safe_lift. intros rc [= <-]. done.
  - intros. by eapply recorded_extends.
Qed.

(** ** The service *)

(** Programs that issue only allowed statements, whatever these return, with a result [Q]. *)
Fixpoint always {A} (Q : A → Prop) (p : prog A) : Prop :=
  match p with
  | Ret (Ok a) => Q a
  | Ret (Err _) => True
  | Op op k => op_ok op ∧ ∀ r, always Q (k r)
  end.

Lemma always_safe {A} (Q : A → Prop) p d : always Q p → safe (λ a _, Q a) p d.
Proof.
  revert d. induction p as [[a|]|C op k IH]; intros d; cbn; [done|done|].
  intros [Hop Hk]. split; [done|]. intros d' _ _. split; [|by apply IH].
  intros r d'' _. by apply IH.
Qed.

Lemma always_bind {A B} (Q : B → Prop) (p : prog A) (f : A → prog B) :
  always (λ a, always Q (f a)) p → always Q (p ≫= f).
Proof.
  change (p ≫= f) with (prog_bind p f). induction p as [[a|]|C op k IH]; cbn; [done|done|].
  intros [Hop Hk]. split; [done|]. intros r. by apply IH.
Qed.

Lemma always_lift {A} (Q : A → Prop) (r : result http_error A) :
  (∀ a, r = Ok a → Q a) → always Q (lift r).
Proof. destruct r; cbn; auto. Qed.

Lemma always_query {A} (Q : A → Prop) (op : db_op A) f :
  op_ok op → (∀ a, Q a) → always Q (query op f).
Proof. intros Hop HQ. split; [done|]. by intros [a|e]; cbn. Qed.

Lemma always_attempt {A} (Q : result db_error A → Prop) (op : db_op A) :
  op_ok op → (∀ a, Q a) → always Q (attempt op).
Proof. intros Hop HQ. split; [done|]. intros r. apply HQ. Qed.

Lemma always_weaken {A} (Q Q' : A → Prop) p : (∀ a, Q a → Q' a) → always Q p → always Q' p.
Proof.
  intros HQ. induction p as [[a|]|C op k IH]; cbn; [by apply HQ|done|]. intros [Hop Hk].
  split; [done|]. intros r. by apply IH.
Qed.

Lemma always_auth header : always (λ _, True) (auth_middleware header).
Proof.
  unfold auth_middleware. apply always_bind, always_lift. intros h _.
  apply always_bind, always_lift. intros [] _. apply always_bind, always_query; [done|].
  intros found. by apply always_lift.
Qed.

(** A receipt of the verify endpoint is over a report in which both checks passed; it names
    the key they passed for and no registered device. *)
Definition receipt_backed (r : VerifyResponse) : Prop :=
  ∀ jws, vs_receipt r = Some jws → ∃ v client claims,
    sign_receipt claims = Ok jws
    ∧ verify_to_report v client (signer_pub claims) = Ok (rc_result claims)
    ∧ both_passed (rc_result claims) = true
    ∧ rc_chain_tip claims = vm_chain_tip (report_metadata (rc_result claims))
    ∧ manifest_digest claims = compute_manifest_digest_blake3 v
    ∧ device_registered claims = false.

Lemma always_revocation req : always (λ _, True) (check_revocation req).
Proof.
  unfold check_revocation. apply always_bind, always_query; [done|]. intros [[id rev]|].
  - apply always_bind, always_lift. intros [] _. by apply always_lift.
  - by apply always_lift.
Qed.

Lemma always_issue req report vid env :
  always (λ p, ∀ jws, p.1 = Some jws → receipt_wanted req report = true ∧ ∃ claims,
    sign_receipt claims = Ok jws ∧ signer_pub claims = vq_device_pub req ∧ rc_result claims = report
    ∧ rc_chain_tip claims = vm_chain_tip (report_metadata report)
    ∧ manifest_digest claims = compute_manifest_digest_blake3 (vq_manifest req)
    ∧ device_registered claims = false) (issue_receipt req report false vid env).
Proof.
  unfold issue_receipt. destruct (receipt_wanted req report) eqn:Hw.
  - apply always_bind, always_lift. intros jws Hjws%map_err_ok.
    apply always_bind, always_attempt; [done|]. intros stored. apply always_lift.
    intros p Hp jws' Hj. injection Hp as <-. injection Hj as <-. split; [done|].
    eexists. split; [exact Hjws|]. done.
  - apply always_lift. intros p Hp jws Hj. by injection Hp as <-.
Qed.

Lemma always_verify req env : always receipt_backed (verify_handler None req env).
Proof.
  unfold verify_handler. apply always_bind, always_lift. intros [] _. apply always_bind.
  apply (always_weaken (λ p, p = (None, false))).
  2:{ unfold bind_device. destruct (opt_device_id _); by apply always_lift; intros p [= <-]. }
  intros p ->. apply always_bind. eapply always_weaken; [|apply always_revocation]. intros rv _.
  apply always_bind, always_lift. intros report Hrep%map_err_ok.
  apply always_bind, always_query; [done|]. intros vid.
  apply always_bind. eapply always_weaken; [|apply always_issue]. intros [receipt rid] Hr.
  apply always_lift. intros resp Hresp jws Hjws. injection Hresp as <-.
  destruct (Hr jws Hjws) as (Hw & claims & Hs & Hp & <- & Ht & Hd & Hn).
  exists (vq_manifest req), (vq_segments req), claims. rewrite Hp. split_and!; try done.
  unfold receipt_wanted in Hw. by rewrite <-andb_assoc, andb_true_iff in Hw; destruct Hw.
Qed.

Definition response_ok (a : response) (d : db) : Prop :=
  match a with
  | RespWitness rc _ => receipt_ok rc d
  | RespVerify r => receipt_backed r
  | _ => True
  end.

Lemma response_ok_stable : stable response_ok.
Proof. intros [rc jws|r|r|ra me| |jws kid c] d d'; cbn; try done. apply recorded_extends. Qed.

Lemma safe_handler r d : request_typed r → safe response_ok (handler r) d.
Proof.
  destruct r as [req now jti|req env|doc id now|auth id ra me now|auth di dp l id|auth id];
    cbn [request_typed handler]; intros Ht.
  { apply safe_bind. unfold witness_handler. apply safe_bind.
    eapply safe_weaken; [|by apply safe_receipt]. intros rc d1 Hrc.
    apply safe_bind, safe_lift. intros jws _. apply safe_lift. intros ? [= <-].
    apply safe_lift. by intros ? [= <-]. }
  all: eapply safe_weaken; [|apply (always_safe (λ a, ∀ d, response_ok a d))]; [by auto|].
  - apply always_bind. eapply always_weaken; [|apply always_verify]. intros r Hr.
    apply always_lift. by intros ? [= <-].
  - apply always_bind, always_lift. intros r _. apply always_lift. by intros ? [= <-].
  - apply always_bind. eapply always_weaken; [|apply always_auth]. intros org _.
    apply always_bind. unfold revoke_device_handler. apply always_bind, always_query; [done|].
    intros found. apply always_bind, always_lift. intros [pub cur] _.
    apply always_bind, always_lift. intros [ra' me'] _. apply always_bind, always_query; [done|].
    intros b. apply always_bind, always_lift. intros [] _.
    apply always_lift. intros ? [= <-]. by apply always_lift; intros ? [= <-].
  - apply always_bind. eapply always_weaken; [|apply always_auth]. intros org _.
    apply always_bind, always_query; [done|]. intros _. by apply always_lift; intros ? [= <-].
  - apply always_bind. eapply always_weaken; [|apply always_auth]. intros org _.
    apply always_bind. unfold get_receipt_handler. apply always_bind, always_query; [done|].
    intros found. apply always_bind, always_lift. intros [jws kid] _.
    apply always_lift. intros ? [= <-]. by apply always_lift; intros ? [= <-].
Qed.

Record service_ok (s : service) : Prop := {
  so_log : log_ok (database s);
  so_tenants : tenants_ok (database s);
  so_running i p : running s !! i = Some p → safe response_ok p (database s);
  so_answered a : a ∈ answered s → response_ok a (database s);
}.

Lemma step_extends s s' : step s s' → extends (database s) (database s').
Proof. destruct 1; cbn; try done. by eapply exec_op_extends. Qed.

Lemma service_ok_step s s' : service_ok s → step s s' → service_ok s'.
Proof.
  intros [Hl Htn Hr Ha] Hstep. pose proof (step_extends _ _ Hstep) as He.
  destruct Hstep as [d rs out i r Hi Ht|d rs out i B op k r d' Hi Hex|d rs out i B op k Hi
    |d rs out i a Hi|d rs out i p Hi]; cbn in *.
  - constructor; cbn; [done|done| |done]. intros j p [[-> <-]|[_ Hj]]%lookup_insert_Some; [|eauto].
    by apply safe_handler.
  - pose proof (Hr i _ Hi) as [Hop Hs]. destruct (Hs d) as [Hok _]; [done|done|].
    constructor; cbn.
    + by eapply exec_op_log_ok.
    + by eapply exec_op_tenants_ok.
    + intros j p [[-> <-]|[_ Hj]]%lookup_insert_Some; [by apply Hok|].
      eapply safe_stable; [apply response_ok_stable|by eauto|done].
    + intros a Hin. eapply response_ok_stable; [by apply Ha|done].
  - pose proof (Hr i _ Hi) as [Hop Hs]. destruct (Hs d) as [_ Hfail]; [done|done|].
    constructor; cbn; [done|done| |done].
    intros j p [[-> <-]|[_ Hj]]%lookup_insert_Some; [done|eauto].
  - constructor; cbn; [done|done|intros j p [_ Hj]%lookup_delete_Some; eauto|].
    intros b. rewrite elem_of_app, list_elem_of_singleton. intros [?| ->]; [auto|].
    by apply (Hr i _ Hi).
  - constructor; cbn; [done|done|intros j q [_ Hj]%lookup_delete_Some; eauto|done].
Qed.

Lemma reachable_ok s : reachable s → service_ok s.
Proof.
  intros [keys Hs]. apply (rtc_ind_r (λ s, service_ok s) (initial keys)) in Hs; [done|..].
  - constructor; cbn; [by intros ???|by intros ??|by intros ??|].
    intros a Ha. by apply elem_of_nil in Ha.
  - intros y z _ Hstep Hy. by eapply service_ok_step.
Qed.

Lemma reachable_trans s s' : reachable s → rtc step s s' → reachable s'.
Proof. intros [keys Hs] Hs'. exists keys. by etrans. Qed.

Lemma reachable_extends s s' : rtc step s s' → extends (database s) (database s').
Proof. induction 1 as [|s1 s2 s3 Hstep _ IH]; [done|]. etrans; [by apply step_extends|done]. Qed.

(** Execute the next statement of request [i]. *)
Definition tick (s : service) (i : nat) : service :=
  match running s !! i with
  | Some (Op op k) =>
      let '(r, d') := exec_op op (database s) in
      mkService d' (<[i := k r]> (running s)) (answered s)
  | _ => s
  end.

Lemma tick_step s i : rtc step s (tick s i).
Proof.
  unfold tick. destruct s as [d rs out]. cbn.
  destruct (rs !! i) as [[r|B op k]|] eqn:Hi; [done| |done].
  destruct (exec_op op d) as [r d'] eqn:Hex. apply rtc_once. by eapply step_exec.
Qed.

Lemma ticks_step s l : rtc step s (foldl tick s l).
Proof.
  revert s; induction l as [|i l IH]; intros s; cbn; [done|]. etrans; [apply tick_step|apply IH].
Qed.

(** ** One request at a time *)

Lemma run_bind {A B} (p : prog A) (f : A → prog B) d :
  run (p ≫= f) d =
  match run p d with
  | (Ok a, d') => run (f a) d'
  | (Err e, d') => (Err e, d')
  end.
Proof.
  change (p ≫= f) with (prog_bind p f). revert d.
  induction p as [[a|e]|C op k IH]; intros d; cbn; [done|done|].
  destruct (exec_op op d) as [r d']. apply IH.
Qed.

Lemma run_query {A} (op : db_op A) f d :
  run (query op f) d = let '(r, d') := exec_op op d in (map_err f r, d').
Proof. cbn. by destruct (exec_op op d). Qed.

Lemma run_lift {A} (r : result http_error A) d : run (lift r) d = (r, d).
Proof. done. Qed.

(** The gates of the witness handler for a new tip. *)
Record admits (req : WitnessRequest) (d : db) : Prop := {
  ad_signed : witness_verify req = true;
  ad_above e : e ∈ witness_entries (wr_device_pub req) d → (we_sequence e < wr_sequence req)%N;
  ad_active id st : get_device_revocation_by_pub (wr_device_pub req) d = Some (id, st) →
    is_revoked st = false;
  ad_current q : lineage_rotation_seq (wr_device_pub req) d = Some q → (wr_sequence req ≤ q)%N;
}.

Lemma run_decision req d r d' :
  run (witness_decision req) d = (r, d') → d' = d ∧
  ∀ reg dec, r = Ok (reg, dec) →
    dec = decide_witness (witness_entries (wr_device_pub req) d) (wr_sequence req) (wr_tip req)
    ∧ (is_record dec = true → witness_verify req = true → admits req d).
Proof.
  unfold witness_decision. rewrite run_bind, run_query. cbn [exec_op map_err].
  destruct (match get_device_revocation_by_pub (wr_device_pub req) d with
    | Some (_, st) => (true, st) | None => (false, mkRevocationState None None) end)
    as [reg' revocation] eqn:Hreg.
  rewrite run_bind, run_query. cbn [exec_op map_err].
  rewrite run_bind, run_query. cbn [exec_op map_err].
  set (dec' := decide_witness _ _ _). rewrite run_bind, run_lift.
  destruct (negb (refuse_revoked_witness (is_revoked revocation) dec')) eqn:Hrev; cbn [ensure];
    [|by intros [= <- <-]].
  rewrite run_bind, run_lift.
  destruct (negb (refuse_superseded _ _ dec')) eqn:Hsup; cbn [ensure]; [|by intros [= <- <-]].
  rewrite run_lift. intros [= <- <-]. split; [done|]. intros reg dec [= <- <-].
  split; [done|]. intros Hrec Hv. constructor; [done|..].
  - intros e. unfold dec' in Hrec. rewrite decide_record_iff in Hrec. apply Hrec.
  - intros id st Hst. rewrite Hst in Hreg. injection Hreg as _ ->.
    rewrite negb_true_iff in Hrev. unfold refuse_revoked_witness in Hrev.
    by rewrite Hrec, andb_true_r in Hrev.
  - intros q Hq. rewrite Hq in Hsup. cbn in Hsup.
    rewrite Hrec, andb_true_r, negb_true_iff, N.ltb_ge in Hsup. done.
Qed.

Lemma run_lineage_log req obs d r d' :
  run (witness_lineage req obs) d = (r, d') → witness_log d' = witness_log d.
Proof.
  unfold witness_lineage. destruct (wr_rotation req) as [rec|]; [|by intros [= _ <-]].
  destruct (verify_lineage_rotation _ _ _ _) as [old rq|msg]; [|by intros [= _ <-]].
  rewrite run_bind.
  assert (∀ d r d', run (query (OpLineageInsert (wr_device_pub req) old rq obs)
    (internal "lineage insert failed")) d = (r, d') → witness_log d' = witness_log d) as Hins.
  { intros d1 r1 d1'. rewrite run_query. cbn. intros [= _ <-]. unfold lineage_insert.
    by case_match. }
  destruct (0 <? rq)%N; [|rewrite run_lift; apply Hins].
  rewrite run_bind, run_query. cbn [exec_op map_err].
  destruct (witness_entry_at _ _ d) as [e|]; rewrite run_lift; [|apply Hins].
  destruct (bool_decide _); cbn [ensure]; [apply Hins|by intros [= _ <-]].
Qed.

(** Alone on the database, the handler adds at most one row, for a tip that every gate
    admits: signed, above all witnessed sequences, not revoked, not superseded. *)
Lemma run_witness_log req now jti d r d' :
  run (witness_handler req now jti) d = (r, d') →
  witness_log d' = witness_log d
  ∨ admits req d ∧ row_at (wr_device_pub req) (wr_sequence req) d = None ∧ ∃ reg,
      witness_log d' = <[(wr_device_pub req, u64_as_i64 (wr_sequence req)) :=
        mkLedgerRow (wr_tip req) now reg (wr_signed_at req)]> (witness_log d).
Proof.
  unfold witness_handler. rewrite run_bind.
  destruct (run (witness_receipt req now jti) d) as [rc d1] eqn:Hrc. intros Hrun.
  assert (d' = d1) as ->.
  { destruct rc as [rc|]; [|by injection Hrun].
    rewrite run_bind, run_lift in Hrun. by destruct (map_err _ _); injection Hrun. }
  clear Hrun. unfold witness_receipt in Hrc. rewrite run_bind, run_lift in Hrc.
  destruct (witness_verify req) eqn:Hv; cbn [ensure] in Hrc; [|injection Hrc as _ <-; by left].
  rewrite run_bind in Hrc. destruct (run (witness_decision req) d) as [rd d2] eqn:Hd.
  apply run_decision in Hd as [-> Hd]. destruct rd as [[reg dec]|]; [|injection Hrc as _ <-; by left].
  destruct (Hd reg dec) as [Hdec Hadm]; [done|]. rewrite run_bind in Hrc.
  destruct (run (witness_record req now reg dec) d) as [rr d3] eqn:Hr.
  assert (witness_log d1 = witness_log d3) as ->.
  { destruct rr as [[obs prev]|]; [|by injection Hrc as _ <-]. rewrite run_bind in Hrc.
    destruct (run (witness_lineage req obs) d3) as [rl d4] eqn:Hl. apply run_lineage_log in Hl.
    destruct rl as [[]|]; injection Hrc as _ <-; done. }
  clear Hrc. destruct dec as [prev|existing prev|tip|m]; cbn [witness_record] in Hr;
    try (injection Hr as _ <-; by left).
  rewrite run_bind, run_query in Hr. cbn [exec_op] in Hr. unfold witness_insert in Hr.
  destruct (witness_log d !! _) eqn:Hrow; cbn in Hr; injection Hr as _ <-; [by left|right].
  split; [by apply Hadm|]. split; [done|]. by exists reg.
Qed.

(** A superseded key gets no new row beyond its rotation, a revoked one none at all. *)
Lemma run_witness_closed req now jti d r d' :
  run (witness_handler req now jti) d = (r, d') →
  (∃ id st, get_device_revocation_by_pub (wr_device_pub req) d = Some (id, st) ∧ is_revoked st = true)
  ∨ (lineage_rows (wr_device_pub req) d ≠ []
     ∧ ∀ row, row ∈ lineage_rows (wr_device_pub req) d →
         (i64_as_u64 (ln_rotation_seq row) < wr_sequence req)%N) →
  witness_log d' = witness_log d.
Proof.
  intros Hrun%run_witness_log Hcl. destruct Hrun as [?|(Hadm & _)]; [done|exfalso].
  destruct Hcl as [(id & st & Hst & Hr)|[Hne Hall]].
  - apply (ad_active _ _ Hadm) in Hst. congruence.
  - destruct (pick_row (lineage_rows (wr_device_pub req) d)) as [row|] eqn:Hp.
    + pose proof (ad_current _ _ Hadm (i64_as_u64 (ln_rotation_seq row))) as Hc.
      unfold lineage_rotation_seq in Hc. rewrite Hp in Hc. specialize (Hc eq_refl).
      apply pick_row_elem, Hall in Hp. lia.
    + by apply pick_row_None in Hp.
Qed.

Lemma list_filter_perm {A} (f : A → bool) (l k : list A) : l ≡ₚ k → List.filter f l ≡ₚ List.filter f k.
Proof.
  induction 1 as [|x l k _ IH|x y l|l k j _ IH1 _ IH2]; cbn; [done| | |by etrans].
  - destruct (f x); [by constructor|done].
  - destruct (f x), (f y); [constructor|done..].
Qed.

(** The rows of an old key after a first row of a new key that rotated away from it. *)
Lemma lineage_rows_insert (new_pub old_pub obs : bytes) (z : Z) (d d' : db) :
  device_lineage d !! new_pub = None →
  device_lineage d' = <[new_pub := mkLineageRow old_pub z obs]> (device_lineage d) →
  lineage_rows old_pub d' ≡ₚ mkLineageRow old_pub z obs :: lineage_rows old_pub d.
Proof.
  unfold lineage_rows. intros Hn ->.
  rewrite (list_filter_perm _ _ _ (fmap_Permutation snd _ _ (map_to_list_insert _ _ _ Hn))).
  cbn. by rewrite bool_decide_true.
Qed.

(** A key whose one rotation on record is at [q] gets no new row beyond it. *)
Lemma run_witness_rotated_away req now jti d r d' row q :
  (q ≤ u64_max)%N → lineage_rows (wr_device_pub req) d = [row] → ln_rotation_seq row = u64_as_i64 q →
  (q < wr_sequence req)%N → run (witness_handler req now jti) d = (r, d') →
  witness_log d' = witness_log d.
Proof.
  intros Hq Hrows Hrow Hlt Hrun. apply (run_witness_closed _ _ _ _ _ _ Hrun). right. rewrite Hrows.
  split; [done|]. intros row' ->%list_elem_of_singleton. by rewrite Hrow, i64_u64_roundtrip.
Qed.

(** ** An admitted request is answered *)

Lemma admits_absent req d :
  (wr_sequence req ≤ u64_max)%N → admits req d →
  row_at (wr_device_pub req) (wr_sequence req) d = None.
Proof.
  intros Hq Ha. destruct (row_at _ _ d) as [row|] eqn:E; [|done]. exfalso.
  apply (N.lt_irrefl (wr_sequence req)).
  apply (ad_above req d Ha (mkWitnessEntry (wr_sequence req) (lr_tip row) (lr_observed_at row))).
  apply recorded_entries; [done|]. by exists row.
Qed.

Lemma run_decision_admits req d :
  log_typed d → admits req d → ∃ reg, run (witness_decision req) d
    = (Ok (reg, Record_ (max_by_sequence (witness_entries (wr_device_pub req) d))), d).
Proof.
  intros Ht [Hv Hab Hact Hcur].
  pose proof (proj2 (decide_record_iff (witness_entries (wr_device_pub req) d) (wr_sequence req)
    (wr_tip req)) Hab) as Hrec.
  pose proof (decide_cases _ (wr_sequence req) (wr_tip req) (witness_entries_unique
    (wr_device_pub req) d Ht)) as Hcase.
  unfold witness_decision. rewrite run_bind, run_query. cbn [exec_op map_err].
  destruct (match get_device_revocation_by_pub (wr_device_pub req) d with
    | Some (_, st) => (true, st) | None => (false, mkRevocationState None None) end)
    as [reg revocation] eqn:Hreg.
  assert (is_revoked revocation = false) as Hnr.
  { destruct (get_device_revocation_by_pub _ d) as [[id st]|] eqn:E; injection Hreg as <- <-; [|done].
    by eapply Hact. }
  rewrite run_bind, run_query. cbn [exec_op map_err].
  rewrite run_bind, run_query. cbn [exec_op map_err].
  destruct (decide_witness _ _ _) as [p| | |] eqn:Hdec; try done. destruct Hcase as [_ ->].
  rewrite run_bind, run_lift. unfold refuse_revoked_witness. rewrite Hnr. cbn [andb negb ensure].
  rewrite run_bind, run_lift. unfold refuse_superseded.
  destruct (lineage_rotation_seq _ d) as [q|] eqn:Hq; cbn [is_record]; [|by eexists].
  rewrite andb_true_r. specialize (Hcur q eq_refl). rewrite (proj2 (N.ltb_ge _ _)) by done.
  by eexists.
Qed.

Definition lineage_ok (req : WitnessRequest) (d : db) : Prop :=
  ∀ rec, wr_rotation req = Some rec →
    verify_lineage_rotation rec (wr_device_pub req) (wr_sequence req) (wr_tip req)
      = LineageOk (old_public_key (rr_old rec)) (rr_sequence rec)
    ∧ ∀ e, witness_entry_at (old_public_key (rr_old rec)) (rr_sequence rec - 1) d = Some e →
        we_tip e = rr_prev_archive_hash rec.

(** The lineage row of an attached rotation; the first one of a new key stays. *)
Definition lineage_recorded (req : WitnessRequest) (obs : bytes) (d d' : db) : Prop :=
  ∀ rec, wr_rotation req = Some rec → device_lineage d !! wr_device_pub req = None →
    device_lineage d' = <[wr_device_pub req :=
      mkLineageRow (old_public_key (rr_old rec)) (u64_as_i64 (rr_sequence rec)) obs]> (device_lineage d).

Lemma run_lineage_ok req obs d :
  lineage_ok req d → ∃ d', run (witness_lineage req obs) d = (Ok tt, d') ∧ lineage_recorded req obs d d'.
Proof.
  unfold witness_lineage, lineage_ok, lineage_recorded.
  destruct (wr_rotation req) as [rec|]; [|by eexists].
  intros Hl. destruct (Hl rec eq_refl) as [-> Hprev]. rewrite run_bind.
  set (d' := lineage_insert (wr_device_pub req) (old_public_key (rr_old rec)) (rr_sequence rec) obs d).
  assert (∀ rec', Some rec = Some rec' → device_lineage d !! wr_device_pub req = None →
    device_lineage d' = <[wr_device_pub req := mkLineageRow (old_public_key (rr_old rec'))
      (u64_as_i64 (rr_sequence rec')) obs]> (device_lineage d)) as Hrow.
  { intros rec' [= <-] Hn. unfold d', lineage_insert. by rewrite Hn. }
  destruct (0 <? rr_sequence rec)%N; [|by exists d'].
  rewrite run_bind, run_query. cbn [exec_op map_err].
  destruct (witness_entry_at _ _ d) as [e|]; [|by exists d'].
  rewrite run_lift, bool_decide_true by by apply Hprev. by exists d'.
Qed.

Lemma run_witness_admitted req now jti d :
  log_typed d → (wr_sequence req ≤ u64_max)%N → admits req d → lineage_ok req d →
  (∀ rec, wr_rotation req = Some rec → old_public_key (rr_old rec) ≠ wr_device_pub req) →
  (∀ rc, ∃ jws, sign_witness_jws rc = Ok jws) →
  ∃ reg jws d', let rc := build_receipt (wr_device_pub req) reg (wr_sequence req) (wr_tip req) now
      (max_by_sequence (witness_entries (wr_device_pub req) d)) jti in
    run (witness_handler req now jti) d = (Ok (rc, jws), d') ∧ sign_witness_jws rc = Ok jws
    ∧ recorded (wr_device_pub req) (wr_sequence req) (wr_tip req) now d'
    ∧ lineage_recorded req now d d'.
Proof.
  intros Ht Hq Ha Hlin Hdiff Hsign. destruct (run_decision_admits req d Ht Ha) as [reg Hdec].
  pose proof (admits_absent req d Hq Ha) as Habs. unfold row_at in Habs.
  set (d1 := set_log (<[(wr_device_pub req, u64_as_i64 (wr_sequence req)) :=
    mkLedgerRow (wr_tip req) now reg (wr_signed_at req)]> (witness_log d)) d).
  destruct (run_lineage_ok req now d1) as (d2 & Hrl & Hrec).
  { intros rec Hrec. destruct (Hlin rec Hrec) as [Hv Hp]. split; [done|]. intros e He. apply Hp.
    unfold witness_entry_at, d1 in He. cbn [witness_log set_log] in He.
    rewrite lookup_insert_ne in He; [done|]. intros [= Heq _]. by apply (Hdiff rec Hrec). }
  destruct (Hsign (build_receipt (wr_device_pub req) reg (wr_sequence req) (wr_tip req) now
      (max_by_sequence (witness_entries (wr_device_pub req) d)) jti)) as [jws Hjws].
  exists reg, jws, d2. split_and!; [|done| |done].
  - unfold witness_handler, witness_receipt. rewrite run_bind, run_bind, run_lift, (ad_signed _ _ Ha).
    cbn [ensure]. rewrite run_bind, Hdec. cbn [witness_record]. rewrite run_bind, run_bind, run_query.
    cbn [exec_op]. unfold witness_insert. rewrite Habs. fold d1. cbn [map_err].
    rewrite run_lift, run_bind, Hrl, run_lift, run_bind, run_lift, Hjws. done.
  - apply run_lineage_log in Hrl. exists (mkLedgerRow (wr_tip req) now reg (wr_signed_at req)).
    unfold row_at. rewrite Hrl. unfold d1. cbn [witness_log set_log]. by rewrite lookup_insert_eq.
Qed.

(** ** Revocation *)

Lemma row_revocation_roundtrip o di dp l st ra me :
  (∀ f, me = Some f → f ≤ u32_max)%N →
  row_revocation (mkDeviceRow o di dp l st (Some ra) (u32_as_i32 <$> me))
  = mkRevocationState (Some ra) me.
Proof.
  intros Hme. unfold row_revocation. cbn. f_equal. destruct me as [f|]; [|done]. cbn.
  by rewrite i32_u32_roundtrip by auto.
Qed.

(** Alone on the database, a revoke request makes the state of its device stricter and
    leaves every other device as it was. *)
Lemma run_revoke org id ra me now d r d' row :
  (∀ f, me = Some f → f ≤ u32_max)%N →
  run (revoke_device_handler org id ra me now) d = (r, d') → devices d !! id = Some row →
  (∀ f, min_epoch (row_revocation row) = Some f → (f ≤ u32_max)%N) →
  (∀ j, j ≠ id → devices d' !! j = devices d !! j)
  ∧ ∃ row', devices d' !! id = Some row'
    ∧ stricter (row_revocation row) (row_revocation row')
    ∧ ∀ ra' me', r = Ok (ra', me') → row_revocation row' = mkRevocationState (Some ra') me'.
Proof.
  intros Hme Hrun Hrow Hfl. unfold revoke_device_handler in Hrun.
  assert (∀ e : http_error, r = Err e → d' = d → (∀ j, j ≠ id → devices d' !! j = devices d !! j)
    ∧ ∃ row', devices d' !! id = Some row' ∧ stricter (row_revocation row) (row_revocation row')
      ∧ ∀ ra' me', r = Ok (ra', me') → row_revocation row' = mkRevocationState (Some ra') me')
    as Hsame
    by (intros e -> ->; split; [done|]; exists row; split_and!; [done|apply stricter_refl|done]).
  rewrite run_bind, run_query in Hrun. cbn [exec_op map_err] in Hrun.
  unfold get_device_revocation in Hrun. rewrite Hrow in Hrun. cbn [mbind option_bind] in Hrun.
  rewrite run_bind, run_lift in Hrun.
  destruct (dr_org_id row =? org)%N eqn:Horg; cbn [ok_or] in Hrun;
    [|injection Hrun as <- <-; by eapply Hsame].
  rewrite run_bind, run_lift in Hrun.
  destruct (decide_revoke _ _ _ _) as [ra1 me1|msg] eqn:Hdec; [|injection Hrun as <- <-; by eapply Hsame].
  rewrite run_bind, run_query in Hrun. cbn [exec_op] in Hrun.
  unfold set_device_revocation in Hrun. rewrite Hrow, Horg in Hrun. cbn [map_err] in Hrun.
  rewrite run_bind, run_lift in Hrun. cbn in Hrun. injection Hrun as <- <-. cbn.
  assert (∀ f, me1 = Some f → (f ≤ u32_max)%N) as Hme1.
  { unfold decide_revoke in Hdec. destruct (new_revoked_at _ _ _); [|done].
    destruct (new_min_epoch _ _) as [me2|] eqn:Hm; [|done]. injection Hdec as _ ->.
    intros f ->. unfold new_min_epoch in Hm. repeat case_match; simplify_eq; eauto. }
  split; [intros j Hj; by rewrite lookup_insert_ne|]. eexists. split; [apply lookup_insert_eq|].
  rewrite row_revocation_roundtrip by done.
  split; [by eapply decide_revoke_stricter|]. by intros ra' me' [= <- <-].
Qed.

(** Under every interleaving, a revoked device stays revoked. *)
Lemma exec_op_revoked {B} (op : db_op B) d r d' id row :
  exec_op op d = (r, d') → devices d !! id = Some row → is_revoked (row_revocation row) = true →
  ∃ row', devices d' !! id = Some row' ∧ dr_device_pub row' = dr_device_pub row
    ∧ dr_org_id row' = dr_org_id row ∧ is_revoked (row_revocation row') = true.
Proof.
  intros Hex Hrow Hrev.
  assert (devices d' = devices d → ∃ row', devices d' !! id = Some row'
    ∧ dr_device_pub row' = dr_device_pub row ∧ dr_org_id row' = dr_org_id row
    ∧ is_revoked (row_revocation row') = true) as Hsame
    by (intros ->; eauto).
  destruct op; cbn in Hex; simplify_eq; auto.
  - apply Hsame. unfold witness_insert in Hex. by case_match; simplify_eq.
  - apply Hsame. unfold lineage_insert. by case_match.
  - unfold set_device_revocation in Hex. destruct (devices d !! id0) as [row0|] eqn:Hr0; [|by simplify_eq; auto].
    destruct (dr_org_id row0 =? org_id)%N; simplify_eq; [|auto]. cbn.
    destruct (decide (id0 = id)) as [->|Hne].
    + simplify_eq. eexists. split; [apply lookup_insert_eq|done].
    + rewrite lookup_insert_ne by done. eauto.
  - unfold create_device in Hex. case_match eqn:Hdup; simplify_eq; [auto|]. cbn.
    destruct (decide (id0 = id)) as [->|Hne]; [|rewrite lookup_insert_ne by done; eauto].
    exfalso. rewrite <-not_true_iff_false, existsb_exists in Hdup. apply Hdup.
    exists (id, row). split; [by apply list_elem_of_In, elem_of_map_to_list|].
    cbn. by rewrite bool_decide_true.
  - apply Hsame. unfold create_verification in Hex. by case_match; simplify_eq.
  - apply Hsame. unfold create_receipt in Hex. by case_match; simplify_eq.
Qed.

Lemma revoked_forever s s' id row :
  rtc step s s' → devices (database s) !! id = Some row →
  is_revoked (row_revocation row) = true →
  ∃ row', devices (database s') !! id = Some row' ∧ dr_device_pub row' = dr_device_pub row
    ∧ dr_org_id row' = dr_org_id row ∧ is_revoked (row_revocation row') = true.
Proof.
  intros Hs. revert row. induction Hs as [s|s1 s2 s3 Hstep _ IH]; intros row Hrow Hrev; [eauto|].
  assert (∃ row', devices (database s2) !! id = Some row' ∧ dr_device_pub row' = dr_device_pub row
    ∧ dr_org_id row' = dr_org_id row ∧ is_revoked (row_revocation row') = true) as (row1 & H1' & Hp & Ho & Hr).
  { destruct Hstep; cbn in *; eauto. by eapply exec_op_revoked. }
  destruct (IH row1 H1' Hr) as (row2 & ? & Hp2 & Ho2 & ?). exists row2.
  rewrite Hp2, Ho2, Hp, Ho. done.
Qed.
End Ledger.
