(* ===== verification/Demo.v ===== *)
(** * A concrete device and its chronicle

    A device with two key generations, two archives and the rotation between
    them, on the reference instances of Reference.v: concrete inputs for the
    theorems. *)

From S2P Require Import Prelude External Utf8 FileSystem Json Float64 Manifest ManifestCanon.
From S2P Require Import Chain Crypto Keywrap Chronicle Archive ArchiveLemmas ArchiveCorrect.
From S2P Require Import VerifyChronicle Attestation VerifyEngine Witness Jwks Platform.
From S2P Require Import Reference.

Definition unwrap_or {E A} (d : A) (r : result E A) : A :=
  match r with Ok a => a | Err _ => d end.

(** ** Keys *)

Definition demo_seed (c : ascii) : bytes := replicate 32 c.
Definition key_a : DeviceKeypair := keypair_of (demo_seed "a").
Definition key_b : DeviceKeypair := keypair_of (demo_seed "b").
Definition bundle_b : DeviceBundle := mkDeviceBundle key_b (ka_of_secret (demo_seed "x")).

Lemma key_a_wf : wf_keypair key_a.
Proof. by split. Qed.
Lemma key_b_wf : wf_keypair key_b.
Proof. by split. Qed.
Lemma bundle_b_wf : wf_bundle bundle_b.
Proof. by split_and!. Qed.

(** ** Manifests *)

Definition demo_time : bytes := lit "2026-08-05T00:00:00Z".

Definition demo_segment (o : ChunkOutcome) : SegmentInfo :=
  mkSegmentInfo (chunk_filename (out_index o)) (hex_encode (out_blake3 o)) demo_time (f64_of_Z 2)
    (hex_encode (out_continuity o)).

(** What [wrap] fills in: a log archive of the chunks behind [outs]. *)
Definition unsigned_manifest (kp : DeviceKeypair) (epoch seq : option N) (prev : option bytes)
    (outs : list ChunkOutcome) : TrstManifest :=
  mkTrstManifest (lit "0.2.0") (lit "log")
    (mkDeviceInfo (lit "dev-1") (lit "TrustEdgeRefLog") (lit "1.0.0") (public kp) None epoch)
    (Log (mkLogMetadata demo_time demo_time (lit "app") (lit "host") (lit "info") (lit "json")))
    default_chunk (demo_segment <$> outs) [] None seq prev None.

Definition sig_of (kp : DeviceKeypair) (m : TrstManifest) : bytes :=
  ed_prefix ++ base64_encode (ed_sign (secret kp) (jprint (manifest_json (set_sig None m)))).
Definition signed_manifest kp epoch seq prev outs : TrstManifest :=
  let m := unsigned_manifest kp epoch seq prev outs in set_sig (Some (sig_of kp m)) m.

Definition demo_chunks : list bytes := [lit "hello"; lit "world"].
Definition other_chunks : list bytes := [lit "again"].

Definition manifest_0 : TrstManifest :=
  signed_manifest key_a None (Some 0%N) None (outcomes [] demo_chunks).
Definition sig_0 : bytes := sig_of key_a manifest_0.
Definition id_0 : bytes := format_archive_id (blake3 (jprint (manifest_json (set_sig None manifest_0)))).

Definition rotation_1 : RotationRecord :=
  match rotation_create_signed key_a 0 bundle_b 1 id_0 demo_time with
  | Ok r => r
  | Err _ => mkRotationRecord [] [] 0 [] (mkRotationOld [] 0) (mkRotationNew [] [] 0) [] [] []
  end.
Definition id_1 : bytes := format_archive_id (rotation_digest rotation_1).

Definition manifest_2 : TrstManifest :=
  signed_manifest key_b (Some 1%N) (Some 2%N) (Some id_1) (outcomes [] other_chunks).
Definition sig_2 : bytes := sig_of key_b manifest_2.

(** ** serde on the demo values: the canonical text and the signature, read back by lookup *)

Definition manifest_text (m : TrstManifest) : bytes :=
  jprint (manifest_json m) ++ lit " " ++ default [] (signature m).

#[export] Instance demo_manifest_json : ManifestJson := {|
  manifest_to_json m := Ok (manifest_text m);
  manifest_from_json b :=
    ok_or (List.find (λ m, bool_decide (manifest_text m = b)) [manifest_0; manifest_2])
      (lit "expected value");
|}.

Definition rotation_text : bytes := rotation_signing_bytes rotation_1.
#[export] Instance demo_rotation_json : RotationJson := λ b,
  if decide (b = rotation_text) then Ok rotation_1 else Err (lit "expected value").

Definition state_text (st : ChronicleState) : bytes :=
  jprint (JObj [(lit "device_pub", JStr (cs_device_pub st)); (lit "sequence", jN (cs_sequence st));
    (lit "tip", JStr (cs_tip st)); (lit "key_epoch", jN (cs_key_epoch st));
    (lit "updated_at", JStr (cs_updated_at st))]).
Definition demo_state : ChronicleState := mkChronicleState (public key_a) 0 id_0 0 demo_time.
#[export] Instance demo_state_json : StateJson := {|
  state_to_json st := Ok (state_text st);
  state_from_json b := if decide (b = state_text demo_state) then Ok demo_state
                       else Err (lit "expected value");
|}.

#[export] Instance demo_io_text : IoText := λ _, lit "io error".

(** ** Files *)

Definition dir_0 : path := [lit "c"; lit "0.seal"].
Definition dir_1 : path := [lit "c"; lit "1.rot"].
Definition dir_2 : path := [lit "c"; lit "2.seal"].

Definition write_demo : io ArchiveError unit :=
  stream_archive dir_0 demo_chunks (signed_manifest key_a None (Some 0%N) None) sig_0 ≫= λ _,
  io_map_err Io (create_dir_all dir_1) ≫= λ _,
  io_map_err Io (create_write (dir_1 ++ [lit "rotation.json"]) rotation_text) ≫= λ _,
  stream_archive dir_2 other_chunks (signed_manifest key_b (Some 1%N) (Some 2%N) (Some id_1)) sig_2.
Definition demo_fs : fs := (write_demo ∅).2.

Example demo_validates : validate_archive dir_0 demo_fs = Ok tt.
Proof. vm_compute. reflexivity. Qed.

(** A receipt for the rotation, under the platform's own key; its header, payload and the
    JWKS are one-letter texts that serde reads as the values below. *)
Definition key_p : DeviceKeypair := keypair_of (demo_seed "p").
Definition receipt_payload : value :=
  VObj [(lit "typ", VStr (lit "witness"));
        (lit "witness", VObj [(lit "device_pub", VStr (public key_b));
                              (lit "sequence", VNum (PosInt 1)); (lit "tip", VStr id_1)])].
Definition jwks_value : value :=
  VObj [(lit "keys", VArr [VObj [(lit "x", VStr (base64url_encode (ed_public (secret key_p))))]])].
#[export] Instance demo_serde_value : SerdeValue := λ b,
  if decide (b = lit "H") then Ok (VObj [])
  else if decide (b = lit "P") then Ok receipt_payload
  else if decide (b = lit "J") then Ok jwks_value
  else Err (lit "expected value").
Definition demo_token : bytes :=
  let input := base64url_encode (lit "H") ++ lit "." ++ base64url_encode (lit "P") in
  input ++ lit "." ++ base64url_encode (ed_sign (secret key_p) input) ++ [newline].
Definition demo_receipt : option (bytes * bytes) := Some (demo_token, lit "J").

Example demo_chronicle_verifies :
  (λ r, (rep_rotations r, rep_witnessed r)) <$>
    handle_verify_chronicle [[lit "c"]] (public key_a) demo_receipt demo_fs
  = Ok (1, Some (1%N, id_1)).
Proof. vm_compute. reflexivity. Qed.

(** ** The platform *)

#[export] Instance demo_chrono : Chrono := λ s, if decide (s = []) then None else Some (Z.of_N (of_be_bytes s)).
#[export] Instance demo_postgres : Postgres := {|
  db_error_text _ := lit "duplicate key value violates unique constraint";
  pick_row A l := head l;
|}.
#[export] Instance demo_postgres_laws : PostgresLaws.
Proof. split; intros A [|x l]; cbn; [done| |done|done]. intros y [= ->]. set_solver. Qed.
#[export] Instance demo_signer : JwsSigner := {|
  signer_kid := lit "key_1";
  sign_witness_jws r := Ok (wrc_tip r);
  sign_receipt c := Ok (rc_chain_tip c);
|}.
#[export] Instance demo_sha256 : Sha256 := λ b, hex_encode (blake3 b).
#[export] Instance demo_uuid : UuidText := fmt_N.
#[export] Instance demo_manifest_value : ManifestValue := {|
  manifest_to_value _ := Ok (VObj [(lit "manifest", VNull)]);
  manifest_from_value _ := Ok manifest_0;
  value_to_string _ := Ok (lit "{}");
|}.
#[export] Instance demo_attestation_json : AttestationJson := {|
  attestation_to_json _ := Err (lit "none");
  attestation_from_json _ := Err (lit "none");
|}.

Definition demo_request (kp : DeviceKeypair) (q : N) (t : bytes) : WitnessRequest :=
  match witness_create_signed kp q t demo_time with
  | Ok r => r
  | Err _ => mkWitnessRequest [] 0 [] [] [] None
  end.
