(* ===== verification/CommandDemo.v ===== *)
(** * A concrete rotation, request and attestation

    The device of Demo.v rotates its key with [rekey], has the rotation witnessed, submits its
    first archive, and attests two files: concrete inputs for the theorems about these
    commands. *)

From S2P Require Import Prelude External Utf8 FileSystem Json Float64 Manifest ManifestCanon.
From S2P Require Import Chain Crypto Keywrap Chronicle Attestation Archive ArchiveLemmas.
From S2P Require Import ArchiveCorrect VerifyChronicle VerifyChronicleCorrect Cli Wrap WrapCorrect.
From S2P Require Import VerifyEngine Commands Unwrap CommandsCorrect Reference Demo.

Lemma absent_check (p : path) (s : fs) :
  forallb (λ kv : list (list ascii) * node, negb (bool_decide (take (length p) kv.1 = p)))
    (map_to_list s) = true → absent p s.
Proof.
  intros Hall q. destruct (s !! (p ++ q)) as [n|] eqn:E; [|done]. exfalso.
  rewrite forallb_forall in Hall. specialize (Hall (p ++ q, n)).
  rewrite <-list_elem_of_In, elem_of_map_to_list in Hall. specialize (Hall E).
  cbn [fst] in Hall. by rewrite take_app_length, bool_decide_true in Hall.
Qed.

(** ** serde on the states, records and bundles of the run *)

#[export] Instance state_eq_dec : EqDecision ChronicleState.
Proof. solve_decision. Defined.
#[export] Instance rotation_old_eq_dec : EqDecision RotationOld.
Proof. solve_decision. Defined.
#[export] Instance rotation_new_eq_dec : EqDecision RotationNew.
Proof. solve_decision. Defined.
#[export] Instance rotation_eq_dec : EqDecision RotationRecord.
Proof. solve_decision. Defined.
#[export] Instance artifact_eq_dec : EqDecision ArtifactRef.
Proof. solve_decision. Defined.
#[export] Instance attestation_eq_dec : EqDecision PointAttestation.
Proof. solve_decision. Defined.

Definition bundle_a : DeviceBundle := mkDeviceBundle key_a (ka_of_secret (demo_seed "w")).
Definition state_1 : ChronicleState := mkChronicleState (public key_b) 1 id_1 1 demo_time.

#[export] Instance rk_state_json : StateJson := {|
  state_to_json st := if decide (st ∈ [demo_state; state_1]) then Ok (state_text st)
                      else Err (lit "not printed");
  state_from_json b := ok_or (List.find (λ st, bool_decide (state_text st = b)) [demo_state; state_1])
                         (lit "expected value");
|}.
#[export] Instance rk_rotation_json : RotationJson := λ b,
  if decide (b = rotation_text ++ [newline]) then Ok rotation_1 else Err (lit "expected value").
#[export] Instance rk_bundle_json : BundleJson := λ b,
  if decide (b = to_plaintext bundle_a) then Ok (bundle_secrets bundle_a)
  else if decide (b = to_plaintext bundle_b) then Ok (bundle_secrets bundle_b)
  else Err (lit "expected value").
#[export] Instance rk_request_json : RequestJson := {|
  rotation_to_json r := if decide (r = rotation_1) then Ok rotation_text else Err (lit "not printed");
  witness_to_json _ := Ok (lit "{}");
  verify_request_to_json _ := Ok (lit "{}");
|}.
#[export] Instance rk_manifest_value : ManifestValue := {|
  manifest_to_value m := if decide (m = manifest_0) then Ok (VObj [(lit "device", VNull)])
                         else Err (lit "not printed");
  manifest_from_value _ := Ok manifest_0;
  value_to_string _ := Ok (lit "{}");
|}.
#[export] Instance rk_report_json : ReportJson :=
  {| report_to_json _ := Ok (lit "report"); report_to_json_pretty _ := Ok (lit "report") |}.

Lemma rk_state_reads_back x j : state_to_json x = Ok j → state_from_json j = Ok x.
Proof.
  unfold state_to_json, state_from_json, rk_state_json. case_decide as Hx; [|done].
  intros <-%Ok_inj. rewrite !elem_of_cons, elem_of_nil in Hx.
  destruct Hx as [->|[->|[]]]; vm_compute; reflexivity.
Qed.
Lemma rk_rotation_reads_back r j : rotation_to_json r = Ok j → rotation_from_json (j ++ [newline]) = Ok r.
Proof.
  unfold rotation_to_json, rk_request_json. case_decide as Hr; [|done]. intros <-%Ok_inj.
  subst. unfold rotation_from_json, rk_rotation_json. by rewrite decide_True.
Qed.
Lemma rk_manifest_reads_back x v : manifest_to_value x = Ok v → manifest_from_value v = Ok x.
Proof. unfold manifest_to_value, rk_manifest_value. by case_decide as Hx; [subst|]. Qed.

(** ** Files before the rotation: the first archive, the state and the two key bundles *)

Definition rk_fs : fs :=
  <[[lit "state"] := File (state_text demo_state)]>
  (<[[lit "old.key"] := File (to_plaintext bundle_a)]>
  (<[[lit "new.key"] := File (to_plaintext bundle_b)]>
  (<[[lit "pub"] := File (public key_a ++ [newline])]>
    (stream_archive dir_0 demo_chunks (signed_manifest key_a None (Some 0%N) None) sig_0 ∅).2))).

(** The first archive, verified. *)
Definition rk_verify : VerifyCmd := mkVerifyCmd dir_0 (public key_a) true None.
Definition rk_detached : bytes :=
  match read_manifest dir_0 rk_fs with Ok (_, d) => d | Err _ => [] end.
Lemma rk_manifest : read_manifest dir_0 rk_fs = Ok (manifest_0, rk_detached).
Proof. vm_compute. reflexivity. Qed.

Definition rk_cmd : RekeyCmd :=
  mkRekeyCmd [lit "state"] [lit "old.key"] [lit "new.key"] dir_1 true.
Definition rk_run := handle_rekey rk_cmd None None demo_time demo_time rk_fs.
Definition rk_after : fs := rk_run.2.

Lemma rk_done : handle_rekey rk_cmd None None demo_time demo_time rk_fs = (Ok tt, rk_after).
Proof.
  assert (rk_run.1 = Ok tt) as Hr by (vm_compute; reflexivity).
  unfold rk_after. by rewrite <-Hr, <-surjective_pairing.
Qed.

Lemma rk_layout : rekey_layout rk_cmd rk_fs.
Proof.
  constructor; [done|done| |].
  - apply absent_check. vm_compute. reflexivity.
  - intros [q Hq]. vm_compute in Hq. discriminate Hq.
Qed.

Definition rk_entry : Entry :=
  unwrap_or (mkEntry 0 [] None [] (EArchive manifest_0)) (read_entry rk_fs dir_0).

Lemma rk_active : active rk_fs (public key_a) [rk_entry] (public key_a) 0 0.
Proof.
  destruct (walk_entries rk_fs (initial_walk (public key_a)) [rk_entry]) as [w|] eqn:E;
    [|vm_compute in E; discriminate E].
  pose proof E as E'. apply walk_entries_ok in E as [Ha _].
  assert (active_signer w = public key_a ∧ active_epoch w = 0%N ∧ rotations w = 0) as (Hs & He & Hn);
    [|rewrite Hs, He, Hn in Ha; exact Ha].
  assert (w = unwrap_or (initial_walk []) (walk_entries rk_fs (initial_walk (public key_a)) [rk_entry]))
    as -> by by rewrite E'.
  split_and!; vm_compute; reflexivity.
Qed.

Lemma rk_linked : well_linked [rk_entry].
Proof.
  constructor.
  - intros i e Hi. apply list_lookup_singleton_Some in Hi as [-> <-]. vm_compute. reflexivity.
  - intros e He. apply list_lookup_singleton_Some in He as [_ <-].
    split; [|exists manifest_0]; vm_compute; reflexivity.
  - intros i x y _ Hy. by apply list_lookup_singleton_Some in Hy as [? _].
Qed.
