(* ===== verification/ArchiveTheorems.v ===== *)
(** * Theorems about manifests, chains and archives *)

From S2P Require Import Prelude External Utf8 FileSystem Json Float64 Manifest ManifestCanon.
From S2P Require Import Chain Crypto Keywrap Chronicle Archive ArchiveLemmas ArchiveCorrect.

Section Theorems.
Context `{Blake3Laws} `{HexLaws} `{SerdeJsonLaws} `{ManifestJson}.

(** C7. The canonical bytes that are signed and hashed determine the manifest: two manifests with
    the same canonical bytes, whose floats read back from their shortest decimal form (so are
    finite), agree in every field except the signature, whatever their strings contain, where
    an explicit key epoch 0 counts as an absent one; two manifests that [validate] accepts agree
    in the epoch too. *)
Theorem canonical_bytes_injective m m' b :
  floats_ok m = true → floats_ok m' = true →
  to_canonical_bytes m = Ok b → to_canonical_bytes m' = Ok b →
  set_sig None (drop_zero_epoch m) = set_sig None (drop_zero_epoch m')
  ∧ (validate m = Ok tt → validate m' = Ok tt → set_sig None m = set_sig None m').
Proof.
  intros Hf Hf'. rewrite !to_canonical_bytes_print. intros <-%Ok_inj Heq%Ok_inj.
  apply jprint_inj in Heq; [|apply manifest_json_wf..].
  assert (set_sig None (drop_zero_epoch m) = set_sig None (drop_zero_epoch m')) as Hd.
  { apply manifest_json_inj; [done|done|apply drop_zero_epoch_canonical..|]. by rewrite !drop_zero_epoch_json. }
  split; [done|]. intros Hv%validate_ok Hv'%validate_ok.
  by rewrite !drop_zero_epoch_id in Hd by (by apply vm_epoch).
Qed.

(** [validate] accepts exactly the manifests with a version, a known profile, a device
    id and key, complete metadata for the profile, at least one segment and none with an
    empty field, a recipient when encrypted, a well-formed chronicle link, and no explicit
    epoch 0. *)
Theorem validate_accepts_exactly m : validate m = Ok tt ↔ valid_manifest m.
Proof. apply validate_ok. Qed.

(** The signature is not part of what is signed: setting it changes neither the
    canonical bytes nor the archive digest, so the signature can be embedded after signing. *)
Theorem signature_not_covered m sig :
  to_canonical_bytes (set_signature sig m) = to_canonical_bytes m
  ∧ archive_digest (set_signature sig m) = archive_digest m.
Proof. split; by destruct m. Qed.

(** [validate_chain] accepts exactly the segment lists whose indices are their
    positions and whose stored continuity hashes are the running chain from the genesis
    hash. *)
Theorem validate_chain_accepts_exactly segs : validate_chain segs = Ok tt ↔ valid_chain segs.
Proof. apply validate_chain_ok. Qed.

(** The last continuity hash commits to the number, the order and the hash of all
    segments: two lists of 32-byte hashes with one tip are equal, or BLAKE3 collides. *)
Theorem chain_tip_commits hs hs' :
  Forall (λ h, length h = 32) hs → Forall (λ h, length h = 32) hs' →
  chain_tip genesis hs = chain_tip genesis hs' → hs = hs' ∨ Collision.
Proof. apply chain_tip_inj. Qed.

(** Hashing a chunk file through the 64 KiB buffer terminates and equals hashing the
    whole file at once; a file over the cap, however long, is refused with the cap error;
    a file that cannot be opened gives the same error as opening it. *)
Theorem stream_hash_is_hash p name s :
  stream_hash_chunk p name s =
  (open_chunk p name s ≫= λ data,
   if (len_N data <=? MAX_STORED_CHUNK_BYTES)%N then Ok (segment_hash data)
   else Err (cap_error name)).
Proof. apply stream_hash_chunk_spec. Qed.

(** C3. [validate_archive] accepts a directory exactly when it is intact: the manifest reads
    and is valid, every declared chunk is there under its name and within the cap with the
    declared hash, every continuity hash is the chain over the actual files, and no other
    [.bin] file lies in [chunks/]. *)
Theorem validate_archive_accepts_exactly base s :
  validate_archive base s = Ok tt ↔ ∃ m sig cs, intact base s m sig cs.
Proof. apply validate_archive_intact. Qed.

(** Writing an archive chunk by chunk into a fresh directory succeeds, and the result
    validates and reads back as the same manifest and chunks. *)
Theorem stream_write_roundtrip base s cs mk j sig :
  fresh base s → (N.of_nat (length cs) ≤ u32_max)%N →
  storable (mk (outcomes [] cs)) j sig cs →
  ∃ s', stream_archive base cs mk sig s = (Ok tt, s')
    ∧ validate_archive base s' = Ok tt
    ∧ read_archive base s' = Ok (mk (outcomes [] cs), enumerate cs).
Proof.
  intros Hf Hl Hst. destruct (stream_archive_ok base s cs mk j sig Hf Hl Hst) as (s' & Hs' & Har).
  exists s'. pose proof (archive_intact _ _ _ _ _ _ Har Hst) as Hin.
  split_and!; [done|apply validate_archive_intact; eauto|by eapply intact_read_archive].
Qed.

(** The collect-everything writer [write_archive] is equivalent to the streaming one:
    from the same fresh directory both succeed and leave an archive with the same files,
    which validates and reads back. *)
Theorem write_archive_equivalent base s cs mk j sig :
  fresh base s → (N.of_nat (length cs) ≤ u32_max)%N →
  storable (mk (outcomes [] cs)) j sig cs →
  ∃ s1 s2, stream_archive base cs mk sig s = (Ok tt, s1)
    ∧ write_archive base (mk (outcomes [] cs)) cs sig s = (Ok tt, s2)
    ∧ is_archive base s1 (Some j) (Some sig) cs ∧ is_archive base s2 (Some j) (Some sig) cs
    ∧ validate_archive base s2 = Ok tt
    ∧ read_archive base s2 = Ok (mk (outcomes [] cs), enumerate cs).
Proof.
  intros Hf Hl Hst. destruct (stream_archive_ok base s cs mk j sig Hf Hl Hst) as (s1 & Hs1 & Har1).
  destruct (write_archive_ok base s (mk (outcomes [] cs)) cs j sig) as (s2 & Hs2 & Har2);
    [done|symmetry; by eapply storable_length|apply Hst|].
  exists s1, s2. pose proof (archive_intact _ _ _ _ _ _ Har2 Hst) as Hin.
  split_and!; [done..|apply validate_archive_intact; eauto|by eapply intact_read_archive].
Qed.

(** Tampering is evident: two archives that validate and whose manifests have the same
    last continuity hash read back the same chunks, or BLAKE3 collides. *)
Theorem archive_chunks_bound base s m chunks base' s' m' chunks' seg seg' :
  validate_archive base s = Ok tt → validate_archive base' s' = Ok tt →
  read_archive base s = Ok (m, chunks) → read_archive base' s' = Ok (m', chunks') →
  last (segments m) = Some seg → last (segments m') = Some seg' →
  continuity_hash seg = continuity_hash seg' → chunks = chunks' ∨ Collision.
Proof.
  rewrite !validate_archive_intact. intros (m1 & sig & cs & Hin) (m2 & sig' & cs' & Hin').
  rewrite (intact_read_archive _ _ _ _ _ Hin), (intact_read_archive _ _ _ _ _ Hin').
  intros Hr Hr' Hl Hl' Heq. injection Hr as -> <-. injection Hr' as -> <-.
  destruct (intact_binding _ _ _ _ _ _ _ _ _ _ _ _ Hin Hin' Hl Hl' Heq) as [->|?]; auto.
Qed.

(** The archive digest commits to the whole manifest: archives with one digest have the
    same manifest up to the signature, or BLAKE3 collides. *)
Theorem archive_digest_commits m m' d :
  floats_ok m = true → floats_ok m' = true → epoch_canonical m → epoch_canonical m' →
  archive_digest m = Ok d → archive_digest m' = Ok d →
  set_sig None m = set_sig None m' ∨ Collision.
Proof. apply archive_digest_binds. Qed.
End Theorems.

(** ** Witnesses *)

From S2P Require Import Reference Demo.

Lemma demo_storable :
  storable (signed_manifest key_a None (Some 0%N) None (outcomes [] demo_chunks))
    (manifest_text manifest_0) sig_0 demo_chunks.
Proof.
  constructor.
  - apply validate_ok. vm_compute. reflexivity.
  - repeat constructor; vm_compute; reflexivity.
  - reflexivity.
  - vm_compute. reflexivity.
  - intros e He. vm_compute in He. injection He as <-. vm_compute. reflexivity.
  - vm_compute. discriminate.
  - vm_compute. discriminate.
  - repeat constructor; vm_compute; discriminate.
Qed.

Lemma empty_fresh base : base ≠ [] → fresh base ∅.
Proof. intros Hb. constructor; [done|by right|done]. Qed.

Lemma canonical_bytes_injective_witness :
  floats_ok manifest_0 = true ∧ set_sig None manifest_0 = set_sig None (set_sig None manifest_0).
Proof.
  split; [vm_compute; reflexivity|].
  apply (canonical_bytes_injective manifest_0 (set_sig None manifest_0)
    (jprint (manifest_json (set_sig None manifest_0))));
    try (vm_compute; reflexivity); apply to_canonical_bytes_print.
Defined.

Lemma validate_chain_accepts_exactly_witness :
  valid_chain [mkChainSegment 0 (blake3 (lit "x")) (chain_next genesis (blake3 (lit "x")))].
Proof. apply validate_chain_accepts_exactly. vm_compute. reflexivity. Defined.

Lemma chain_tip_commits_witness :
  [blake3 (lit "x")] = [blake3 (lit "x")] ∨ Collision.
Proof.
  apply chain_tip_commits; [repeat constructor|repeat constructor|reflexivity].
Defined.

Lemma validate_archive_accepts_exactly_witness : ∃ m sig cs, intact dir_0 demo_fs m sig cs.
Proof. apply validate_archive_accepts_exactly. vm_compute. reflexivity. Defined.

Lemma stream_write_roundtrip_witness :
  ∃ s', stream_archive dir_0 demo_chunks (signed_manifest key_a None (Some 0%N) None) sig_0 ∅
        = (Ok tt, s')
    ∧ validate_archive dir_0 s' = Ok tt
    ∧ read_archive dir_0 s' = Ok (signed_manifest key_a None (Some 0%N) None (outcomes [] demo_chunks),
                                  enumerate demo_chunks).
Proof.
  eapply stream_write_roundtrip; [by apply empty_fresh|vm_compute; discriminate|apply demo_storable].
Defined.

Lemma write_archive_equivalent_witness :
  ∃ s1 s2, stream_archive dir_0 demo_chunks (signed_manifest key_a None (Some 0%N) None) sig_0 ∅
           = (Ok tt, s1)
    ∧ write_archive dir_0 (signed_manifest key_a None (Some 0%N) None (outcomes [] demo_chunks))
        demo_chunks sig_0 ∅ = (Ok tt, s2)
    ∧ is_archive dir_0 s1 (Some (manifest_text manifest_0)) (Some sig_0) demo_chunks
    ∧ is_archive dir_0 s2 (Some (manifest_text manifest_0)) (Some sig_0) demo_chunks
    ∧ validate_archive dir_0 s2 = Ok tt
    ∧ read_archive dir_0 s2 = Ok (signed_manifest key_a None (Some 0%N) None (outcomes [] demo_chunks),
                                  enumerate demo_chunks).
Proof.
  apply write_archive_equivalent; [by apply empty_fresh|vm_compute; discriminate|apply demo_storable].
Defined.

Lemma archive_chunks_bound_witness : enumerate demo_chunks = enumerate demo_chunks ∨ Collision.
Proof.
  eapply (archive_chunks_bound dir_0 demo_fs manifest_0 _ dir_0 demo_fs manifest_0);
    try (vm_compute; reflexivity); reflexivity.
Defined.

Lemma archive_digest_commits_witness :
  set_sig None manifest_0 = set_sig None (set_sig None manifest_0) ∨ Collision.
Proof.
  eapply (archive_digest_commits manifest_0 (set_sig None manifest_0));
    try (vm_compute; reflexivity); try (vm_compute; discriminate); apply archive_digest_eq.
Defined.
