(* ===== verification/KeyTheorems.v ===== *)
(** * Theorems about keys, signatures, key files and chronicle records *)

From S2P Require Import Prelude External Utf8 FileSystem Json Float64 Manifest ManifestCanon.
From S2P Require Import Chain Crypto Keywrap Chronicle.

Section Theorems.
Context `{Blake3Laws} `{HexLaws} `{Base64Laws} `{Ed25519Laws} `{P256} `{AeadLaws} `{KdfLaws}
  `{HpkeLaws} `{SerdeJsonLaws} `{SerdeValue} `{BundleJson} `{StateJson}.

(** [verify_manifest] returns [Ok(true)] exactly when key and signature name the same
    algorithm, both decode to well-formed values, and that algorithm accepts the signature:
    no signature is ever checked under the other algorithm's key. *)
Theorem verify_manifest_accepts_exactly key msg sig :
  verify_manifest key msg sig = Ok true ↔ signed_by key msg sig.
Proof. apply verify_manifest_ok. Qed.

(** A signature by a device key pair verifies under its public key, and both the plain
    and the hexadecimal form of the secret import back to the same pair. *)
Theorem sign_verify_import kp msg :
  wf_keypair kp →
  (∃ sig, sign_manifest kp msg = Ok sig ∧ verify_manifest (public kp) msg sig = Ok true)
  ∧ import_secret (export_secret kp) = Ok kp
  ∧ import_secret (hex_encode (secret kp)) = Ok kp
  ∧ from_public (public kp) = Ok (ed_public (secret kp)).
Proof.
  intros Hkp. pose proof Hkp as [Hl Heq]. split_and!.
  - by apply sign_verify.
  - by apply import_export_secret.
  - rewrite import_secret_hex by done. by rewrite <-Heq.
  - rewrite Heq. apply from_public_string.
Qed.

(** A verifying key has exactly one accepted spelling: two strings that [from_public]
    decodes to the same key are equal, so comparing key strings (registry, revocation,
    active identity) compares keys. *)
Theorem public_key_spelling_unique s s' k :
  from_public s = Ok k → from_public s' = Ok k → s = s'.
Proof. apply from_public_inj. Qed.

(** An encrypted key file imports back, with the right passphrase, to the key pair that
    was exported, when serde reads its metadata line back. *)
Theorem key_file_roundtrip kp passphrase salt nonce data :
  wf_keypair kp → length nonce = 12 → metadata_reads_back 1 salt nonce →
  export_secret_encrypted kp passphrase salt nonce = Ok data →
  is_encrypted_key_file data = true ∧ import_secret_encrypted data passphrase = Ok kp.
Proof.
  intros Hkp Hn Hm Hexp. split; [|by eapply import_export_encrypted].
  unfold export_secret_encrypted in Hexp. apply encrypt_blob_ok in Hexp as (rest & ct & Hr & _);
    [|by vm_compute; repeat constructor|done..].
  apply parse_key_header_inv in Hr as ->. apply starts_with_spec. by exists rest.
Qed.

(** A key file is accepted only with its header, a PBKDF2 count between the minimum
    600000 and the ceiling 10000000, a 12-byte nonce and a ciphertext that authenticates
    under the derived key; the key pair it yields is well formed.  In particular a count
    that would wrap when narrowed to 32 bits is refused. *)
Theorem key_file_accepts_only data passphrase kp :
  import_secret_encrypted data passphrase = Ok kp →
  wf_keypair kp ∧ ∃ rest meta ct salt nonce n,
    data = ENCRYPTED_KEY_HEADER ++ newline :: rest
    ∧ parse_key_metadata rest = Ok (meta, ct)
    ∧ as_u64_value (value_index meta (lit "iterations")) = Some n
    ∧ (PBKDF2_MIN_ITERATIONS ≤ n ≤ PBKDF2_MAX_ITERATIONS)%N
    ∧ length nonce = 12
    ∧ aead_decrypt Aes256Gcm (pbkdf2 passphrase salt n) nonce [] ct = Some (secret kp).
Proof. apply import_encrypted_inv. Qed.

(** A device bundle round-trips through its encrypted file, and a single secret through
    its sealed file. *)
Theorem bundle_file_roundtrip b secret passphrase salt nonce data data' :
  wf_bundle b → bundle_reads_back b → utf8_valid (to_plaintext b) = true → length nonce = 12 →
  metadata_reads_back 2 salt nonce → metadata_reads_back 1 salt nonce →
  export_encrypted b passphrase salt nonce = Ok data →
  seal_secret secret passphrase salt nonce = Ok data' →
  import_encrypted data passphrase = Ok b ∧ open_secret data' passphrase = Ok secret.
Proof.
  intros. split; [by eapply bundle_import_export|by eapply open_seal_secret].
Qed.

(** The three kinds of key file cannot be confused: data that one importer's header
    check accepts is refused by the others. *)
Theorem key_file_kinds_disjoint h h' data rest rest' :
  parse_key_header h data = Ok rest → parse_key_header h' data = Ok rest' →
  h ∈ [ENCRYPTED_KEY_HEADER; BUNDLE_HEADER_V2; SEALED_SECRET_HEADER_V1] →
  h' ∈ [ENCRYPTED_KEY_HEADER; BUNDLE_HEADER_V2; SEALED_SECRET_HEADER_V1] → h = h'.
Proof. apply headers_disjoint. Qed.

(** A content key wrapped to a recipient's public string is unwrapped by the recipient
    with the same info and associated data. *)
Theorem cek_wrap_roundtrip rng k info aad cek e w :
  length cek = 32 → k = ka_of_secret (ka_secret k) →
  hpke_seal_cek_with_rng rng (ka_public_string k) info aad cek = Ok (e, w) →
  hpke_open_cek k e info aad w = Ok cek.
Proof. apply hpke_open_seal_cek. Qed.

(** The chunk associated data commits to the full signing key, the profile and the start
    time, and the HPKE info to the key and the version, although both are concatenations
    without separators: keys have a fixed length and no profile is a prefix of another. *)
Theorem chunk_context_binds pk pk' k k' p p' t t' v v' :
  from_public pk = Ok k → from_public pk' = Ok k' → p ∈ known_profiles → p' ∈ known_profiles →
  (chunk_aad_v2 pk p t = chunk_aad_v2 pk' p' t' → (pk = pk' ∧ p = p' ∧ t = t') ∨ Collision)
  ∧ (cek_wrap_info pk v = cek_wrap_info pk' v' → pk = pk' ∧ v = v').
Proof.
  intros. split; [by eapply chunk_aad_binds|by eapply cek_wrap_info_inj].
Qed.

(** Nonces and associated data are encoded unambiguously: a nonce string parses exactly
    when it is the formatting of a 24-byte nonce, and equal associated data comes from equal
    fields. *)
Theorem nonce_and_aad_unambiguous s n v p d t v' p' d' t' :
  (parse_nonce s = Ok n ↔ s = format_nonce n ∧ length n = 24)
  ∧ (generate_aad v p d t = generate_aad v' p' d' t' → v = v' ∧ p = p' ∧ d = d' ∧ t = t').
Proof. split; [apply parse_nonce_ok|apply generate_aad_inj]. Qed.

(** C30. Documents of different kinds never have the same signed bytes: a signature over a
    witness request, a rotation record or a manifest cannot be replayed as one of the other
    kinds, whatever the fields. *)
Theorem signed_documents_disjoint w r m b :
  to_canonical_bytes m = Ok b →
  witness_signing_bytes w ≠ rotation_signing_bytes r
  ∧ witness_signing_bytes w ≠ b ∧ rotation_signing_bytes r ≠ b.
Proof.
  intros Hb. split_and!; [apply witness_rotation_disjoint|by eapply witness_manifest_disjoint|
    by eapply rotation_manifest_disjoint].
Qed.

(** The signed bytes of a witness request and of a rotation record determine every field
    they cover. *)
Theorem signed_records_injective w w' r r' :
  (witness_signing_bytes w = witness_signing_bytes w' →
     wr_device_pub w = wr_device_pub w' ∧ wr_sequence w = wr_sequence w'
     ∧ wr_tip w = wr_tip w' ∧ wr_signed_at w = wr_signed_at w')
  ∧ (rotation_signing_bytes r = rotation_signing_bytes r' →
     set_sigs [] [] r = set_sigs [] [] r').
Proof. split; [apply witness_bytes_inj|apply rotation_bytes_inj]. Qed.

(** A rotation record verifies exactly when its kind is "rotation", the epoch goes up by
    one without overflow, and both the old and the new key signed the same bytes. *)
Theorem rotation_verify_accepts_exactly r :
  rotation_verify r = true ↔
  rr_kind r = ROTATION_KIND
  ∧ (new_key_epoch (rr_new r) = old_key_epoch (rr_old r) + 1)%N
  ∧ (new_key_epoch (rr_new r) ≤ u32_max)%N
  ∧ signed_by (old_public_key (rr_old r)) (rotation_signing_bytes r) (sig_old r)
  ∧ signed_by (new_public_key (rr_new r)) (rotation_signing_bytes r) (sig_new r).
Proof. apply rotation_verify_ok. Qed.

(** A rotation built by [create_signed] verifies and names both keys and the next epoch,
    below the last epoch; a witness request built by [create_signed] verifies. *)
Theorem created_records_verify old_signing old_epoch b sequence prev time tip :
  wf_keypair old_signing → wf_bundle b → (old_epoch < u32_max)%N →
  (∃ r, rotation_create_signed old_signing old_epoch b sequence prev time = Ok r
    ∧ rotation_verify r = true
    ∧ old_public_key (rr_old r) = public old_signing
    ∧ new_public_key (rr_new r) = public (signing b)
    ∧ new_key_epoch (rr_new r) = (old_epoch + 1)%N
    ∧ rr_sequence r = sequence ∧ rr_prev_archive_hash r = prev)
  ∧ ∃ w, witness_create_signed old_signing sequence tip time = Ok w ∧ witness_verify w = true
    ∧ wr_device_pub w = public old_signing ∧ wr_sequence w = sequence ∧ wr_tip w = tip
    ∧ wr_rotation w = None.
Proof.
  intros. split; [by apply rotation_signed_verifies|by apply witness_signed_verifies].
Qed.

(** At the last epoch [create_signed] wraps the new epoch to 0 and returns a record
    that [verify] rejects. *)
Theorem rotation_at_last_epoch old_signing b sequence prev time r :
  rotation_create_signed old_signing u32_max b sequence prev time = Ok r →
  new_key_epoch (rr_new r) = 0%N ∧ rotation_verify r = false.
Proof. apply rotation_epoch_limit. Qed.

(** C34. Saving the chronicle state is atomic and durable in the model: after any number of
    its file operations, crash or error included, the state file reads as before or as the
    new state, and after a successful save as the new state. *)
Theorem state_save_atomic st p j s k s' :
  state_to_json st = Ok j → state_from_json j = Ok st →
  (let sk := (io_for_each (λ step, step) (take k (save_steps j p)) s).2 in
   load p sk = load p s ∨ load p sk = Ok st)
  ∧ (save st p s = (Ok tt, s') → load p s' = Ok st).
Proof. intros. split; [by apply save_steps_atomic|by apply (save_load st p j)]. Qed.
End Theorems.

(** ** Witnesses *)

From S2P Require Import Reference Demo.

Definition demo_salt : bytes := replicate 32 "s"%char.
Definition demo_nonce : bytes := replicate 12 "n"%char.
Definition demo_line (version : N) : bytes :=
  jprint (key_metadata version demo_salt demo_nonce PBKDF2_MIN_ITERATIONS).
(** serde on the two demo metadata lines. *)
#[local] Instance line_value : SerdeValue := λ b,
  if decide (b = demo_line 1) then Ok (metadata_value 1 demo_salt demo_nonce PBKDF2_MIN_ITERATIONS)
  else if decide (b = demo_line 2) then
    Ok (metadata_value 2 demo_salt demo_nonce PBKDF2_MIN_ITERATIONS)
  else Err (lit "expected value").
#[local] Instance demo_bundle_json : BundleJson := λ b,
  if decide (b = to_plaintext bundle_b) then Ok (bundle_secrets bundle_b)
  else Err (lit "expected value").
Definition demo_pass : bytes := lit "passphrase".
Definition blob (header : bytes) (version : N) (msg : bytes) : bytes :=
  match encrypt_blob header version msg demo_pass demo_salt demo_nonce with
  | Ok d => d | Err _ => [] end.

Lemma demo_line_reads_back version :
  version = 1%N ∨ version = 2%N → metadata_reads_back version demo_salt demo_nonce.
Proof.
  intros [->| ->]; (split; [split|]); try (vm_compute; reflexivity);
    match goal with |- ?P => apply (bool_decide_unpack P) end; vm_compute; exact I.
Qed.

Lemma verify_manifest_accepts_exactly_witness :
  signed_by (public key_a) (lit "m") (ed_prefix ++ base64_encode (ed_sign (secret key_a) (lit "m"))).
Proof. apply verify_manifest_accepts_exactly. vm_compute. reflexivity. Defined.

Lemma sign_verify_import_witness :
  wf_keypair key_a ∧ import_secret (export_secret key_a) = Ok key_a.
Proof.
  split; [apply key_a_wf|].
  exact (proj1 (proj2 (sign_verify_import key_a (lit "m") key_a_wf))).
Defined.

Lemma public_key_spelling_unique_witness : public key_a = public key_a.
Proof.
  apply (public_key_spelling_unique _ _ (ed_public (secret key_a))); vm_compute; reflexivity.
Defined.

Lemma key_file_roundtrip_witness :
  import_secret_encrypted (blob ENCRYPTED_KEY_HEADER 1 (secret key_a)) demo_pass
  = Ok key_a.
Proof.
  eapply (key_file_roundtrip key_a demo_pass demo_salt demo_nonce);
    [apply key_a_wf|reflexivity|apply demo_line_reads_back; by left|vm_compute; reflexivity].
Defined.

Lemma key_file_accepts_only_witness : wf_keypair key_a.
Proof.
  apply (key_file_accepts_only (blob ENCRYPTED_KEY_HEADER 1 (secret key_a)) demo_pass key_a).
  vm_compute. reflexivity.
Defined.

Lemma bundle_file_roundtrip_witness :
  import_encrypted (blob BUNDLE_HEADER_V2 2 (to_plaintext bundle_b)) demo_pass = Ok bundle_b.
Proof.
  eapply (bundle_file_roundtrip bundle_b (lit "s") demo_pass demo_salt demo_nonce);
    [apply bundle_b_wf|vm_compute; reflexivity|vm_compute; reflexivity|reflexivity
    |apply demo_line_reads_back; by right|apply demo_line_reads_back; by left
    |vm_compute; reflexivity|vm_compute; reflexivity].
Defined.

Lemma key_file_kinds_disjoint_witness : ENCRYPTED_KEY_HEADER = ENCRYPTED_KEY_HEADER.
Proof.
  eapply (key_file_kinds_disjoint ENCRYPTED_KEY_HEADER ENCRYPTED_KEY_HEADER
    (blob ENCRYPTED_KEY_HEADER 1 (secret key_a)));
    [vm_compute; reflexivity|vm_compute; reflexivity|left|left].
Defined.

Lemma cek_wrap_roundtrip_witness :
  ∃ e w, hpke_open_cek (key_agreement bundle_b) e (lit "i") (lit "a") w = Ok (demo_seed "k").
Proof.
  eexists _, _. eapply (cek_wrap_roundtrip (lit "r")); [reflexivity|reflexivity|vm_compute; reflexivity].
Defined.

Lemma chunk_context_binds_witness :
  (public key_a = public key_a ∧ lit "log" = lit "log" ∧ demo_time = demo_time) ∨ Collision.
Proof.
  eapply (chunk_context_binds (public key_a) (public key_a) _ _ (lit "log") (lit "log")
    demo_time demo_time [] []);
    [vm_compute; reflexivity|vm_compute; reflexivity
    |by apply (bool_decide_unpack (lit "log" ∈ known_profiles))
    |by apply (bool_decide_unpack (lit "log" ∈ known_profiles))|reflexivity].
Defined.

Lemma nonce_and_aad_unambiguous_witness :
  parse_nonce (format_nonce (replicate 24 "n"%char)) = Ok (replicate 24 "n"%char).
Proof.
  apply (proj1 (nonce_and_aad_unambiguous _ _ [] [] [] [] [] [] [] [])). split; reflexivity.
Defined.

Lemma signed_documents_disjoint_witness :
  witness_signing_bytes (demo_request key_a 0 id_0) ≠ rotation_signing_bytes rotation_1.
Proof.
  exact (proj1 (signed_documents_disjoint _ _ manifest_0 _ (to_canonical_bytes_print manifest_0))).
Defined.

Lemma signed_records_injective_witness :
  set_sigs [] [] rotation_1 = set_sigs [] [] (set_sigs [] [] rotation_1).
Proof.
  exact (proj2 (signed_records_injective (demo_request key_a 0 id_0) (demo_request key_a 0 id_0)
    rotation_1 (set_sigs [] [] rotation_1)) eq_refl).
Defined.

Lemma rotation_verify_accepts_exactly_witness : rr_kind rotation_1 = ROTATION_KIND.
Proof. apply rotation_verify_accepts_exactly. vm_compute. reflexivity. Defined.

Lemma created_records_verify_witness :
  wf_keypair key_a ∧ ∃ w, witness_create_signed key_a 3 id_0 demo_time = Ok w ∧ witness_verify w = true
    ∧ wr_device_pub w = public key_a ∧ wr_sequence w = 3%N ∧ wr_tip w = id_0 ∧ wr_rotation w = None.
Proof.
  split; [apply key_a_wf|].
  exact (proj2 (created_records_verify key_a 0 bundle_b 3 id_0 demo_time id_0
    key_a_wf bundle_b_wf eq_refl)).
Defined.

Lemma rotation_at_last_epoch_witness :
  ∃ r, rotation_create_signed key_a u32_max bundle_b 1 id_0 demo_time = Ok r
    ∧ new_key_epoch (rr_new r) = 0%N ∧ rotation_verify r = false.
Proof.
  destruct (rotation_create_signed key_a u32_max bundle_b 1 id_0 demo_time) as [r|e] eqn:E.
  - exists r. split; [reflexivity|]. exact (rotation_at_last_epoch _ _ _ _ _ _ E).
  - cbv [rotation_create_signed sign_manifest mbind result_bind] in E. discriminate E.
Defined.

Lemma state_save_atomic_witness :
  ∃ s', save demo_state [lit "state"] ∅ = (Ok tt, s') ∧ load [lit "state"] s' = Ok demo_state.
Proof.
  assert (state_from_json (state_text demo_state) = Ok demo_state) as Hj by (vm_compute; reflexivity).
  destruct (save demo_state [lit "state"] ∅) as [r s'] eqn:E.
  assert (r = Ok tt) as ->.
  { change (r = (Ok tt : result StateError unit)). transitivity (save demo_state [lit "state"] ∅).1;
      [by rewrite E|vm_compute; reflexivity]. }
  exists s'. split; [reflexivity|].
  refine (proj2 (state_save_atomic demo_state [lit "state"] (state_text demo_state) ∅ 0 s' _ Hj) E).
  reflexivity.
Defined.
