(* ===== verification/ChronicleTheorems.v ===== *)
(** * Theorems about chronicle verification *)

From S2P Require Import Prelude External Utf8 FileSystem Json Float64 Manifest ManifestCanon.
From S2P Require Import Chain Crypto Keywrap Chronicle Archive VerifyChronicle.
From S2P Require Import VerifyChronicleCorrect.

Section Theorems.
Context `{Blake3Laws} `{HexLaws} `{Base64Laws} `{Ed25519Laws} `{P256} `{HpkeLaws} `{SerdeJsonLaws}
  `{SerdeValue} `{ManifestJson} `{StateJson} `{RotationJson} `{IoText}.

(** C2. [verify-chronicle] succeeds exactly on an authentic chronicle: the entries found,
    in sequence order, are numbered 0, 1, 2, ..., start with an archive without predecessor,
    each name the digest of the one before; every archive is intact and signed by the
    identity active at its position, with its epoch; every rotation is co-signed and away
    from the active identity; and a receipt, if given, names an entry of the chain and the
    identity in effect there.  The report describes that chronicle. *)
Theorem verify_chronicle_accepts_exactly paths device_pub receipt s rep :
  handle_verify_chronicle paths device_pub receipt s = Ok rep ↔
  ∃ es, chronicle_ok paths (normalize_device_pub device_pub) receipt s es rep.
Proof. apply verify_chronicle_ok. Qed.

(** C16. The reported tip commits to the whole history: two chronicles that verify with the
    same tip have the same number of entries with the same signed bytes, archives and
    rotations alike, or BLAKE3 collides. *)
Theorem chronicle_tip_commits paths g receipt s rep es paths' g' receipt' s' rep' es' :
  chronicle_ok paths g receipt s es rep → chronicle_ok paths' g' receipt' s' es' rep' →
  rep_tip rep = rep_tip rep' → entry_doc <$> es = entry_doc <$> es' ∨ Collision.
Proof. apply tip_binding. Qed.

(** C21. A witness receipt pins history: two chronicles verified against receipts with the
    same sequence and tip agree on the signed bytes of every entry up to that sequence, and
    both reach it (no tail deletion), or BLAKE3 collides. *)
Theorem witnessed_prefix_fixed paths g receipt s rep es paths' g' receipt' s' rep' es' q t :
  chronicle_ok paths g receipt s es rep → chronicle_ok paths' g' receipt' s' es' rep' →
  rep_witnessed rep = Some (q, t) → rep_witnessed rep' = Some (q, t) →
  N.to_nat q < length es ∧ N.to_nat q < length es'
  ∧ (entry_doc <$> take (S (N.to_nat q)) es = entry_doc <$> take (S (N.to_nat q)) es' ∨ Collision).
Proof.
  intros [_ Hl _ _ _ Hr] [_ Hl' _ _ _ Hr'] Hw Hw'. unfold receipt_ok in Hr, Hr'.
  rewrite Hw in Hr. rewrite Hw' in Hr'.
  destruct receipt as [[tok jwks]|]; [|done]. destruct receipt' as [[tok' jwks']|]; [|done].
  destruct Hr as (dev & q1 & t1 & _ & [= <- <-] & Hb).
  destruct Hr' as (dev' & q2 & t2 & _ & [= <- <-] & Hb').
  pose proof Hb as [_ (e & He & _)]. pose proof Hb' as [_ (e' & He' & _)].
  split_and!; [by eapply lookup_lt_Some..|].
  eapply witness_binding; eauto using ld_linked, loads_wf.
Qed.

(** Verification never panics: no index is out of bounds and the list of entries is
    never empty where the code assumes it, whatever the files and the receipt contain. *)
Theorem verify_chronicle_never_panics paths device_pub receipt s :
  handle_verify_chronicle paths device_pub receipt s ≠ Err Panicked.
Proof. apply verify_chronicle_no_panic. Qed.

(** The identity a verified chronicle ends in is the pinned genesis key carried forward
    by its rotations, and its epoch is the number of rotations. *)
Theorem active_identity_is_genesis_rotated paths g receipt s rep es :
  chronicle_ok paths g receipt s es rep →
  rep_current_identity rep = foldl next_signer g es
  ∧ rep_current_epoch rep = N.of_nat (rep_rotations rep).
Proof.
  intros [_ _ Ha _ _ _]. split; [by eapply active_signer_eq|by eapply active_epoch_count].
Qed.

(** An archive wrapped with [--chronicle] (state file at the last entry) or with
    [--prev-archive] (the last entry's directory) continues a well-linked chronicle; with no
    state file it starts one.  The predecessor's sequence must be below [u64::MAX], where
    the addition would wrap. *)
Theorem wrap_continues_chronicle es e e' path key s link st m h q chronicle :
  well_linked es → last es = Some e → (e_seq e < u64_max)%N → carries_link e' link →
  (path_exists path s = true → load path s = Ok st → state_at st e →
    resolve_chronicle (Some path) None None None key s = Ok (Some link) → well_linked (es ++ [e']))
  ∧ (read_entry s (e_path e) = Ok e → e_kind e = EArchive m →
    resolve_chronicle chronicle (Some (e_path e)) h q key s = Ok (Some link) →
    well_linked (es ++ [e']))
  ∧ (path_exists path s = false → e_kind e' = EArchive m →
    resolve_chronicle (Some path) None None None key s = Ok (Some link) → well_linked [e']).
Proof.
  intros. split_and!; intros;
    [by eapply resolve_state_extends|by eapply resolve_archive_extends|by eapply resolve_genesis].
Qed.
End Theorems.

(** ** Witnesses *)

From S2P Require Import Reference Demo.

Definition demo_report : ChronicleReport :=
  unwrap_or (mkChronicleReport [] 0 0 0 [] [] 0 None)
    (handle_verify_chronicle [[lit "c"]] (public key_a) demo_receipt demo_fs).

Lemma demo_verified : handle_verify_chronicle [[lit "c"]] (public key_a) demo_receipt demo_fs = Ok demo_report.
Proof. vm_compute. reflexivity. Qed.

Definition demo_entries : list Entry := unwrap_or [] (load_entries [[lit "c"]] demo_fs).

Lemma demo_loads : loads [[lit "c"]] demo_fs demo_entries.
Proof. apply load_entries_ok. vm_compute. reflexivity. Qed.

Lemma verify_chronicle_accepts_exactly_witness :
  ∃ es, chronicle_ok [[lit "c"]] (public key_a) demo_receipt demo_fs es demo_report.
Proof. exact (proj1 (verify_chronicle_accepts_exactly _ (public key_a) _ _ _) demo_verified). Defined.

Lemma chronicle_tip_commits_witness :
  ∃ es, chronicle_ok [[lit "c"]] (public key_a) demo_receipt demo_fs es demo_report
    ∧ (entry_doc <$> es = entry_doc <$> es ∨ Collision).
Proof.
  destruct (proj1 (verify_chronicle_ok _ (public key_a) _ _ _) demo_verified) as [es Hes].
  exists es. split; [exact Hes|]. exact (chronicle_tip_commits _ _ _ _ _ _ _ _ _ _ _ _ Hes Hes eq_refl).
Defined.

Lemma witnessed_prefix_fixed_witness :
  ∃ es, chronicle_ok [[lit "c"]] (public key_a) demo_receipt demo_fs es demo_report
    ∧ 1 < length es.
Proof.
  destruct (proj1 (verify_chronicle_ok _ (public key_a) _ _ _) demo_verified) as [es Hes].
  exists es. split; [exact Hes|].
  assert (rep_witnessed demo_report = Some (1%N, id_1)) as Hw by (vm_compute; reflexivity).
  exact (proj1 (witnessed_prefix_fixed _ _ _ _ _ _ _ _ _ _ _ _ _ _ Hes Hes Hw Hw)).
Defined.

(** A path that is nowhere, and a receipt that is not a token. *)
Lemma verify_chronicle_never_panics_witness :
  handle_verify_chronicle [[lit "nowhere"]] (public key_a) (Some (lit "x", lit "y")) demo_fs
  ≠ Err Panicked.
Proof. apply verify_chronicle_never_panics. Defined.

Lemma active_identity_is_genesis_rotated_witness :
  rep_current_epoch demo_report = N.of_nat (rep_rotations demo_report).
Proof.
  destruct (proj1 (verify_chronicle_ok _ (public key_a) _ _ _) demo_verified) as [es Hes].
  exact (proj2 (active_identity_is_genesis_rotated _ _ _ _ _ _ Hes)).
Defined.

(** An archive entry at sequence 0, its state file, and the next link. *)
Definition entry_0 : Entry := default (mkEntry 0 [] None [] (EArchive manifest_0)) (head demo_entries).
Definition state_fs : fs := <[[lit "state"] := File (state_text demo_state)]> ∅.
Definition next_link : ChronicleLink := mkChronicleLink 1 (Some id_0) 0 (Some [lit "state"]).
Definition next_entry : Entry := mkEntry 1 [] (Some id_0) [] (EArchive manifest_2).

Lemma entry_0_linked : well_linked [entry_0].
Proof.
  assert ([entry_0] = take 1 demo_entries) as -> by (vm_compute; reflexivity).
  apply well_linked_take, demo_loads.
Qed.

Lemma wrap_continues_chronicle_witness : well_linked ([entry_0] ++ [next_entry]).
Proof.
  refine (proj1 (wrap_continues_chronicle [entry_0] entry_0 next_entry [lit "state"] (public key_a)
    state_fs next_link demo_state manifest_0 None None None entry_0_linked eq_refl _ _) _ _ _ _);
    try (vm_compute; reflexivity); (split; vm_compute; reflexivity).
Defined.
