(* ===== verification/PlatformTheorems.v ===== *)
(** * Theorems about the witness ledger and revocation *)

From S2P Require Import Prelude External Utf8 FileSystem Json Float64 Manifest ManifestCanon.
From S2P Require Import Chain Crypto Keywrap Chronicle Attestation VerifyEngine VerifyEngineCorrect.
From S2P Require Import Witness Jwks Platform.

Section Theorems.
Context `{Blake3} `{Hex} `{Base64} `{Ed25519} `{P256} `{SerdeJson} `{SerdeValue} `{ManifestValue}
  `{AttestationJson} `{Chrono} `{PostgresLaws} `{JwsSigner} `{Sha256} `{UuidText}.

(** The witness decision on a ledger with one row per sequence: a tip above every
    witnessed sequence is recorded (its predecessor is the highest row), the same tip again
    is a replay of its row, another tip at a witnessed sequence is a fork, and any other
    sequence is a rollback below the maximum. *)
Theorem witness_decision_exact l q t :
  unique_sequences l →
  match decide_witness l q t with
  | Record_ p => (∀ e, e ∈ l → we_sequence e < q)%N ∧ p = max_by_sequence l
  | Replay e p => e ∈ l ∧ we_sequence e = q ∧ we_tip e = t ∧ p = prev_entry l q
  | Fork t' => ∃ e, e ∈ l ∧ we_sequence e = q ∧ we_tip e = t' ∧ t' ≠ t
  | Rollback m => (∀ e, e ∈ l → we_sequence e ≠ q) ∧ (q < m)%N
      ∧ (∃ e, e ∈ l ∧ we_sequence e = m) ∧ ∀ e, e ∈ l → (we_sequence e ≤ m)%N
  end.
Proof. apply decide_cases. Qed.

(** C4. No equivocation: in any run of the service, with requests interleaved and statements
    failing at will, two receipts issued for the same device and sequence carry the same tip
    and the same trusted timestamp. *)
Theorem receipts_never_conflict s rc jws rc' jws' :
  reachable s → RespWitness rc jws ∈ answered s → RespWitness rc' jws' ∈ answered s →
  wrc_device_pub rc = wrc_device_pub rc' → wrc_sequence rc = wrc_sequence rc' →
  wrc_tip rc = wrc_tip rc' ∧ wrc_observed_at rc = wrc_observed_at rc'.
Proof.
  intros Hs Hrc Hrc' Hd Hq. destruct (reachable_ok s Hs) as [_ _ _ Ha].
  apply Ha in Hrc as (row & Hr & <- & <-), Hrc' as (row' & Hr' & <- & <-).
  rewrite Hd, Hq, Hr' in Hr. by injection Hr as ->.
Qed.

(** C23. In any run of the service the ledger is append-only and authentic: a row, once there,
    keeps its tip and timestamp; every row was asked for by a request signed with the
    device's key; and every receipt is backed by a row. *)
Theorem ledger_append_only_authentic s s' :
  reachable s → rtc step s s' →
  extends (database s) (database s')
  ∧ (∀ pub z row, witness_log (database s') !! (pub, z) = Some row →
       ∃ q, u64_as_i64 q = z ∧ (q ≤ u64_max)%N ∧ authorized pub q (lr_tip row))
  ∧ ∀ rc jws, RespWitness rc jws ∈ answered s' →
       recorded (wrc_device_pub rc) (wrc_sequence rc) (wrc_tip rc) (wrc_observed_at rc)
         (database s').
Proof.
  intros Hs Hs'. assert (reachable s') as Hr by by eapply reachable_trans.
  destruct (reachable_ok s' Hr) as [Hl _ _ Ha].
  split_and!; [by apply reachable_extends|apply Hl|]. intros rc jws Hin. by apply (Ha _ Hin).
Qed.

(** A witness request handled alone adds at most one row, and only for a tip that is
    signed by the device, above every witnessed sequence of the device, not of a revoked
    device, and not beyond the sequence at which the key rotated away. *)
Theorem witness_alone_adds_admitted req now jti d r d' :
  run (witness_handler req now jti) d = (r, d') →
  witness_log d' = witness_log d
  ∨ admits req d ∧ row_at (wr_device_pub req) (wr_sequence req) d = None ∧ ∃ reg,
      witness_log d' = <[(wr_device_pub req, u64_as_i64 (wr_sequence req)) :=
        mkLedgerRow (wr_tip req) now reg (wr_signed_at req)]> (witness_log d).
Proof. apply run_witness_log. Qed.

(** A request of a revoked device, or of a key that rotated away before the sequence,
    handled alone, leaves the ledger unchanged. *)
Theorem closed_keys_add_nothing req now jti d r d' :
  run (witness_handler req now jti) d = (r, d') →
  (∃ id st, get_device_revocation_by_pub (wr_device_pub req) d = Some (id, st) ∧ is_revoked st = true)
  ∨ (lineage_rows (wr_device_pub req) d ≠ []
     ∧ ∀ row, row ∈ lineage_rows (wr_device_pub req) d →
         (i64_as_u64 (ln_rotation_seq row) < wr_sequence req)%N) →
  witness_log d' = witness_log d.
Proof. apply run_witness_closed. Qed.

(** A revoke request handled alone only tightens: the device is revoked from no later an
    instant than before, is never un-revoked, its epoch floor never sinks, other devices are
    untouched, and the response shows what is stored. *)
Theorem revoke_alone_tightens org id ra me now d r d' row :
  (∀ f, me = Some f → f ≤ u32_max)%N →
  run (revoke_device_handler org id ra me now) d = (r, d') → devices d !! id = Some row →
  (∀ f, min_epoch (row_revocation row) = Some f → (f ≤ u32_max)%N) →
  (∀ j, j ≠ id → devices d' !! j = devices d !! j)
  ∧ ∃ row', devices d' !! id = Some row'
    ∧ stricter (row_revocation row) (row_revocation row')
    ∧ ∀ ra' me', r = Ok (ra', me') → row_revocation row' = mkRevocationState (Some ra') me'.
Proof. apply run_revoke. Qed.

(** Revocation is permanent in every run of the service: a revoked device stays
    registered under its key and organization, and revoked. *)
Theorem revocation_permanent s s' id row :
  rtc step s s' → devices (database s) !! id = Some row →
  is_revoked (row_revocation row) = true →
  ∃ row', devices (database s') !! id = Some row' ∧ dr_device_pub row' = dr_device_pub row
    ∧ dr_org_id row' = dr_org_id row ∧ is_revoked (row_revocation row') = true.
Proof. apply revoked_forever. Qed.

(** A rotation attached to a request is recorded as lineage only when both keys signed
    it, the new key is the requester, and the record is the witnessed tip at its sequence. *)
Theorem lineage_check_exact rec pub q t old rq :
  verify_lineage_rotation rec pub q t = LineageOk old rq ↔
  rotation_verify rec = true ∧ new_public_key (rr_new rec) = pub ∧ rr_sequence rec = q
  ∧ format_archive_id (rotation_digest rec) = t
  ∧ old = old_public_key (rr_old rec) ∧ rq = rr_sequence rec.
Proof. apply verify_lineage_ok. Qed.

(** The receipts route never finds a receipt: the verify route has no token check, so in
    every run of the service each verification is stored for the anonymous organization and
    for no device, and an organization with a token gets the answer 404 for every receipt
    id; and no receipt of the verify route says that its device is registered. *)
Theorem stored_receipts_unreachable s org id :
  reachable s → org ≠ nil_uuid →
  run (get_receipt_handler org id) (database s) = (Err (mkHttpError 404 []), database s)
  ∧ ∀ r jws, RespVerify r ∈ answered s → vs_receipt r = Some jws →
      ∃ claims, sign_receipt claims = Ok jws ∧ device_registered claims = false.
Proof.
  intros Hs Horg. destruct (reachable_ok s Hs) as [_ Ht _ Ha]. split.
  - unfold get_receipt_handler. rewrite run_bind, run_query. cbn [exec_op map_err].
    assert (get_receipt org id (database s) = None) as ->; [|done]. unfold get_receipt.
    destruct (receipts (database s) !! id) as [rr|]; [|done]. cbn.
    destruct (verifications (database s) !! _) as [v|] eqn:Hv; [|done]. cbn.
    apply Ht in Hv as [-> _]. by rewrite (proj2 (N.eqb_neq _ _)).
  - intros r jws Hr Hj. apply Ha in Hr. destruct (Hr jws Hj) as (? & ? & claims & Hc & ? & ? & ? & ? & ?).
    by exists claims.
Qed.

Lemma run_auth header d :
  run (auth_middleware header) d
  = (h ← ok_or header (mkHttpError 401 []);
     ensure (starts_with (lit "Bearer ") h) (mkHttpError 401 []) ≫= λ _,
     ok_or (api_keys d !! hash_token (drop 7 h)) (mkHttpError 401 []), d).
Proof.
  unfold auth_middleware. rewrite run_bind, run_lift. destruct header as [h|]; [|done]. cbn [ok_or mbind result_bind].
  rewrite run_bind, run_lift. by destruct (starts_with _ h).
Qed.

(** API keys: the token that was stored by its hash authenticates as its organization, and storing it
    opens the service to nothing else: any header that is accepted carries a token with the
    same hash, or was accepted as the same organization before. *)
Theorem issued_token_authenticates org token d d' :
  create_api_key org (hash_token_for_storage token) d = (Ok tt, d') →
  run (auth_middleware (Some (lit "Bearer " ++ token))) d' = (Ok org, d')
  ∧ ∀ header o, run (auth_middleware header) d' = (Ok o, d') →
      (∃ token', header = Some (lit "Bearer " ++ token') ∧ hash_token token' = hash_token token ∧ o = org)
      ∨ run (auth_middleware header) d = (Ok o, d).
Proof.
  unfold create_api_key, hash_token_for_storage. destruct (api_keys d !! _) eqn:Hk; [done|]. intros [= <-].
  split.
  - rewrite run_auth. cbn [ok_or mbind result_bind].
    rewrite (proj2 (starts_with_spec _ _)) by by eexists. cbn [ensure mbind result_bind api_keys].
    by rewrite drop_app_length', lookup_insert_eq by done.
  - intros [header|] o; [|by rewrite run_auth]. rewrite !run_auth. cbn [ok_or mbind result_bind].
    destruct (starts_with (lit "Bearer ") header) eqn:Hh; [|done]. cbn [ensure mbind result_bind api_keys].
    apply starts_with_spec in Hh as [t' ->]. rewrite drop_app_length' by done.
    destruct (decide (hash_token t' = hash_token token)) as [He|Hne].
    + rewrite He, lookup_insert_eq. intros [= <-]. left. by exists t'.
    + rewrite lookup_insert_ne by done. intros [= Ho]. right. by rewrite Ho.
Qed.

(** A generated token has 32 letters and digits. *)
Lemma generate_token_alphanumeric draw :
  length (generate_token draw) = 32 ∧ Forall (λ c, c ∈ CHARSET) (generate_token draw).
Proof.
  unfold generate_token. split; [by rewrite length_fmap, length_seq|]. apply Forall_fmap, Forall_true. intros k.
  cbn beta. destruct (lookup_lt_is_Some_2 CHARSET (draw k mod length CHARSET)) as [c Hc].
  { apply Nat.mod_upper_bound. done. }
  unfold compose. rewrite Hc. by eapply list_elem_of_lookup_2.
Qed.

(** C33. A new tip is recorded: alone on the database, with a signing key that works, a request
    that passes every gate (signature, ledger, revocation, rotation) and whose attached
    rotation, if any, is the witnessed tip and follows the old key's witnessed chain, is
    answered with a receipt for exactly this tip at the current time, and the ledger then
    has it. *)
Theorem admitted_tip_recorded req now jti d :
  log_typed d → (wr_sequence req ≤ u64_max)%N → admits req d → lineage_ok req d →
  (∀ rec, wr_rotation req = Some rec → old_public_key (rr_old rec) ≠ wr_device_pub req) →
  (∀ rc, ∃ jws, sign_witness_jws rc = Ok jws) →
  ∃ reg jws d', let rc := build_receipt (wr_device_pub req) reg (wr_sequence req) (wr_tip req) now
      (max_by_sequence (witness_entries (wr_device_pub req) d)) jti in
    run (witness_handler req now jti) d = (Ok (rc, jws), d') ∧ sign_witness_jws rc = Ok jws
    ∧ recorded (wr_device_pub req) (wr_sequence req) (wr_tip req) now d'
    ∧ lineage_recorded req now d d'.
Proof. apply run_witness_admitted. Qed.
End Theorems.

(** ** Witnesses *)

From S2P Require Import Reference Demo.

Definition req_7 : WitnessRequest := demo_request key_a 7 (lit "b3:seven").
Definition req_5 : WitnessRequest := demo_request key_a 5 (lit "b3:five").

(** Two requests have arrived. *)
Definition both_arrived : service :=
  mkService empty_db
    (<[1 := handler (ReqWitness req_5 demo_time (lit "j5"))]>
      (<[0 := handler (ReqWitness req_7 demo_time (lit "j7"))]> ∅)) [].

Lemma both_arrived_reachable : reachable both_arrived.
Proof.
  exists ∅. eapply rtc_l; [apply (step_arrive _ _ _ 0 (ReqWitness req_7 demo_time (lit "j7")));
    [done|vm_compute; discriminate]|].
  apply rtc_once, (step_arrive _ _ _ 1 (ReqWitness req_5 demo_time (lit "j5")));
    [done|vm_compute; discriminate].
Qed.

(** The ledger is not monotone under concurrency: the handler reads the ledger and
    inserts in separate statements and the primary key only excludes equal sequences, so
    with two requests in flight sequence 5 can be recorded after sequence 7, which
    [decide] alone would have refused as a rollback. *)
Theorem concurrent_rollback_recorded :
  ∃ s s', reachable s ∧ rtc step s s'
    ∧ (∃ row, row_at (public key_a) 7 (database s) = Some row)
    ∧ row_at (public key_a) 5 (database s) = None
    ∧ decide_witness (witness_entries (public key_a) (database s)) 5 (lit "b3:five") = Rollback 7
    ∧ ∃ row, row_at (public key_a) 5 (database s') = Some row ∧ lr_tip row = lit "b3:five".
Proof.
  exists (foldl tick both_arrived [0; 0; 0; 1; 1; 1; 0]),
    (foldl tick (foldl tick both_arrived [0; 0; 0; 1; 1; 1; 0]) [1]).
  split_and!.
  - eapply reachable_trans; [apply both_arrived_reachable|apply ticks_step].
  - apply ticks_step.
  - eexists. vm_compute. reflexivity.
  - vm_compute. reflexivity.
  - vm_compute. reflexivity.
  - eexists. split; [vm_compute; reflexivity|reflexivity].
Qed.

Definition entry_3 : WitnessEntry := mkWitnessEntry 3 (lit "b3:three") demo_time.

Lemma witness_decision_exact_witness :
  decide_witness [entry_3] 2 (lit "t") = Rollback 3 ∧ ∀ e, e ∈ [entry_3] → we_sequence e ≠ 2%N.
Proof.
  split; [reflexivity|].
  refine (proj1 (witness_decision_exact [entry_3] 2 (lit "t") _)).
  intros e e' He He' _. by rewrite list_elem_of_singleton in He, He'; subst.
Defined.

(** One request, answered. *)
Definition one_arrived : service :=
  mkService empty_db (<[0 := handler (ReqWitness req_7 demo_time (lit "j7"))]> ∅) [].
Lemma one_arrived_reachable : reachable one_arrived.
Proof.
  exists ∅. apply rtc_once, (step_arrive _ _ _ 0 (ReqWitness req_7 demo_time (lit "j7")));
    [done|vm_compute; discriminate].
Qed.
Definition receipt_7 : WitnessReceipt :=
  build_receipt (public key_a) false 7 (lit "b3:seven") demo_time None (lit "j7").
Definition one_ran : service := foldl tick one_arrived [0; 0; 0; 0].
Definition one_answered : service :=
  mkService (database one_ran) (delete 0 (running one_ran)) [RespWitness receipt_7 (lit "b3:seven")].

Lemma one_answered_reachable : reachable one_answered.
Proof.
  eapply reachable_trans; [apply one_arrived_reachable|]. etrans; [apply (ticks_step _ [0; 0; 0; 0])|].
  apply rtc_once. change (foldl tick one_arrived [0; 0; 0; 0]) with one_ran.
  apply (step_answer (database one_ran) (running one_ran) [] 0 (RespWitness receipt_7 (lit "b3:seven"))).
  vm_compute. reflexivity.
Qed.

Lemma receipts_never_conflict_witness : wrc_tip receipt_7 = wrc_tip receipt_7.
Proof.
  apply (receipts_never_conflict one_answered receipt_7 (lit "b3:seven") receipt_7 (lit "b3:seven"));
    [apply one_answered_reachable|left|left|reflexivity|reflexivity].
Defined.

Lemma ledger_append_only_authentic_witness :
  recorded (public key_a) 7 (lit "b3:seven") demo_time (database one_answered).
Proof.
  apply (proj2 (proj2 (ledger_append_only_authentic one_answered one_answered
    one_answered_reachable (rtc_refl _ _))) receipt_7 (lit "b3:seven")). left.
Defined.

Definition db_after (req : WitnessRequest) : db := (run (witness_handler req demo_time (lit "j")) empty_db).2.

Lemma witness_alone_adds_admitted_witness :
  witness_log (db_after req_7) = ∅ ∨ admits req_7 empty_db.
Proof.
  destruct (run (witness_handler req_7 demo_time (lit "j")) empty_db) as [r d'] eqn:E.
  destruct (witness_alone_adds_admitted req_7 demo_time (lit "j") empty_db r d' E) as [Hl|[Ha _]].
  - left. unfold db_after. by rewrite E.
  - by right.
Defined.

Definition revoked_row : DeviceRow :=
  mkDeviceRow 1 (lit "dev-1") (public key_a) None (lit "revoked") (Some demo_time) (Some 2%Z).
Definition revoked_db : db := mkDb ∅ {[ 9%N := revoked_row ]} ∅ ∅ ∅ ∅.

Lemma closed_keys_add_nothing_witness :
  witness_log (run (witness_handler req_7 demo_time (lit "j")) revoked_db).2 = ∅.
Proof.
  destruct (run (witness_handler req_7 demo_time (lit "j")) revoked_db) as [r d'] eqn:E.
  apply (closed_keys_add_nothing req_7 demo_time (lit "j") revoked_db r d' E).
  left. exists 9%N, (row_revocation revoked_row). split; vm_compute; reflexivity.
Defined.

Lemma revoke_alone_tightens_witness :
  ∃ row', devices (run (revoke_device_handler 1 9 None (Some 3%N) demo_time) revoked_db).2 !! 9%N
    = Some row' ∧ stricter (row_revocation revoked_row) (row_revocation row').
Proof.
  destruct (run (revoke_device_handler 1 9 None (Some 3%N) demo_time) revoked_db) as [r d'] eqn:E.
  destruct (revoke_alone_tightens 1 9 None (Some 3%N) demo_time revoked_db r d' revoked_row)
    as [_ (row' & Hr & Hs & _)];
    [by intros f [= <-]|exact E|reflexivity|intros f Hf; vm_compute in Hf; by injection Hf as <-|].
  by exists row'.
Defined.

Definition revoked_service : service := mkService revoked_db ∅ [].
Lemma revocation_permanent_witness :
  ∃ row', devices (database revoked_service) !! 9%N = Some row'
    ∧ dr_device_pub row' = public key_a ∧ dr_org_id row' = 1%N
    ∧ is_revoked (row_revocation row') = true.
Proof.
  apply (revocation_permanent revoked_service revoked_service 9 revoked_row (rtc_refl _ _));
    reflexivity.
Defined.

(** A request that was answered, and an organization with a token. *)
Lemma stored_receipts_unreachable_witness :
  run (get_receipt_handler 7 1) (database one_answered) = (Err (mkHttpError 404 []), database one_answered).
Proof.
  exact (proj1 (stored_receipts_unreachable one_answered 7 1 one_answered_reachable ltac:(done))).
Defined.

Lemma admitted_tip_recorded_witness :
  ∃ d', (run (witness_handler req_7 demo_time (lit "j")) empty_db).2 = d'
    ∧ recorded (public key_a) 7 (lit "b3:seven") demo_time d'.
Proof.
  destruct (admitted_tip_recorded req_7 demo_time (lit "j") empty_db) as (reg & jws & d' & Hrun & _ & Hrec & _).
  - intros pub z row Hr. done.
  - vm_compute. discriminate.
  - constructor; [vm_compute; reflexivity|intros e He; by apply elem_of_nil in He|done|done].
  - done.
  - done.
  - intros rc. by exists (wrc_tip rc).
  - exists d'. split; [by rewrite Hrun|exact Hrec].
Defined.
