(* ===== verification/SealTheorems.v ===== *)
(** * Theorems about the seal command line: keygen, wrap, verify and unwrap *)

From S2P Require Import Prelude External Utf8 FileSystem Json Float64 Manifest ManifestCanon.
From S2P Require Import Chain Crypto Keywrap Chronicle Archive ArchiveLemmas ArchiveCorrect.
From S2P Require Import VerifyChronicle Cli CliCorrect Wrap WrapCorrect Unwrap UnwrapCorrect.
From S2P Require Import SealCorrect.

Section Theorems.
Context `{Blake3Laws} `{HexLaws} `{Base64Laws} `{Ed25519Laws} `{P256} `{AeadLaws} `{KdfLaws}
  `{HpkeLaws} `{SerdeJsonLaws} `{SerdeValue} `{BundleJson} `{ManifestJson} `{StateJson} `{IoText}
  `{SeededRng} `{Rfc3339} `{ReportJson}.

(** C1. From [seal wrap] to [seal unwrap], on the file system: a successful [wrap] into a new
    directory, of an input of at most 2^32 - 1 chunks and with a manifest that serde reads back,
    leaves an archive that either all of the tool accepts or none of it.  The archive is good
    when its manifest is valid, for which a known profile, a positive chunk size, no empty
    or zero metadata flag and a well-formed chronicle link are enough.  If it is good,
    [verify] with the device's key exits with 0 (when it can deliver its report) and [unwrap]
    writes a file with exactly the input's bytes, for the device's own key bundle, for the
    bundle of every recipient, and for any bundle when the archive is sign-only; if it is not,
    [verify] exits with 11 and [unwrap] fails. *)
Theorem wrap_verify_unwrap_roundtrip (a : WrapCmd) (env : WrapEnv) (s s' : fs) (res : WrapResult)
    (b b' : DeviceBundle) (data j : bytes) (vargs : VerifyCmd) (ms : N) (uargs : UnwrapCmd)
    (pw : option bytes) (pid : N) :
  wrap_run a env s s' res b data j → rfc3339_nonempty →
  delivers vargs s' → vc_archive vargs = wc_output a →
  normalize_device_pub (vc_device_pub vargs) = public (signing b) →
  uc_archive uargs = wc_output a →
  (∀ e, uc_device_pub uargs = Some e → normalize_device_pub e = public (signing b)) →
  load_bundle (uc_device_key uargs) (uc_unencrypted uargs) pw s' = Ok b' →
  (wc_sign_only a = false → ka_public_string (key_agreement b')
    ∈ ka_public_string (key_agreement b) :: wc_recipients a) →
  writable (uc_output uargs) (unwrap_tmp_path pid (uc_output uargs)) s' →
  ∃ m, manifest_to_json m = Ok j
    ∧ (flags_complete a env → valid_link (sequence m) (prev_archive_hash m) → valid_manifest m)
    ∧ (valid_manifest m →
       exit_code (handle_verify vargs ms s').1 = 0%N
       ∧ handle_unwrap uargs pw pid s'
         = (Ok tt, recovered (uc_output uargs) (unwrap_tmp_path pid (uc_output uargs)) data s'))
    ∧ (¬ valid_manifest m →
       exit_code (handle_verify vargs ms s').1 = 11%N ∧ is_ok (handle_unwrap uargs pw pid s').1 = false).
Proof.
  intros Hrun Hrfc Hd Hva Hvp Hua Hpin Hload Hrec Hw. pose proof (wr_typed _ _ _ _ _ _ _ _ Hrun) as Het.
  destruct (wrap_run_archive _ _ _ _ _ _ _ _ Hrun) as (m & sig & cs & Hwa).
  assert (∀ n, valid_manifest m ∧ n = 0%N ∨ ¬ valid_manifest m ∧ n = 11%N →
    exit_code (handle_verify vargs ms s').1 = n) as Hexit.
  { intros n Hn. apply verify_verdict; [by apply verify_delivers|]. rewrite Hva, Hvp. by eapply wrapped_verdict. }
  exists m. split_and!.
  - apply Hwa.
  - by eapply wrapped_flags_valid.
  - intros Hv. split; [by apply Hexit; left|by eapply wrapped_unwraps].
  - intros Hv. split; [by apply Hexit; right|by eapply wrapped_invalid_refused].
Qed.

(** C20. The exit codes of [seal verify]: unless its output fails, the exit code is exact, 0 for an
    intact archive signed by the given key; 11 when the signature holds and the archive is not
    intact; 10 when the signature does not hold; 12 when there is no readable manifest of a
    supported version with a signature.  The only other code is 1, and it says that the report
    could not be printed or the receipt file not written. *)
Theorem verify_exit_codes (args : VerifyCmd) (ms : N) (s : fs) (n : N) :
  let code := exit_code (handle_verify args ms s).1 in
  (code = 1%N ∧ ¬ delivers args s)
  ∨ (code ≠ 1%N
     ∧ (code = n ↔ verdict (vc_archive args) (normalize_device_pub (vc_device_pub args)) s n)).
Proof.
  cbn zeta. destruct (N.eq_dec (exit_code (handle_verify args ms s).1) 1) as [He|He].
  - left. split; [done|]. intros Hd. by apply (verify_delivers args ms s Hd).
  - right. split; [done|]. by apply verify_verdict.
Qed.

(** C19. [seal unwrap] succeeds exactly on an intact archive of a supported version that is
    signed by the key in its manifest (the pinned one, if the caller pinned one), for a key
    bundle that opens its content key, whose chunks all decrypt, into an output that can be
    written; and then the output holds the plaintexts in order and nothing else changed. *)
Theorem unwrap_accepts_exactly (args : UnwrapCmd) (pw : option bytes) (pid : N) (s s' : fs) :
  let out := uc_output args in let tmp := unwrap_tmp_path pid out in
  handle_unwrap args pw pid s = (Ok tt, s') ↔
  ∃ m cs ctx ds, unwrappable args pw s m cs ctx ∧ recover_all ctx 0 cs = Ok ds
    ∧ writable out tmp s ∧ s' = recovered out tmp (concat ds) s.
Proof. apply handle_unwrap_ok. Qed.

(** C35. [seal unwrap] is all or nothing: when it fails, every path except its own temporary
    file is as it was, and a temporary file it touched is gone. *)
Theorem unwrap_all_or_nothing (args : UnwrapCmd) (pw : option bytes) (pid : N) (s s' : fs)
    (e : CliError) :
  handle_unwrap args pw pid s = (Err e, s') →
  (s' = s ∨ s' !! unwrap_tmp_path pid (uc_output args) = None)
  ∧ ∀ q : path, q ≠ unwrap_tmp_path pid (uc_output args) → s' !! q = s !! q.
Proof.
  intros [->| ->]%handle_unwrap_err; [by split; [left|]|].
  split; [right; apply lookup_delete_eq|]. intros q Hq. by rewrite lookup_delete_ne.
Qed.

(** The read loop of [wrap] ends and its result is determined: with any positive chunk
    size there is one list of chunks, all full but the last and none empty, that concatenate
    to the input, and the loop returns it with any fuel above the input's length, however
    short the reads of the file are. *)
Theorem input_chunks_determined (size : N) (data : bytes) : (0 < size)%N →
  ∃ cs, (∀ cs', split_by size data cs' ↔ cs' = cs)
    ∧ ∀ reads fuel k, length data < fuel → read_chunks reads fuel size k data = cs.
Proof.
  intros Hs. exists (input_chunks (λ _, 1%N) size data).
  pose proof (input_chunks_split (λ _, 1%N) size data Hs) as Hsp. split.
  - intros cs'. split; [|by intros ->]. intros Hcs'. by eapply split_by_unique.
  - intros reads fuel k Hf. eapply split_by_unique; [|done]. by apply read_chunks_split.
Qed.

(** [seal keygen] never overwrites: on success neither file existed, every other file is
    kept, the public file holds the two public keys, and the secret file (at a different
    path) loads back as the generated bundle with the same passphrase. *)
Theorem keygen_roundtrip (args : KeygenCmd) (env : KeyEnv) (s s' : fs) (b : DeviceBundle) :
  kg_out_key args ≠ [] → kg_out_pub args ≠ kg_out_key args →
  length (ke_seed env) = 32 → length (ke_x_seed env) = 32 → length (ke_nonce env) = 12 →
  metadata_reads_back 2 (ke_salt env) (ke_nonce env) →
  bundle_generate (ke_seed env) (ke_x_seed env) = Ok b → bundle_reads_back b →
  handle_keygen args env s = (Ok tt, s') →
  s !! kg_out_key args = None ∧ s !! kg_out_pub args = None
  ∧ s' !! kg_out_pub args = Some (File (public_lines b))
  ∧ load_bundle (kg_out_key args) (kg_unencrypted args) (ke_passphrase env) s' = Ok b
  ∧ ∀ q c, s !! q = Some (File c) → q ≠ secure_tmp (ke_pid env) (ke_tmp_seq env) (kg_out_key args) →
      s' !! q = Some (File c).
Proof.
  intros Hne Hd Hl Hlx Hn Hm Hb Hrb Hk.
  destruct (handle_keygen_ok args env s s' tt Hne Hk) as (H1' & H2' & b0 & data & Hb0 & Hdata & Hp & Hr & Hq).
  rewrite Hb in Hb0. apply Ok_inj in Hb0 as <-. split_and!; [done..| |done].
  eapply key_file_bytes_load; [eapply bundle_generate_wf; [..|exact Hb]; done|done|done|done|done|by apply Hr].
Qed.

(** [--chunk-size 0] is accepted and makes an archive without chunks, which [verify] then
    rejects: a wrap that succeeded with size 0 is never verified with exit code 0. *)
Theorem chunk_size_zero_never_verifies (a : WrapCmd) (env : WrapEnv) (s s' : fs) (res : WrapResult)
    (j : bytes) (args : VerifyCmd) (ms : N) :
  env_typed a env → absent (wc_output a) s →
  (∀ p, wc_chronicle a = Some p → ¬ wc_output a `prefix_of` p) →
  wc_chunk_size a = 0%N → handle_wrap a env s = (Ok res, s') →
  s' !! manifest_path (wc_output a) = Some (File j) →
  (∀ m, manifest_to_json m = Ok j → manifest_from_json j = Ok m) →
  vc_archive args = wc_output a →
  wres_chunk_count res = 0 ∧ exit_code (handle_verify args ms s').1 ≠ 0%N.
Proof.
  intros Het Habs Hstate Hz Hok Hj Hback Hva.
  destruct (handle_wrap_ok a env s s' res Het Habs Hstate Hok)
    as (b & s1 & data & _ & Hwf & _ & _ & _ & Har).
  destruct Har as (cs & link & m & j0 & sig & Hcs & Hm & Hj0 & _ & Hia & ->);
    [by rewrite Hz, input_chunks_zero|].
  unfold stored_chunks in Hcs. rewrite Hz, input_chunks_zero in Hcs. apply Ok_inj in Hcs as <-.
  split; [done|]. intros Hv. apply verify_verdict in Hv; [|by rewrite Hv]. rewrite Hva in Hv.
  rewrite (ia_manifest _ _ _ _ _ Hia) in Hj. injection Hj as ->.
  inversion Hv as [m' x c d cs ((d' & Hr) & _) _ Hi| | | |]; subst.
  pose proof (archive_manifest_is _ _ _ _ _ _ _ _ Hia (Hback m Hj0) Hr) as ->.
  destruct (wrapped_signature _ _ _ _ _ _ _ Hwf Hm) as (_ & _ & _ & _ & Hsegs & _).
  by apply (vm_nonempty _ (in_valid _ _ _ _ _ Hi)).
Qed.
End Theorems.

(** ** Witnesses *)

From S2P Require Import Reference Demo.

Lemma pair_fst {A B : Type} (p : A * B) (a : A) : p.1 = a → p = (a, p.2).
Proof. destruct p. by intros <-. Qed.

(** A generic archive of eleven bytes in chunks of four, for a new device key and one more
    recipient. *)
Definition wrap_key_env : KeyEnv :=
  mkKeyEnv (demo_seed "a") (demo_seed "x") (demo_seed "s") (replicate 12 "n"%char) None None 7 0.
Definition wrap_env : WrapEnv :=
  mkWrapEnv demo_time demo_time wrap_key_env
    (mkDraws (demo_seed "k") (λ i, replicate 24 (byte_of_N (N.of_nat i))) (λ _, demo_seed "h"))
    4096 (λ k, if Nat.even k then 3%N else 2%N).
Definition recipient_bundle : DeviceBundle := bundle_b.
Definition other_ka : bytes := ka_public_string (ka_of_secret (demo_seed "y")).
Definition wrap_cmd (size : N) : WrapCmd :=
  mkWrapCmd [lit "in"] [lit "out.seal"] (lit "generic") size None None None None None None None None
    None None None None None None None None None None None None None (lit "software") true
    [other_ka] false None None None None.
Definition wrap_fs : fs := {[ [lit "in"] := File (lit "hello world") ]}.

Definition wrap_bundle : DeviceBundle :=
  mkDeviceBundle (keypair_of (demo_seed "a")) (ka_of_secret (demo_seed "x")).
#[local] Instance wrap_bundle_json : BundleJson := λ b,
  if decide (b = to_plaintext wrap_bundle) then Ok (bundle_secrets wrap_bundle)
  else Err (lit "expected value").
#[local] Instance wrap_rng : SeededRng := λ _, env_draws wrap_env.
#[local] Instance wrap_dates : Rfc3339 := λ t _ _, Ok (Some (lit "t")).
#[local] Instance wrap_report_json : ReportJson :=
  {| report_to_json _ := Ok (lit "report"); report_to_json_pretty _ := Ok (lit "report") |}.

(** The manifest that the run writes, and serde on it. *)
Definition run_manifest (size : N) : TrstManifest :=
  let a := wrap_cmd size in
  let cs := unwrap_or [] (stored_chunks a wrap_env wrap_bundle (lit "hello world")) in
  let id := unwrap_or [] (pub_key_to_device_id (public (signing wrap_bundle))) in
  let md := unwrap_or (Generic (mkGenericMetadata [] [] None None None None []))
              (wrap_metadata a (wrap_started_at a wrap_env) (length cs)) in
  let m := frame a wrap_bundle cs None id md in
  let m := unwrap_or m (wrap_encryption a wrap_env (public (signing wrap_bundle))
             (ka_public_string (key_agreement wrap_bundle)) m) in
  set_signature (unwrap_or [] (sign_wrapped (lit "software") wrap_bundle m)) m.
#[local] Instance run_manifest_json : ManifestJson := {|
  manifest_to_json m := if decide (m ∈ run_manifest <$> [4%N; 0%N]) then Ok (manifest_text m)
                        else Err (lit "not printed");
  manifest_from_json b :=
    ok_or (List.find (λ m, bool_decide (manifest_text m = b)) (run_manifest <$> [4%N; 0%N]))
      (lit "expected value");
|}.

Definition run_result (size : N) := handle_wrap (wrap_cmd size) wrap_env wrap_fs.
Definition run_fs (size : N) : fs := (run_result size).2.
Definition run_res (size : N) : WrapResult := unwrap_or (mkWrapResult [] [] 0) (run_result size).1.
Definition run_text (size : N) : bytes := manifest_text (run_manifest size).

Lemma run_ok size : size = 4%N ∨ size = 0%N →
  handle_wrap (wrap_cmd size) wrap_env wrap_fs = (Ok (run_res size), run_fs size)
  ∧ run_fs size !! manifest_path [lit "out.seal"] = Some (File (run_text size)).
Proof.
  intros Hs. assert ((run_result size).1 = Ok (run_res size)) as Hr
    by (destruct Hs as [->| ->]; vm_compute; reflexivity).
  split.
  - by apply pair_fst.
  - destruct Hs as [->| ->]; vm_compute; reflexivity.
Qed.

Lemma run_reads_back size : size = 4%N ∨ size = 0%N →
  ∀ m, manifest_to_json m = Ok (run_text size) →
  manifest_from_json (run_text size) = Ok m ∧ m = run_manifest size.
Proof.
  intros Hs m Hm. unfold manifest_to_json, run_manifest_json in Hm. case_decide as Hin; [|done]. apply Ok_inj in Hm.
  assert (m = run_manifest size) as ->.
  { apply list_elem_of_fmap in Hin as (n & -> & Hn).
    assert (n = 4%N ∨ n = 0%N) as Hn' by (clear -Hn; set_solver).
    destruct Hs as [->| ->], Hn' as [->| ->]; [reflexivity|exfalso..|reflexivity].
    all: apply (f_equal length) in Hm; vm_compute in Hm; discriminate Hm. }
  split; [|done]. destruct Hs as [->| ->]; vm_compute; reflexivity.
Qed.

Lemma wrap_env_typed size : env_typed (wrap_cmd size) wrap_env.
Proof. constructor; [reflexivity..|]. intros i. exact (length_replicate 24 _). Qed.

Lemma wrap_fs_absent : absent [lit "out.seal"] wrap_fs.
Proof. intros q. unfold wrap_fs. rewrite lookup_singleton_ne; [done|discriminate]. Qed.

Lemma demo_run :
  wrap_run (wrap_cmd 4) wrap_env wrap_fs (run_fs 4) (run_res 4) wrap_bundle (lit "hello world") (run_text 4).
Proof.
  constructor; [apply wrap_env_typed|apply wrap_fs_absent|done| | | | |].
  - exists (load_or_generate_bundle None true wrap_key_env wrap_fs).2.
    split; [|vm_compute; reflexivity].
    apply pair_fst. vm_compute. reflexivity.
  - vm_compute. discriminate.
  - apply run_ok. by left.
  - apply run_ok. by left.
  - intros m Hm. apply (run_reads_back 4 (or_introl eq_refl) m Hm).
Qed.
Lemma demo_flags : flags_complete (wrap_cmd 4) wrap_env.
Proof.
  constructor; [|done|done|done|done|done]. match goal with |- ?P => apply (bool_decide_unpack P) end.
  vm_compute. exact I.
Qed.

Definition demo_verify : VerifyCmd :=
  mkVerifyCmd [lit "out.seal"] (public (signing wrap_bundle)) true None.
Definition demo_unwrap : UnwrapCmd :=
  mkUnwrapCmd [lit "out.seal"] [lit "device.key"] [lit "back"]
    (Some (public (signing wrap_bundle))) true.

Lemma demo_delivers : delivers demo_verify (run_fs 4).
Proof. split; [|done]. intros _ r. by eexists. Qed.
Lemma demo_writable : writable [lit "back"] (unwrap_tmp_path 7 [lit "back"]) (run_fs 4).
Proof. split_and!; [vm_compute; reflexivity|vm_compute; discriminate..]. Qed.

(** The device unwraps its own archive. *)
Lemma wrap_verify_unwrap_roundtrip_witness :
  exit_code (handle_verify demo_verify 5 (run_fs 4)).1 = 0%N
  ∧ handle_unwrap demo_unwrap None 7 (run_fs 4)
    = (Ok tt, recovered [lit "back"] (unwrap_tmp_path 7 [lit "back"]) (lit "hello world") (run_fs 4)).
Proof.
  destruct (wrap_verify_unwrap_roundtrip _ _ _ _ _ _ wrap_bundle _ _ demo_verify 5 demo_unwrap None 7
    demo_run ltac:(by intros t x y r [= <-]) demo_delivers eq_refl eq_refl eq_refl) as (m & Hm & Hv & Hgood & _).
  - intros e [= <-]. reflexivity.
  - vm_compute. reflexivity.
  - intros _. left.
  - exact demo_writable.
  - apply Hgood, Hv; [exact demo_flags|].
    destruct (run_reads_back 4 (or_introl eq_refl) m Hm) as [_ ->]. exact I.
Defined.

Lemma unwrap_accepts_exactly_witness :
  ∃ m cs ctx ds, unwrappable demo_unwrap None (run_fs 4) m cs ctx ∧ recover_all ctx 0 cs = Ok ds.
Proof.
  destruct (proj1 (unwrap_accepts_exactly demo_unwrap None 7 (run_fs 4)
    (handle_unwrap demo_unwrap None 7 (run_fs 4)).2)) as (m & cs & ctx & ds & Hu & Hr & _).
  - apply pair_fst. vm_compute. reflexivity.
  - by exists m, cs, ctx, ds.
Defined.

Lemma verify_exit_codes_witness :
  verdict [lit "nowhere.seal"] (public key_a) (run_fs 4) 12.
Proof.
  destruct (verify_exit_codes (mkVerifyCmd [lit "nowhere.seal"] (public key_a) false None) 5 (run_fs 4) 12)
    as [[_ Hn]|[_ Hv]].
  - exfalso. apply Hn. split; [discriminate|]. intros p Hp. discriminate Hp.
  - apply Hv. vm_compute. reflexivity.
Defined.

Lemma unwrap_all_or_nothing_witness :
  (handle_unwrap (mkUnwrapCmd [lit "out.seal"] [lit "device.key"] [lit "back"]
     (Some (public key_b)) true) None 7 (run_fs 4)).2 !! [lit "back"] = run_fs 4 !! [lit "back"].
Proof.
  refine (proj2 (unwrap_all_or_nothing (mkUnwrapCmd [lit "out.seal"] [lit "device.key"]
    [lit "back"] (Some (public key_b)) true) None 7 (run_fs 4) _
    (CliExit 10 (lit "Signer mismatch: expected " ++ public key_b
      ++ lit ", archive is signed by " ++ public key_a)) _) [lit "back"] _).
  - apply pair_fst. vm_compute. reflexivity.
  - vm_compute. discriminate.
Defined.

Lemma input_chunks_determined_witness :
  ∃ cs, (∀ cs', split_by 4 (lit "hello world") cs' ↔ cs' = cs)
    ∧ ∀ reads fuel k, 11 < fuel → read_chunks reads fuel 4 k (lit "hello world") = cs.
Proof. apply (input_chunks_determined 4 (lit "hello world")). reflexivity. Defined.

Definition demo_keygen : KeygenCmd := mkKeygenCmd [lit "k"] [lit "k.pub"] true.
Definition keygen_fs : fs := (handle_keygen demo_keygen wrap_key_env wrap_fs).2.
#[local] Instance keygen_value : SerdeValue := λ b,
  if decide (b = jprint (key_metadata 2 (demo_seed "s") (replicate 12 "n"%char) PBKDF2_MIN_ITERATIONS))
  then Ok (metadata_value 2 (demo_seed "s") (replicate 12 "n"%char) PBKDF2_MIN_ITERATIONS)
  else Err (lit "expected value").

Lemma keygen_line_reads_back : metadata_reads_back 2 (demo_seed "s") (replicate 12 "n"%char).
Proof.
  (split; [split|]); try (vm_compute; reflexivity);
    match goal with |- ?P => apply (bool_decide_unpack P) end; vm_compute; exact I.
Qed.
Lemma keygen_ok : handle_keygen demo_keygen wrap_key_env wrap_fs = (Ok tt, keygen_fs).
Proof. apply pair_fst. vm_compute. reflexivity. Qed.

Lemma keygen_roundtrip_witness :
  load_bundle [lit "k"] true None keygen_fs = Ok wrap_bundle.
Proof.
  refine (proj1 (proj2 (proj2 (proj2 (keygen_roundtrip demo_keygen wrap_key_env wrap_fs keygen_fs
    wrap_bundle _ _ eq_refl eq_refl eq_refl keygen_line_reads_back eq_refl _ keygen_ok)))));
    [discriminate|vm_compute; discriminate|vm_compute; reflexivity].
Defined.

Lemma chunk_size_zero_never_verifies_witness :
  wres_chunk_count (run_res 0) = 0 ∧ exit_code (handle_verify demo_verify 5 (run_fs 0)).1 ≠ 0%N.
Proof.
  refine (chunk_size_zero_never_verifies (wrap_cmd 0) wrap_env wrap_fs (run_fs 0) (run_res 0) (run_text 0)
    demo_verify 5 (wrap_env_typed 0) wrap_fs_absent _ eq_refl (proj1 (run_ok 0 (or_intror eq_refl)))
    (proj2 (run_ok 0 (or_intror eq_refl)))
    (λ m Hm, proj1 (run_reads_back 0 (or_intror eq_refl) m Hm)) eq_refl).
  discriminate.
Defined.
