(* ===== verification/CommandTheorems.v ===== *)
(** * Theorems about the other seal commands and the platform's verify engine *)

From S2P Require Import Prelude External Utf8 FileSystem Json Float64 Manifest ManifestCanon.
From S2P Require Import Chain Crypto Keywrap Chronicle Attestation Archive ArchiveLemmas.
From S2P Require Import ArchiveCorrect VerifyChronicle VerifyChronicleCorrect Cli CliCorrect.
From S2P Require Import Wrap WrapCorrect Unwrap UnwrapCorrect VerifyEngine VerifyEngineCorrect.
From S2P Require Import Commands CommandsCorrect Witness.

Section Theorems.
Context `{Blake3Laws} `{HexLaws} `{Base64Laws} `{Ed25519Laws} `{P256} `{AeadLaws} `{KdfLaws}
  `{HpkeLaws} `{SerdeJsonLaws} `{SerdeValue} `{BundleJson} `{ManifestJson} `{StateJson}
  `{RotationJson} `{IoText} `{RequestJson} `{ManifestValue} `{AttestationJson} `{ReportJson}.

(** C22. [seal rekey] continues the chronicle: from a state file at the last entry of a
    chronicle that verifies, the entry it writes reads back, is linked to the last one, hands
    the active identity over to the new key with the next epoch, and the state file moves to
    it.  The archives of the chronicle, if apart from the written files, stay intact. *)
Theorem rekey_continues_chronicle (a : RekeyCmd) (op np : option bytes) (ra ua : bytes) (s s' : fs)
    (st : ChronicleState) (g : bytes) (es : list Entry) (e : Entry) (n : nat) :
  handle_rekey a op np ra ua s = (Ok tt, s') → rekey_layout a s →
  load (rk_chronicle a) s = Ok st → state_at st e →
  well_linked es → last es = Some e → active s g es (cs_device_pub st) (cs_key_epoch st) n →
  (∀ x m, x ∈ es → e_kind x = EArchive m → entry_apart a s x) →
  (cs_key_epoch st < u32_max)%N → (cs_sequence st < u64_max)%N →
  (∀ r j, rotation_to_json r = Ok j → rotation_from_json (j ++ [newline]) = Ok r) →
  (∀ x j, state_to_json x = Ok j → state_from_json j = Ok x) →
  ∃ e' st', read_entry s' (rk_out a) = Ok e' ∧ well_linked (es ++ [e'])
    ∧ load (rk_chronicle a) s' = Ok st' ∧ state_at st' e'
    ∧ active s' g (es ++ [e']) (cs_device_pub st') (cs_key_epoch st') (S n)
    ∧ cs_device_pub st' ≠ cs_device_pub st.
Proof.
  intros Hh Hlay Hst [Hq Ht] Hl He Ha Hap Hep Hsq Hrj Hsj.
  destruct (handle_rekey_ok _ _ _ _ _ _ _ Hh) as (st0 & old & new & ? & ? & ? & ? & Hck & _).
  destruct (rekey_checks_ok _ _ _ _ _ _ _ Hck) as (Hst0 & _ & _ & Hpub & Hdiff & _).
  rewrite Hst in Hst0. apply Ok_inj in Hst0 as <-.
  destruct (rekey_entry a op np ra ua s s' st old new) as (r & Hr & Hn & Hne & Hread & Hload & Hsame);
    [done..|].
  eexists _, _. split_and!; [exact Hread| |exact Hload|done| |by cbn; congruence].
  - apply (well_linked_extend es e); [done|done| |]; cbn [e_seq e_prev]; by rewrite ?Hq, ?Ht.
  - cbn [cs_device_pub cs_key_epoch]. rewrite <-Hne, <-Hn.
    eapply active_rotation; [|done|done]. eapply active_frame; [|done]. eauto.
Qed.

(** The platform's verify engine passes a posted manifest exactly when it parses, is of
    the supported version, claims the given key and is signed by it, its continuity hashes
    are the chain over its chunk hashes from the genesis value, and the submitted segments
    are its segments, in any order. *)
Theorem report_passes_exactly v client pub :
  (∃ r, verify_to_report v client pub = Ok r ∧ both_passed r = true) ↔
  ∃ m hs, manifest_from_value v = Ok m ∧ manifest_signed m pub ∧ continuity_ok m client hs.
Proof. apply verify_to_report_passes. Qed.

(** What a passing report says about the files: the platform never sees a chunk, and yet
    it passes the request that [emit-request] makes of an archive exactly when the manifest
    is signed by the submitted key and its chain is the chain over the chunk files on disk;
    the tip in the report is then the tip of the chain over these files. *)
Theorem emitted_report_binds_files (a : EmitRequestCmd) (s : fs) (req : VerifyRequest)
    (m : TrstManifest) (detached : bytes) :
  emit_request a s = Ok req → read_manifest (em_archive a) s = Ok (m, detached) →
  (N.of_nat (length (segments m)) ≤ u32_max)%N → manifest_from_value (vq_manifest req) = Ok m →
  ∃ cs, length cs = length (segments m)
    ∧ (∀ i c, cs !! i = Some c → stored_at (em_archive a) s i c)
    ∧ ((∃ r, verify_to_report (vq_manifest req) (vq_segments req) (vq_device_pub req) = Ok r
          ∧ both_passed r = true) ↔
       manifest_signed m (vq_device_pub req) ∧ continuity_ok m (emitted cs) (blake3 <$> cs))
    ∧ ∀ r, verify_to_report (vq_manifest req) (vq_segments req) (vq_device_pub req) = Ok r →
        both_passed r = true →
        vm_chain_tip (report_metadata r) = format_b3 (chain_tip genesis (blake3 <$> cs)).
Proof.
  intros He Hm Hlen Hv. destruct (emit_request_ok a s req m detached He Hm Hlen)
    as (cs & Hs & Hl & Hst & _). exists cs. rewrite Hs.
  assert (∀ r, verify_to_report (vq_manifest req) (emitted cs) (vq_device_pub req) = Ok r →
    both_passed r = true → manifest_signed m (vq_device_pub req)
      ∧ continuity_ok m (emitted cs) (blake3 <$> cs)) as Hpass.
  { intros r Hr Hp. destruct (proj1 (verify_to_report_passes _ _ _)
      (ex_intro _ r (conj Hr Hp))) as (m' & hs & Hv' & Hsg & Hc).
    rewrite Hv in Hv'. apply Ok_inj in Hv' as <-. split; [done|].
    by rewrite <-(emitted_continuity m cs hs Hl Hc). }
  split_and!; [done|done| |].
  - split; [intros (r & Hr & Hp); eauto|]. intros [Hsg Hc]. apply verify_to_report_passes. eauto.
  - intros r Hr Hp. eapply verify_to_report_tip; [done|done|]. by eapply Hpass.
Qed.

(** C17. The tool and the platform agree: an archive that [seal verify] passes with exit code
    0 under the key its manifest claims passes the platform's engine when it is submitted
    with [emit-request] under that key, and the report's tip is the chain over its chunks.
    The archive has fewer than 2^32 segments, and serde reads its manifest back from the JSON
    value it makes of it. *)
Theorem verified_archive_passes_platform (vargs : VerifyCmd) (ms : N) (a : EmitRequestCmd) (s : fs)
    (req : VerifyRequest) (m : TrstManifest) (detached : bytes) :
  exit_code (handle_verify vargs ms s).1 = 0%N → em_archive a = vc_archive vargs →
  emit_request a s = Ok req → vq_device_pub req = normalize_device_pub (vc_device_pub vargs) →
  read_manifest (em_archive a) s = Ok (m, detached) → dev_public_key (device m) = vq_device_pub req →
  (N.of_nat (length (segments m)) ≤ u32_max)%N →
  (∀ v, manifest_to_value m = Ok v → manifest_from_value v = Ok m) →
  ∃ cs r, intact (vc_archive vargs) s m detached cs
    ∧ verify_to_report (vq_manifest req) (vq_segments req) (vq_device_pub req) = Ok r
    ∧ both_passed r = true
    ∧ vm_chain_tip (report_metadata r) = format_b3 (chain_tip genesis (blake3 <$> cs)).
Proof.
  intros Hex Harch He Hpub Hm Hdev Hlen Hval. apply verify_verdict in Hex; [|by rewrite Hex].
  inversion Hex as [m' sig c d cs ((d' & Hm') & Hver & Hsig & Hc) Hsg Hi| | | |]; try done.
  rewrite <-Harch, Hm in Hm'. apply Ok_inj in Hm'. injection Hm' as <- <-.
  pose proof (in_manifest _ _ _ _ _ Hi) as Hm''. rewrite <-Harch, Hm in Hm''.
  apply Ok_inj in Hm''. injection Hm'' as <-.
  destruct (emit_request_ok a s req m detached He Hm Hlen) as (cs' & Hs & Hl & Hst & Hv%Hval).
  rewrite Harch in Hst. rewrite (stored_intact _ _ _ _ _ _ Hi Hl Hst) in *.
  pose proof (intact_continuity _ _ _ _ _ Hi) as Hcont. rewrite Hs.
  assert (manifest_signed m (vq_device_pub req)) as Hsgn.
  { split_and!; [done|done|]. exists sig, c. rewrite Hpub. split_and!; [done|done|].
    by apply verify_manifest_ok. }
  destruct (proj2 (verify_to_report_passes (vq_manifest req) (emitted cs) (vq_device_pub req)))
    as (r & Hr & Hp); [by eauto|].
  exists cs, r. split_and!; [done..|]. by eapply verify_to_report_tip.
Qed.

(** [seal verify-attestation] accepts exactly a document that is signed, over everything
    but the signature, by the given key, and whose hashes are those of the given files. *)
Theorem verify_attestation_accepts_exactly (a : VerifyAttestationCmd) (s : fs) :
  handle_verify_attestation a s = Ok tt ↔ ∃ att pub, attestation_accepted a s att pub.
Proof. apply verify_attestation_ok. Qed.

(** An attestation binds its two files: what [attest-sbom] writes is accepted by
    [verify-attestation] under the key that signed it, and a document that is accepted for
    two pairs of files, at any two times, was accepted for the same contents or BLAKE3
    collides. *)
Theorem attestation_binds_files (a : AttestSbomCmd) (pw : option bytes) (version now nonce : bytes)
    (dl : N) (s s' : fs) (kp : DeviceKeypair) (va vb : VerifyAttestationCmd) (p q p' q' : path)
    (sa sb : fs) (att : PointAttestation) (pub pub' : bytes) :
  (∀ x j, attestation_to_json x = Ok j → attestation_from_json j = Ok x ∧ utf8_valid j = true) →
  (handle_attest_sbom a pw version now nonce dl s = (Ok tt, s') →
   load_signing_keypair (as_device_key a) (as_unencrypted a) pw s = Ok kp →
   let out := default [lit "attestation.se-attestation.json"] (as_out a) in
   out ≠ as_binary a → out ≠ as_sbom a →
   va = mkVerifyAttestationCmd out (public kp) [] (Some (as_binary a)) (Some (as_sbom a)) →
   handle_verify_attestation va s' = Ok tt)
  ∧ (va_binary va = Some p → va_sbom va = Some q → va_binary vb = Some p' → va_sbom vb = Some q' →
     attestation_accepted va sa att pub → attestation_accepted vb sb att pub' →
     (read_file p sa = read_file p' sb ∧ read_file q sa = read_file q' sb) ∨ Collision).
Proof.
  intros Hjson. split.
  - intros Hh Hkp out Hnb Hns ->. apply verify_attestation_ok. by eapply attest_sbom_accepted.
  - intros Hp Hq Hp' Hq' [_ _ _ Hb Hs] [_ _ _ Hb' Hs'].
    apply (attests_binds att p q p' q'); constructor; auto.
Qed.
End Theorems.

(** ** Witnesses *)

From S2P Require Import Reference Demo CommandDemo.

Lemma rk_apart x m : x ∈ [rk_entry] → e_kind x = EArchive m → entry_apart rk_cmd rk_fs x.
Proof.
  intros Hx _. apply list_elem_of_singleton in Hx as ->. constructor.
  - vm_compute. discriminate.
  - vm_compute. reflexivity.
  - intros [q Hq]. vm_compute in Hq. discriminate Hq.
  - intros [q Hq]. vm_compute in Hq. discriminate Hq.
Qed.

Lemma rekey_continues_chronicle_witness :
  ∃ e' st', read_entry rk_after dir_1 = Ok e' ∧ well_linked ([rk_entry] ++ [e'])
    ∧ load [lit "state"] rk_after = Ok st' ∧ state_at st' e'
    ∧ active rk_after (public key_a) ([rk_entry] ++ [e']) (cs_device_pub st') (cs_key_epoch st') 1
    ∧ cs_device_pub st' ≠ public key_a.
Proof.
  refine (rekey_continues_chronicle rk_cmd None None demo_time demo_time rk_fs rk_after demo_state
    (public key_a) [rk_entry] rk_entry 0 rk_done rk_layout _ _ rk_linked eq_refl rk_active rk_apart
    _ _ rk_rotation_reads_back rk_state_reads_back).
  - vm_compute. reflexivity.
  - split; vm_compute; reflexivity.
  - vm_compute. reflexivity.
  - vm_compute. reflexivity.
Defined.

(** The first archive, verified and submitted. *)
Definition rk_emit : EmitRequestCmd := mkEmitRequestCmd dir_0 [lit "pub"] [lit "req.json"] None.
Definition rk_request : VerifyRequest :=
  unwrap_or (mkVerifyRequest [] VNull [] (mkVerifyOptions false None)) (emit_request rk_emit rk_fs).

Lemma rk_emitted : emit_request rk_emit rk_fs = Ok rk_request.
Proof. vm_compute. reflexivity. Qed.
Lemma rk_small : (N.of_nat (length (segments manifest_0)) ≤ u32_max)%N.
Proof. vm_compute. discriminate. Qed.

Lemma report_passes_exactly_witness :
  ∃ m hs, manifest_from_value (vq_manifest rk_request) = Ok m ∧ manifest_signed m (public key_a)
    ∧ continuity_ok m (vq_segments rk_request) hs.
Proof.
  apply (proj1 (report_passes_exactly (vq_manifest rk_request) (vq_segments rk_request)
    (public key_a))).
  destruct (verify_to_report (vq_manifest rk_request) (vq_segments rk_request) (public key_a))
    as [r|e] eqn:E; [exists r; split; [reflexivity|]|exfalso; vm_compute in E; discriminate E].
  assert (match verify_to_report (vq_manifest rk_request) (vq_segments rk_request) (public key_a)
    with Ok r' => both_passed r' | Err _ => false end = true) as Hp by (vm_compute; reflexivity).
  rewrite E in Hp. exact Hp.
Defined.

Lemma emitted_report_binds_files_witness :
  ∃ cs, length cs = length (segments manifest_0)
    ∧ ∀ i c, cs !! i = Some c → stored_at dir_0 rk_fs i c.
Proof.
  destruct (emitted_report_binds_files rk_emit rk_fs rk_request manifest_0 rk_detached rk_emitted
    rk_manifest rk_small) as (cs & Hl & Hst & _); [reflexivity|]. by exists cs.
Defined.

Lemma verified_archive_passes_platform_witness :
  ∃ cs r, intact dir_0 rk_fs manifest_0 rk_detached cs
    ∧ verify_to_report (vq_manifest rk_request) (vq_segments rk_request) (vq_device_pub rk_request) = Ok r
    ∧ both_passed r = true
    ∧ vm_chain_tip (report_metadata r) = format_b3 (chain_tip genesis (blake3 <$> cs)).
Proof.
  refine (verified_archive_passes_platform rk_verify 5 rk_emit rk_fs rk_request manifest_0 rk_detached
    _ eq_refl rk_emitted _ rk_manifest _ rk_small (rk_manifest_reads_back manifest_0)).
  - vm_compute. reflexivity.
  - vm_compute. reflexivity.
  - vm_compute. reflexivity.
Defined.

(** An attestation of two files. *)
Definition at_fs : fs :=
  <[[lit "bin"] := File (lit "code")]> (<[[lit "bom.json"] := File (lit "J")]> rk_fs).
Definition at_cmd : AttestSbomCmd :=
  mkAttestSbomCmd [lit "bin"] [lit "bom.json"] [lit "old.key"] (Some [lit "att.json"]) true.
Definition at_doc : PointAttestation :=
  unwrap_or (mkPointAttestation [] [] [] [] (mkArtifactRef [] [] []) (mkArtifactRef [] [] []) [] None)
    (pa_create [lit "bin"] (lit "binary") [lit "bom.json"] (lit "sbom") key_a (lit "1.0.0") demo_time
       (lit "nonce") at_fs).
Definition at_text : bytes := lit "attestation".
#[local] Instance at_json : AttestationJson := {|
  attestation_to_json a := if decide (a = at_doc) then Ok at_text else Err (lit "not printed");
  attestation_from_json b := if decide (b = at_text) then Ok at_doc else Err (lit "expected value");
|}.
Definition at_after : fs :=
  (handle_attest_sbom at_cmd None (lit "1.0.0") demo_time (lit "nonce") 4096 at_fs).2.

Lemma attestation_binds_files_witness :
  handle_verify_attestation (mkVerifyAttestationCmd [lit "att.json"] (public key_a) []
    (Some [lit "bin"]) (Some [lit "bom.json"])) at_after = Ok tt.
Proof.
  refine (proj1 (attestation_binds_files at_cmd None (lit "1.0.0") demo_time (lit "nonce") 4096 at_fs
    at_after key_a _ (mkVerifyAttestationCmd [] [] [] None None) [] [] [] [] at_fs at_fs at_doc [] [] _)
    _ _ _ _ eq_refl).
  - intros x j. unfold attestation_to_json, at_json. case_decide as Hx; [|done]. intros <-%Ok_inj.
    subst. split; vm_compute; reflexivity.
  - assert ((handle_attest_sbom at_cmd None (lit "1.0.0") demo_time (lit "nonce") 4096 at_fs).1 = Ok tt)
      as Hr by (vm_compute; reflexivity).
    unfold at_after. by rewrite <-Hr, <-surjective_pairing.
  - vm_compute. reflexivity.
  - vm_compute. discriminate.
  - vm_compute. discriminate.
Defined.

Lemma verify_attestation_accepts_exactly_witness :
  ∃ att pub, attestation_accepted (mkVerifyAttestationCmd [lit "att.json"] (public key_a) []
    (Some [lit "bin"]) (Some [lit "bom.json"])) at_after att pub.
Proof.
  apply (proj1 (verify_attestation_accepts_exactly (mkVerifyAttestationCmd [lit "att.json"]
    (public key_a) [] (Some [lit "bin"]) (Some [lit "bom.json"])) at_after)).
  vm_compute. reflexivity.
Defined.
