(* ===== verification/ServiceTheorems.v ===== *)
(** * Theorems about the platform's signing key and its receipts *)

From S2P Require Import Prelude External Utf8 FileSystem Json Float64 Manifest ManifestCanon.
From S2P Require Import Chain Crypto Keywrap Chronicle Archive VerifyChronicle Cli CliCorrect.
From S2P Require Import VerifyEngine Witness Jwks CommandsCorrect.

Section Theorems.
Context `{Blake3Laws} `{HexLaws} `{Base64Laws} `{Ed25519Laws} `{P256} `{AeadLaws} `{KdfLaws}
  `{SerdeJsonLaws} `{SerdeValue} `{StoredKeyLaws} `{IoText} `{Jwt} `{!JwtLaws}.

(** C32. From the platform's signature to the tool's check: a witness token is accepted by
    [verify-chronicle], with the claims of its receipt, against the keys that the platform
    publishes when it signed or after one rotation of its key; after two rotations no
    published key matches and the token is refused. *)
Theorem receipt_outlives_one_rotation km draws now r t j :
  NoDup (km_current_kid km :: (fresh_kid ∘ snd <$> draws)) →
  sign_witness_token km now r = Ok t →
  value_from_str j = Ok (to_jwks (rotate_all km draws)) →
  verify_witness_receipt_jws t j
  = if decide (length draws ≤ 1) then Ok (receipt_facts r) else Err no_key.
Proof.
  intros Hnd Ht Hj. destruct (witness_token_verifies _ _ _ _ _ _ Ht Hj) as [Hok Herr].
  rewrite (published_rotate_all _ _ Hnd) in Hok, Herr. case_decide; auto.
Qed.

(** The signing key survives a restart and the previous key does not: after the platform
    generated its key, or rotated it, the next start loads the key and the identifier it
    signs with, publishes nothing else, and leaves the files alone. *)
Theorem signing_key_restart (km : KeyManager) (env env' : JwksEnv) (s s' : fs) :
  km_key_path km ≠ [] → km_key_path km ≠ jwks_path km →
  length (km_current_key km) = 32 → length (je_nonce env) = 12 →
  metadata_reads_back 1 (je_salt env) (je_nonce env) →
  generate_new (km_key_path km) (km_passphrase km) env s = (Ok km, s')
  ∨ (∃ km0, rotate_key km0 env s = (Ok tt, s')
      ∧ km = rotated km0 (je_seed env) (fresh_kid (je_uuid env))) →
  open_or_generate (km_key_path km) (km_passphrase km) env' s' = (Ok (restarted km), s').
Proof.
  intros Hp Hne Hl Hn Hm Hrun.
  assert (∃ s1, save_to_file km env s = (Ok tt, s1) ∧ write_jwks_file km s1 = (Ok tt, s'))
    as (s1 & Hs & Hw).
  { destruct Hrun as [Hg|(km0 & Hr & ->)].
    - unfold generate_new in Hg. apply io_bind_ok in Hg as ([] & s1 & Hs & Hg).
      apply io_bind_ok in Hg as ([] & s2 & Hw & [-> ->]%io_ret_ok). eauto.
    - by apply io_bind_ok in Hr as ([] & s1 & Hs & Hw); eauto. }
  destruct (save_restart km env s s1 s' tt tt) as [He Hload]; [done..|].
  unfold open_or_generate. by rewrite He, Hload.
Qed.

(** In a release build the signing key is never on disk in the clear: a save that
    succeeds wrote a sealed file, a manager without a passphrase writes nothing, and the
    platform does not start without one or without a path. *)
Theorem release_key_sealed (env : JwksEnv) (km : KeyManager) (s s' : fs) (u : unit)
    (path_var : option path) (pass_var : option bytes) (temp_dir : path) :
  je_release env = true →
  (km_key_path km ≠ [] → save_to_file km env s = (Ok u, s') →
    ∃ b, read_file (km_key_path km) s' = Ok b ∧ starts_with SEALED_SECRET_HEADER_V1 b = true)
  ∧ (km_passphrase km = None → ∃ e, save_to_file km env s = (Err e, s))
  ∧ (default [] path_var = [] ∨ default [] pass_var = [] →
      ∃ e, new_manager path_var pass_var temp_dir env s = (Err e, s)).
Proof.
  intros Hrel. split_and!.
  - intros Hp Hs. apply save_to_file_ok in Hs as (j & b & Hj & Hb & Hf & Ha); [|done].
    rewrite Hrel in Hb. exists b. split; [by apply read_file_ok|].
    destruct (km_passphrase km); [by eapply sealed_starts|by destruct Hb].
  - intros Hnone. unfold save_to_file. rewrite Hnone, Hrel. unfold mbind, io_bind, io_lift.
    destruct (stored_to_json _); eauto.
  - intros Hun. unfold new_manager, mbind, io_bind, io_lift. rewrite Hrel.
    destruct Hun as [Hun|Hun].
    + destruct path_var as [[|x p]|]; [by eexists|done|by eexists].
    + destruct (resolve_key_path _ _ _); [|by eexists].
      destruct pass_var as [[|x p]|]; [by eexists|done|by eexists].
Qed.
End Theorems.

(** ** Witnesses *)

From S2P Require Import Reference Demo.

#[local] Instance number_eq_dec : EqDecision number.
Proof. solve_decision. Defined.

Fixpoint value_eqb (v w : value) {struct v} : bool :=
  match v, w with
  | VNull, VNull => true
  | VBool a, VBool b => Bool.eqb a b
  | VNum a, VNum b => bool_decide (a = b)
  | VStr a, VStr b => bool_decide (a = b)
  | VArr a, VArr b =>
      (fix go (a b : list value) : bool :=
         match a, b with
         | [], [] => true
         | x :: a', y :: b' => value_eqb x y && go a' b'
         | _, _ => false
         end) a b
  | VObj a, VObj b =>
      (fix go (a b : list (bytes * value)) : bool :=
         match a, b with
         | [], [] => true
         | (k, x) :: a', (l, y) :: b' => bool_decide (k = l) && value_eqb x y && go a' b'
         | _, _ => false
         end) a b
  | _, _ => false
  end.

Lemma value_eqb_eq : ∀ v w, value_eqb v w = true → v = w.
Proof.
  fix IH 1. intros [|a|a|a|a|a] [|b|b|b|b|b]; cbn [value_eqb]; try done.
  - by intros ->%Bool.eqb_prop.
  - by intros ->%bool_decide_eq_true.
  - by intros ->%bool_decide_eq_true.
  - intros Hab. f_equal. revert b Hab. induction a as [|x a IHa]; intros [|y b]; try done.
    intros [Hx%IH Hb%IHa]%andb_true_iff. by subst.
  - intros Hab. f_equal. revert b Hab. induction a as [|[k x] a IHa]; intros [|[l y] b]; try done.
    intros [[->%bool_decide_eq_true Hx%IH]%andb_true_iff Hb%IHa]%andb_true_iff. by subst.
Qed.

(** A platform that signed one receipt and rotated its key once, with a sealed key file. *)
Definition svc_salt : bytes := replicate 32 "s"%char.
Definition svc_nonce : bytes := replicate 12 "n"%char.
Definition svc_path : path := [lit "etc"; lit "key.json"].
Definition svc_km : KeyManager :=
  mkKeyManager svc_path (Some (lit "pass")) (secret key_p) (fresh_kid (lit "1")) None None.
Definition svc_env : JwksEnv :=
  mkJwksEnv true (secret key_p) (lit "1") demo_time svc_salt svc_nonce 7 0.
Definition svc_draws : list (bytes * bytes) := [(secret key_a, lit "2")].
Definition svc_receipt : WitnessReceipt :=
  build_receipt (public key_b) true 1 id_1 demo_time None (lit "jti").
Definition svc_payload : value :=
  VObj [(lit "iss", VStr (lit "sealedge-verify-service")); (lit "sub", VStr (public key_b));
        (lit "typ", VStr (lit "witness")); (lit "iat", vZ 5);
        (lit "witness", witness_receipt_value svc_receipt)].
Definition svc_line : bytes := jprint (key_metadata 1 svc_salt svc_nonce PBKDF2_MIN_ITERATIONS).

#[local] Instance svc_value : SerdeValue := λ b,
  if decide (b = lit "H") then Ok (VObj [(lit "kid", VStr (km_current_kid svc_km))])
  else if decide (b = lit "P") then Ok svc_payload
  else if decide (b = lit "J") then Ok (to_jwks (rotate_all svc_km svc_draws))
  else if decide (b = svc_line) then Ok (metadata_value 1 svc_salt svc_nonce PBKDF2_MIN_ITERATIONS)
  else Err (lit "expected value").

#[local] Instance svc_jwt : Jwt := λ kid payload der,
  if bool_decide (kid = km_current_kid svc_km) && value_eqb payload svc_payload then
    let input := dot_join [base64url_encode (lit "H"); base64url_encode (lit "P")] in
    Ok (dot_join [base64url_encode (lit "H"); base64url_encode (lit "P");
                  base64url_encode (ed_sign (drop 16 der) input)])
  else Err (lit "not this one").

#[local] Instance svc_jwt_laws : JwtLaws.
Proof.
  split. intros kid payload seed t Ht. unfold jwt_encode, svc_jwt in Ht.
  destruct (_ && _) eqn:E; [|done]. apply andb_true_iff in E as [->%bool_decide_eq_true Hp].
  apply value_eqb_eq in Hp as ->. apply Ok_inj in Ht as <-.
  exists (lit "H"), (VObj [(lit "kid", VStr (km_current_kid svc_km))]), (lit "P").
  unfold ed25519_pkcs8_der. rewrite drop_app_length' by done. by split_and!.
Qed.

(** The JSON text of a stored key; each part escapes the quote. *)
Definition stored_text (k : StoredKey) : bytes :=
  jprint (JObj [(lit "kid", JStr (sk_kid k)); (lit "private_key", JStr (sk_private_key k));
                (lit "created_at", JStr (sk_created_at k))]).
Definition svc_stored : StoredKey :=
  mkStoredKey (km_current_kid svc_km) (base64_encode (km_current_key svc_km)) demo_time.
#[local] Instance svc_stored_json : StoredKeyJson := {|
  stored_to_json k :=
    if bool_decide (stored_text k = stored_text svc_stored) then Ok (stored_text svc_stored)
    else Err (lit "not this one");
  stored_from_json b :=
    if bool_decide (b = stored_text svc_stored) then Ok svc_stored else Err (lit "expected value");
  value_to_json_pretty _ := Ok (lit "J");
|}.

#[local] Instance svc_stored_laws : StoredKeyLaws.
Proof.
  split; intros k j; unfold stored_to_json, svc_stored_json; case_bool_decide as Hk; try done;
    intros <-%Ok_inj; [|done].
  unfold stored_from_json. rewrite bool_decide_eq_true_2 by done. f_equal.
  unfold stored_text in Hk. apply jprint_inj in Hk; [|done..]. destruct k as [a b c].
  apply JObj_inj in Hk. by injection Hk as -> -> ->.
Qed.

Definition svc_token : bytes :=
  match sign_witness_token svc_km 5 svc_receipt with Ok t => t | Err _ => [] end.

Lemma receipt_outlives_one_rotation_witness :
  verify_witness_receipt_jws svc_token (lit "J") = Ok (receipt_facts svc_receipt).
Proof.
  refine (receipt_outlives_one_rotation svc_km svc_draws 5 svc_receipt svc_token (lit "J") _ _ _).
  - apply (bool_decide_unpack _). vm_compute. exact I.
  - vm_compute. reflexivity.
  - reflexivity.
Defined.

Definition svc_fs : fs := (generate_new svc_path (Some (lit "pass")) svc_env ∅).2.

Lemma signing_key_restart_witness :
  open_or_generate svc_path (Some (lit "pass")) svc_env svc_fs = (Ok svc_km, svc_fs).
Proof.
  refine (signing_key_restart svc_km svc_env svc_env ∅ svc_fs _ _ _ _ _ _); [done|done|done|done| |].
  - split; [split|]; try (vm_compute; reflexivity);
      match goal with |- ?P => apply (bool_decide_unpack P) end; vm_compute; exact I.
  - left. unfold svc_fs.
    assert ((generate_new svc_path (Some (lit "pass")) svc_env ∅).1 = Ok svc_km) as Hrun
      by (vm_compute; reflexivity).
    cbn [svc_km km_key_path km_passphrase] in *. by rewrite <-Hrun, <-surjective_pairing.
Defined.

Definition svc_saved : fs := (save_to_file svc_km svc_env ∅).2.

Lemma release_key_sealed_witness :
  ∃ b, read_file svc_path svc_saved = Ok b ∧ starts_with SEALED_SECRET_HEADER_V1 b = true.
Proof.
  refine (proj1 (release_key_sealed svc_env svc_km ∅ svc_saved tt None None [] eq_refl) _ _); [done|].
  assert ((save_to_file svc_km svc_env ∅).1 = Ok tt) as Hrun by (vm_compute; reflexivity).
  by rewrite <-Hrun, <-surjective_pairing.
Defined.
