(* ===== verification/PlatformServer.v ===== *)
(** * Starting the platform

    serve and migrate of crates/platform-server/src/main.rs in the postgres build: the
    configuration, the signing key, the database, the router and the listener, in this order.
    What a start leaves behind, and what a restart finds.  Tracing and the requests themselves
    are not part of it. *)

From S2P Require Import Prelude External Utf8 FileSystem Json Float64 Manifest ManifestCanon.
From S2P Require Import Chain Crypto Keywrap Chronicle Archive VerifyChronicle Cli CliCorrect.
From S2P Require Import VerifyEngine Witness Addresses RateLimit Jwks CommandsCorrect ServiceTheorems.

(** The database and the network of the host: sqlx and tokio *)
Record Host := mkHost {
  pg_connect : bytes → result bytes unit;
  pg_migrate : bytes → result bytes unit;
  tcp_bind : bytes → result bytes unit;
}.

Inductive StartError := Failed (e : bytes) | StartPanics.

(** What the variables of the environment and the machine contribute; the variables with paths
    are taken apart. *)
Record ServeEnv := mkServeEnv {
  sv_vars : gmap bytes bytes;
  sv_key_path : option path; (* JWKS_KEY_PATH *)
  sv_passphrase : option bytes; (* JWKS_KEY_PASSPHRASE *)
  sv_temp_dir : path;
}.

Record AppState := mkAppState {
  as_db_pool : bytes; (* the database the pool is connected to *)
  as_keys : KeyManager;
  as_receipt_ttl_secs : N; (* u64 *)
}.

Section PlatformServer.
Context `{Blake3} `{Hex} `{Base64} `{Ed25519} `{Aead} `{Kdf} `{SerdeJson} `{SerdeValue}
  `{StoredKeyJson} `{IoText} `{Networks} `{HeaderValues} `{Governor}.

(** The router, by what it decides about requests *)
Record Router := mkRouter {
  ro_state : AppState;
  ro_rate_limit : RateLimitState;
  ro_origins : list bytes;
}.
Definition create_router (env : ServeEnv) (st : AppState) : result StartError Router :=
  match router_rate_limit (sv_vars env) with
  | None => Err StartPanics
  | Some rl => Ok (mkRouter st rl (cors_allowed_origins (sv_vars env)))
  end.

(** [serve] until it listens: the router and the address. *)
Definition serve (h : Host) (env : ServeEnv) (je : JwksEnv) : io StartError (Router * bytes) :=
  io_lift (map_err Failed (from_env (negb (je_release je)) (sv_vars env))) ≫= λ config,
  io_map_err Failed (new_manager (sv_key_path env) (sv_passphrase env) (sv_temp_dir env) je) ≫= λ keys,
  io_lift (map_err Failed (pg_connect h (database_url config))) ≫= λ _,
  io_lift (create_router env (mkAppState (database_url config) keys (receipt_ttl_secs config))) ≫= λ router,
  let address := lit "0.0.0.0:" ++ fmt_N (port config) in
  io_lift (map_err Failed (tcp_bind h address)) ≫= λ _,
  mret (router, address).

Definition migrate (h : Host) (env : ServeEnv) (release : bool) : result StartError unit :=
  map_err Failed (
    config ← from_env (negb release) (sv_vars env);
    pg_connect h (database_url config) ≫= λ _,
    pg_migrate h (database_url config)).
End PlatformServer.

Section Theorems.
Context `{Blake3Laws} `{HexLaws} `{Base64Laws} `{Ed25519Laws} `{P256} `{AeadLaws} `{KdfLaws}
  `{SerdeJsonLaws} `{SerdeValue} `{StoredKeyLaws} `{IoText} `{Jwt} `{!JwtLaws}
  `{Networks} `{HeaderValues} `{Governor}.

(** The random draws of a start are usable, and the key file is not the published one. *)
Record wf_start (env : ServeEnv) (je : JwksEnv) : Prop := {
  ws_seed : length (je_seed je) = 32;
  ws_nonce : length (je_nonce je) = 12;
  ws_metadata : metadata_reads_back 1 (je_salt je) (je_nonce je);
  ws_path p : resolve_key_path (je_release je) (sv_key_path env) (sv_temp_dir env) = Ok p →
    p ≠ [] ∧ last p ≠ Some (lit "jwks.json");
}.

(** A key manager that was opened is opened again, as it is and without a write. *)
Lemma new_manager_again (env : ServeEnv) (je je' : JwksEnv) (s s1 : fs) (km : KeyManager) :
  wf_start env je → je_release je' = je_release je →
  new_manager (sv_key_path env) (sv_passphrase env) (sv_temp_dir env) je s = (Ok km, s1) →
  new_manager (sv_key_path env) (sv_passphrase env) (sv_temp_dir env) je' s1 = (Ok km, s1)
  ∧ (s1 ≠ s → km_current_key km = je_seed je).
Proof.
  intros [Hseed Hn Hm Hp] Hrel Hnew. unfold new_manager in *. rewrite Hrel.
  apply io_bind_ok in Hnew as (p & ? & [Ep ->]%io_lift_ok & Hnew).
  apply io_bind_ok in Hnew as (pass & ? & [Epass ->]%io_lift_ok & Hnew).
  destruct (Hp _ Ep) as [Hpne Hlast]. rewrite Ep, Epass. unfold mbind, io_bind, io_lift.
  unfold open_or_generate in Hnew. destruct (path_exists p s) eqn:Ex.
  - injection Hnew as Hl <-. split; [|done]. unfold open_or_generate. by rewrite Ex, Hl.
  - assert (∃ k, km = mkKeyManager p pass (je_seed je) k None None) as [k Hk].
    { unfold generate_new in Hnew. apply io_bind_ok in Hnew as (? & ? & _ & Hnew).
      apply io_bind_ok in Hnew as (? & ? & _ & [-> _]%io_ret_ok). by eexists. }
    subst km. split; [|done].
    apply (signing_key_restart (mkKeyManager p pass (je_seed je) k None None) je je' s s1);
      [done| |done|done|done|by left].
    unfold jwks_path. cbn. intros Heq. apply Hlast. by rewrite Heq, last_snoc.
Qed.

(** Restarts: once a start has come as far as its signing key, whatever then failed, every later start
    with the same configuration that succeeds serves with that key, writes nothing, and the
    tokens signed with it are accepted against the keys it publishes. *)
Theorem restart_keeps_receipts (h : Host) (env : ServeEnv) (je je' : JwksEnv) (km : KeyManager) (s s1 s2 : fs)
    (router : Router) (address : bytes) (now : Z) (r : WitnessReceipt) (t j : bytes) :
  wf_start env je → je_release je' = je_release je →
  new_manager (sv_key_path env) (sv_passphrase env) (sv_temp_dir env) je s = (Ok km, s1) →
  serve h env je' s1 = (Ok (router, address), s2) →
  sign_witness_token km now r = Ok t → value_from_str j = Ok (to_jwks (as_keys (ro_state router))) →
  as_keys (ro_state router) = km ∧ s2 = s1 ∧ verify_witness_receipt_jws t j = Ok (receipt_facts r).
Proof.
  intros Hw Hrel Hnew Hserve Ht Hj.
  destruct (new_manager_again _ _ _ _ _ _ Hw Hrel Hnew) as [Hagain _]. unfold serve in Hserve.
  apply io_bind_ok in Hserve as (config & ? & [_ ->]%io_lift_ok & Hserve).
  apply io_bind_ok in Hserve as (km' & ? & Hkm%io_map_err_ok & Hserve).
  rewrite Hagain in Hkm. injection Hkm as <- <-.
  apply io_bind_ok in Hserve as (? & ? & [_ ->]%io_lift_ok & Hserve).
  apply io_bind_ok in Hserve as (ro & ? & [Hro ->]%io_lift_ok & Hserve).
  apply io_bind_ok in Hserve as (? & ? & [_ ->]%io_lift_ok & [Heq ->]%io_ret_ok).
  injection Heq as -> ->. unfold create_router in Hro. destruct (router_rate_limit _) as [rl|]; [|done].
  apply Ok_inj in Hro as <-. cbn [ro_state as_keys] in *. split_and!; [done|done|].
  apply (proj1 (witness_token_verifies _ _ _ _ _ _ Ht Hj)), published_current.
Qed.

(** A start either fails before it touches a file, or leaves what opening the signing key
    leaves: the database, the router and the listener come after it. *)
Theorem failed_start_files (h : Host) (env : ServeEnv) (je : JwksEnv) (s : fs) :
  let '(km, s1) := new_manager (sv_key_path env) (sv_passphrase env) (sv_temp_dir env) je s in
  (∃ e, serve h env je s = (Err (Failed e), s) ∧ from_env (negb (je_release je)) (sv_vars env) = Err e)
  ∨ (serve h env je s).2 = s1.
Proof.
  destruct (new_manager _ _ _ je s) as [km s1] eqn:Hkm. unfold serve.
  destruct (from_env _ _) as [config|e]; [right|left; by exists e].
  unfold mbind, io_bind, io_lift, io_map_err, mret, io_ret. cbn [map_err]. rewrite Hkm.
  repeat (case_match; simplify_eq/=; try done).
Qed.

(** [RATE_LIMIT_RPS=0] stops every start that finds its database, after the key was made. *)
Theorem zero_rate_panics (h : Host) (env : ServeEnv) (je : JwksEnv) (s s1 : fs) (km : KeyManager) (config : Config) :
  sv_vars env !! lit "RATE_LIMIT_RPS" = Some (lit "0") →
  from_env (negb (je_release je)) (sv_vars env) = Ok config →
  new_manager (sv_key_path env) (sv_passphrase env) (sv_temp_dir env) je s = (Ok km, s1) →
  pg_connect h (database_url config) = Ok tt →
  serve h env je s = (Err StartPanics, s1).
Proof.
  intros Hrps Hc Hkm Hpg. unfold serve. rewrite Hc. unfold mbind, io_bind, io_lift, io_map_err. cbn [map_err].
  rewrite Hkm, Hpg. unfold create_router, router_rate_limit, rate_limit_rps. by rewrite Hrps.
Qed.
End Theorems.
