(* ===== verification/ProtocolTheorems.v ===== *)
(** * Theorems across the tool and the platform

    A rotation made by the tool and witnessed by the platform; the receipts of the verify
    endpoint and what they say about a manifest. *)

From S2P Require Import Prelude External Utf8 FileSystem Json Float64 Manifest ManifestCanon.
From S2P Require Import Chain Crypto Keywrap Chronicle Attestation Archive ArchiveLemmas.
From S2P Require Import ArchiveCorrect VerifyChronicle VerifyChronicleCorrect Cli CliCorrect.
From S2P Require Import VerifyEngine VerifyEngineCorrect Commands CommandsCorrect.
From S2P Require Import Witness Jwks Platform.

Section Theorems.
Context `{Blake3Laws} `{HexLaws} `{Base64Laws} `{Ed25519Laws} `{P256} `{AeadLaws} `{KdfLaws}
  `{HpkeLaws} `{SerdeJsonLaws} `{SerdeValue} `{BundleJson} `{ManifestJson} `{StateJson}
  `{RotationJson} `{IoText} `{RequestJson} `{ManifestValue} `{AttestationJson} `{Chrono}
  `{PostgresLaws} `{JwsSigner} `{Sha256} `{UuidText}.

(** A rotation entry reads back as its record. *)
Lemma read_entry_rotation (s : fs) (dir : path) (e : Entry) (r : RotationRecord) :
  read_entry s dir = Ok e → e_kind e = ERotation r →
  read_rotation dir s = Ok r ∧ e_seq e = rr_sequence r ∧ e_prev e = Some (rr_prev_archive_hash r).
Proof.
  unfold read_entry. intros Hr Hk. case_match.
  - apply bind_ok in Hr as (r' & Hrot%map_err_ok & Hr). apply bind_ok in Hr as ([] & _ & Hr).
    apply Ok_inj in Hr as <-. by injection Hk as <-.
  - apply bind_ok in Hr as ([m sig] & _ & Hr). apply bind_ok in Hr as ([] & _ & Hr).
    apply bind_ok in Hr as (q & _ & Hr). apply bind_ok in Hr as (dg & _ & Hr).
    by apply Ok_inj in Hr as <-.
Qed.

(** C6. A rotation is witnessed: after [seal rekey] into a new directory that does not contain
    the chronicle state, below the largest sequence and epoch and with records that serde reads
    back, the request that [seal witness --rotation] makes of the new entry, handled alone by a
    platform whose signer works, is recorded at the next sequence and answered with a receipt,
    if the platform has no ledger row, device record or lineage row of the new key and the old
    key's ledger row at the sequence before, if there is one, is the predecessor's tip. The new
    key is then linked to the old one; and if no rotation of the old key was on record before,
    then in every later database in which this is still the only one, a request of the old key
    beyond the rotation, handled alone, adds nothing to the ledger. *)
Theorem rotation_witnessed (a : RekeyCmd) (op np pw : option bytes) (ra ua sa now jti : bytes)
    (s s' : fs) (st : ChronicleState) (w : WitnessCmd) (req : WitnessRequest) (d : db) :
  handle_rekey a op np ra ua s = (Ok tt, s') → rekey_layout a s → load (rk_chronicle a) s = Ok st →
  (cs_key_epoch st < u32_max)%N → (cs_sequence st < u64_max)%N →
  (∀ r j, rotation_to_json r = Ok j → rotation_from_json (j ++ [newline]) = Ok r) →
  (∀ x j, state_to_json x = Ok j → state_from_json j = Ok x) →
  wt_chronicle w = rk_chronicle a → wt_rotation w = Some (rk_out a) →
  witness_request w pw sa s' = Ok req →
  log_typed d → witness_entries (wr_device_pub req) d = [] →
  get_device_revocation_by_pub (wr_device_pub req) d = None →
  lineage_rows (wr_device_pub req) d = [] → device_lineage d !! wr_device_pub req = None →
  (∀ e, witness_entry_at (cs_device_pub st) (cs_sequence st) d = Some e → we_tip e = cs_tip st) →
  (∀ rc, ∃ jws, sign_witness_jws rc = Ok jws) →
  ∃ rc jws d', run (witness_handler req now jti) d = (Ok (rc, jws), d')
    ∧ wrc_device_pub rc = wr_device_pub req ∧ wrc_sequence rc = (cs_sequence st + 1)%N
    ∧ recorded (wr_device_pub req) (cs_sequence st + 1) (wr_tip req) now d'
    ∧ device_lineage d' !! wr_device_pub req
      = Some (mkLineageRow (cs_device_pub st) (u64_as_i64 (cs_sequence st + 1)) now)
    ∧ (lineage_rows (cs_device_pub st) d = [] → ∀ d1 req' now' jti' r d2,
        lineage_rows (cs_device_pub st) d1 = lineage_rows (cs_device_pub st) d' →
        wr_device_pub req' = cs_device_pub st → (cs_sequence st + 1 < wr_sequence req')%N →
        run (witness_handler req' now' jti') d1 = (r, d2) → witness_log d2 = witness_log d1).
Proof.
  intros Hh Hlay Hst Hep Hsq Hrj Hsj Hwc Hwr Hreq Ht Hent Hrev Hrows Hlin Hprev Hsign.
  destruct (handle_rekey_ok _ _ _ _ _ _ _ Hh) as (st0 & old & new & ? & ? & ? & ? & Hck & _).
  destruct (rekey_checks_ok _ _ _ _ _ _ _ Hck) as (Hst0 & _ & _ & Hpub & Hdiff & _).
  rewrite Hst in Hst0. apply Ok_inj in Hst0 as <-.
  destruct (rekey_entry a op np ra ua s s' st old new) as (r & Hr & Hn & Hne & Hread & Hload & _);
    [done..|]. destruct Hr as [Hro Hre Hrv]. rewrite <-Hwc in Hload.
  destruct (witness_request_ok w pw sa s' _ req Hreq Hload) as (Hv & Hd & Hq & Htip & Hrot).
  rewrite Hwr in Hrot. destruct Hrot as (rec & Hrec & Hwrot & Hdig).
  destruct (read_entry_rotation _ _ _ r Hread eq_refl) as (Hrec' & Hrs & Hrp).
  rewrite Hrec in Hrec'. apply Ok_inj in Hrec' as ->.
  cbn [cs_device_pub cs_sequence cs_tip e_seq e_prev] in *. apply (inj Some) in Hrp.
  assert (wr_sequence req ≤ u64_max)%N as Hmax by (rewrite Hq; lia).
  destruct (run_witness_admitted req now jti d) as (reg & jws & d' & Hrun & _ & Hrd & Hld);
    [done|done| | | |done|].
  - constructor; [done|rewrite Hent; by intros e ?%elem_of_nil|by rewrite Hrev|].
    intros q. unfold lineage_rotation_seq. rewrite Hrows.
    destruct (pick_row []) as [row|] eqn:E; [|done]. by apply pick_row_elem, elem_of_nil in E.
  - intros rec' Hrec'. rewrite Hwrot in Hrec'. apply (inj Some) in Hrec' as <-. split.
    + unfold verify_lineage_rotation. rewrite Hrv. cbn [negb].
      rewrite bool_decide_true by congruence. rewrite Hq, <-Hrs, N.eqb_refl. cbn [negb].
      by rewrite bool_decide_true by congruence.
    + rewrite Hro, <-Hrs, N.add_sub, <-Hrp. done.
  - intros rec' Hrec'. rewrite Hwrot in Hrec'. apply (inj Some) in Hrec' as <-. congruence.
  - specialize (Hld r Hwrot Hlin). rewrite Hro, <-Hrs in Hld.
    eexists _, jws, d'. split_and!; [exact Hrun|done|done|by rewrite <-Hq| |].
    + rewrite Hld. apply lookup_insert_eq.
    + intros Hnone d1 req' now' jti' res d2 Hrows1 Hold Hlt Hrun'.
      pose proof (lineage_rows_insert _ _ _ _ _ _ Hlin Hld) as Hperm.
      rewrite Hnone, <-Hrows1, <-Hold in Hperm. apply Permutation_singleton_r in Hperm.
      eapply (run_witness_rotated_away _ _ _ _ _ _ _ (cs_sequence st + 1)); [lia|done..].
Qed.

(** C5. A receipt of the verify endpoint says something: in every run of the service, a JWS in
    an answer to a verify request is over claims whose key signed a manifest of the
    supported version with that key in it, whose continuity chain is right, and whose tip
    is the one in the claims; and the claims name the digest of that very manifest. *)
Theorem verify_receipt_sound sv r jws :
  reachable sv → RespVerify r ∈ answered sv → vs_receipt r = Some jws →
  ∃ v m client hs claims, sign_receipt claims = Ok jws
    ∧ manifest_from_value v = Ok m ∧ manifest_signed m (signer_pub claims)
    ∧ continuity_ok m client hs ∧ rc_chain_tip claims = format_b3 (chain_tip genesis hs)
    ∧ manifest_digest claims = compute_manifest_digest_blake3 v
    ∧ device_registered claims = false.
Proof.
  intros Hs Hr Hj. destruct (reachable_ok sv Hs) as [_ _ _ Ha]. apply Ha in Hr.
  destruct (Hr jws Hj) as (v & client & claims & Hc & Hrep & Hp & Ht & Hd & Hn).
  destruct (proj1 (verify_to_report_passes v client (signer_pub claims)))
    as (m & hs & Hm & Hsg & Hcont); [by eauto|].
  exists v, m, client, hs, claims. split_and!; try done. rewrite Ht.
  by eapply verify_to_report_tip.
Qed.
End Theorems.

(** ** Witnesses *)

From S2P Require Import Reference Demo CommandDemo.

Definition wt_cmd : WitnessCmd :=
  mkWitnessCmd [lit "state"] [lit "new.key"] None None (Some dir_1) true.
Definition wt_request : WitnessRequest :=
  unwrap_or (mkWitnessRequest [] 0 [] [] [] None) (witness_request wt_cmd None demo_time rk_after).

Lemma rotation_witnessed_witness :
  ∃ rc jws d', run (witness_handler wt_request demo_time (lit "j")) empty_db = (Ok (rc, jws), d')
    ∧ wrc_device_pub rc = wr_device_pub wt_request ∧ wrc_sequence rc = 1%N
    ∧ recorded (wr_device_pub wt_request) 1 (wr_tip wt_request) demo_time d'
    ∧ device_lineage d' !! wr_device_pub wt_request
      = Some (mkLineageRow (public key_a) (u64_as_i64 1) demo_time)
    ∧ (lineage_rows (public key_a) empty_db = [] → ∀ d1 req' now' jti' r d2,
        lineage_rows (public key_a) d1 = lineage_rows (public key_a) d' →
        wr_device_pub req' = public key_a → (1 < wr_sequence req')%N →
        run (witness_handler req' now' jti') d1 = (r, d2) → witness_log d2 = witness_log d1).
Proof.
  refine (rotation_witnessed rk_cmd None None None demo_time demo_time demo_time demo_time (lit "j")
    rk_fs rk_after demo_state wt_cmd wt_request empty_db rk_done rk_layout _ _ _
    rk_rotation_reads_back rk_state_reads_back eq_refl eq_refl _ _ _ _ _ _ _ _).
  - vm_compute. reflexivity.
  - vm_compute. reflexivity.
  - vm_compute. reflexivity.
  - vm_compute. reflexivity.
  - intros pub z row Hr. done.
  - reflexivity.
  - reflexivity.
  - reflexivity.
  - reflexivity.
  - intros e He. done.
  - intros rc. by exists (wrc_tip rc).
Defined.

(** The archive of [manifest_0], posted to the verify endpoint and answered with a receipt. *)
Definition vf_request : VerifyRequest :=
  mkVerifyRequest (public key_a) (VObj [(lit "device", VNull)]) (emitted demo_chunks)
    (mkVerifyOptions true (Some (lit "dev-1"))).
Definition vf_env : VerifyEnv := mkVerifyEnv 1 2 (lit "c") demo_time.
Definition vf_arrived : service :=
  mkService empty_db (<[0 := handler (ReqVerify vf_request vf_env)]> ∅) [].
Definition vf_ran : service := foldl tick vf_arrived [0; 0; 0].
Definition vf_response : VerifyResponse :=
  match running vf_ran !! 0 with
  | Some (Ret (Ok (RespVerify r))) => r
  | _ => mkVerifyResponse [] (mkVerifyReport (mkVerificationResult false None)
           (mkVerificationResult false None) (mkVerificationMetadata 0 0 [] [])) None
  end.
Definition vf_answered : service :=
  mkService (database vf_ran) (delete 0 (running vf_ran)) [RespVerify vf_response].

Lemma vf_reachable : reachable vf_answered.
Proof.
  eapply (reachable_trans vf_arrived).
  - exists ∅. by apply rtc_once, (step_arrive _ _ _ 0 (ReqVerify vf_request vf_env)).
  - etrans; [apply (ticks_step _ [0; 0; 0])|]. apply rtc_once.
    change (foldl tick vf_arrived [0; 0; 0]) with vf_ran.
    apply (step_answer (database vf_ran) (running vf_ran) [] 0 (RespVerify vf_response)).
    vm_compute. reflexivity.
Qed.

Lemma verify_receipt_sound_witness :
  ∃ m pub, manifest_signed m pub ∧ vs_receipt vf_response ≠ None.
Proof.
  destruct (vs_receipt vf_response) as [jws|] eqn:E; [|vm_compute in E; discriminate E].
  destruct (verify_receipt_sound vf_answered vf_response jws vf_reachable)
    as (v & m & client & hs & claims & _ & _ & Hs & _); [left|exact E|].
  exists m, (signer_pub claims). split; [exact Hs|discriminate].
Defined.
