(* ===== verification/EnvelopeTheorems.v ===== *)
(** * Properties of envelopes and ownership receipts *)

From S2P Require Import Prelude External Format Envelope Receipts.

Section Theorems.
Context `{Blake3} `{Ed25519Laws} `{AeadLaws} `{!KeyAgreement} `{!KeyAgreementLaws} `{HkdfExpandLaws}
  `{BincodeLaws ChunkManifest} `{BincodeLaws SignedManifest} `{BincodeLaws Envelope}
  `{!ReceiptJson} `{!ReceiptJsonLaws}.

(** C8. An envelope that [seal] returns verifies, gives its beneficiary the payload back, of
    any length and also when it is empty, and never uses a nonce twice under its key. *)
Theorem seal_roundtrip (env : SealEnv) (payload sk bk : bytes) (e : Envelope) :
  seal env payload sk (ed_public bk) = Ok e →
  verify e = true ∧ unseal e bk = Ok payload ∧ NoDup (nc_nonce <$> env_chunks e).
Proof.
  intros (pieces & key & prefix & Hs)%seal_sealed.
  destruct (sealed_unseals _ _ _ _ _ _ _ _ Hs) as [Hv Hu]. eauto using sealed_nonces_unique.
Qed.

(** [seal] refuses a payload exactly when it has more than 2^24 chunks of 64 KiB, the
    number of indices that fit the counter of the nonce, as long as the primitives
    themselves do not fail. *)
Theorem seal_bounds (env : SealEnv) (payload sk ben key prefix : bytes) (t : N) :
  (∀ m : ChunkManifest, is_ok (serialize m) = true) →
  (∀ m : SignedManifest, is_ok (serialize m) = true) →
  (∀ k n a m, length k = 32 → length m ≤ N.to_nat DEFAULT_CHUNK_SIZE →
    is_Some (aead_encrypt Aes256Gcm k n a m)) →
  se_now env = Some t → derive_shared_encryption_key sk ben (se_salt env) = Ok (key, prefix) →
  is_ok (seal env payload sk ben) = true ↔ (N.of_nat (length payload) ≤ 2 ^ 40)%N.
Proof. intros. by rewrite seal_is_ok. Qed.

(** C27. The order and the number of the chunks are not authenticated: from an envelope that
    [seal] made, any selection of the chunks before the last, in any order, with omissions
    and repetitions, followed by the last chunk, verifies once it is relabelled 0, 1, ... and
    counted, and its beneficiary unseals the corresponding rearrangement of the payload. *)
Theorem spliced_envelope_unseals (env : SealEnv) (payload sk bk : bytes) (e : Envelope) (body : list nat) :
  seal env payload sk (ed_public bk) = Ok e → payload ≠ [] →
  let pieces := slice_chunks (N.to_nat DEFAULT_CHUNK_SIZE) payload in
  Forall (λ j, j < length pieces - 1) body →
  let js := body ++ [length pieces - 1] in
  (N.of_nat (length js) ≤ u32_max)%N →
  let data := concat (select pieces js) in
  let e' := spliced e (select (env_chunks e) js) (N.of_nat (length data)) in
  verify e' = true ∧ unseal e' bk = Ok data.
Proof.
  intros (pieces & key & prefix & Hs)%seal_sealed Hne. cbv zeta.
  assert (pieces = slice_chunks (N.to_nat DEFAULT_CHUNK_SIZE) payload) as <- by apply Hs.
  apply (spliced_unseals _ _ _ _ _ _ _ _ _ Hs). intros ->.
  pose proof (slice_chunks_concat _ payload chunk_size_pos) as Hc.
  rewrite <-(sealed_pieces _ _ _ _ _ _ _ _ Hs) in Hc. done.
Qed.

(** C25. Keyed verification accepts exactly the ownership chains: one key per envelope opens
    it to an acceptable receipt, the first has no predecessor, each other names the hash of
    the envelope before it, is issued by the previous beneficiary for the same amount, and
    each names the signer and the beneficiary of its envelope. *)
Theorem receipt_chain_accepts_exactly (clock : nat → option N) (es : list Envelope) (ks : list bytes) :
  verify_receipt_chain_with_keys clock es ks = Ok tt ↔ ∃ rs, ownership_chain clock es ks rs.
Proof. apply verify_receipt_chain_ok. Qed.

(** C15. Creating and assigning keep chains verifiable: a created receipt is a chain, and
    assigning the last receipt of any verified chain, which only its beneficiary can do,
    extends the chain by one that verifies; the public screen accepts it too, and the amount
    is that of the origin. *)
Theorem receipts_extend_chain (clock : nat → option N) (env : ReceiptEnv) (sk k bk : bytes) (amount : N)
    (desc : option bytes) (es : list Envelope) (ks : list bytes) (e e' : Envelope) :
  (create_receipt env sk (ed_public bk) amount desc = Ok e' →
   (default 0 (re_stamp env) ≤ wrapping_add64 (default 0 (clock 0%nat)) 300)%N →
   verify_receipt_chain_with_keys clock [e'] [bk] = Ok tt)
  ∧ (verify_receipt_chain_with_keys clock (es ++ [e]) (ks ++ [k]) = Ok tt →
     assign_receipt env e k (ed_public bk) desc = Ok e' →
     (default 0 (re_stamp env) ≤ wrapping_add64 (default 0 (clock (S (length es)))) 300)%N →
     env_beneficiary_key e = ed_public k
     ∧ verify_receipt_chain_with_keys clock (es ++ [e; e']) (ks ++ [k; bk]) = Ok tt
     ∧ verify_signature_chain (es ++ [e; e']) = true
     ∧ ∃ r0 r, extract_receipt (clock 0%nat) (hd e es) (hd k ks) = Ok r0
         ∧ extract_receipt (clock (S (length es))) e' bk = Ok r ∧ or_amount r = or_amount r0).
Proof.
  split.
  - intros Hc Ht. apply verify_receipt_chain_ok. eauto using create_starts_chain.
  - intros [rs Hc]%verify_receipt_chain_ok Ha Ht.
    destruct (assign_receipt_made _ _ _ _ _ _ Ha) as (_ & _ & _ & _ & [Hb _]%beneficiary_ok & _).
    destruct (assign_extends_chain _ _ _ _ _ _ _ _ _ _ Hc Ha Ht) as (r' & Hc' & _).
    split_and!; [done|apply verify_receipt_chain_ok; eauto|by eapply chain_public|].
    pose proof (vc_receipts _ _ _ _ Hc') as Hl. pose proof (vc_receipts _ _ _ _ Hc) as Hl0.
    pose proof (vc_keys _ _ _ _ Hc) as Hk0. rewrite length_app in Hl0. rewrite length_app, (length_app es) in Hk0.
    cbn in Hl0, Hk0. destruct rs as [|r0 rs]; [cbn in Hl0; lia|]. exists r0, r'.
    assert ((es ++ [e; e']) !! 0 = Some (hd e es)) as He by (by destruct es).
    assert ((ks ++ [k; bk]) !! 0 = Some (hd k ks)) as Hk by (by destruct ks).
    assert ((r0 :: rs ++ [r']) !! S (length es) = Some r') as Hr'.
    { cbn. apply lookup_last. cbn in Hl0. lia. }
    split_and!.
    + apply extract_receipt_ok. by apply (vc_holds _ _ _ _ Hc').
    + apply extract_receipt_ok. apply (vc_holds _ _ _ _ Hc'); [..|done].
      * rewrite cons_middle, app_assoc. apply lookup_last. rewrite length_app. cbn. lia.
      * rewrite cons_middle, app_assoc. apply lookup_last. rewrite length_app. cbn. lia.
    + by eapply chain_amount.
Qed.

(** C24. The last envelope of a chain pins the chain: two chains that one verifier accepts,
    of whatever lengths, and that end in the same envelope are the same chain, or BLAKE3
    collides. *)
Theorem last_envelope_pins_chain (dir : bytes → bytes) (clock clock' : nat → option N)
    (es es' : list Envelope) :
  verify_receipt_chain_with_keys clock es (keys_for dir es) = Ok tt →
  verify_receipt_chain_with_keys clock' es' (keys_for dir es') = Ok tt →
  last es = last es' → es = es' ∨ Collision.
Proof. rewrite !verify_receipt_chain_ok. intros [rs Hc] [rs' Hc']. by eapply chain_determined. Qed.
End Theorems.

(** ** Witnesses *)

From S2P Require Import Reference ReferenceCodec.

Definition value_of {A} (d : A) (r : result bytes A) : A := match r with Ok a => a | Err _ => d end.
Definition alice : bytes := fit32 (lit "alice").
Definition bob : bytes := fit32 (lit "bob").
Definition carol : bytes := fit32 (lit "carol").
Definition demo_env : SealEnv := mkSealEnv (Some 1700000000%N) (replicate 32 "s"%char) (λ _, Some 1700000001%N).
Definition hello_env : Envelope :=
  value_of (mkEnvelope 0 [] [] [] [] (mkEnvelopeMetadata 0 0 0 0 0 0))
    (seal demo_env (lit "hello") alice (ed_public bob)).

Lemma seal_roundtrip_witness :
  verify hello_env = true ∧ unseal hello_env bob = Ok (lit "hello")
  ∧ NoDup (nc_nonce <$> env_chunks hello_env).
Proof. apply (seal_roundtrip demo_env (lit "hello") alice bob). vm_compute. reflexivity. Defined.

(** Sealing with the reference primitives, for the bound and for a payload of three chunks. *)
Definition demo_keys : bytes * bytes :=
  value_of ([], []) (derive_shared_encryption_key alice (ed_public bob) (se_salt demo_env)).
Lemma demo_derive :
  derive_shared_encryption_key alice (ed_public bob) (se_salt demo_env) = Ok (demo_keys.1, demo_keys.2).
Proof. vm_compute. reflexivity. Qed.

Lemma seal_bounds_witness :
  is_ok (seal demo_env (lit "hello") alice (ed_public bob)) = true.
Proof.
  apply (seal_bounds demo_env (lit "hello") alice (ed_public bob) demo_keys.1 demo_keys.2 1700000000);
    [done|done|by intros; eexists|done|apply demo_derive|by vm_compute].
Defined.

Definition long_payload : bytes := replicate (N.to_nat (2 * DEFAULT_CHUNK_SIZE + 1)) "x"%char.

Lemma long_sealed : ∃ e, seal demo_env long_payload alice (ed_public bob) = Ok e.
Proof.
  apply is_ok_true. eapply seal_is_ok; [done|done|by intros; eexists|done|apply demo_derive|].
  unfold long_payload. rewrite length_replicate, N2Nat.id. done.
Qed.
Lemma long_pieces : length (slice_chunks (N.to_nat DEFAULT_CHUNK_SIZE) long_payload) = 3.
Proof.
  apply Nat2N.inj. rewrite slice_chunks_length by apply chunk_size_pos.
  unfold long_payload. by rewrite length_replicate, !N2Nat.id.
Qed.

Lemma spliced_data e l n : nc_data <$> env_chunks (spliced e l n) = nc_data <$> l.
Proof.
  cbn [env_chunks spliced]. apply list_eq. intros i. rewrite !list_lookup_fmap, list_lookup_imap.
  destruct (l !! i); reflexivity.
Qed.

Lemma spliced_envelope_unseals_witness :
  ∃ e e' data, seal demo_env long_payload alice (ed_public bob) = Ok e
    ∧ nc_data <$> env_chunks e' = nc_data <$> select (env_chunks e) [1; 0; 1; 2]
    ∧ verify e' = true ∧ unseal e' bob = Ok data.
Proof.
  destruct long_sealed as [e He].
  pose proof (spliced_envelope_unseals demo_env long_payload alice bob e [1; 0; 1] He) as Ht.
  cbv zeta in Ht. rewrite long_pieces in Ht.
  destruct Ht as [Hv Hu]; [| |by vm_compute|].
  - intros Hn%(f_equal length). unfold long_payload in Hn. rewrite length_replicate in Hn.
    cbn [length] in Hn. unfold DEFAULT_CHUNK_SIZE in Hn. lia.
  - repeat constructor.
  - eexists e, _, _. split_and!; [exact He| |exact Hv|exact Hu].
    apply spliced_data.
Defined.

(** Alice pays Bob, Bob assigns to Carol. *)
Definition receipt_env : ReceiptEnv := mkReceiptEnv (Some 1700000000%N) (Some 1700000000%N) demo_env.
Definition demo_clock (i : nat) : option N := Some 1700000000%N.
Definition no_env : Envelope := mkEnvelope 0 [] [] [] [] (mkEnvelopeMetadata 0 0 0 0 0 0).
Definition receipt_1 : Envelope := value_of no_env (create_receipt receipt_env alice (ed_public bob) 1000 None).
Definition receipt_2 : Envelope := value_of no_env (assign_receipt receipt_env receipt_1 bob (ed_public carol) None).

Lemma demo_created : create_receipt receipt_env alice (ed_public bob) 1000 None = Ok receipt_1.
Proof. vm_compute. reflexivity. Qed.
Lemma demo_assigned : assign_receipt receipt_env receipt_1 bob (ed_public carol) None = Ok receipt_2.
Proof. vm_compute. reflexivity. Qed.

Lemma receipts_extend_chain_witness :
  verify_receipt_chain_with_keys demo_clock [receipt_1; receipt_2] [bob; carol] = Ok tt
  ∧ verify_signature_chain [receipt_1; receipt_2] = true.
Proof.
  assert (verify_receipt_chain_with_keys demo_clock [receipt_1] [bob] = Ok tt) as H1.
  { apply (proj1 (receipts_extend_chain demo_clock receipt_env alice alice bob 1000 None [] []
      receipt_1 receipt_1) demo_created). by vm_compute. }
  destruct (proj2 (receipts_extend_chain demo_clock receipt_env alice bob carol 1000 None [] []
    receipt_1 receipt_2) H1 demo_assigned) as (_ & H2 & H3 & _); [by vm_compute|]. by split.
Defined.

Definition demo_dir (k : bytes) : bytes := k.

Lemma receipt_chain_accepts_exactly_witness :
  ∃ rs, ownership_chain demo_clock [receipt_1; receipt_2] [bob; carol] rs.
Proof.
  apply (proj1 (receipt_chain_accepts_exactly demo_clock [receipt_1; receipt_2] [bob; carol])).
  vm_compute. reflexivity.
Defined.

Lemma last_envelope_pins_chain_witness :
  [receipt_1; receipt_2] = [receipt_1; receipt_2] ∨ Collision.
Proof.
  apply (last_envelope_pins_chain demo_dir demo_clock demo_clock [receipt_1; receipt_2]
    [receipt_1; receipt_2]); [vm_compute; reflexivity..|reflexivity].
Defined.
