(* ===== verification/AuthTheorems.v ===== *)
(** * Properties of the authentication handshake and of sessions *)

From S2P Require Import Prelude External Format Envelope Auth.

Section Theorems.
Context `{Blake3Kdf} `{Hex} `{Ed25519Laws} `{!KeyAgreement} `{!KeyAgreementLaws}
  `{!Bincode AuthMessage} `{!BincodeLaws AuthMessage} `{!Bincode AuthChallenge}
  `{!BincodeLaws AuthChallenge} `{!Bincode ClientAuthResponse} `{!BincodeLaws ClientAuthResponse}
  `{!Bincode ServerAuthConfirm} `{!BincodeLaws ServerAuthConfirm} `{!Bincode (list ascii)}.

(** Messages that fit the bound on both sides. *)
Definition fits {T} `{Bincode T} (ty : AuthMessageType) (x : T) (b : bytes) : Prop :=
  encoded ty x = Ok b ∧ (N.of_nat (length b) ≤ MAX_MESSAGE)%N.

(** C14. The handshake completes and agrees: with a server whose table is in any reachable
    state and a client that pins its key, clocks within the tolerance and messages within
    the bound, each side sends exactly what the other expects, both end with the same
    session id and the same session key, and the session validates until it expires. *)
Theorem handshake_agrees (se : ServerEnv) (ce : ClientEnv) (identity ssk csk : bytes)
    (cid : option bytes) (m0 m : SessionManager) (t0 t1 t2 tc ts : N)
    (key hello chal auth conf err : bytes) :
  with_signing_key (Some t0) identity ssk = Ok m0 → rtc table_step m0 m →
  (t0 + 365 * 24 * 3600 < 2 ^ 64)%N → (t0 ≤ tc ≤ t0 + 365 * 24 * 3600)%N →
  sv_challenge_time se = Some t1 → sv_auth_time se = Some t2 →
  cl_check_time ce = Some tc → cl_stamp_time ce = Some ts →
  (ts ≤ t2 + FUTURE_TOLERANCE_SECS)%N → (t2 ≤ ts + PAST_TOLERANCE_SECS)%N → (t2 + SESSION_TIMEOUT < 2 ^ 64)%N →
  derive_session_key ssk (ed_public csk) (sv_challenge se) = Ok key →
  (∀ resp : ClientAuthResponse, is_ok (encoded ClientAuth resp) = true) →
  fits ClientHello client_hello_text hello →
  fits ServerChallenge (mkAuthChallenge (sv_challenge se) (server_certificate m) t1) chal →
  fits ClientAuth (mkClientAuthResponse (ed_public csk) (ed_sign csk (sv_challenge se)) cid ts) auth →
  fits ServerConfirm (mkServerAuthConfirm (sv_session_id se) (t2 + SESSION_TIMEOUT)
    (ed_sign ssk (session_data (sv_session_id se) (ed_public csk) (t2 + SESSION_TIMEOUT)))) conf →
  let client := client_authenticate ce csk cid (ed_public ssk)
    (mkStream (wire_frame chal ++ wire_frame conf) [] None err) in
  ∃ s r m',
    server_authenticate se (mkStream (wire_frame hello ++ wire_frame auth) [] None err, m)
      = (Ok s, (mkStream [] (wire_frame chal ++ wire_frame conf) None err, m'))
    ∧ client.1 = Ok r ∧ st_out client.2 = wire_frame hello ++ wire_frame auth
    ∧ cr_session_id r = si_session_id s ∧ cr_session_key r = si_session_key s
    ∧ ∀ now, (now < t2 + SESSION_TIMEOUT)%N →
        (validate_session (Some now) (Some now) (sv_session_id se) m').1 = Ok s.
Proof.
  intros Hnew Hr Hmax Hvalid Ht1 Ht2 Htc Hts Hfut Hpast Hexp Hkey Htotal [Hhello Hhl] [Hchal Hcl]
    [Hauth Hal] [Hconf Hfl] client.
  destruct (reachable_wf _ _ _ _ _ Hnew Hr) as [Hk Hcert _].
  assert (cert_verify (Some tc) (server_certificate m) = Ok tt
    ∧ sc_public_key (server_certificate m) = ed_public ssk) as [Hcv Hck].
  { rewrite Hcert. unfold with_signing_key in Hnew. inv_ok. by eapply new_self_signed_valid. }
  set (s := mkSessionInfo (sv_session_id se) (ed_public csk) cid t2 (t2 + SESSION_TIMEOUT) true key).
  exists s, (mkClientAuthResult (sv_session_id se) (server_certificate m) key),
    (set_sessions (<[sv_session_id se := s]> (sessions m)) m).
  split.
  { eapply (server_authenticate_run se (mkStream (wire_frame hello ++ wire_frame auth) [] None err) m
      (mkClientAuthResponse (ed_public csk) (ed_sign csk (sv_challenge se)) cid ts) t1 s _ hello chal auth conf);
      try done.
    - apply authenticate_client_ok. exists t2. split_and!; [done| |done].
      rewrite Hk. by apply honest_admitted.
    - unfold create_auth_confirm. cbn [mbind result_bind]. rewrite Hk. exact Hconf. }
  rewrite <-Htc in Hcv. rewrite derive_session_symmetric in Hkey.
  destruct (honest_client ce csk cid ssk t1 ts (sv_challenge se) key (server_certificate m) (sv_session_id se)
    (t2 + SESSION_TIMEOUT) hello chal auth conf err) as [Hok Hout]; try done.
  split_and!; [exact Hok|exact Hout|done|done|]. intros now Hnow.
  erewrite (proj2 (validate_session_ok _ _ _ _ s _)); [done|].
  split_and!; [done|by apply lookup_insert_eq|done..].
Qed.

(** C26. A session id validates exactly while its session is in the table and has not expired,
    and every session of a reachable table was earned: the client signed a challenge with its
    key, answered within the tolerance of the clock, the session key is the one both keys
    agree on, and the session expires 30 minutes after its creation. *)
Theorem sessions_earned (now now1 now2 : option N) (identity sk id : bytes) (m0 m : SessionManager)
    (s : SessionInfo) :
  with_signing_key now identity sk = Ok m0 → rtc table_step m0 m →
  ((validate_session now1 now2 id m).1 = Ok s ↔
   sessions m !! id = Some s
   ∧ (now_or_default now1 < si_expires_at s)%N ∧ (now_or_default now2 < si_expires_at s)%N)
  ∧ (sessions m !! id = Some s → ∃ challenge resp t, admitted sk challenge id resp t s).
Proof.
  intros Hnew Hr. destruct (reachable_wf _ _ _ _ _ Hnew Hr) as [Hk Hc Hs].
  assert (sessions m !! id = Some s → ∃ challenge resp t, admitted sk challenge id resp t s) as Hear
    by apply Hs.
  split; [|done]. split.
  - destruct (validate_session now1 now2 id m) as [v m'] eqn:E. cbn. intros ->.
    apply validate_session_ok in E. naive_solver.
  - intros (Hid & H1' & H2'). destruct (Hear Hid) as (c & resp & t & Ha).
    erewrite (proj2 (validate_session_ok now1 now2 id m s _)); [done|].
    split_and!; [done|done| |done|done]. by rewrite (ad_session _ _ _ _ _ _ Ha).
Qed.

(** The client has no freshness of its own: whoever recorded what a server sent to it in
    one handshake can send the same bytes again, at any time before the certificate ends, and
    the client accepts again, with the same session id and the same session key. *)
Theorem client_replay_accepted (ce ce' : ClientEnv) (sk pin : bytes) (cid cid' : option bytes)
    (s s' : stream) (r : ClientAuthResult) (t ts : N) (hello : bytes) :
  (client_authenticate ce sk cid pin s).1 = Ok r →
  st_in s' = st_in s → st_room s' = None →
  cl_check_time ce' = Some t → cl_stamp_time ce' = Some ts →
  (sc_valid_from (cr_server_certificate r) ≤ t ≤ sc_valid_until (cr_server_certificate r))%N →
  encoded ClientHello client_hello_text = Ok hello →
  (∀ resp : ClientAuthResponse, is_ok (encoded ClientAuth resp) = true) →
  (client_authenticate ce' sk cid' pin s').1 = Ok r.
Proof.
  destruct (client_authenticate ce sk cid pin s) as [v w] eqn:E. cbn.
  intros -> Hin Hroom Ht Hts Hval Hhello Htotal. apply client_authenticate_sound in E.
  assert (client_accepts sk pin (cl_check_time ce') (st_in s') r) as Hacc.
  { destruct E as (m1 & rest1 & ch & m2 & rest2 & confirm & Hm1 & Ht1 & Hch & Hcert & Hrest).
    exists m1, rest1, ch, m2, rest2, confirm. rewrite Hin, Ht. split_and!; try done; try apply Hrest.
    assert (cr_server_certificate r = ac_server_cert ch) as Hcr by apply Hrest.
    rewrite Hcr in Hval. by eapply cert_verify_at. }
  by destruct (client_authenticate_complete ce' sk cid' pin s' r ts hello Hroom Hts Hhello Htotal Hacc)
    as (_ & _ & _ & _ & Hok & _).
Qed.
End Theorems.

(** ** Witnesses *)

From S2P Require Import Reference ReferenceCodec.

Definition get {A} (d : A) (r : result bytes A) : A := match r with Ok a => a | Err _ => d end.
Definition server_key : bytes := fit32 (lit "server").
Definition client_key : bytes := fit32 (lit "client").
Definition demo_server : ServerEnv :=
  mkServerEnv (replicate 32 "c"%char) (Some 2000%N) (replicate 16 "i"%char) (Some 2001%N).
Definition demo_client : ClientEnv := mkClientEnv (Some 2000%N) (Some 2000%N).
Definition no_cert : ServerCertificate := mkServerCertificate [] [] 0 0 [].
Definition demo_manager : SessionManager :=
  get (mkSessionManager ∅ [] no_cert) (with_signing_key (Some 1000%N) (lit "srv") server_key).
Definition demo_hello : bytes := get [] (encoded ClientHello client_hello_text).
Definition demo_chal : bytes := get [] (encoded ServerChallenge
  (mkAuthChallenge (sv_challenge demo_server) (server_certificate demo_manager) 2000)).
Definition demo_auth : bytes := get [] (encoded ClientAuth
  (mkClientAuthResponse (ed_public client_key) (ed_sign client_key (sv_challenge demo_server))
    (Some (lit "edge-1")) 2000)).
Definition demo_conf : bytes := get [] (encoded ServerConfirm
  (mkServerAuthConfirm (sv_session_id demo_server) 3801
    (ed_sign server_key (session_data (sv_session_id demo_server) (ed_public client_key) 3801)))).
Definition demo_key : bytes :=
  get [] (derive_session_key server_key (ed_public client_key) (sv_challenge demo_server)).
Definition client_run := client_authenticate demo_client client_key (Some (lit "edge-1")) (ed_public server_key)
  (mkStream (wire_frame demo_chal ++ wire_frame demo_conf) [] None []).

Lemma demo_started : with_signing_key (Some 1000%N) (lit "srv") server_key = Ok demo_manager.
Proof. vm_compute. reflexivity. Qed.

Lemma handshake_agrees_witness :
  ∃ s r m', server_authenticate demo_server (mkStream (wire_frame demo_hello ++ wire_frame demo_auth) [] None [], demo_manager)
      = (Ok s, (mkStream [] (wire_frame demo_chal ++ wire_frame demo_conf) None [], m'))
    ∧ client_run.1 = Ok r ∧ cr_session_key r = si_session_key s.
Proof.
  destruct (handshake_agrees demo_server demo_client (lit "srv") server_key client_key (Some (lit "edge-1"))
    demo_manager demo_manager 1000 2000 2001 2000 2000 demo_key demo_hello demo_chal demo_auth demo_conf []
    demo_started (rtc_refl _ _)) as (s & r & m' & Hs & Hr & _ & _ & Hk & _).
  - vm_compute. reflexivity.
  - split; vm_compute; discriminate.
  - reflexivity.
  - reflexivity.
  - reflexivity.
  - reflexivity.
  - vm_compute. discriminate.
  - vm_compute. discriminate.
  - vm_compute. reflexivity.
  - vm_compute. reflexivity.
  - intros resp. reflexivity.
  - split; vm_compute; [reflexivity|discriminate].
  - split; vm_compute; [reflexivity|discriminate].
  - split; vm_compute; [reflexivity|discriminate].
  - split; vm_compute; [reflexivity|discriminate].
  - exists s, r, m'. split; [exact Hs|]. split; [exact Hr|exact Hk].
Defined.

(** The table after that handshake. *)
Definition demo_table : SessionManager :=
  (server_authenticate demo_server (mkStream (wire_frame demo_hello ++ wire_frame demo_auth) [] None [], demo_manager)).2.2.
Definition demo_session : SessionInfo :=
  mkSessionInfo (sv_session_id demo_server) (ed_public client_key) (Some (lit "edge-1")) 2001 3801 true demo_key.

Lemma demo_reached : rtc table_step demo_manager demo_table.
Proof.
  apply rtc_once. unfold demo_table.
  destruct (server_authenticate demo_server _) as [r [c' m']] eqn:E. by eapply ts_connection.
Qed.

Lemma sessions_earned_witness :
  (validate_session (Some 3000%N) (Some 3000%N) (sv_session_id demo_server) demo_table).1 = Ok demo_session
  ∧ ∃ challenge resp t, admitted server_key challenge (sv_session_id demo_server) resp t demo_session.
Proof.
  destruct (sessions_earned (Some 1000%N) (Some 3000%N) (Some 3000%N) (lit "srv") server_key
    (sv_session_id demo_server) demo_manager demo_table demo_session demo_started demo_reached) as [Hv He].
  assert (sessions demo_table !! sv_session_id demo_server = Some demo_session) as Hs
    by (vm_compute; reflexivity).
  split; [apply (proj2 Hv); split; [exact Hs|split; vm_compute; reflexivity]|exact (He Hs)].
Defined.

Lemma client_replay_accepted_witness :
  ∃ r, client_run.1 = Ok r ∧
    (client_authenticate (mkClientEnv (Some 9000%N) (Some 9000%N)) client_key None (ed_public server_key)
      (mkStream (wire_frame demo_chal ++ wire_frame demo_conf) [] None [])).1 = Ok r.
Proof.
  exists (mkClientAuthResult (sv_session_id demo_server) (server_certificate demo_manager) demo_key).
  assert (client_run.1 = Ok (mkClientAuthResult (sv_session_id demo_server) (server_certificate demo_manager)
    demo_key)) as Hr by (vm_compute; reflexivity).
  split; [exact Hr|].
  apply (client_replay_accepted demo_client (mkClientEnv (Some 9000%N) (Some 9000%N)) client_key
    (ed_public server_key) (Some (lit "edge-1")) None _ (mkStream (wire_frame demo_chal ++ wire_frame demo_conf) [] None [])
    _ 9000 9000 demo_hello Hr).
  - reflexivity.
  - reflexivity.
  - reflexivity.
  - reflexivity.
  - split; vm_compute; discriminate.
  - vm_compute. reflexivity.
  - intros resp. reflexivity.
Defined.
