(* ===== verification/StreamTheorems.v ===== *)
(** * Properties of encrypted streams

    The sealedge command line: encryption followed by decryption, streams that were cut, streams
    of any origin, and the keys and files of a session. *)

From S2P Require Import Prelude External Utf8 FileSystem Format Backends VerifyChronicle Cli Wrap.
From S2P Require Import VerifyChronicleCorrect WrapCorrect Stream.

(** Decryption does not panic: what is left after the shared steps are pairs to take apart. *)
Ltac solve_np_pairs :=
  repeat first [ np_step | progress (repeat match goal with x : _ * _ |- _ => destruct x end) ].

Section Theorems.
Context `{Blake3Laws} `{HexLaws} `{Ed25519Laws} `{AeadLaws} `{KdfLaws} `{OsKeyring} `{UnicodeCase}
  `{BincodeLaws StreamHeader} `{BincodeLaws StreamHeaderV1} `{BincodeLaws StreamManifest}
  `{RecordCodecLaws}.

Lemma np_decrypt_step key sh fh st rec : no_panic (decrypt_step key sh fh st rec).
Proof.
  unfold decrypt_step, check_record, check_signed_manifest, check_manifest, open_record, anyhow.
  solve_np_pairs.
Qed.
Lemma np_read_stream_header r : no_panic (read_stream_header r).
Proof. unfold read_stream_header, parse_stream_header, anyhow. solve_np_pairs. Qed.

Lemma np_decrypt_loop key sh fh fuel st r o :
  (decrypt_loop key sh fh fuel st r).2 = Some o → no_panic o.
Proof.
  revert st r. induction fuel as [|f IH]; intros st r; [done|]. cbn [decrypt_loop].
  pose proof (np_decrypt_step key sh fh st) as Hs.
  repeat case_match; cbn; try (by intros [= <-]); [by apply IH|].
  intros [= <-]. match goal with E : decrypt_step _ _ _ _ ?x = Err _ |- _ => specialize (Hs x); rewrite E in Hs end.
  intros [= ->]. done.
Qed.

(** C9. Decrypting what was encrypted: the envelope of a file that was encrypted, given to
    decryption with the key of the session, restores exactly the bytes that were read (all of
    the input without a time limit) when the stream keeps the limits of a chunk (128 MiB), of
    records (1,000,000) and of a stream (10 GiB), and otherwise is refused with an error.
    Encryption itself enforces none of the three. *)
Theorem stream_roundtrip (kf kf' : bool) (a d : Args) (env env' : StreamEnv) (s s1 : fs)
    (ip op ep dp : path) (content : bytes) (n_in n_out : N) :
  wf_stream_env env → separate_files a ip op ep → s !! ip = Some (File content) →
  encrypt_file kf a env s = (Ok (n_in, n_out), s1) →
  ar_key_hex d = Some (session_key_hex a env) → ar_input d = Some ep → ar_out d = Some dp →
  dp ≠ ep → ancestor_error dp s1 = None → s1 !! dp ≠ Some Dir →
  ∃ cs tail,
    content = concat cs ++ tail ∧ (ar_max_duration a = 0%N → tail = [])
    ∧ n_in = len_N (concat cs) ∧ n_out = n_in
    ∧ s1 !! op = Some (File (if ar_no_plaintext a then [] else concat cs))
    ∧ if (ar_chunk a <=? MAX_CHUNK_SIZE)%N && (N.of_nat (length cs) <=? MAX_RECORDS_PER_STREAM)%N
         && (n_in <=? MAX_STREAM_SIZE_BYTES)%N
      then decrypt_envelope kf' d env' s1 =
        (Ok (reported_type (determine_data_type (InputFile ip) a) cs, n_in), <[dp := File (concat cs)]> s1)
      else ∃ m s2, decrypt_envelope kf' d env' s1 = (Err m, s2).
Proof.
  intros Hwf Hsep Hip Henc Hkh Hi Ho Hne Had Hdd.
  destruct (encrypt_file_ok _ _ _ _ _ _ _ _ _ _ _ Hwf Hsep Hip Henc) as
    (key & hb & cs & bs & tail & Hkey & Hsess & Hcs & Hhb & Hs & Hc & Ht & Hin & Hout & Hep & Hae & Hop).
  exists cs, tail. split_and!; [done|done|done|congruence|done|]. rewrite Hin.
  by eapply decrypt_written_envelope.
Qed.

(** Truncation goes unnoticed: cut the envelope of an encrypted file at any byte after its
    header, and decryption succeeds, with the chunks before the cut as its output; a cut that
    removes anything loses at least one chunk. *)
Theorem truncated_stream_accepted (kf : bool) (a : Args) (env : StreamEnv) (s s1 : fs)
    (ip op ep : path) (content : bytes) (n_in n_out : N) :
  wf_stream_env env → separate_files a ip op ep → s !! ip = Some (File content) →
  encrypt_file kf a env s = (Ok (n_in, n_out), s1) →
  ∃ key header body cs,
    parse_key_hex (session_key_hex a env) = Ok key
    ∧ s1 !! ep = Some (File (header ++ body)) ∧ n_in = len_N (concat cs)
    ∧ Forall (λ c, c ≠ []) cs
    ∧ ((ar_chunk a ≤ MAX_CHUNK_SIZE)%N → (N.of_nat (length cs) ≤ MAX_RECORDS_PER_STREAM)%N →
       (n_in ≤ MAX_STREAM_SIZE_BYTES)%N → ∀ n,
       ∃ k, decrypt_stream key (header ++ take n body) =
              (concat (take k cs), Ok (reported_type (determine_data_type (InputFile ip) a) (take k cs)))
          ∧ (n < length body → k < length cs)).
Proof.
  intros Hwf Hsep Hip Henc.
  destruct (encrypt_file_ok _ _ _ _ _ _ _ _ _ _ _ Hwf Hsep Hip Henc) as
    (key & hb & cs & bs & tail & Hkey & Hsess & Hcs & Hhb & Hs & _ & _ & Hin & _ & Hep & _).
  exists key, hb, (concat bs), cs. split_and!; [done..| |].
  { clear -Hs. induction Hs; by constructor. }
  intros Hl1 Hl2 Hl3 n.
  destruct (stream_cut _ _ _ _ _ _ _ (take n (concat bs)) (drop n (concat bs)) Hs) as (k & part & Hcut & Hp);
    [by rewrite take_drop|].
  exists k. rewrite Hcut. pose proof (stream_of_take _ _ _ _ _ _ _ k Hs) as Hsk.
  pose proof (decrypt_stream_written key _ _ _ _ _ _ part Hsess Hhb Hsk Hp) as Hd.
  assert (within_limits (stream_header_of a env) (take k cs) = true) as Hw.
  { unfold within_limits. rewrite Hcs, (proj2 (N.leb_le _ _) Hl1). apply all_fit_take. unfold all_fit.
    cbn [decrypt_start ds_record_count ds_stream_size]. rewrite !N.add_0_l, <-Hin.
    by rewrite (proj2 (N.leb_le _ _) Hl2), (proj2 (N.leb_le _ _) Hl3). }
  rewrite Hw in Hd. split; [done|]. intros Hn. destruct (decide (k < length cs)) as [?|Hge]; [done|].
  destruct (stream_of_lengths _ _ _ _ _ _ _ Hs) as [Hbl _]. rewrite (take_ge bs) in Hcut by lia.
  apply (f_equal length) in Hcut. rewrite length_take, length_app in Hcut. lia.
Qed.

(** C13. Whatever the envelope holds, decryption terminates without a panic, and every byte it
    releases, on an error too, is the plaintext of a record that was checked: the records are
    read from the start of the stream and numbered from 1, each authenticated under the key
    with its number, the stream header and its manifest, with a manifest signature that
    verifies, and no more than 1,000,000 records and 10 GiB are released.  Success means that
    no further record could be read. *)
Theorem decryption_releases_accepted (key r : bytes) :
  let '(w, res) := decrypt_stream key r in
  no_panic res
  ∧ ((∃ e, read_stream_header r = Err e ∧ res = Err e ∧ w = [])
     ∨ ∃ sh fh body pts rest,
         read_stream_header r = Ok (sh, fh, body) ∧ (fh_chunk_size fh ≤ MAX_CHUNK_SIZE)%N
         ∧ accepted_run key sh fh 1 body pts rest ∧ w = concat pts
         ∧ (N.of_nat (length pts) ≤ MAX_RECORDS_PER_STREAM)%N ∧ (len_N w ≤ MAX_STREAM_SIZE_BYTES)%N
         ∧ (is_ok res = true → record_read rest = AtEof)).
Proof.
  unfold decrypt_stream. pose proof (np_read_stream_header r) as Hnp.
  destruct (read_stream_header r) as [[[sh fh] body]|e] eqn:Hr.
  2: { split; [by intros [= ->]|]. left. eauto. }
  destruct (decrypt_loop_total key sh fh (S (length body)) decrypt_start body) as (st & o & Hl); [lia|].
  pose proof (np_decrypt_loop key sh fh (S (length body)) decrypt_start body o) as Ho. rewrite Hl in *.
  destruct (decrypt_loop_inv _ _ _ _ _ _ _ _ Hl) as ([_ Hrec Hsz Hbd] & pts & rest & Hrun & Hout & Hcnt & Heof).
  { by split. }
  cbn in Hout, Hcnt, Ho. cbn [default]. split.
  { destruct o as [|e]; [done|]. intros [= ->]. by apply Ho. }
  right. exists sh, fh, body, pts, rest. split_and!; [done| |done|done|lia|congruence|].
  - unfold read_stream_header in Hr.
    repeat first [progress inv_ok|match goal with p : _ * _ |- _ => destruct p end].
    simplify_eq. match goal with E : _ && _ = true |- _ => apply andb_true_iff in E as [_ E]; by apply N.leb_le in E end.
  - destruct o as [[]|]; [|done]. auto.
Qed.


(** What inspect-seal prints of an envelope that was written is the manifest of its first chunk; the
    version, the hash of the header, the signature and the number of the record are printed
    and not checked: the same holds with any byte as the version. *)
Theorem inspect_seal_reports (key signing : bytes) (fh : FileHeader) (dt : DataType) (c hb b : bytes)
    (cs bs : list bytes) (v : ascii) :
  write_stream_header (header_of fh) [] = Ok hb → stream_of key signing fh dt 1 (c :: cs) (b :: bs) →
  (∃ ts, inspect_seal (hb ++ concat (b :: bs))
    = Some (mkSealInfo 2 (take 8 (blake3 (header_to_bytes fh))) 1 (chunk_manifest_of fh dt ts 1 c)))
  ∧ inspect_seal (MAGIC ++ [v] ++ drop 5 hb ++ concat (b :: bs))
    = (λ i, mkSealInfo (N_of_byte v) (sl_header_hash i) (sl_first_seq i) (sl_manifest i))
        <$> inspect_seal (hb ++ concat (b :: bs)).
Proof.
  intros Hw Hs. unfold write_stream_header in Hw. inv_ok.
  match goal with E : in_context _ _ = Ok ?x |- _ => apply in_context_ok in E as Hser; rename x into sb end.
  inversion Hs as [|n ts ? ? rec pt ? ? _ _ _ He Hb _]; subst. clear Hs.
  apply encrypt_chunk_inv in He as (_ & mb & ct & Hm & _ & ->).
  assert (∀ w, inspect_seal (MAGIC ++ [w] ++ sb ++ concat (b :: bs))
    = Some (mkSealInfo (N_of_byte w) (take 8 (blake3 (header_to_bytes fh))) 1 (chunk_manifest_of fh dt ts 1 c))) as Hi.
  { intros w. unfold inspect_seal. rewrite (read_exact_app 4) by done. cbn [mbind option_bind].
    rewrite bool_decide_true by done. cbn [negb]. rewrite (read_exact_app 1) by done. cbn [mbind option_bind].
    rewrite (deserialize_serialize _ _ _ Hser). cbn [result_ok mbind option_bind concat].
    rewrite (record_read_write _ _ _ Hb). cbn [mbind option_bind rec_sm sm_manifest]. by rewrite (deserialize_ok _ _ Hm). }
  rewrite app_nil_l, <-!app_assoc, Hi. split; [by exists ts|apply (Hi v)].
Qed.

(** Backend keys are unusable: without --key-hex, a run that asks for a key of a backend
    (by --use-keyring or --salt-hex) fails, for every backend, build, salt and content of the
    keyring, because the command line insists on a 16-byte salt and the keyring backend on 32
    bytes.  Decryption leaves the files as they were; encryption has emptied its output. *)
Theorem backend_keys_unusable (kf : bool) (a : Args) (env : StreamEnv) (s : fs) :
  ar_key_hex a = None → ar_use_keyring a = true ∨ is_Some (ar_salt_hex a) →
  (∃ e, decrypt_envelope kf a env s = (Err e, s))
  ∧ ∃ e s', encrypt_file kf a env s = (Err e, s')
      ∧ (s' = s ∨ ∃ p, ar_out a = Some p ∧ s' = <[p := File []]> s).
Proof.
  intros Hk Hb. assert (∀ m s0, ∃ e, select_aes_key_with_backend kf a env m s0 = (Err e, s0)) as Hsel.
  { intros m s0. unfold select_aes_key_with_backend. rewrite Hk. destruct (backend_key_err kf a) as [e He].
    exists e. unfold io_lift. rewrite He. case_match eqn:E; [done|].
    apply orb_false_iff in E as [E1 E2%bool_decide_eq_false]. destruct Hb; [congruence|done]. }
  split.
  - destruct (Hsel Decrypt s) as [e He]. exists e. unfold decrypt_envelope.
    by rewrite (io_bind_err _ _ _ _ _ He).
  - enough (∃ e s', encrypt_with kf (file_input a env) a env s = (Err e, s')
      ∧ (s' = s ∨ ∃ p, ar_out a = Some p ∧ s' = <[p := File []]> s)) as (e & s' & He & Hs').
    { exists e, s'. split; [|done]. unfold encrypt_file. by rewrite (io_bind_err _ _ _ _ _ He). }
    unfold encrypt_with, io_lift, io_context, mbind, io_bind, io_map_err.
    repeat (case_match; simplify_eq; [|by eauto]).
    match goal with |- context [create_write ?p [] s] => rename p into op end.
    destruct (create_write op [] s) as [[[]|e] s0] eqn:Hc; cbn.
    + apply create_write_inv in Hc as (-> & _). destruct (Hsel Encrypt (<[op := File []]> s)) as [e ->].
      exists e, (<[op := File []]> s). split; [done|]. right. exists op. split; [|done].
      by match goal with E : ok_or (ar_out a) _ = Ok _ |- _ => apply ok_or_ok in E end.
    + exists (anyhow "create output"), s0. split; [done|]. left. unfold create_write in Hc.
      repeat case_match; by simplify_eq.
Qed.

(** Encrypting a file in place destroys it: when the output is the input, a run that
    succeeds has read nothing, has left the file empty and has put no record into the
    envelope. *)
Theorem in_place_encryption_destroys (kf : bool) (a : Args) (env : StreamEnv) (s s1 : fs) (p ep : path)
    (n_in n_out : N) :
  wf_stream_env env → ar_input a = Some p → ar_out a = Some p → ar_envelope a = Some ep → ep ≠ p →
  ar_key_out a ≠ Some p → ar_key_out a ≠ Some ep →
  encrypt_file kf a env s = (Ok (n_in, n_out), s1) →
  n_in = 0%N ∧ n_out = 0%N ∧ s1 !! p = Some (File [])
  ∧ ∃ header, write_stream_header (header_of (stream_header_of a env)) [] = Ok header
      ∧ s1 !! ep = Some (File header).
Proof.
  intros Hwf Hi Ho He Hne Hkp Hke Hrun.
  apply encrypt_file_with in Hrun.
  destruct (encrypt_with_steps _ _ _ _ _ _ _ _ _ _ Hwf Ho He (not_eq_sym Hne) Hkp Hrun) as
    (src & key & hb & s_key & st & Hc & Hsrc & Hkey & Hq & Hop & Hhb & Hae & Hed & Hin%file_input_ok & -> & -> & ->).
  apply (encrypt_input_ok _ _ _ _ _ _ _ _ p) in Hin as (-> & fuel & Hloop); [|lia|done|done].
  unfold opened_content in Hloop. rewrite lookup_insert_ne, Hop in Hloop by done.
  destruct (stream_header_session a env Hwf Hc) as [_ Hcs].
  apply (encrypt_loop_stream _ _ _ _ _ ep) in Hloop as (cs & bs & tail & Hr & _ & Hs & Hev & Hout & Hi' & Ho');
    [|done|lia|done].
  symmetry in Hr. apply app_eq_nil in Hr as [Hnil _].
  assert (bs = []) as ->.
  { destruct Hs as [|? ? c]; [done|]. cbn in Hnil. by apply app_eq_nil in Hnil as [-> _]. }
  rewrite Hnil in *. cbn in Hev, Hout, Hi', Ho'. rewrite app_nil_r in Hev.
  rewrite Hi', Ho', Hev, Hout. split_and!; [done..|rewrite lookup_insert_ne, lookup_insert_eq by done|].
  - by destruct (ar_no_plaintext a).
  - exists hb. by rewrite lookup_insert_eq.
Qed.
End Theorems.

(** * Witnesses *)

From S2P Require Import Reference ReferenceCodec ReferenceStream.

Definition demo_in : path := [lit "in.txt"].
Definition demo_out : path := [lit "copy"].
Definition demo_env_path : path := [lit "in.trst"].
Definition demo_back : path := [lit "back"].
Definition demo_args : Args :=
  mkArgs (Some demo_in) (Some demo_out) 4 (Some demo_env_path) false false None (Some [lit "key"]) None None
    false (lit "keyring") false false false 44100 1 0 false false.
Definition demo_stream_env : StreamEnv :=
  mkStreamEnv (replicate 32 "k"%char) (replicate 32 "s"%char) (lit "abcd") (replicate 16 "i"%char) None None
    (λ k, N.of_nat k) (λ _, 0%N) (λ k, if (k =? 1)%nat then 2%N else 100%N).
Definition demo_content : bytes := lit "hello, world".
Definition demo_fs : fs := {[ demo_in := File demo_content ]}.
Definition demo_run : result CliError (N * N) * fs := encrypt_file false demo_args demo_stream_env demo_fs.
Definition demo_decrypt : Args :=
  mkArgs (Some demo_env_path) (Some demo_back) 4096 None false true
    (Some (session_key_hex demo_args demo_stream_env)) None None None
    false (lit "keyring") false false false 44100 1 0 false false.

Lemma demo_wf : wf_stream_env demo_stream_env.
Proof. by split. Qed.
Lemma demo_separate : separate_files demo_args demo_in demo_out demo_env_path.
Proof. split; done. Qed.
Lemma demo_runs : demo_run = (Ok (12%N, 12%N), demo_run.2).
Proof.
  assert (demo_run.1 = Ok (12%N, 12%N)) as <- by (vm_compute; reflexivity). apply surjective_pairing.
Qed.

Lemma stream_roundtrip_witness :
  (decrypt_envelope true demo_decrypt demo_stream_env demo_run.2).2 !! demo_back = Some (File demo_content)
  ∧ ∃ cs tail, demo_content = concat cs ++ tail ∧ tail = [].
Proof.
  split; [vm_compute; reflexivity|].
  destruct (stream_roundtrip false true demo_args demo_decrypt demo_stream_env demo_stream_env demo_fs demo_run.2
    demo_in demo_out demo_env_path demo_back demo_content 12 12 demo_wf demo_separate)
    as (cs & tail & Hc & Ht & _).
  - reflexivity.
  - exact demo_runs.
  - reflexivity.
  - reflexivity.
  - reflexivity.
  - vm_compute. discriminate.
  - vm_compute. reflexivity.
  - vm_compute. discriminate.
  - exists cs, tail. split; [exact Hc|]. apply Ht. reflexivity.
Defined.

Lemma truncated_stream_accepted_witness :
  ∃ key header body cs, demo_run.2 !! demo_env_path = Some (File (header ++ body)) ∧
    ∃ k, (decrypt_stream key (header ++ take 5 body)).1 = concat (take k cs).
Proof.
  destruct (truncated_stream_accepted false demo_args demo_stream_env demo_fs demo_run.2
    demo_in demo_out demo_env_path demo_content 12 12 demo_wf demo_separate)
    as (key & header & body & cs & Hk & He & Hn & Hne & Hcut).
  - reflexivity.
  - exact demo_runs.
  - exists key, header, body, cs. split; [exact He|].
    destruct (Hcut ltac:(vm_compute; discriminate)) with (n := 5) as (k & Hd & _).
    + assert (length cs ≤ length (concat cs)) as Hl.
      { clear -Hne. induction Hne as [|c cs Hc _ IH]; cbn; [lia|]. rewrite length_app.
        destruct c; [done|]. cbn. lia. }
      unfold len_N, MAX_RECORDS_PER_STREAM in *. lia.
    + vm_compute. discriminate.
    + exists k. by rewrite Hd.
Defined.

Lemma backend_keys_unusable_witness :
  ∃ e, decrypt_envelope true
    (mkArgs (Some demo_env_path) (Some demo_back) 4096 None false true None None None
      (Some (lit "00112233445566778899aabbccddeeff")) true (lit "keyring") false false false 44100 1 0 false false)
    demo_stream_env demo_run.2 = (Err e, demo_run.2).
Proof.
  apply (backend_keys_unusable true (mkArgs (Some demo_env_path) (Some demo_back) 4096 None false true None None None
    (Some (lit "00112233445566778899aabbccddeeff")) true (lit "keyring") false false false 44100 1 0 false false)
    demo_stream_env demo_run.2).
  - reflexivity.
  - left. reflexivity.
Defined.

Definition in_place_args : Args :=
  mkArgs (Some demo_in) (Some demo_in) 4 (Some demo_env_path) false false None (Some [lit "key"]) None None
    false (lit "keyring") false false false 44100 1 0 false false.
Lemma in_place_encryption_destroys_witness :
  ∃ s1, encrypt_file false in_place_args demo_stream_env demo_fs = (Ok (0%N, 0%N), s1)
    ∧ s1 !! demo_in = Some (File []).
Proof.
  exists (encrypt_file false in_place_args demo_stream_env demo_fs).2.
  assert (encrypt_file false in_place_args demo_stream_env demo_fs
    = (Ok (0%N, 0%N), (encrypt_file false in_place_args demo_stream_env demo_fs).2)) as Hr.
  { assert ((encrypt_file false in_place_args demo_stream_env demo_fs).1 = Ok (0%N, 0%N)) as <-
      by (vm_compute; reflexivity).
    apply surjective_pairing. }
  split; [exact Hr|].
  apply (in_place_encryption_destroys false in_place_args demo_stream_env demo_fs _ demo_in demo_env_path 0 0).
  - exact demo_wf.
  - reflexivity.
  - reflexivity.
  - reflexivity.
  - vm_compute. discriminate.
  - vm_compute. discriminate.
  - vm_compute. discriminate.
  - exact Hr.
Defined.

(** The envelope of the example, cut after forty bytes. *)
Definition demo_cut : bytes :=
  match demo_run.2 !! demo_env_path with Some (File c) => take 40 c | _ => [] end.
Lemma decryption_releases_accepted_witness :
  no_panic (decrypt_stream (se_key demo_stream_env) demo_cut).2.
Proof.
  pose proof (decryption_releases_accepted (se_key demo_stream_env) demo_cut) as Hd.
  destruct (decrypt_stream (se_key demo_stream_env) demo_cut) as [w res]. exact (proj1 Hd).
Defined.
