(* ===== verification/AudioTheorems.v ===== *)
(** * Properties of live audio

    The callback loses, repeats and reorders nothing; the reader of the command line keeps only
    the beginning of each chunk, and what is decrypted later is exactly that. *)

From S2P Require Import Prelude External Utf8 FileSystem Format Backends VerifyChronicle Stream Audio.

(** ** Samples as bytes *)

Lemma samples_to_bytes_app l l' : samples_to_bytes (l ++ l') = samples_to_bytes l ++ samples_to_bytes l'.
Proof. unfold samples_to_bytes. by rewrite fmap_app, concat_app. Qed.

Lemma length_samples_to_bytes l : length (samples_to_bytes l) = 4 * length l.
Proof. induction l as [|x l IH]; [done|]. unfold samples_to_bytes in *. cbn [fmap list_fmap concat]. rewrite length_app, length_le_bytes, IH. cbn. lia. Qed.

Lemma samples_roundtrip l : Forall (λ x, x < 2 ^ 32)%N l → samples_of_bytes (samples_to_bytes l) = l.
Proof.
  induction 1 as [|x l Hx _ IH]; [done|].
  change (samples_to_bytes (x :: l)) with (le_bytes 4 x ++ samples_to_bytes l).
  cbn [le_bytes app samples_of_bytes]. rewrite IH. f_equal.
  change (of_le_bytes (le_bytes 4 x) = x). rewrite of_le_bytes_le_bytes. by apply N.mod_small.
Qed.

(** A chunk of f32 samples survives the conversion to bytes and back. *)
Lemma audio_bytes_roundtrip (c : AudioChunk) (now : N) :
  Forall (λ x, x < 2 ^ 32)%N (ac_data c) →
  audio_from_bytes now (audio_to_bytes c) (ac_sample_rate c) (ac_channels c) (ac_sequence c)
  = Ok (mkAudioChunk (ac_data c) now (ac_sample_rate c) (ac_channels c) (ac_sequence c)).
Proof.
  intros Hd. unfold audio_from_bytes, audio_to_bytes. rewrite length_samples_to_bytes, Nat2N.inj_mul, N.mul_comm.
  rewrite N.Div0.mod_mul. cbn. by rewrite samples_roundtrip.
Qed.

(** Blocks of [n] samples are determined by their position. *)
Lemma block_at {A} (n : nat) (bs : list (list A)) (rest all : list A) (i : nat) (b : list A) :
  Forall (λ b, length b = n) bs → concat bs ++ rest = all → bs !! i = Some b → b = take n (drop (i * n) all).
Proof.
  intros Hn. revert all i. induction Hn as [|b0 bs Hb _ IH]; intros all i <- Hi; [done|]. cbn [concat].
  rewrite <-app_assoc. destruct i as [|i]; cbn in Hi |- *.
  - injection Hi as <-. by rewrite drop_0, take_app_length'.
  - rewrite (IH _ _ eq_refl Hi). f_equal. rewrite <-Hb, drop_app_add. done.
Qed.

Lemma length_blocks {A} (n : nat) (bs : list (list A)) :
  Forall (λ b, length b = n) bs → length (concat bs) = length bs * n.
Proof. induction 1 as [|b bs Hb _ IH]; [done|]. cbn. by rewrite length_app, IH, Hb. Qed.

Section Capture.
Context `{AudioHost}.

(** The samples of callbacks, as the stream converts them *)
Definition batch_samples (f : SampleFormat) (bs : list Batch) : list N :=
  concat ((λ b, omap (sample_to_f32 f) (ba_samples b)) <$> bs).

(** [a] is a capture whose callbacks have got [samples], of which the chunks [taken] have been
    received: chunks and buffer are the samples in order, in blocks of [n], numbered from 1. *)
Record captured (f : SampleFormat) (n : N) (samples : list N) (taken : list AudioChunk) (a : AudioCapture)
    (s : CaptureStream) (q : list AudioChunk) : Prop := {
  cd_stream : cp_stream a = Some s;
  cd_channel : cp_channel a = Some q;
  cd_connected : cs_connected s = true;
  cd_format : cs_format s = f;
  cd_size : cs_chunk_samples s = n;
  cd_samples : concat (ac_data <$> taken ++ q) ++ cs_buffer s = samples;
  cd_blocks : Forall (λ c, length (ac_data c) = N.to_nat n) (taken ++ q);
  cd_numbers : ac_sequence <$> taken ++ q = (λ i, as_u64 (N.of_nat i)) <$> seq 1 (length (taken ++ q));
  cd_counter : cp_sequence_counter a = as_u64 (N.of_nat (length (taken ++ q)));
}.

Lemma as_u64_succ (x : N) : wrapping_add64 (as_u64 x) 1 = as_u64 (x + 1).
Proof. unfold wrapping_add64, as_u64. by rewrite N.Div0.add_mod_idemp_l. Qed.

Lemma initialize_captured (c : AudioConfig) (a : AudioCapture) :
  initialize (audio_capture_new c) = (a, Ok tt) →
  ∃ f s, captured f (chunk_duration_samples c) [] [] a s [] ∧ cs_buffer s = [].
Proof.
  unfold initialize. intros Hi. destruct (_ ≫= _) as [[d f]|] in Hi; [|done].
  destruct (stream_for _ d f) as [s|] eqn:Es; [|done]. injection Hi as <-.
  assert (create_stream c d f = Ok s) as Hc by (by destruct f). unfold create_stream in Hc. inv_ok.
  exists f, (mkCaptureStream f (chunk_duration_samples c) [] true false). split; [|done]. by constructor.
Qed.

(** One callback *)
Lemma on_data_captured f n samples taken a s q b :
  captured f n samples taken a s q →
  ∃ s' q', captured f n (samples ++ omap (sample_to_f32 f) (ba_samples b)) taken (on_data a b) s' q'.
Proof.
  intros [Hs Hq Hcon Hf Hn Hsam Hbl Hnum Hcnt]. unfold on_data. rewrite Hs, Hf, Hn, Hcon, Hq.
  set (new := omap (sample_to_f32 f) (ba_samples b)).
  destruct (Nat.leb_spec (N.to_nat n) (length (cs_buffer s ++ new))) as [Hle|Hgt].
  - eexists _, _. constructor; cbn [cp_stream cp_channel cs_connected cs_format cs_chunk_samples cs_buffer
      cp_sequence_counter fmap option_fmap option_map]; try done.
    + rewrite app_assoc, fmap_app, concat_app. cbn. rewrite app_nil_r, <-app_assoc, take_drop, app_assoc.
      by rewrite Hsam.
    + rewrite app_assoc. apply Forall_app. split; [done|]. constructor; [|done]. cbn.
      rewrite length_take. lia.
    + rewrite (app_assoc taken), fmap_app, Hnum, (length_app (taken ++ q)), Nat.add_1_r, seq_S, fmap_app. cbn.
      by rewrite Hcnt, as_u64_succ, N.add_1_r, <-Nat2N.inj_succ.
    + by rewrite Hcnt, as_u64_succ, (app_assoc taken), (length_app (taken ++ q)), Nat2N.inj_add.
  - exists (mkCaptureStream f n (cs_buffer s ++ new) true (cs_playing s)), q. constructor; try done.
    cbn [cs_buffer]. by rewrite app_assoc, Hsam.
Qed.

Lemma callbacks_captured f n samples taken a s q bs :
  captured f n samples taken a s q →
  ∃ s' q', captured f n (samples ++ batch_samples f bs) taken (foldl on_data a bs) s' q'.
Proof.
  revert samples a s q. induction bs as [|b bs IH]; intros samples a s q Hc.
  { exists s, q. unfold batch_samples. cbn. by rewrite app_nil_r. }
  destruct (on_data_captured _ _ _ _ _ _ _ b Hc) as (s' & q' & Hc'). cbn.
  destruct (IH _ _ _ _ Hc') as (s'' & q'' & Hc''). exists s'', q''. unfold batch_samples in *. cbn.
  by rewrite app_assoc.
Qed.

(** Receiving *)
Lemma take_captured f n samples taken a s c q :
  captured f n samples taken a s (c :: q) → captured f n samples (taken ++ [c]) (set_channel q a) s q.
Proof.
  intros [Hs Hq Hcon Hf Hn Hsam Hbl Hnum Hcnt].
  assert ((taken ++ [c]) ++ q = taken ++ c :: q) as Heq by by rewrite <-app_assoc.
  constructor; rewrite ?Heq; done.
Qed.

Lemma try_next_captured f n samples taken a s q r a' :
  captured f n samples taken a s q → try_next_chunk a = Ok (r, a') →
  match r with
  | Some c => ∃ q', q = c :: q' ∧ captured f n samples (taken ++ [c]) a' s q'
  | None => q = [] ∧ a' = a
  end.
Proof.
  intros Hc. unfold try_next_chunk. rewrite (cd_channel _ _ _ _ _ _ _ Hc).
  destruct q as [|c q']; cbn; intros [= <- <-]; [done|]. eauto using take_captured.
Qed.

(** ** The events of a capture *)

Inductive CaptureEvent := EvData (b : Batch) | EvTake.
Definition capture_step (st : AudioCapture * list AudioChunk) (e : CaptureEvent) : AudioCapture * list AudioChunk :=
  match e with
  | EvData b => (on_data st.1 b, st.2)
  | EvTake =>
      match try_next_chunk st.1 with
      | Ok (Some c, a') => (a', st.2 ++ [c])
      | _ => st
      end
  end.
Definition event_batches (es : list CaptureEvent) : list Batch :=
  omap (λ e, match e with EvData b => Some b | EvTake => None end) es.

(** From initialization on, whatever the device delivers and whenever chunks are taken, the chunks
    taken, then those waiting in the channel, then the buffer are the samples delivered, in
    order and without a gap; every chunk has the configured number of samples, and the chunks
    are numbered from 1. *)
Theorem capture_in_order (c : AudioConfig) (a a' : AudioCapture) (es : list CaptureEvent) (taken : list AudioChunk) :
  initialize (audio_capture_new c) = (a, Ok tt) → foldl capture_step (a, []) es = (a', taken) →
  ∃ f s q, captured f (chunk_duration_samples c) (batch_samples f (event_batches es)) taken a' s q.
Proof.
  intros (f & s0 & Hinit & _)%initialize_captured Hrun. exists f.
  assert (∀ samples st, (∃ s q, captured f (chunk_duration_samples c) samples st.2 st.1 s q) →
    ∃ s q, captured f (chunk_duration_samples c) (samples ++ batch_samples f (event_batches es))
      (foldl capture_step st es).2 (foldl capture_step st es).1 s q) as Hstep.
  { clear. induction es as [|e es IH]; intros samples st (s & q & Hc).
    { exists s, q. unfold batch_samples. cbn. by rewrite app_nil_r. }
    destruct e as [b|]; cbn [foldl event_batches omap list_omap].
    - destruct (on_data_captured _ _ _ _ _ _ _ b Hc) as (s' & q' & Hc').
      destruct (IH (samples ++ omap (sample_to_f32 f) (ba_samples b)) (capture_step st (EvData b))) as (s2 & q2 & H2);
        [by eauto|]. exists s2, q2. unfold batch_samples in *. cbn. by rewrite app_assoc.
    - apply IH. cbn. destruct (try_next_chunk st.1) as [[[ch|] a1]|] eqn:E; [|by eauto..].
      apply (try_next_captured _ _ _ _ _ _ _ _ _ Hc) in E as (q' & _ & Hc'). eauto. }
  destruct (Hstep [] (a, [])) as (s & q & Hc); [by eauto|]. rewrite Hrun in Hc. eauto.
Qed.

Lemma omap_shorter {A B} (g : A → option B) (l : list A) : length (omap g l) ≤ length l.
Proof. induction l as [|x l IH]; cbn; [done|]. destruct (g x); cbn; lia. Qed.

(** The buffer stays shorter than a chunk as long as no callback brings more than a chunk; as a run
    of the callback takes out one chunk at most, a device that brings more fills the buffer
    without bound. *)
Lemma buffer_bounded f n samples taken a s q b :
  captured f n samples taken a s q → (0 < n)%N → length (cs_buffer s) < N.to_nat n →
  length (ba_samples b) ≤ N.to_nat n →
  ∃ s', cp_stream (on_data a b) = Some s' ∧ length (cs_buffer s') < N.to_nat n.
Proof.
  intros [Hs _ _ _ Hn _ _ _ _] Hpos Hb Hlen. unfold on_data. rewrite Hs, Hn.
  pose proof (omap_shorter (sample_to_f32 (cs_format s)) (ba_samples b)) as Hom.
  destruct (Nat.leb_spec (N.to_nat n) (length (cs_buffer s ++ omap (sample_to_f32 (cs_format s)) (ba_samples b)))) as [Hle|Hgt];
    (eexists; split; [done|]); cbn [cs_buffer]; [|done].
  rewrite length_drop, length_app. lia.
Qed.
Lemma buffer_grows f n samples taken a s q b :
  captured f n samples taken a s q →
  ∃ s', cp_stream (on_data a b) = Some s'
    ∧ length (cs_buffer s) + length (omap (sample_to_f32 f) (ba_samples b)) ≤ length (cs_buffer s') + N.to_nat n.
Proof.
  intros [Hs _ _ <- Hn _ _ _ _]. unfold on_data. rewrite Hs, Hn.
  case_match; (eexists; split; [done|]); cbn [cs_buffer]; rewrite ?length_drop, length_app; lia.
Qed.

(** ** Reading *)

Definition sched_samples (f : SampleFormat) (sched : list (list Batch)) : list N := batch_samples f (concat sched).

Lemma batch_samples_app f bs bs' : batch_samples f (bs ++ bs') = batch_samples f bs ++ batch_samples f bs'.
Proof. unfold batch_samples. by rewrite fmap_app, concat_app. Qed.

Lemma poll_captured f n size sched samples taken a s q data a' sched' :
  captured f n samples taken a s q → poll_chunk size sched a = Some (Ok (data, a', sched')) →
  ∃ pre c s' q', sched = pre ++ sched' ∧ pre ≠ [] ∧ data = take_N size (audio_to_bytes c)
    ∧ captured f n (samples ++ sched_samples f pre) (taken ++ [c]) a' s' q'.
Proof.
  revert samples a s q. induction sched as [|g sched IH]; intros samples a s q Hc; [done|]. cbn [poll_chunk].
  destruct (callbacks_captured _ _ _ _ _ _ _ g Hc) as (s1 & q1 & Hc1).
  destruct (try_next_chunk (foldl on_data a g)) as [[[c|] a1]|] eqn:E; [| |done];
    apply (try_next_captured _ _ _ _ _ _ _ _ _ Hc1) in E.
  - destruct E as (q' & _ & Hc'). intros [= <- <- <-]. exists [g], c, s1, q'. unfold sched_samples. cbn.
    by rewrite app_nil_r.
  - destruct E as [_ ->]. intros Hp. destruct (IH _ _ _ _ Hc1 Hp) as (pre & c & s' & q' & -> & _ & Hd & Hc').
    exists (g :: pre), c, s', q'. unfold sched_samples in *. cbn [concat].
    by rewrite batch_samples_app, app_assoc.
Qed.

Lemma start_captured f n samples taken a s q a' r :
  captured f n samples taken a s q → capture_start a = (a', r) → ∃ s', captured f n samples taken a' s' q.
Proof.
  intros Hc. unfold capture_start. rewrite (cd_stream _ _ _ _ _ _ _ Hc).
  destruct stream_play; intros [= <- <-]; [|by eauto].
  destruct Hc as [Hs Hq Hcon Hf Hn Hsam Hbl Hnum Hcnt].
  exists (mkCaptureStream (cs_format s) (cs_chunk_samples s) (cs_buffer s) (cs_connected s) true).
  constructor; try done. cbn. by rewrite Hs.
Qed.

Lemma read_captured f n size sched samples taken r s q data r' sched' :
  captured f n samples taken (rd_capture r) s q →
  audio_read_chunk size sched r = Some (Ok (data, r', sched')) →
  ∃ pre c s' q', sched = pre ++ sched' ∧ pre ≠ [] ∧ data = take_N size (audio_to_bytes c)
    ∧ captured f n (samples ++ sched_samples f pre) (taken ++ [c]) (rd_capture r') s' q'.
Proof.
  intros Hc. unfold audio_read_chunk.
  destruct (if rd_started r then _ else _) as [a|] eqn:E; [|done].
  assert (∃ s1, captured f n samples taken a s1 q) as [s1 Hc1].
  { destruct (rd_started r); [injection E as <-; by eauto|].
    destruct (capture_start (rd_capture r)) as [a1 [[]|]] eqn:Es; [|done]. injection E as <-.
    eauto using start_captured. }
  destruct (poll_chunk size sched a) as [[[[d a1] sc]|]|] eqn:Ep; [|done..]. intros [= <- <- <-].
  cbn. eauto using poll_captured.
Qed.
End Capture.

(** ** Encryption *)

Section Live.
Context `{Blake3Laws} `{HexLaws} `{Ed25519Laws} `{AeadLaws} `{KdfLaws} `{OsKeyring} `{UnicodeCase}
  `{BincodeLaws StreamHeader} `{BincodeLaws StreamHeaderV1} `{BincodeLaws StreamManifest}
  `{RecordCodecLaws} `{AudioHost}.

(** What the reader keeps of a chunk *)
Definition kept (a : Args) (c : AudioChunk) : bytes := take_N (ar_chunk a) (audio_to_bytes c).

(** From [st] to [st'] the loop took the chunks [new] and recorded what the reader keeps of them. *)
Definition live_recorded a env key fh dt f n samples taken (sched : list (list Batch)) (st st' : EncryptState)
    : Prop :=
  ∃ pre post cs bs new a' s' q', sched = pre ++ post
    ∧ captured f n (samples ++ sched_samples f pre) (taken ++ new) a' s' q'
    ∧ concat cs = concat (kept a <$> new)
    ∧ stream_of key (se_signing env) fh dt (es_seq st + 1) cs bs
    ∧ es_envelope st' = es_envelope st ++ concat bs
    ∧ es_out st' = (if ar_no_plaintext a then es_out st else es_out st ++ concat cs)
    ∧ es_total_in st' = (es_total_in st + len_N (concat cs))%N
    ∧ es_total_out st' = (es_total_out st + len_N (concat cs))%N.

Lemma live_recorded_end a env key fh dt f n samples taken r s q sched st :
  captured f n samples taken (rd_capture r) s q → live_recorded a env key fh dt f n samples taken sched st st.
Proof.
  intros Hc. exists [], sched, [], [], [], (rd_capture r), s, q.
  unfold sched_samples, batch_samples. cbn. rewrite !app_nil_r, !N.add_0_r.
  split_and!; [done|done|done|constructor|done|by destruct (ar_no_plaintext a)|done|done].
Qed.

Lemma sched_samples_app f pre pre' : sched_samples f (pre ++ pre') = sched_samples f pre ++ sched_samples f pre'.
Proof. unfold sched_samples. by rewrite concat_app, batch_samples_app. Qed.

(** A chunk of which nothing is kept *)
Lemma live_recorded_skip a env key fh dt f n samples taken c pre sched st st' :
  kept a c = [] → live_recorded a env key fh dt f n (samples ++ sched_samples f pre) (taken ++ [c]) sched st st' →
  live_recorded a env key fh dt f n samples taken (pre ++ sched) st st'.
Proof.
  intros He (pre' & post & cs & bs & new & a' & s' & q' & -> & Hc' & Hcs & Hrest).
  exists (pre ++ pre'), post, cs, bs, (c :: new), a', s', q'. rewrite <-!app_assoc in Hc'.
  rewrite sched_samples_app, <-app_assoc. cbn [fmap list_fmap concat]. by rewrite He.
Qed.

(** A chunk of which something is recorded *)
Lemma live_recorded_step a env key fh dt p f n samples taken c pre sched k st st1 st' :
  ar_envelope a = Some p → fh_chunk_size fh = ar_chunk a → kept a c ≠ [] →
  encrypt_step a env key fh dt k st (kept a c) = (st1, Ok tt) →
  live_recorded a env key fh dt f n (samples ++ sched_samples f pre) (taken ++ [c]) sched st1 st' →
  live_recorded a env key fh dt f n samples taken (pre ++ sched) st st'.
Proof.
  intros Hp Hfh He Hst. apply (encrypt_step_ok _ _ _ _ _ _ _ _ _ p Hp) in Hst as (ts & rec & b & Hseq & Hchunk & Hw & ->).
  intros (pre' & post & cs & bs & new & a' & s' & q' & -> & Hc' & Hcs & Hs & Henv & Hout & Hin & Hto).
  exists (pre ++ pre'), post, (kept a c :: cs), (b :: bs), (c :: new), a', s', q'.
  cbn in Hs, Henv, Hout, Hin, Hto. rewrite <-!app_assoc in Hc'.
  rewrite sched_samples_app, <-app_assoc. cbn [fmap list_fmap concat]. rewrite !len_N_app, !N.add_assoc.
  split_and!; [done|done|by rewrite Hcs| | | |done|done].
  - econstructor; eauto. unfold kept. rewrite Hfh, len_take_N. lia.
  - by rewrite Henv, app_assoc.
  - rewrite Hout. destruct (ar_no_plaintext a); [done|]. by rewrite app_assoc.
Qed.

(** The loop records what the reader keeps of every chunk it takes; empty reads are skipped. *)
Lemma live_loop_stream a env key fh dt p f n fuel k st r sched samples taken s q st' :
  ar_envelope a = Some p → fh_chunk_size fh = ar_chunk a →
  captured f n samples taken (rd_capture r) s q →
  live_loop a env key fh dt fuel k st r sched = (st', Some (Ok tt)) →
  live_recorded a env key fh dt f n samples taken sched st st'.
Proof.
  intros Hp Hfh. revert k st r sched samples taken s q.
  induction fuel as [|fu IH]; intros k st r sched samples taken s q Hc; [done|].
  cbn [live_loop]. destruct (time_is_up a env k).
  { intros [= <-]. eauto using live_recorded_end. }
  destruct (audio_read_chunk (ar_chunk a) sched r) as [[[[data r'] sched']|]|] eqn:Er; [|done..].
  destruct (read_captured _ _ _ _ _ _ _ _ _ _ _ _ Hc Er) as (pre & c & s1 & q1 & -> & _ & -> & Hc1).
  fold (kept a c). destruct (is_empty (kept a c)) eqn:He.
  - apply is_empty_true in He. intros Hl. apply (live_recorded_skip _ _ _ _ _ _ _ _ _ c); [done|].
    destruct (0 <? ar_max_duration a)%N; [by eauto|]. injection Hl as <-. eauto using live_recorded_end.
  - apply is_empty_false in He. destruct (encrypt_step _ _ _ _ _ _ _ _) as [st1 [[]|e]] eqn:Hst; [|done].
    eauto using live_recorded_step.
Qed.

(** The recording of [j] chunks of [n] samples from [samples], of each the first [size] bytes *)
Definition recording (size : N) (n j : nat) (samples : list N) : bytes :=
  concat ((λ i, take_N size (samples_to_bytes (take n (drop (i * n) samples)))) <$> seq 0 j).

Lemma captured_recording f n samples taken a s q (ar : Args) :
  captured f n samples taken a s q →
  concat (kept ar <$> taken) = recording (ar_chunk ar) (N.to_nat n) (length taken) samples
  ∧ length taken * N.to_nat n ≤ length samples.
Proof.
  intros [_ _ _ _ _ Hsam Hbl _ _]. rewrite fmap_app, concat_app, <-app_assoc in Hsam.
  apply Forall_app in Hbl as [Hbl _].
  assert (Forall (λ b, length b = N.to_nat n) (ac_data <$> taken)) as Hb by by apply Forall_fmap.
  split.
  - unfold recording. f_equal. apply list_eq. intros i. rewrite !list_lookup_fmap.
    destruct (taken !! i) as [c|] eqn:Ei; cbn.
    + rewrite lookup_seq_lt by by eapply lookup_lt_Some. cbn. unfold kept, audio_to_bytes. do 3 f_equal.
      eapply block_at; [exact Hb|exact Hsam|]. by rewrite list_lookup_fmap, Ei.
    + apply lookup_ge_None in Ei. by rewrite lookup_ge_None_2 by by rewrite length_seq.
  - rewrite <-Hsam, length_app, (length_blocks _ _ Hb), length_fmap. lia.
Qed.

(** When a chunk fits the reads, nothing is lost; otherwise each chunk loses its end. *)
Lemma recording_lossless size n j samples :
  (N.of_nat (4 * n) ≤ size)%N → j * n ≤ length samples →
  recording size n j samples = samples_to_bytes (take (j * n) samples).
Proof.
  intros Hsize. unfold recording. induction j as [|j IH]; intros Hl; [done|].
  rewrite seq_S, fmap_app, concat_app, IH by lia. cbn [fmap list_fmap concat Nat.add]. rewrite app_nil_r.
  rewrite take_N_all, <-samples_to_bytes_app.
  - f_equal. replace (S j * n) with (j * n + n) by lia. apply take_take_drop.
  - unfold len_N. rewrite length_samples_to_bytes, length_take. lia.
Qed.
Lemma recording_length size n j samples :
  j * n ≤ length samples → len_N (recording size n j samples) = (N.of_nat j * N.min size (N.of_nat (4 * n)))%N.
Proof.
  unfold recording. induction j as [|j IH]; intros Hl; [done|].
  rewrite seq_S, fmap_app, concat_app, len_N_app, IH by lia. cbn [fmap list_fmap concat Nat.add].
  rewrite app_nil_r, len_take_N. unfold len_N. rewrite length_samples_to_bytes, length_take, length_drop.
  replace (n `min` (length samples - j * n)) with n by lia. lia.
Qed.

(** The run of a live capture that came to its end *)
Lemma encrypt_live_ok (kf : bool) (a : Args) (env : StreamEnv) (dev : option bytes) (ms : N)
    (sched : list (list Batch)) (s s1 : fs) (op ep : path) (n_in n_out : N) :
  wf_stream_env env → ar_live_capture a = true → ar_out a = Some op → ar_envelope a = Some ep → op ≠ ep →
  ar_key_out a ≠ Some op → encrypt_live kf a env dev ms sched s = (Ok (Some (n_in, n_out)), s1) →
  ∃ key hb f cs bs j,
    let fh := stream_header_of a env in
    let n := N.to_nat (chunk_duration_samples (live_config a dev ms)) in
    let samples := sched_samples f sched in
    parse_key_hex (session_key_hex a env) = Ok key
    ∧ session_header fh ∧ fh_chunk_size fh = ar_chunk a
    ∧ write_stream_header (header_of fh) [] = Ok hb
    ∧ stream_of key (se_signing env) fh (determine_data_type LiveAudio a) 1 cs bs
    ∧ concat cs = recording (ar_chunk a) n j samples ∧ j * n ≤ length samples
    ∧ n_in = len_N (concat cs) ∧ n_out = len_N (concat cs)
    ∧ s1 !! ep = Some (File (hb ++ concat bs)) ∧ ancestor_error ep s1 = None
    ∧ s1 !! op = Some (File (if ar_no_plaintext a then [] else concat cs)).
Proof.
  intros Hwf Hl Ho He Hoe Hko Hrun.
  destruct (encrypt_with_steps _ _ _ _ _ _ _ _ _ _ Hwf Ho He Hoe Hko Hrun) as
    (src & key & hb & s_key & st & Hc & Hsrc & Hkey & Hq & Hop & Hhb & Hae & Hed & Hin & -> & -> & ->).
  unfold input_source in Hsrc. rewrite Hl in Hsrc. apply Ok_inj in Hsrc as <-.
  destruct (stream_header_session a env Hwf Hc) as [Hsess Hcs]. cbn [live_input] in Hin.
  destruct (audio_reader_new _) as [r|] eqn:Er; [|done]. unfold audio_reader_new in Er.
  destruct (initialize _) as [a0 [[]|]] eqn:Ei; [|done]. apply Ok_inj in Er as <-.
  destruct (initialize_captured _ _ Ei) as (f & s0 & Hcap & _).
  destruct (live_loop_stream a env key _ _ ep f _ _ _ _ (mkAudioInputReader a0 false) _ _ _ _ _ _ He Hcs Hcap Hin)
    as (pre & post & cs & bs & new & a' & s' & q' & -> & Hcap' & Hcat & Hs & Hev & Hout & Hi' & Ho').
  cbn in Hs, Hev, Hout, Hi', Ho', Hcap'. destruct (captured_recording _ _ _ _ _ _ _ a Hcap') as [Hrec Hlen].
  destruct (run_files op ep (es_out st) (es_envelope st) s_key Hoe Hop Hae Hed) as (He1 & He2 & He3).
  exists key, hb, f, cs, bs, (length new). cbn zeta. rewrite sched_samples_app, length_app.
  split_and!; try done; [|lia|by rewrite He1, Hev|rewrite He3, Hout; by destruct (ar_no_plaintext a)].
  rewrite Hcat, Hrec. unfold recording. f_equal. apply list_fmap_ext. intros k i [? Hk]%lookup_seq.
  do 2 f_equal. rewrite drop_app_le by nia. symmetry. apply take_app_le. rewrite length_drop. nia.
Qed.

(** C40. What a live capture records is exactly this: of every chunk of [n] samples that the loop takes, in
    the order of the samples that the device delivered and without a gap between chunks, the
    first [--chunk] bytes; the rest of the chunk is lost.  The envelope decrypts to that
    recording when it keeps the limits of a stream.  Only when four bytes a sample fit the
    chunk size is the recording the samples themselves; with the default options 4096 of
    176400 bytes of a second are kept. *)
Theorem live_recording_exact (kf kf' : bool) (a d : Args) (env env' : StreamEnv) (dev : option bytes) (ms : N)
    (sched : list (list Batch)) (s s1 : fs) (op ep dp : path) (n_in n_out : N) :
  wf_stream_env env → ar_live_capture a = true → ar_out a = Some op → ar_envelope a = Some ep → op ≠ ep →
  ar_key_out a ≠ Some op → encrypt_live kf a env dev ms sched s = (Ok (Some (n_in, n_out)), s1) →
  ar_key_hex d = Some (session_key_hex a env) → ar_input d = Some ep → ar_out d = Some dp →
  dp ≠ ep → ancestor_error dp s1 = None → s1 !! dp ≠ Some Dir →
  ∃ f j cs,
    let n := N.to_nat (chunk_duration_samples (live_config a dev ms)) in
    let samples := sched_samples f sched in
    let recorded := recording (ar_chunk a) n j samples in
    j * n ≤ length samples ∧ concat cs = recorded
    ∧ n_in = (N.of_nat j * N.min (ar_chunk a) (N.of_nat (4 * n)))%N ∧ n_out = n_in
    ∧ ((N.of_nat (4 * n) ≤ ar_chunk a)%N → recorded = samples_to_bytes (take (j * n) samples))
    ∧ if (ar_chunk a <=? MAX_CHUNK_SIZE)%N && (N.of_nat (length cs) <=? MAX_RECORDS_PER_STREAM)%N
         && (n_in <=? MAX_STREAM_SIZE_BYTES)%N
      then decrypt_envelope kf' d env' s1 =
        (Ok (reported_type (determine_data_type LiveAudio a) cs, n_in), <[dp := File recorded]> s1)
      else ∃ m s2, decrypt_envelope kf' d env' s1 = (Err m, s2).
Proof.
  intros Hwf Hl Ho He Hoe Hko Hrun Hkh Hi Hod Hne Had Hdd.
  destruct (encrypt_live_ok _ _ _ _ _ _ _ _ _ _ _ _ Hwf Hl Ho He Hoe Hko Hrun) as
    (key & hb & f & cs & bs & j & Hkey & Hsess & Hcs & Hhb & Hs & Hcat & Hlen & Hin & Hout & Hep & Hae & Hop).
  exists f, j, cs. cbn zeta.
  assert (n_in = N.of_nat j * N.min (ar_chunk a) (N.of_nat (4 * N.to_nat (chunk_duration_samples (live_config a dev ms)))))%N
    as Hn by by rewrite Hin, Hcat, recording_length.
  split_and!; [done|done|done|congruence|intros Hfit; by apply recording_lossless|].
  rewrite Hin, <-Hcat. by eapply decrypt_written_envelope.
Qed.

(** While no chunk arrives, a run waits whatever the time limit: the reader does not come back. *)
Lemma silent_device_waits a env key fh dt fuel st r sched s f n samples taken :
  captured f n samples taken (rd_capture r) s [] → is_ok stream_play = true ∨ rd_started r = true →
  Forall (λ g, g = []) sched → time_is_up a env 0 = false →
  live_loop a env key fh dt (S fuel) 0 st r sched = (st, None).
Proof.
  intros Hc Hplay Hsched Ht. cbn [live_loop]. rewrite Ht. unfold audio_read_chunk.
  assert (∀ c s, captured f n samples taken c s [] → poll_chunk (ar_chunk a) sched c = None) as Hpoll.
  { clear -Hsched. intros c s Hc. induction Hsched as [|g sched -> _ IH]; [done|]. cbn. unfold try_next_chunk.
    by rewrite (cd_channel _ _ _ _ _ _ _ Hc). }
  destruct (rd_started r); [by rewrite (Hpoll _ _ Hc)|]. destruct Hplay as [Hplay|]; [|done].
  destruct (capture_start (rd_capture r)) as [c' res] eqn:Es.
  destruct (start_captured _ _ _ _ _ _ _ _ _ Hc Es) as [s' Hc'].
  unfold capture_start in Es. rewrite (cd_stream _ _ _ _ _ _ _ Hc) in Es.
  destruct stream_play; [|done]. injection Es as <- <-. by rewrite (Hpoll _ _ Hc').
Qed.
End Live.

(** The default options: a chunk is one second of mono, of which 4096 bytes are kept. *)
Example default_chunk_bytes : (4 * chunk_duration_samples audio_config_default = 176400)%N.
Proof. vm_compute. reflexivity. Qed.

(** The number of channels is left out of the size of a chunk: a chunk of interleaved stereo lasts half
    the configured time. *)
Example stereo_chunk_duration :
  let c := mkAudioConfig None 44100 2 1000 8192 in
  duration_ms (mkAudioChunk (replicate (N.to_nat (chunk_duration_samples c)) 0%N) 0 44100 2 1) = Some 500%N.
Proof. vm_compute. reflexivity. Qed.

(** ** Witnesses *)

From S2P Require Import Reference ReferenceCodec ReferenceStream StreamTheorems.

(** A host with one device *)
#[local] Instance demo_host : AudioHost := {|
  device := unit;
  input_devices := Ok [tt];
  default_input_device := Some tt;
  device_name _ := Ok (lit "microphone");
  supported_input_configs _ := Ok [mkSupportedConfig 1 1000 48000 SfI16];
  build_input_stream _ _ _ := Ok tt;
  stream_play := Ok tt;
  stream_pause := Ok tt;
  sample_to_f32 _ z := Some (Z.to_N z);
|}.
Definition demo_audio_config : AudioConfig := mkAudioConfig None 1000 1 2 8192.
Definition demo_events : list CaptureEvent :=
  [EvData (mkBatch 0 [1; 2; 3]%Z); EvTake; EvTake; EvData (mkBatch 1 [4; 5; 6]%Z); EvTake].

Lemma capture_in_order_witness :
  ∃ f s q, captured f 2 (batch_samples f (event_batches demo_events))
    (foldl capture_step ((initialize (audio_capture_new demo_audio_config)).1, []) demo_events).2
    (foldl capture_step ((initialize (audio_capture_new demo_audio_config)).1, []) demo_events).1 s q.
Proof.
  apply (capture_in_order demo_audio_config (initialize (audio_capture_new demo_audio_config)).1 _ demo_events).
  - vm_compute. reflexivity.
  - apply surjective_pairing.
Defined.

Definition demo_live_args : Args :=
  mkArgs None (Some [lit "out"]) 6 (Some [lit "audio.trst"]) false false None (Some [lit "key"]) None None
    false (lit "keyring") false true false 1000 1 5 false false.
Definition demo_live_env : StreamEnv :=
  mkStreamEnv (replicate 32 "k"%char) (replicate 32 "s"%char) (lit "abcd") (replicate 16 "i"%char) None None
    (λ k, N.of_nat k) (λ k, if (k <? 2)%nat then 0%N else 6000000000%N) (λ _, 0%N).
Definition demo_sched : list (list Batch) :=
  [[mkBatch 0 [1]%Z]; [mkBatch 1 [2; 3]%Z; mkBatch 2 [4; 5; 6]%Z]; []].
Definition demo_live_run : result CliError (option (N * N)) * fs :=
  encrypt_live false demo_live_args demo_live_env None 2 demo_sched ∅.
Definition demo_live_decrypt : Args :=
  mkArgs (Some [lit "audio.trst"]) (Some [lit "back"]) 4096 None false true
    (Some (session_key_hex demo_live_args demo_live_env)) None None None
    false (lit "keyring") false false false 44100 1 0 false false.

Lemma live_recording_exact_witness :
  ∃ f j, let recorded := recording 6 2 j (sched_samples f demo_sched) in
    12%N = (N.of_nat j * 6)%N
    ∧ decrypt_envelope true demo_live_decrypt demo_live_env demo_live_run.2
      = (Ok (Some (DtAudio 1000 1 F32Le), 12%N), <[ [lit "back"] := File recorded ]> demo_live_run.2).
Proof.
  assert (demo_live_run = (Ok (Some (12, 12)%N), demo_live_run.2)) as Hr.
  { assert (demo_live_run.1 = Ok (Some (12, 12)%N)) as <- by (vm_compute; reflexivity). apply surjective_pairing. }
  destruct (live_recording_exact false true demo_live_args demo_live_decrypt demo_live_env demo_live_env None 2
    demo_sched ∅ demo_live_run.2 [lit "out"] [lit "audio.trst"] [lit "back"] 12 12)
    as (f & j & cs & Hj & Hcat & Hn & _ & _ & Hd).
  - by split.
  - reflexivity.
  - reflexivity.
  - reflexivity.
  - vm_compute. discriminate.
  - vm_compute. discriminate.
  - exact Hr.
  - reflexivity.
  - reflexivity.
  - reflexivity.
  - vm_compute. discriminate.
  - vm_compute. reflexivity.
  - vm_compute. discriminate.
  - exists f, j. split; [exact Hn|]. revert Hd. case_match eqn:Hlim.
    + intros ->. destruct cs as [|c cs]; [|reflexivity].
      apply (f_equal len_N) in Hcat. rewrite recording_length in Hcat by done.
      rewrite <-Hn in Hcat. discriminate Hcat.
    + intros (m & s2 & Hd).
      assert (is_ok (decrypt_envelope true demo_live_decrypt demo_live_env demo_live_run.2).1 = true) as Hok
        by (vm_compute; reflexivity).
      rewrite Hd in Hok. discriminate Hok.
Defined.
