(* ===== verification/HsmTheorems.v ===== *)
(** * Properties of the software HSM and of backend selection *)

From S2P Require Import Prelude External Utf8 FileSystem Format Backends Hsm.

(** ** Calls

    The public operations of a backend, as one type: [CPerform] is [perform_operation]. *)

Inductive hsm_call :=
  | CGenerate (id : bytes) (alg : AsymmetricAlgorithm) (description : option bytes) (d : HsmDraws)
  | CSign (id data : bytes) (alg : USignatureAlgorithm) (now : N)
  | CPerform (id : bytes) (op : CryptoOperation) (now : N)
  | CReload.

Inductive outcome := ODone | OBytes (b : bytes) | OBool (v : bool) | OFail.
Definition outcome_of {A} (f : A → outcome) (o : option A) : outcome := from_option f OFail o.
Definition outcome_of_result (r : CryptoResult) : outcome :=
  match r with
  | Signed b | PublicKey b | HashResult b => OBytes b
  | VerificationResult v => OBool v
  | _ => OFail
  end.

Section Theorems.
Context `{Ed25519Laws} `{P256} `{P256Keys} `{!P256KeysLaws} `{AeadLaws} `{KdfLaws} `{HsmJson} `{!HsmJsonLaws}
  `{Sha2} `{OperationDebug}.

Definition hsm_exec (c : hsm_call) (b : SoftwareHsmBackend) (s : fs) : outcome * SoftwareHsmBackend * fs :=
  match c with
  | CGenerate id alg desc d =>
      let '(r, b', s') := generate_key_pair b id alg desc d s in
      (outcome_of (λ _, ODone) (result_ok r), b', s')
  | CSign id data alg now =>
      let '(r, b', s') := sign_data b id data alg now s in (outcome_of OBytes (result_ok r), b', s')
  | CPerform id op now =>
      let '(r, s') := hsm_perform now b id op s in (outcome_of outcome_of_result (result_ok r), b, s')
  | CReload =>
      match with_config (hsm_config b) s with
      | (Ok b', s') => (ODone, b', s')
      | (Err _, s') => (OFail, b, s')
      end
  end.

Definition supported (alg : AsymmetricAlgorithm) : bool :=
  match alg with UEd25519 | UEcdsaP256 => true | _ => false end.

(** What the abstract store answers. *)
Definition abs_exec (c : hsm_call) (A : gmap (list ascii) AKey) : outcome * gmap (list ascii) AKey :=
  match c with
  | CGenerate id alg _ d =>
      if supported alg then (ODone, <[id := mkAKey alg (hd_secret d)]> A) else (OFail, A)
  | CSign id data alg _ | CPerform id (OpSign data alg) _ =>
      (outcome_of OBytes (k ← A !! id; abs_sign k data alg), A)
  | CPerform id (OpVerify data sig alg) _ => (outcome_of OBool (k ← A !! id; abs_verify k data sig alg), A)
  | CPerform id OpGetPublicKey _ => (outcome_of OBytes (public_of <$> A !! id), A)
  | CPerform _ (OpHash data alg) _ => (OBytes (sha2_digest alg data), A)
  | CPerform _ _ _ => (OFail, A)
  | CReload => (ODone, A)
  end.

(** Key identifiers name files of the store, and the primitives do not fail. *)
Definition admissible (c : hsm_call) (b : SoftwareHsmBackend) (s : fs) : Prop :=
  match c with
  | CGenerate id alg _ d =>
      supported alg = true → can_generate (hsm_config b) s id (mkAKey alg (hd_secret d)) d
  | _ => True
  end.

Lemma sign_data_rep b s A id data alg now :
  hsm_rep b s A →
  ∃ r b' s', sign_data b id data alg now s = (r, b', s') ∧ same_table b b'
    ∧ result_ok r = (k ← A !! id; abs_sign k data alg) ∧ hsm_rep b' s' A.
Proof.
  intros Hr. pose proof (compute_signature_rep _ _ _ id data alg Hr) as Hc. unfold sign_data.
  destruct (compute_signature b id data alg s) as [sig|e].
  2: { exists (Err e), b, s. by split_and!. }
  destruct (update_key_usage_rep _ _ _ id now Hr) as (b' & s' & -> & Hcfg & Hr').
  eexists _, b', s'. by split_and!.
Qed.

Lemma result_ok_map_err {E F A} (f : E → F) (r : result E A) : result_ok (map_err f r) = result_ok r.
Proof. by destruct r. Qed.
Lemma result_ok_fmap {E A B} (f : A → B) (r : result E A) : result_ok (f <$> r) = f <$> result_ok r.
Proof. by destruct r. Qed.
Lemma outcome_of_fmap {A B} (f : A → B) (g : B → outcome) (o : option A) :
  outcome_of g (f <$> o) = outcome_of (λ a, g (f a)) o.
Proof. by destruct o. Qed.

Lemma hsm_perform_rep b s A id op now :
  hsm_rep b s A →
  ∃ r s', hsm_perform now b id op s = (r, s') ∧ hsm_rep b s' A
    ∧ outcome_of outcome_of_result (result_ok r) = (abs_exec (CPerform id op now) A).1.
Proof.
  intros Hr. destruct op as [| |data alg|data sig alg| | | | | |data alg]; cbn [hsm_perform abs_exec fst]; try by eauto.
  - destruct (with_config_rep _ _ _ Hr) as (b1 & Hw & Hc1 & Hr1). unfold perform_sign, mbind, io_bind, io_map_err.
    rewrite Hw. cbn [map_err]. unfold sign_with.
    destruct (sign_data_rep _ _ _ id data alg now Hr1) as (r & b2 & s2 & -> & Hc2 & Hres & Hr2).
    eexists _, s2. split; [done|]. split.
    + apply (hsm_rep_same _ b1); [done|]. by apply (hsm_rep_same _ b2).
    + rewrite result_ok_fmap, result_ok_map_err, outcome_of_fmap, Hres. done.
  - eexists _, s. split; [done|]. split; [done|].
    by rewrite result_ok_fmap, result_ok_map_err, outcome_of_fmap, (verify_signature_rep _ _ _ _ _ _ _ Hr).
  - eexists _, s. split; [done|]. split; [done|].
    rewrite result_ok_fmap, result_ok_map_err, outcome_of_fmap. destruct (A !! id) as [k|] eqn:HA.
    + by rewrite (load_public_key_rep _ _ _ _ _ Hr HA).
    + unfold load_public_key. by rewrite (rep_lookup_None _ _ _ _ Hr HA).
Qed.

Lemma hsm_exec_rep c b s A :
  hsm_rep b s A → admissible c b s →
  ∃ b' s', hsm_exec c b s = ((abs_exec c A).1, b', s') ∧ hsm_config b' = hsm_config b
    ∧ hsm_rep b' s' (abs_exec c A).2.
Proof.
  intros Hr Had. destruct c as [id alg desc d|id data alg now|id op now|].
  - cbn [hsm_exec abs_exec admissible] in *. destruct (supported alg) eqn:Hsup.
    + destruct (generate_key_pair_rep _ _ _ id (mkAKey alg (hd_secret d)) desc d Hr (Had eq_refl))
        as (b' & s' & Hgen & Hc & Hr').
      cbn [ak_algorithm] in Hgen. rewrite Hgen. by eauto.
    + exists b, s. split; [|done]. unfold generate_key_pair, write_key_pair. by destruct alg.
  - cbn [hsm_exec abs_exec fst snd].
    destruct (sign_data_rep _ _ _ id data alg now Hr) as (r & b' & s' & -> & [Hc _] & -> & Hr'). by eauto.
  - cbn [hsm_exec]. destruct (hsm_perform_rep _ _ _ id op now Hr) as (r & s' & -> & Hr' & ->).
    exists b, s'. split_and!; [done..|]. by destruct op.
  - cbn [hsm_exec abs_exec fst snd]. destruct (with_config_rep _ _ _ Hr) as (b' & -> & [Hc _] & Hr'). by eauto.
Qed.

(** A run: calls with their outcomes, each admissible when it is made. *)
Inductive hsm_run : SoftwareHsmBackend → fs → list (hsm_call * outcome) → SoftwareHsmBackend → fs → Prop :=
  | hrun_nil b s : hsm_run b s [] b s
  | hrun_cons b s c o b1 s1 tr b2 s2 :
      admissible c b s → hsm_exec c b s = (o, b1, s1) → hsm_run b1 s1 tr b2 s2 →
      hsm_run b s ((c, o) :: tr) b2 s2.

(** The outcomes of the same calls on the abstract store. *)
Fixpoint abs_outcomes (cs : list hsm_call) (A : gmap (list ascii) AKey) : list outcome :=
  match cs with
  | [] => []
  | c :: cs => (abs_exec c A).1 :: abs_outcomes cs (abs_exec c A).2
  end.

(** A store directory without metadata is an empty store. *)
Lemma fresh_store_rep c s :
  store_ready c s → s !! hc_metadata_file c = None →
  with_config c s = (Ok (mkHsm c ∅), s) ∧ hsm_rep (mkHsm c ∅) s ∅.
Proof.
  intros Hs Hn. split.
  - unfold with_config, fs_context, mbind, io_bind, io_map_err, create_dir_all, io_read.
    rewrite (mkdirs_existing _ s (sr_dirs _ _ Hs)). cbn [map_err]. unfold load_metadata, path_exists.
    by rewrite Hn.
  - split; [done| |]; cbn.
    + intros id. by rewrite !lookup_empty.
    + unfold disk_agrees. by rewrite Hn.
Qed.

(** C11. The software HSM implements a table of keys: started on an empty store in a directory
    that exists, with its metadata in the default place, every sequence of generations,
    signatures (direct or through the universal interface, which loads a second backend),
    verifications, public key reads, hashes and restarts has exactly the outcomes of the abstract
    table from identifiers to secrets, errors included, if every identifier that a key is
    generated under is text without a slash, the secret drawn for it is one of its algorithm and
    encrypts, and no directory lies at the paths of its files. *)
Theorem hsm_refines_key_table (c : SoftwareHsmConfig) (s s' : fs) (tr : list (hsm_call * outcome))
    (b b' : SoftwareHsmBackend) :
  store_ready c s → s !! hc_metadata_file c = None → with_config c s = (Ok b, s) →
  hsm_run b s tr b' s' → tr.*2 = abs_outcomes tr.*1 ∅.
Proof.
  intros Hs Hn Hw Hrun. destruct (fresh_store_rep _ _ Hs Hn) as [Hw' Hr]. rewrite Hw in Hw'.
  apply (f_equal fst) in Hw'. cbn in Hw'. apply Ok_inj in Hw' as ->. clear Hw Hs Hn.
  revert Hr. generalize (∅ : gmap (list ascii) AKey) as A.
  induction Hrun as [|b s k o b1 s1 tr b2 s2 Ha He Hrun IH]; intros A Hr; [done|].
  destruct (hsm_exec_rep _ _ _ _ Hr Ha) as (b1' & s1' & He' & _ & Hr'). rewrite He in He'. simplify_eq.
  cbn. f_equal. by apply IH.
Qed.

(** A key keeps signing: in a store in any represented state, what a key signs verifies
    under the same identifier, and still does after any further admissible calls that do not
    generate that identifier again, restarts and other keys included. *)
Theorem hsm_signature_lasts (b b' : SoftwareHsmBackend) (s s' : fs) (A : gmap (list ascii) AKey)
    (tr : list (hsm_call * outcome)) (id data sig : bytes) (alg : USignatureAlgorithm) (now now' : N) :
  hsm_rep b s A → (hsm_exec (CSign id data alg now) b s).1.1 = OBytes sig →
  hsm_run b s tr b' s' → (∀ alg' desc d o, (CGenerate id alg' desc d, o) ∉ tr) →
  (hsm_exec (CPerform id (OpVerify data sig alg) now') b' s').1.1 = OBool true.
Proof.
  intros Hr Hsig Hrun Hno.
  assert (∃ k, A !! id = Some k ∧ good_key k ∧ abs_sign k data alg = Some sig) as (k & HA & Hg & Hk).
  { destruct (hsm_exec_rep (CSign id data alg now) b s A Hr I) as (b1 & s1 & He & _). rewrite He in Hsig.
    cbn in Hsig. destruct (A !! id) as [k|] eqn:HA; [|done]. cbn in Hsig.
    destruct (rep_lookup _ _ _ _ _ Hr HA) as (m & _ & _ & Hg). exists k. split_and!; [done..|].
    destruct (abs_sign k data alg); cbn in Hsig; congruence. }
  clear Hsig. revert A Hr HA. induction Hrun as [b s|b s c o b1 s1 tr b2 s2 Ha He Hrun IH]; intros A Hr HA.
  - destruct (hsm_exec_rep (CPerform id (OpVerify data sig alg) now') b s A Hr I) as (b1 & s1 & -> & _).
    cbn. rewrite HA. cbn. by rewrite (abs_sign_verifies _ _ _ _ Hg Hk).
  - destruct (hsm_exec_rep _ _ _ _ Hr Ha) as (b1' & s1' & He' & _ & Hr'). rewrite He in He'. simplify_eq.
    apply (IH ltac:(set_solver) _ Hr'). destruct c as [id' alg' desc d| | |]; try done.
    + cbn. destruct (supported alg'); [|done]. cbn. rewrite lookup_insert_ne; [done|].
      intros ->. eapply Hno. by apply list_elem_of_here.
    + cbn. by destruct op.
Qed.
End Theorems.


(** ** Selecting a backend *)

(** A comparison that is a total preorder. *)
Record preorder_cmp {A} (cmp : A → A → comparison) : Prop := {
  pc_refl x : cmp x x ≠ Gt;
  pc_trans x y z : cmp x y ≠ Gt → cmp y z ≠ Gt → cmp x z ≠ Gt;
  pc_total x y : cmp x y = Gt → cmp y x ≠ Gt;
}.

Lemma sort_by_head {A} (cmp : A → A → comparison) l x :
  preorder_cmp cmp → head (sort_by cmp l) = Some x → x ∈ l ∧ ∀ y, y ∈ l → cmp x y ≠ Gt.
Proof.
  intros [Hr Ht Hto]. revert x. induction l as [|a l IH]; intros x; [done|]. cbn.
  destruct (sort_by cmp l) as [|h t] eqn:Hs.
  { assert (l = []) as ->.
    { destruct l as [|a' l']; [done|]. cbn in Hs. exfalso. clear -Hs. destruct (foldr _ _ l'); cbn in Hs;
        [done|by case_match]. }
    unfold sort_by in Hs. cbn. intros [= <-]. set_solver. }
  destruct (IH h eq_refl) as [Hin Hmin]. unfold sort_by in Hs. rewrite Hs. cbn.
  destruct (cmp a h) eqn:Hc; intros [= <-]; (split; [set_solver|]); intros y [->|Hy]%elem_of_cons; eauto.
  - apply (Ht _ h); [congruence|auto].
  - apply (Ht _ h); [congruence|auto].
Qed.

Lemma sort_by_nil {A} (cmp : A → A → comparison) l : head (sort_by cmp l) = None → l = [].
Proof.
  destruct l as [|a l]; [done|]. cbn. destruct (foldr _ _ l); cbn; [done|]. by case_match.
Qed.

Lemma compare_backends_preorder p : preorder_cmp (λ a b : bytes * UniversalBackend, compare_backends p a.2 b.2).
Proof.
  split; unfold compare_backends.
  - intros [n x]. cbn. rewrite Nat.compare_refl. by repeat case_match.
  - intros [n x] [n' y] [n'' z]. cbn.
    destruct (bp_prefer_hardware_backed p), (bc_hardware_backed (ub_get_capabilities x)),
      (bc_hardware_backed (ub_get_capabilities y)), (bc_hardware_backed (ub_get_capabilities z)); try done;
      rewrite !Nat.compare_ngt_iff; lia.
  - intros [n x] [n' y]. cbn.
    destruct (bp_prefer_hardware_backed p), (bc_hardware_backed (ub_get_capabilities x)),
      (bc_hardware_backed (ub_get_capabilities y)); try done; rewrite Nat.compare_gt_iff, Nat.compare_ngt_iff; lia.
Qed.

(** Every backend is registered once, under the name it gives itself. *)
Definition own_names (r : list (list ascii * UniversalBackend)) : Prop :=
  NoDup r.*1 ∧ Forall (λ kv, kv.1 = ub_name kv.2) r.

Lemma get_backend_own r n b : own_names r → (n, b) ∈ r → get_backend r (ub_name b) = Some b.
Proof.
  intros [Hnd Hown] Hin. unfold get_backend. rewrite Forall_forall in Hown.
  pose proof (Hown _ Hin) as Hn. cbn in Hn. subst n.
  destruct (List.find _ r) as [[n' b']|] eqn:E.
  - apply List.find_some in E as [Hin' Heq%bool_decide_eq_true]. cbn in Heq. subst n'.
    apply list_elem_of_In in Hin'. cbn. f_equal.
    apply list_elem_of_lookup in Hin as [i Hi], Hin' as [j Hj].
    assert (i = j) as ->.
    { eapply NoDup_lookup; [exact Hnd|..]; rewrite list_lookup_fmap.
      - by rewrite Hi.
      - by rewrite Hj. }
    congruence.
  - apply list_elem_of_In in Hin. apply (List.find_none _ _ E) in Hin. cbn in Hin.
    by rewrite bool_decide_eq_false in Hin.
Qed.

(** The preferred backend: in a registry where every backend has its own name, selection
    fails exactly when no backend supports the operation, and otherwise returns a supporting
    one that no other beats (hardware first if asked for, then the number of algorithms).  Of
    the preferences only that flag is consulted: excluded and preferred backends and the wish
    for attestation change nothing. *)
Theorem preferred_backend_is_best (r : list (list ascii * UniversalBackend)) (op : CryptoOperation)
    (p : BackendPreferences) :
  own_names r →
  (find_preferred_backend r op p = None ↔ ∀ n b, (n, b) ∈ r → ub_supports_operation b op = false)
  ∧ (∀ b, find_preferred_backend r op p = Some b →
       (∃ n, (n, b) ∈ r) ∧ ub_supports_operation b op = true
       ∧ ∀ n' b', (n', b') ∈ r → ub_supports_operation b' op = true →
         let hw b := bc_hardware_backed (ub_get_capabilities b) in
         (bp_prefer_hardware_backed p = true → hw b' = true → hw b = true)
         ∧ (hw b' = hw b ∨ bp_prefer_hardware_backed p = false →
            score (ub_get_capabilities b') ≤ score (ub_get_capabilities b)))
  ∧ ∀ p', bp_prefer_hardware_backed p' = bp_prefer_hardware_backed p →
      find_preferred_backend r op p' = find_preferred_backend r op p.
Proof.
  intros Hown. unfold find_preferred_backend, find_all_backends_for_operation.
  set (l := List.filter _ r). assert (∀ n b, (n, b) ∈ l ↔ (n, b) ∈ r ∧ ub_supports_operation b op = true) as Hl.
  { intros n b. unfold l. rewrite !list_elem_of_In, filter_In. done. }
  split_and!.
  - destruct (head _) as [[n b]|] eqn:Hh; cbn.
    + apply sort_by_head in Hh as [[Hin Hsup]%Hl _]; [|apply compare_backends_preorder].
      rewrite (get_backend_own _ _ _ Hown Hin). split; [done|]. intros Hall. by rewrite (Hall _ _ Hin) in Hsup.
    + split; [|done]. intros _ n b Hin. apply sort_by_nil in Hh.
      destruct (ub_supports_operation b op) eqn:E; [|done]. assert ((n, b) ∈ l) as Hx by by apply Hl.
      rewrite Hh in Hx. by apply not_elem_of_nil in Hx.
  - intros b Hb. destruct (head _) as [[n b0]|] eqn:Hh; [|done]. cbn in Hb.
    apply sort_by_head in Hh as [[Hin Hsup]%Hl Hmin]; [|apply compare_backends_preorder].
    rewrite (get_backend_own _ _ _ Hown Hin) in Hb. simplify_eq. split_and!; [by eauto|done|].
    intros n' b' Hin' Hsup'. specialize (Hmin (n', b') ltac:(by apply Hl)). unfold compare_backends in Hmin. cbn in Hmin.
    destruct (bp_prefer_hardware_backed p), (bc_hardware_backed (ub_get_capabilities b)),
      (bc_hardware_backed (ub_get_capabilities b')); cbn; try done;
      rewrite ?Nat.compare_ngt_iff in Hmin; (split; [done|]); intuition (lia || done).
  - intros p' Hp'. unfold compare_backends. by rewrite Hp'.
Qed.

Section Registry.
Context `{Ed25519} `{P256} `{P256Keys} `{Aead} `{Kdf} `{HsmJson} `{Sha2} `{OperationDebug} `{OsKeyring}
  `{Pbkdf2With}.

(** Key generation is advertised and never performed: the default registry finds the
    software HSM for generating a supported kind of key, and performing the operation fails as
    unsupported, with or without preferences, and changes nothing. *)
Theorem key_generation_refused (kf : bool) (now : N) (s s1 : fs) (reg : list (list ascii * UniversalBackend))
    (b : SoftwareHsmBackend) (id : bytes) (alg : AsymmetricAlgorithm) (prefs : option BackendPreferences) :
  with_config discovery_config s = (Ok b, s1) → registry_with_defaults kf now s = (Ok reg, s1) →
  find_backend_for_operation reg (OpGenerateKeyPair UEd25519) = Some (hsm_universal now b)
  ∧ operation_type_supported hsm_capabilities (OpGenerateKeyPair UEd25519) = true
  ∧ ∃ m, registry_perform_operation reg id (OpGenerateKeyPair alg) prefs s1 = (Err (UnsupportedOperation m), s1).
Proof.
  intros Hw Hreg. unfold registry_with_defaults in Hreg. rewrite Hw in Hreg. simplify_eq.
  split; [by destruct kf|]. split; [done|]. unfold registry_perform_operation.
  destruct prefs as [p|]; destruct kf, alg; try (by eexists);
    unfold find_preferred_backend, find_all_backends_for_operation; cbn; by eexists.
Qed.
End Registry.

(** * Witnesses *)

From S2P Require Import Reference ReferenceCodec ReferenceStream.

Definition demo_config : SoftwareHsmConfig :=
  build_config (mkHsmBuilder (Some [lit "ks"]) (lit "passphrase") None).
Definition demo_files : fs := {[ [lit "ks"] := Dir ]}.
Definition demo_draws : HsmDraws :=
  mkHsmDraws (replicate 32 "k"%char) (replicate 32 "s"%char) (replicate 12 "n"%char) 1000.
Definition demo_empty : SoftwareHsmBackend := mkHsm demo_config ∅.
Definition demo_generate : hsm_call := CGenerate (lit "device") UEcdsaP256 None demo_draws.
Definition demo_made : outcome * SoftwareHsmBackend * fs := hsm_exec demo_generate demo_empty demo_files.
Definition demo_sign : hsm_call := CSign (lit "device") (lit "data") USigEcdsaP256 2000.
Definition demo_signed : outcome * SoftwareHsmBackend * fs := hsm_exec demo_sign demo_made.1.2 demo_made.2.
Definition demo_signature : bytes := replicate 32 "k"%char ++ blake3 (lit "data").

Lemma triple_eta {A B C} (x : A * B * C) : x = (x.1.1, x.1.2, x.2).
Proof. by destruct x as [[]]. Qed.

Lemma demo_ready : store_ready demo_config demo_files.
Proof.
  split; [discriminate| |reflexivity|by repeat constructor].
  intros q. cbn. rewrite list_elem_of_singleton. intros ->. by vm_compute.
Qed.
Lemma demo_plain : plain_id (lit "device").
Proof. split; [|split; vm_compute; reflexivity]. apply (bool_decide_unpack _). vm_compute. exact I. Qed.
Lemma demo_admissible : admissible demo_generate demo_empty demo_files.
Proof.
  intros _. split; [exact demo_plain|split; [reflexivity|right; split; reflexivity]|reflexivity|done| |].
  - by eexists.
  - split; vm_compute; discriminate.
Qed.
Lemma demo_hsm_run : hsm_run demo_empty demo_files
  [(demo_generate, demo_made.1.1); (demo_sign, demo_signed.1.1)] demo_signed.1.2 demo_signed.2.
Proof.
  apply (hrun_cons _ _ _ _ demo_made.1.2 demo_made.2); [exact demo_admissible|exact (triple_eta demo_made)|].
  apply (hrun_cons _ _ _ _ demo_signed.1.2 demo_signed.2); [exact I|exact (triple_eta demo_signed)|constructor].
Qed.

Lemma hsm_refines_key_table_witness :
  [demo_made.1.1; demo_signed.1.1] = abs_outcomes [demo_generate; demo_sign] ∅
  ∧ demo_signed.1.1 = OBytes demo_signature.
Proof.
  split; [|vm_compute; reflexivity].
  apply (hsm_refines_key_table demo_config demo_files demo_signed.2
    [(demo_generate, demo_made.1.1); (demo_sign, demo_signed.1.1)] demo_empty demo_signed.1.2).
  - exact demo_ready.
  - reflexivity.
  - apply fresh_store_rep; [exact demo_ready|reflexivity].
  - exact demo_hsm_run.
Defined.

Definition demo_reload : hsm_call := CReload.
Definition demo_restarted : outcome * SoftwareHsmBackend * fs := hsm_exec CReload demo_made.1.2 demo_made.2.
Lemma hsm_signature_lasts_witness :
  (hsm_exec (CPerform (lit "device") (OpVerify (lit "data") demo_signature USigEcdsaP256) 3000)
    demo_restarted.1.2 demo_restarted.2).1.1 = OBool true.
Proof.
  destruct (hsm_exec_rep demo_generate demo_empty demo_files ∅ (proj2 (fresh_store_rep _ _ demo_ready eq_refl))
    demo_admissible) as (b1 & s1 & He & _ & Hr).
  assert (demo_made = ((abs_exec demo_generate ∅).1, b1, s1)) as Hm by exact He.
  apply (hsm_signature_lasts demo_made.1.2 demo_restarted.1.2 demo_made.2 demo_restarted.2
    (abs_exec demo_generate ∅).2 [(CReload, demo_restarted.1.1)] (lit "device") (lit "data") demo_signature
    USigEcdsaP256 2000 3000).
  - rewrite Hm. exact Hr.
  - vm_compute. reflexivity.
  - apply (hrun_cons _ _ _ _ demo_restarted.1.2 demo_restarted.2); [exact I|exact (triple_eta demo_restarted)|constructor].
  - intros. rewrite list_elem_of_singleton. discriminate.
Defined.

Definition demo_hardware : UniversalBackend :=
  mkUniversalBackend (λ _ _, io_lift (Err (HardwareError (lit "no device")))) (λ _, true) hardware_security_module
    (lit "yubikey").
Definition demo_registry : list (list ascii * UniversalBackend) :=
  [(lit "software_hsm", hsm_universal 0 demo_empty); (lit "yubikey", demo_hardware)].
Lemma preferred_backend_is_best_witness :
  find_preferred_backend demo_registry (OpSign (lit "x") USigEd25519) hardware_preferred = Some demo_hardware
  ∧ ub_supports_operation demo_hardware (OpSign (lit "x") USigEd25519) = true.
Proof.
  split; [reflexivity|].
  apply (preferred_backend_is_best demo_registry (OpSign (lit "x") USigEd25519) hardware_preferred).
  - split; [|by repeat constructor]. apply (bool_decide_unpack _). vm_compute. exact I.
  - reflexivity.
Defined.

Lemma key_generation_refused_witness :
  ∃ m, registry_perform_operation
    [(lit "software_hsm", hsm_universal 0 (mkHsm discovery_config ∅))] (lit "k") (OpGenerateKeyPair UEd25519) None
    {[ [lit "software_hsm_keys"] := Dir ]} = (Err (UnsupportedOperation m), {[ [lit "software_hsm_keys"] := Dir ]}).
Proof.
  apply (key_generation_refused false 0 ∅ {[ [lit "software_hsm_keys"] := Dir ]}
    [(lit "software_hsm", hsm_universal 0 (mkHsm discovery_config ∅))] (mkHsm discovery_config ∅) (lit "k") UEd25519 None).
  - reflexivity.
  - reflexivity.
Defined.
