(* ===== verification/ProvenanceTheorems.v ===== *)
(** * Properties of software attestations *)

From S2P Require Import Prelude External Utf8 FileSystem Format Archive Backends Provenance.

Section Theorems.
Context `{HexLaws} `{Sha2} `{Ed25519Laws} `{SoftwareAttestationJsonLaws} `{!Bincode SignedAttestationFile}
  `{!BincodeLaws SignedAttestationFile}.

(** The report on an attestation for an artifact with the given content. *)
Definition report_of (a : SoftwareAttestation) (artifact : bytes) : AttestationVerification :=
  mkAttestationVerification a (bool_decide (artifact_digest artifact = sa_artifact_hash a))
    (mkVerificationDetails (artifact_digest artifact) (sa_artifact_hash a) (len_N artifact) None).

(** C39. A signed attestation verifies: the file written for an artifact is read back, under any
    later file system, with the attestation it was made from, and is valid for an artifact
    exactly when that has the SHA-256 digest of the attested one. *)
Theorem signed_attestation_verifies (env : AttestationEnv) (c : AttestationConfig) (s s' : fs)
    (r : AttestationResult) (p q : path) (attested artifact : bytes) :
  acfg_output_format c = SealedEnvelope → create_signed_attestation env c s = Ok r →
  read_file (acfg_artifact_path c) s = Ok attested →
  read_file p s' = Ok (ares_serialized_output r) → read_file q s' = Ok artifact →
  verify_software_attestation (mkVerificationConfig q p false) s' = Ok (report_of (ares_attestation r) artifact)
  ∧ (av_is_valid (report_of (ares_attestation r) artifact) = true ↔
     sha2_digest USha256 artifact = sha2_digest USha256 attested).
Proof.
  intros Hf Hc Ha Hp Hq. unfold create_signed_attestation, read_artifact in Hc. rewrite Ha, Hf in Hc.
  cbn [map_err mbind result_bind] in Hc. destruct (read_sealed_attestation _ _ _ _ p s' Hc Hp) as [Hr Hatt]. split.
  - unfold verify_software_attestation, read_attestation, read_artifact. cbn [vcfg_force_json vcfg_attestation_path
      vcfg_artifact_path]. rewrite Hr, Hq, Hatt. done.
  - rewrite Hatt. cbn [av_is_valid report_of sa_artifact_hash]. rewrite bool_decide_eq_true.
    split; [apply artifact_digest_inj|]. unfold artifact_digest. by intros ->.
Qed.

(** The signature is not required: for any artifact anyone can write an unsigned JSON
    attestation, with every field chosen freely, that verification accepts as valid in the
    default mode, with the same report as for a file signed by any key over the same
    attestation. *)
Theorem unsigned_attestation_accepted (env : AttestationEnv) (a : SoftwareAttestation) (key : KeySource)
    (r : AttestationResult) (forged artifact : bytes) (p q : path) (s s' : fs) :
  sa_artifact_hash a = artifact_digest artifact → attestation_to_vec_pretty a = Ok forged →
  is_ok (read_envelope_attestation p s) = false →
  read_file p s = Ok forged → read_file q s = Ok artifact →
  create_sealed_attestation env a key = Ok r →
  read_file p s' = Ok (ares_serialized_output r) → read_file q s' = Ok artifact →
  verify_software_attestation (mkVerificationConfig q p false) s = Ok (report_of a artifact)
  ∧ av_is_valid (report_of a artifact) = true
  ∧ verify_software_attestation (mkVerificationConfig q p false) s' = Ok (report_of a artifact).
Proof.
  intros Hh Hj Hn Hp Hq Hc Hp' Hq'. split_and!.
  - unfold verify_software_attestation, read_attestation. cbn [vcfg_force_json vcfg_attestation_path vcfg_artifact_path].
    destruct (read_envelope_attestation p s); [done|]. rewrite (read_pretty_attestation a forged p s Hj Hp).
    unfold read_artifact. by rewrite Hq.
  - by apply bool_decide_eq_true.
  - destruct (read_sealed_attestation _ _ _ _ p s' Hc Hp') as [Hr Hatt].
    unfold verify_software_attestation, read_attestation, read_artifact.
    cbn [vcfg_force_json vcfg_attestation_path vcfg_artifact_path]. rewrite Hr, Hq'. done.
Qed.
End Theorems.

(** * Witnesses *)

From S2P Require Import Reference ReferenceCodec.

Notation "c ** d" := (codec_pair c d) (at level 40, left associativity, only parsing).
Definition codec_signed_file : codec SignedAttestationFile.
Proof.
  refine (codec_map (λ f, (saf_attestation f, saf_signature f, saf_verification_key f))
    (λ '(a, b, c), mkSignedAttestationFile a b c) _ (codec_bytes ** codec_bytes ** codec_bytes)).
  by intros [].
Defined.
Definition codec_attestation : codec SoftwareAttestation.
Proof.
  refine (codec_map (λ a, (sa_artifact_hash a, sa_artifact_name a, sa_source_commit_hash a, sa_builder_id a,
               sa_timestamp a))
    (λ '(a, b, c, d, e), mkSoftwareAttestation a b c d e) _
    (codec_bytes ** codec_bytes ** codec_bytes ** codec_bytes ** codec_bytes)).
  by intros [].
Defined.
#[local] Instance ref_bincode_signed_file : Bincode SignedAttestationFile := bincode_of codec_signed_file.
#[local] Instance ref_attestation_json : SoftwareAttestationJson := {|
  attestation_to_vec a := Ok (hex_encode (enc codec_attestation a));
  attestation_to_vec_pretty a := Ok (hex_encode (enc codec_attestation a));
  attestation_from_json j := ok_or (b ← hex_decode j; fst <$> dec codec_attestation b) (lit "expected value");
|}.
#[local] Instance ref_attestation_json_laws : SoftwareAttestationJsonLaws.
Proof.
  assert (∀ a, attestation_from_json (hex_encode (enc codec_attestation a)) = Ok a) as Hr.
  { intros a. cbn [attestation_from_json ref_attestation_json]. rewrite hex_decode_encode. cbn [mbind option_bind].
    by rewrite <-(app_nil_r (enc codec_attestation a)), dec_enc. }
  split; intros a j <-%Ok_inj; [done|]. split; [done|]. apply hexdigits_valid, hex_encode_digits.
Qed.

Definition demo_artifact : bytes := lit "binary".
Definition demo_attest_env : AttestationEnv := mkAttestationEnv (lit "2025-01-01T00:00:00+00:00") None (lit "fresh").
Definition demo_attestation : SoftwareAttestation :=
  mkSoftwareAttestation (artifact_digest demo_artifact) (lit "app") (lit "unknown") (lit "ci")
    (lit "2025-01-01T00:00:00+00:00").
Definition demo_sealed : AttestationResult :=
  default (mkAttestationResult demo_attestation [] None)
    (result_ok (create_sealed_attestation demo_attest_env demo_attestation (ProvidedKey (lit "key")))).
Definition demo_json : bytes := hex_encode (enc codec_attestation demo_attestation).
Definition art : path := [lit "app"].
Definition att : path := [lit "app.att"].

Lemma signed_attestation_verifies_witness :
  verify_software_attestation (mkVerificationConfig art att false)
    (<[att := File (ares_serialized_output demo_sealed)]> {[ art := File demo_artifact ]})
  = Ok (report_of demo_attestation demo_artifact).
Proof.
  apply (signed_attestation_verifies demo_attest_env (mkAttestationConfig art (lit "ci") SealedEnvelope (ProvidedKey (lit "key")))
    {[ art := File demo_artifact ]} (<[att := File (ares_serialized_output demo_sealed)]> {[ art := File demo_artifact ]})
    demo_sealed att art demo_artifact demo_artifact).
  - reflexivity.
  - vm_compute. reflexivity.
  - reflexivity.
  - vm_compute. reflexivity.
  - vm_compute. reflexivity.
Defined.

Lemma unsigned_attestation_accepted_witness :
  verify_software_attestation (mkVerificationConfig art att false)
    (<[att := File demo_json]> {[ art := File demo_artifact ]}) = Ok (report_of demo_attestation demo_artifact)
  ∧ av_is_valid (report_of demo_attestation demo_artifact) = true.
Proof.
  destruct (unsigned_attestation_accepted demo_attest_env demo_attestation (ProvidedKey (lit "key")) demo_sealed demo_json
    demo_artifact att art (<[att := File demo_json]> {[ art := File demo_artifact ]})
    (<[att := File (ares_serialized_output demo_sealed)]> {[ art := File demo_artifact ]})) as (Hv & Hok & _).
  - reflexivity.
  - reflexivity.
  - vm_compute. reflexivity.
  - vm_compute. reflexivity.
  - vm_compute. reflexivity.
  - vm_compute. reflexivity.
  - vm_compute. reflexivity.
  - vm_compute. reflexivity.
  - split; [exact Hv|exact Hok].
Defined.
