(* ===== verification/NetworkTheorems.v ===== *)
(** * Properties of the network

    A file sent by the framed client to the server; the server against any peer; the limits and
    the order of the TCP transport; the receiving side of the QUIC transport. *)

From S2P Require Import Prelude External Utf8 FileSystem Format Envelope Auth.
From S2P Require Import Transport Server TransportCorrect Hsm Backends VerifyChronicle Cli Wrap.
From S2P Require Import Stream Client.

(** ** The accept loop *)

(** What every reachable state of the loop satisfies *)
Record loop_inv (require_auth : bool) (st : ServerState) : Prop := {
  li_ids : (λ c, ps_connection_id (co_session c)) <$> sr_active_connections st
    = (λ i, N.of_nat i mod 2 ^ 64)%N <$> seq 1 (length (sr_active_connections st));
  li_next : sr_connection_id st = (N.of_nat (length (sr_active_connections st)) mod 2 ^ 64)%N;
  li_fresh : Forall (λ c, co_session c = session_start (ps_connection_id (co_session c)) require_auth)
    (sr_active_connections st);
  li_subscribed : sr_shutdown st = false → Forall (λ c, co_subscribed c = true) (sr_active_connections st);
  li_shutdown : sr_phase st ≠ Accepting → sr_shutdown st = true;
  li_stopped : sr_phase st = Stopped → Forall (λ c, co_status c ≠ TaskRunning) (sr_active_connections st);
}.

Lemma alter_fmap_same {A B} (f : A → A) (g : A → B) (l : list A) k :
  (∀ x, g (f x) = g x) → g <$> alter f k l = g <$> l.
Proof. intros Hg. revert k. induction l as [|x l IH]; intros [|k]; cbn; [done..|by rewrite Hg|by f_equal]. Qed.

Lemma task_ends_inv require_auth k s st :
  loop_inv require_auth st → s ≠ TaskRunning → loop_inv require_auth (task_ends k s st).
Proof.
  intros [Hi Hn Hf Hs Hd Hp] Hr. split; cbn [task_ends sr_active_connections sr_connection_id sr_shutdown sr_phase].
  - by rewrite alter_fmap_same, length_alter.
  - by rewrite length_alter.
  - by apply Forall_alter.
  - intros ?. apply Forall_alter; auto.
  - done.
  - intros ?. apply Forall_alter; auto.
Qed.

Lemma server_step_inv require_auth st st' :
  loop_inv require_auth st → server_step require_auth st st' → loop_inv require_auth st'.
Proof.
  intros Hinv Hstep. destruct Hstep as [st Hp| | |st Hp Hs|st k c|st k c|st Hp Hall];
    try (by apply task_ends_inv); try done; destruct Hinv as [Hi Hn Hf Hsub Hd Hst].
  - assert (wrapping_add64 (sr_connection_id st) 1
      = (N.of_nat (S (length (sr_active_connections st))) mod 2 ^ 64)%N) as Hid.
    { unfold wrapping_add64. rewrite Hn, N.Div0.add_mod_idemp_l. f_equal. lia. }
    split; cbn [on_accept sr_active_connections sr_connection_id sr_shutdown sr_phase];
      rewrite ?length_app, ?Nat.add_1_r, ?fmap_app.
    + rewrite Hi, seq_S, fmap_app. f_equal. cbn [fmap list_fmap co_session session_start ps_connection_id]. by rewrite Hid.
    + done.
    + apply Forall_app. split; [done|]. by constructor.
    + intros Hsd. apply Forall_app. split; [by apply Hsub|]. rewrite Hsd. by constructor.
    + done.
    + by rewrite Hp.
  - by split.
  - by split.
  - split; try done. intros _. apply Hd. by rewrite Hp.
Qed.

(** Connections of one run of the server are numbered from 1 without a gap, so that fewer than 2^64
    have different output files, and start with a fresh session; the list of handles only
    grows; the program ends only when no handler runs. *)
Theorem connections_numbered (require_auth : bool) (st : ServerState) :
  rtc (server_step require_auth) server_state_start st →
  loop_inv require_auth st
  ∧ ((N.of_nat (length (sr_active_connections st)) < 2 ^ 64)%N →
     NoDup ((λ c, output_name (ps_connection_id (co_session c))) <$> sr_active_connections st)).
Proof.
  intros Hrun. assert (loop_inv require_auth st) as Hinv.
  { remember server_state_start as st0 eqn:E. assert (loop_inv require_auth st0) as H0 by (subst; by split).
    clear E. induction Hrun as [|? ? ? Hs _ IH]; [done|]. apply IH. by eapply server_step_inv. }
  split; [done|]. intros Hlen.
  rewrite (list_fmap_compose (λ c, ps_connection_id (co_session c)) output_name), (li_ids _ _ Hinv), <-list_fmap_compose.
  apply NoDup_fmap_2_strong; [|apply NoDup_seq]. intros i j Hi%elem_of_seq Hj%elem_of_seq Heq.
  unfold compose, output_name in Heq. apply app_inv_head, app_inv_tail, (inj fmt_N) in Heq.
  rewrite !N.mod_small in Heq by lia. lia.
Qed.

(** Shutdown does not wait for connections: once the signal was sent, every handler that was running may
    be cut, so that the program can end at once whatever the peers do, unless a connection was
    accepted after the signal, which never hears of it and must come to its own end. *)
Theorem shutdown_cuts_connections (require_auth : bool) (st : ServerState) :
  sr_shutdown st = true → sr_phase st ≠ Stopped →
  Forall (λ c, co_status c = TaskRunning → co_subscribed c = true) (sr_active_connections st) →
  ∃ st', rtc (server_step require_auth) st st' ∧ sr_phase st' = Stopped
    ∧ sr_active_connections st' = (λ c, match co_status c with
        | TaskRunning => mkConnection (co_session c) (co_subscribed c) TaskInterrupted
        | _ => c
        end) <$> sr_active_connections st.
Proof.
  intros Hs Hp Hall.
  set (cut c := match co_status c with
    | TaskRunning => mkConnection (co_session c) (co_subscribed c) TaskInterrupted | _ => c end).
  assert (∀ done conns id, Forall (λ c, co_status c = TaskRunning → co_subscribed c = true) conns →
    rtc (server_step require_auth) (mkServerState id (done ++ conns) true Draining)
      (mkServerState id (done ++ (cut <$> conns)) true Draining)) as Hcut.
  { clear. intros pre conns id Hall. revert pre. induction Hall as [|c conns Hc _ IH]; intros pre; [done|].
    cbn [fmap list_fmap]. rewrite !(cons_middle _ pre), !app_assoc.
    destruct (co_status c) eqn:Ec; [|by replace (cut c) with c by (unfold cut; by rewrite Ec); apply IH..].
    etrans; [apply rtc_once, (step_interrupt _ _ (length pre) c)|]; cbn [sr_active_connections sr_shutdown];
      [rewrite <-app_assoc; by apply list_lookup_middle|done|by apply Hc|done|].
    unfold task_ends. cbn [sr_active_connections sr_shutdown sr_connection_id sr_phase].
    rewrite <-app_assoc, alter_app_r_alt, Nat.sub_diag by lia. cbn [app alter list_alter]. rewrite cons_middle, app_assoc.
    replace (mkConnection (co_session c) (co_subscribed c) TaskInterrupted) with (cut c) by (unfold cut; by rewrite Ec).
    apply IH. }
  destruct st as [id conns sd ph]. cbn in *. subst sd.
  assert (rtc (server_step require_auth) (mkServerState id conns true ph) (mkServerState id conns true Draining)) as Hb.
  { destruct ph; [|done|done]. apply rtc_once. exact (step_break _ (mkServerState id conns true Accepting) eq_refl eq_refl). }
  exists (mkServerState id (cut <$> conns) true Stopped). split_and!; [|done|done].
  etrans; [exact Hb|]. etrans; [apply (Hcut [] conns id Hall)|]. apply rtc_once.
  refine (step_exit _ (mkServerState id (cut <$> conns) true Draining) eq_refl _).
  cbn. apply Forall_fmap, Forall_true. intros c. unfold compose, cut. by destruct (co_status c) eqn:E; rewrite ?E.
Qed.

Section Theorems.
Context `{FrameCodecLaws} `{BincodeLaws NetworkChunk} `{Blake3Keyed} `{HexLaws} `{PathDebug} `{Blake3Kdf}
  `{Ed25519Laws} `{KeyAgreement} `{!Bincode AuthMessage} `{!Bincode AuthChallenge}
  `{!Bincode ClientAuthResponse} `{!Bincode ServerAuthConfirm} `{!Bincode (list ascii)}
  `{Blake3Laws} `{AeadLaws} `{BincodeLaws StreamManifest} `{BincodeLaws SignedManifest}.

(** The acknowledgements of [n] chunks on a connection without a session. *)
Definition acks (config : ConnectionConfig) (n : nat) : list bytes :=
  (λ i, reply config None (1 + N.of_nat i)) <$> seq 0 n.

Lemma reply_plain config n : (n < 2 ^ 64)%N → plain_reply (reply config None n).
Proof.
  intros Hn. split; [|by apply reply_fits]. unfold reply. apply ascii_valid.
  assert (Forall (λ b, byte_in 0 127 b = true) (ack_text n)) as Ha.
  { apply Forall_app. split; [by repeat constructor|].
    eapply Forall_impl; [apply forallb_Forall, fmt_N_digits|]. intros c. unfold is_digit, byte_in.
    rewrite !andb_true_iff, !N.leb_le. lia. }
  by destruct (cn_secure_acks config).
Qed.

(** C10. A transfer over the framed transport completes: for a readable file whose chunks encrypt,
    encode and each fit a frame, sent to a server that asks for no authentication and writes no
    decrypted output, with frames within the byte and chunk limits of a connection, never idle
    beyond the timeout and writes that do not fail, the client splits the file into chunks
    numbered from 1, whose data opens under the key to the pieces of the file, and the server
    acknowledges each of them in order and ends without an error; each side sends exactly what
    the other is shown to expect. *)
Theorem transfer_completes (config : ConnectionConfig) (senv : ServerEnv) (env : SendEnv)
    (elapsed : nat → N) (id : N) (p : path) (key content : bytes) (chunk_size : N) (s files : fs)
    (cs : list NetworkChunk) (bs : list bytes) (c d : stream) :
  s !! p = Some (File content) → ancestor_error p s = None → (0 < chunk_size)%N →
  length (sn_nonce_prefix env) = 4 →
  let pts := pieces (sn_reads env) chunk_size (S (length content)) 0 content in
  sends env key chunk_size octet_stream 0 1 pts cs bs →
  (1 + len_N (frames bs) < 2 ^ 64)%N →
  cn_require_auth config = false → cn_decrypt config = false →
  (∀ j, elapsed j ≤ cn_connection_timeout config)%N →
  within_connection config (session_start id false) bs →
  st_in c = frames (acks config (length bs)) → st_in d = frames bs →
  st_room c = None → st_room d = None →
  concat pts = content
  ∧ (∀ i chunk pt, cs !! i = Some chunk → pts !! i = Some pt →
       opens_as env key chunk_size (1 + N.of_nat i) chunk pt)
  ∧ send_encrypted_file_hardened env p key chunk_size s c
    = (Ok (acks config (length bs)), after_write (frames bs) (set_in [] c))
  ∧ ∃ session, handle_hardened_connection config senv elapsed Closed (session_start id false) d files
    = (Ok tt, session, after_write (frames (acks config (length bs))) (set_in [] d), files)
    ∧ ps_expected_seq_next session = (1 + N.of_nat (length bs))%N.
Proof.
  intros Hp Ha Hsz Hpre pts Hs Hmax Hauth Hdec Hel Hlim Hc Hd Hrc Hrd.
  assert (N.of_nat (length bs) ≤ len_N (frames bs))%N as Hlen.
  { clear. induction bs as [|b bs IH]; [done|].
    change (frames (b :: bs)) with (frame b ++ frames bs). rewrite len_N_app, len_frame. cbn [length]. lia. }
  split_and!.
  - apply pieces_concat; [done|lia].
  - by apply (sends_opens _ _ _ _ _ _ _ _ _ Hs).
  - unfold send_encrypted_file_hardened, send_file. unfold open_file. rewrite Ha, Hp. cbn [mbind option_bind ok_or].
    unfold opened_content. rewrite Hp. cbn [encrypt_fuel default].
    rewrite (send_file_loop_run _ _ _ _ _ _ _ _ _ _ (acks config (length bs)) [] cs bs);
      [done|unfold encrypt_fuel; simpl; lia|done|done|lia| | |done|by rewrite app_nil_r].
    + unfold acks. by rewrite length_fmap, length_seq.
    + apply Forall_fmap, Forall_forall. intros i Hi%elem_of_seq. apply reply_plain. lia.
  - unfold handle_hardened_connection, authenticate_connection. rewrite Hauth. unfold create_output. rewrite Hdec.
    destruct (serve_loop_run config elapsed (serve_fuel d) 0 (session_start id false) d bs cs)
      as (session & Hrun & Hexp); try done.
    + unfold counts_fit. rewrite Hd. cbn. lia.
    + by eapply sends_decode.
    + apply (sends_taken _ _ _ _ _ _ _ _ _ None Hs Hpre). by left.
    + unfold serve_fuel. rewrite Hd. unfold len_N in Hlen. lia.
    + rewrite Hrun. exists session. split; [done|]. by rewrite Hexp.
Qed.

(** A connection whose loop starts: nothing was counted and no header locked. *)
Definition fresh_session (s : ProcessingSession) : Prop :=
  ps_expected_seq_next s = 1%N ∧ ps_stream_nonce_prefix s = None ∧ ps_header_verified s = false
  ∧ ps_header_locked s = false ∧ ps_bytes_received s = 0%N ∧ ps_chunks_received s = 0%N.

(** C12. Whatever the peer sends, the server loop ends, having taken a number of frames from the front
    of the input.  It acknowledged 1, 2, ... for exactly the chunks in these frames that come in
    turn, numbered from 1 and with the nonce prefix of the first; a frame that holds no chunk is
    passed over, and at the first chunk out of turn it stops, with at most one error frame after
    the acknowledgements.  A positive limit is overrun by at most one frame. *)
Theorem server_serves_any_peer (config : ConnectionConfig) (elapsed : nat → N) (fin : EndOfInput)
    (s : ProcessingSession) (c : stream) :
  fresh_session s → st_room c = None → (1 + len_N (st_in c) < 2 ^ 64)%N →
  ∃ r s' c' fs rest err, let k := taken 1 None (decoded fs) in
    serve_loop config elapsed fin (serve_fuel c) 0 s c = (Some r, s', c')
    ∧ st_in c = frames fs ++ rest
    ∧ st_out c' = st_out c ++ replies config (ps_session_id s) 1 k ++ err
    ∧ (k = length (decoded fs) ∧ err = []
       ∨ S k = length (decoded fs) ∧ (err = [] ∨ ∃ e, err = frame (lit "ERROR: " ++ e)))
    ∧ ps_expected_seq_next s' = (1 + N.of_nat k)%N
    ∧ ps_chunks_received s' = N.of_nat (length fs) ∧ ps_bytes_received s' = total fs
    ∧ (0 < cn_max_connection_chunks config →
         ps_chunks_received s' ≤ cn_max_connection_chunks config + 1)%N
    ∧ (0 < cn_max_connection_bytes config →
         ps_bytes_received s' ≤ cn_max_connection_bytes config + MAX_FRAME)%N.
Proof.
  intros (He & Hp & Hv & Hl & Hb & Hc) Hroom Hlen.
  destruct (serve_loop config elapsed fin (serve_fuel c) 0 s c) as [[r s'] c'] eqn:Hrun.
  apply serve_loop_any in Hrun as ([r' ->] & fs & err & [[rest Hin] Hout Href Hexp Hch Hby Hcl Hbl]).
  - rewrite ?He, ?Hp, ?Hb, ?Hc in *. exists r', s', c', fs, rest, err. cbn zeta.
    split_and!; try done; [lia|lia|lia..].
  - constructor; rewrite ?Hl, ?Hv, Hp; done.
  - done.
  - unfold counts_fit. rewrite He, Hb, Hc. lia.
  - unfold serve_fuel. lia.
Qed.

(** Under any sequence of calls, and any answers of the system and the peer, a TCP transport
    counts at most one message more than a positive limit allows; from then on sending and
    receiving are refused and leave the transport as it is. *)
Theorem tcp_limits_hold (config : TransportConfig) (start : N) (ops : list tcp_op) :
  config_fits config →
  let t := tcp_run ops (tcp_new config start) in
  (0 < max_connection_bytes config →
     tcp_total_bytes t ≤ max_connection_bytes config + max_message_size config)%N
  ∧ (0 < max_connection_chunks config → tcp_total_chunks t ≤ max_connection_chunks config + 1)%N
  ∧ (¬ tcp_within t → ∀ chunk fin now now1 now2,
       (∃ e, tcp_send_chunk chunk now now1 now2 t = (Err e, t))
       ∧ (∃ e, tcp_receive_chunk fin now now1 now2 t = (Err e, t))).
Proof.
  intros Hf t. destruct (tcp_run_bounded ops (tcp_new config start)) as [Hb Hc]; [done|constructor; cbn; unfold tcp_total_bytes, tcp_total_chunks; cbn; lia|].
  fold t in Hb, Hc. cbn in Hc. split_and!; [rewrite <-Hc; apply Hb..|].
  intros Hover chunk fin now now1 now2. rewrite <-Hc in Hf.
  destruct (check_limits_over now t Hf Hb Hover) as [e He].
  unfold tcp_send_chunk, tcp_receive_chunk. rewrite He. cbn. unfold after. eauto.
Qed.

(** What one TCP transport sends, another receives: when all of the sends succeed, a receiver
    with the same message limit, room for the messages and no idle timeout gets the same chunks
    in the same order, and counts their bytes. *)
Theorem tcp_delivers_in_order (a b a' : TcpTransport) (sa sb : stream) (fin : EndOfInput)
    (clock clock' : nat → N) (cs : list NetworkChunk) :
  tcp_framed a = Some sa → st_room sa = None → st_out sa = [] →
  max_message_size (tcp_config b) = max_message_size (tcp_config a) →
  (max_message_size (tcp_config a) ≤ u32_max)%N →
  tcp_send_all clock 0 cs a = (Ok tt, a') →
  tcp_framed b = Some sb → st_in sb = default [] (st_out <$> tcp_framed a') →
  (∀ bs, messages (max_message_size (tcp_config a)) cs bs → tcp_room b bs) →
  never_idle (tcp_config b) clock' → not_idle b (clock' 0) →
  ∃ bs b', messages (max_message_size (tcp_config a)) cs bs
    ∧ st_in sb = frames bs
    ∧ tcp_receive_all fin clock' 0 (length cs) b = (Ok cs, b')
    ∧ tcp_framed b' = Some (set_in [] sb)
    ∧ tcp_total_bytes b' = (tcp_total_bytes b + total bs)%N
    ∧ tcp_total_chunks b' = (tcp_total_chunks b + N.of_nat (length cs))%N.
Proof.
  intros Ha Hra Hoa Hm Hmax Hsend Hb Hin Hroom Hclock Hidle.
  apply (tcp_send_all_out _ _ _ _ _ sa) in Hsend as (bs & Hms & Ha'); [|done..].
  rewrite Ha' in Hin. cbn in Hin. rewrite Hoa in Hin. cbn in Hin.
  destruct (tcp_receive_all_in fin clock' 0 cs bs b sb []) as (b' & Hr & Hf & Htb & Htc);
    [by rewrite Hm|by rewrite Hm|done|by rewrite app_nil_r|by apply Hroom|done|done|].
  exists bs, b'. split_and!; try done. by rewrite Htc, (Forall2_length _ _ _ Hms).
Qed.
End Theorems.

Section Quic.
Context `{QuinnLaws} `{Bincode NetworkChunk}.

(** The QUIC transport never receives a chunk: the length is read out of order, and quinn refuses
    the ordered read of the message that follows. *)
Theorem quic_receive_fails (t : QuicTransport) : ∃ e, (quic_receive_chunk t).1 = Err e.
Proof.
  unfold quic_receive_chunk. destruct (quic_recv_stream t) as [r|]; [|cbn; eauto].
  unfold quic_read. destruct (quic_read_chunk 4 false r) as [[[b|]|e] r'] eqn:E; cbn; eauto.
  apply quic_read_unordered in E. destruct (len_N b =? 4)%N; cbn; [|eauto].
  case_match; [cbn; eauto|].
  destruct (quic_illegal_ordered_read (of_be_bytes b) r' E) as (e & r'' & ->). cbn. eauto.
Qed.
End Quic.

(** * Examples *)

From S2P Require Import Reference ReferenceCodec ReferenceStream.

Definition demo_send_env : SendEnv :=
  mkSendEnv (lit "client-signing-key") (lit "pref") (lit "0123456789abcdef") None (Some (lit "salt"))
    (λ k, 1700000000000 + N.of_nat k)%N (λ _, Some 1700000000%N) (λ _, 4096%N) Closed.
Definition demo_file_path : path := [lit "report.txt"].
Definition demo_file : bytes := lit "hello, server".
Definition demo_send_fs : fs := {[ demo_file_path := File demo_file ]}.
Definition demo_key : bytes := lit "0123456789abcdef0123456789abcdef".
Definition demo_pts : list bytes := pieces (sn_reads demo_send_env) 5 (S (length demo_file)) 0 demo_file.
Definition demo_plan : list NetworkChunk * list bytes :=
  default ([], []) (send_plan demo_send_env demo_key 5 octet_stream 0 1 demo_pts).
Definition demo_config : ConnectionConfig :=
  mkConnectionConfig None false false None 1073741824 10000 30000000000 true.
Definition demo_server_env : ServerEnv := mkServerEnv [] (Some 0%N) [] (Some 0%N).
Definition demo_peer (input : bytes) : stream := mkStream input [] None (lit "broken pipe").

Lemma demo_sends : sends demo_send_env demo_key 5 octet_stream 0 1 demo_pts demo_plan.1 demo_plan.2.
Proof.
  apply send_plan_sends. rewrite <-surjective_pairing. unfold demo_plan.
  destruct (send_plan _ _ _ _ _ _ _) as [x|] eqn:E; [reflexivity|].
  exfalso. revert E. vm_compute. discriminate.
Qed.

Lemma transfer_completes_witness :
  length demo_plan.2 = 3 ∧
  send_encrypted_file_hardened demo_send_env demo_file_path demo_key 5 demo_send_fs
    (demo_peer (frames (acks demo_config 3)))
  = (Ok (acks demo_config 3), mkStream [] (frames demo_plan.2) None (lit "broken pipe")).
Proof.
  assert (length demo_plan.2 = 3) as Hl by (vm_compute; reflexivity). split; [exact Hl|].
  destruct (transfer_completes demo_config demo_server_env demo_send_env (λ _, 0%N) 1 demo_file_path demo_key demo_file 5
    demo_send_fs ∅ demo_plan.1 demo_plan.2 (demo_peer (frames (acks demo_config (length demo_plan.2))))
    (demo_peer (frames demo_plan.2))) as (_ & _ & Hr & _).
  - reflexivity.
  - reflexivity.
  - reflexivity.
  - reflexivity.
  - exact demo_sends.
  - vm_compute. reflexivity.
  - reflexivity.
  - reflexivity.
  - intros j. vm_compute. discriminate.
  - split; vm_compute; intros _; discriminate.
  - reflexivity.
  - reflexivity.
  - reflexivity.
  - reflexivity.
  - rewrite Hl in Hr. exact Hr.
Defined.

Lemma server_serves_any_peer_witness :
  fresh_session (session_start 7 false) ∧
  ∃ r s' c' fs rest, serve_loop demo_config (λ _, 0%N) Silent 100 0 (session_start 7 false)
      (demo_peer (frame (lit "noise") ++ lit "tail")) = (Some r, s', c')
    ∧ frame (lit "noise") ++ lit "tail" = frames fs ++ rest
    ∧ ps_chunks_received s' = N.of_nat (length fs).
Proof.
  assert (fresh_session (session_start 7 false)) as Hf by (repeat split).
  split; [exact Hf|].
  destruct (server_serves_any_peer demo_config (λ _, 0%N) Silent (session_start 7 false)
    (demo_peer (frame (lit "noise") ++ lit "tail"))) as (r & s' & c' & fs & rest & err & Hrun & Hin & _ & _ & _ & Hc & _).
  - exact Hf.
  - reflexivity.
  - vm_compute. reflexivity.
  - exists r, s', c', fs, rest. split; [|split; [exact Hin|exact Hc]]. rewrite <-Hrun. vm_compute. reflexivity.
Defined.

Lemma tcp_limits_hold_witness :
  config_fits config_default ∧
  (tcp_total_chunks (tcp_run [OpConnect (Some (Ok (demo_peer []))) true 1 2; OpClose true] (tcp_new config_default 0))
   ≤ 10001)%N.
Proof.
  assert (config_fits config_default) as Hf by (constructor; vm_compute; first [reflexivity|discriminate]).
  split; [exact Hf|]. apply (tcp_limits_hold config_default 0 [OpConnect (Some (Ok (demo_peer []))) true 1 2; OpClose true] Hf).
  reflexivity.
Defined.

Definition demo_sender : TcpTransport := set_framed (Some (demo_peer [])) (tcp_new config_default 0).
Definition demo_receiver : TcpTransport :=
  set_framed (Some (demo_peer (frames demo_plan.2))) (tcp_new config_default 0).
Definition demo_sent := tcp_send_all (λ _, 5%N) 0 demo_plan.1 demo_sender.

Lemma tcp_delivers_in_order_witness :
  ∃ b', tcp_receive_all Closed (λ _, 5%N) 0 3 demo_receiver = (Ok demo_plan.1, b').
Proof.
  destruct (tcp_delivers_in_order demo_sender demo_receiver demo_sent.2 (demo_peer []) (demo_peer (frames demo_plan.2))
    Closed (λ _, 5%N) (λ _, 5%N) demo_plan.1) as (bs & b' & _ & _ & Hr & _).
  - reflexivity.
  - reflexivity.
  - reflexivity.
  - reflexivity.
  - vm_compute. discriminate.
  - vm_compute. reflexivity.
  - reflexivity.
  - vm_compute. reflexivity.
  - intros bs Hms. assert (bs = demo_plan.2) as ->.
    { eapply messages_unique; [exact Hms|eapply sends_messages; exact demo_sends]. }
    split; [vm_compute; intros; discriminate|]. split; [vm_compute; intros; discriminate|]. split; vm_compute; reflexivity.
  - intros i j _ _. vm_compute. discriminate.
  - intros _. vm_compute. discriminate.
  - exists b'. exact Hr.
Defined.

Definition demo_quic : QuicTransport :=
  mkQuicTransport config_default true true None
    (Some (be_bytes 4 3 ++ lit "abc", false) : option quic_recv).
Lemma quic_receive_fails_witness :
  ∃ e, (quic_receive_chunk demo_quic).1 = Err e.
Proof. apply (quic_receive_fails demo_quic). Defined.
