(* ===== verification/BrowserTheorems.v ===== *)
(** * Properties of the browser verifier

    The verdict of the browser against the exit code of [seal verify] for the same archive, and
    the string encryption offered to scripts. *)

From S2P Require Import Prelude External Utf8 FileSystem Json Float64 Manifest ManifestCanon Chain.
From S2P Require Import Crypto Chronicle Archive ArchiveLemmas ArchiveCorrect VerifyChronicle Cli.
From S2P Require Import CliCorrect Wrap Unwrap UnwrapCorrect Browser.

Section Browser.
Context `{Blake3Laws} `{HexLaws} `{Base64Laws} `{Ed25519Laws} `{P256} `{SerdeJsonLaws}
  `{ManifestJson} `{IoText} `{ReportJson} `{JsError}.

(** ** Signatures *)

Lemma wasm_device_pub_normal (pub : bytes) :
  starts_with ecdsa_prefix pub = false → wasm_device_pub pub = normalize_device_pub pub.
Proof. intros He. unfold wasm_device_pub, normalize_device_pub. by rewrite He, orb_false_r. Qed.

Lemma wasm_device_pub_prefixed (pub : bytes) : ∃ r, wasm_device_pub pub = ed_prefix ++ r.
Proof.
  unfold wasm_device_pub. case_match eqn:E; [|by eauto]. by apply starts_with_spec in E.
Qed.

(** Under an Ed25519 key, the browser accepts what the library accepts. *)
Lemma verify_ed25519_signature_ok (key msg sig : bytes) : (∃ r, key = ed_prefix ++ r) →
  verify_ed25519_signature key msg sig = Ok true ↔ verify_manifest key msg sig = Ok true.
Proof.
  intros [r ->]. rewrite verify_manifest_ok. split.
  - unfold verify_ed25519_signature. intros Hv. inv_ok.
    repeat match goal with
    | E : starts_with _ sig = true |- _ => apply starts_with_spec in E as [? ->]
    | E : base64_decode _ = Some _ |- _ => apply base64_encode_decode in E
    | E : (_ =? _)%nat = true |- _ => apply Nat.eqb_eq in E
    end.
    eapply signed_ed25519; [|done|done| |done|done]; f_equal; by symmetry.
  - intros [k s Hk Hl Hok -> Hs Hv|k s Hk _ _ _ _].
    + apply (inj (app ed_prefix)) in Hk as ->. unfold verify_ed25519_signature.
      rewrite !(proj2 (starts_with_spec _ _)) by eauto. cbn [ensure mbind result_bind].
      change (drop 8 (ed_prefix ++ base64_encode k)) with (base64_encode k).
      change (drop 8 (ed_prefix ++ base64_encode s)) with (base64_encode s).
      rewrite !base64_decode_encode. cbn [ok_or mbind result_bind]. rewrite Hl, Hok. cbn.
      by rewrite Hs, Hv.
    + exfalso. by apply (f_equal (λ l, l !! 1)) in Hk.
Qed.

Lemma wasm_supported_version v : wasm_require_supported_version v = Ok tt ↔ v = lit "0.2.0".
Proof.
  unfold wasm_require_supported_version, SUPPORTED_TRST_VERSION. repeat case_bool_decide; naive_solver.
Qed.

(** ** Chunk files *)

Lemma chunk_filename_handle (i : N) : handle_name (chunk_filename i) = true.
Proof.
  unfold handle_name, chunk_filename. pose proof (fmt_05_digits i) as Hd. rewrite forallb_Forall in Hd.
  rewrite !andb_true_iff, !negb_true_iff. split_and!.
  - by destruct (fmt_05 i).
  - apply bool_decide_eq_false. intros Heq%(f_equal length). rewrite length_app in Heq. cbn in Heq. lia.
  - apply bool_decide_eq_false. intros Heq%(f_equal length). rewrite length_app in Heq. cbn in Heq. lia.
  - rewrite existsb_app, orb_false_iff. split; [|done].
    apply not_true_iff_false. intros (b & Hin%list_elem_of_In & ->%bool_decide_eq_true)%existsb_exists.
    by rewrite Forall_forall in Hd; apply Hd in Hin.
Qed.

(** Every chunk that the manifest declares is a file of the chunks directory. *)
Definition chunks_present (base : path) (m : TrstManifest) (s : fs) : Prop :=
  is_dir (chunks_path base) s = true
  ∧ ∀ seg, seg ∈ segments m → handle_name (chunk_file seg) = true
      ∧ ∃ c, read_file (chunks_path base ++ [chunk_file seg]) s = Ok c.

Lemma verify_archive_continuity_ok (base : path) (m : TrstManifest) (s : fs) :
  is_ok (verify_archive_continuity base m s) = true ↔ chunks_present base m s.
Proof.
  transitivity (verify_archive_continuity base m s = Ok tt).
  { destruct (verify_archive_continuity base m s) as [[]|]; naive_solver. }
  unfold verify_archive_continuity, chunks_present, check_file_exists.
  rewrite bind_ok. setoid_rewrite for_each_ok. setoid_rewrite Forall_forall. split.
  - intros ([] & Hd%ensure_ok & Hall). split; [done|].
    intros seg [Hn Hf]%Hall%ensure_ok%andb_true_iff. split; [done|].
    destruct (read_file _ s) as [c|]; [by exists c|done].
  - intros [Hd Hall]. exists tt. split; [by rewrite ensure_ok|].
    intros seg [Hn [c Hc]]%Hall. by rewrite ensure_ok, Hn, Hc.
Qed.

Lemma intact_present (base : path) (s : fs) (m : TrstManifest) (d : bytes) (cs : list bytes) :
  intact base s m d cs → chunks_present base m s.
Proof.
  intros Hi. assert (∀ i seg, segments m !! i = Some seg → ∃ c,
    chunk_file seg = chunk_filename (N.of_nat i)
    ∧ read_file (chunks_path base ++ [chunk_file seg]) s = Ok c) as Hseg.
  { intros i seg Hs. destruct (lookup_lt_is_Some_2 cs i) as [c Hc].
    { rewrite (in_length _ _ _ _ _ Hi). by eapply lookup_lt_Some. }
    pose proof (sd_name _ _ _ _ (in_segment _ _ _ _ _ Hi _ _ _ Hs Hc)) as Hn.
    exists c. rewrite Hn. split; [done|]. by apply (in_file _ _ _ _ _ Hi). }
  split.
  - destruct (segments m) as [|seg l] eqn:E; [by destruct (vm_nonempty _ (in_valid _ _ _ _ _ Hi))|].
    destruct (Hseg 0 seg eq_refl) as (c & _ & [Ha _]%read_file_inv).
    rewrite ancestor_error_None in Ha. unfold is_dir. rewrite Ha; [done|].
    rewrite ancestors_snoc by (intros [_ [=]]%app_nil). apply elem_of_app. right. by left.
  - intros seg (i & Hs)%list_elem_of_lookup. apply Hseg in Hs as (c & Hn & Hc).
    split; [rewrite Hn; apply chunk_filename_handle|by exists c].
Qed.

(** ** Archives *)

Lemma js_pass_true (b : bool) : js_pass b = lit "pass" ↔ b = true.
Proof. by destruct b. Qed.

Lemma read_capped_full (p : path) (max : N) (s : fs) (b : bytes) :
  read_capped p max s = Ok b → read_file p s = Ok b.
Proof.
  unfold read_capped. intros Hr. inv_ok. subst.
  match goal with E : (_ <=? _)%N = true |- _ => apply N.leb_le in E; rewrite len_take_N in E end.
  by rewrite take_N_all by lia.
Qed.

(** The browser on a manifest that the library can read. *)
Lemma wasm_verify_archive_eq (base : path) (pub : bytes) (s : fs) (m : TrstManifest) (d : bytes) :
  read_manifest base s = Ok (m, d) →
  match wasm_verify_archive base pub s with
  | Err _ => trst_version m ≠ lit "0.2.0" ∨ signature m = None
  | Ok v => ∃ sig c, signed_archive base s m sig c
      ∧ (wv_signature v = lit "pass" ↔ verify_manifest (wasm_device_pub pub) c sig = Ok true)
      ∧ (wv_continuity v = lit "pass" ↔ wv_signature v = lit "pass" ∧ chunks_present base m s)
      ∧ wv_segment_count v = as_u32 (N.of_nat (length (segments m)))
  end.
Proof.
  intros Hm. pose proof Hm as Hr. unfold read_manifest in Hr.
  apply bind_ok in Hr as (b & Hb%read_capped_full & Hr).
  apply bind_ok in Hr as (m' & Hj%map_err_ok & Hr). apply bind_ok in Hr as (d' & _ & Hr).
  apply bind_ok in Hr as (u & _ & [= -> ->]).
  unfold wasm_verify_archive, read_file_from_directory. change (base ++ [lit "manifest.json"])
    with (manifest_path base). rewrite Hb. cbn [map_err mbind result_bind].
  unfold wasm_signature. rewrite Hj. cbn [map_err mbind result_bind].
  destruct (wasm_require_supported_version (trst_version m)) as [[]|e] eqn:Hv; cbn [mbind result_bind].
  2:{ left. intros Hx%wasm_supported_version. congruence. }
  apply wasm_supported_version in Hv.
  destruct (signature m) as [sig|] eqn:Hsig; [|by right]. cbn [ok_or mbind result_bind].
  destruct (to_canonical_bytes m) as [c|e] eqn:Hc; [|done]. cbn [map_err mbind result_bind].
  pose proof (verify_ed25519_signature_ok _ c sig (wasm_device_pub_prefixed pub)) as Hs.
  pose proof (verify_archive_continuity_ok base m s) as Hk.
  exists sig, c. split; [split_and!; by eauto|].
  destruct (verify_ed25519_signature _ c sig) as [[]|e];
    cbn [wv_signature wv_continuity wv_segment_count]; rewrite !js_pass_true; naive_solver.
Qed.

(** C18. The browser and [seal verify] agree on signatures, and the browser checks less of the chunks:
    for an archive whose manifest can be read, a key that is not a P-256 key, and a run of
    [seal verify] whose output does not fail (exit code 1), the browser refuses exactly the
    archives that exit with 12, shows the signature as passed exactly for exit codes 0 and 11,
    and shows the continuity as passed exactly when the signature passed and the declared chunk
    files exist, whatever they hold; this includes every archive that exits with 0. *)
Theorem browser_agrees_with_seal (args : VerifyCmd) (ms : N) (s : fs) (m : TrstManifest) (d : bytes) (n : N) :
  n ≠ 1%N → starts_with ecdsa_prefix (vc_device_pub args) = false →
  read_manifest (vc_archive args) s = Ok (m, d) → exit_code (handle_verify args ms s).1 = n →
  match wasm_verify_archive (vc_archive args) (vc_device_pub args) s with
  | Err _ => n = 12%N
  | Ok v => n ∈ [0; 10; 11]%N
      ∧ (wv_signature v = lit "pass" ↔ n = 0%N ∨ n = 11%N)
      ∧ (n = 0%N → wv_continuity v = lit "pass")
      ∧ (wv_continuity v = lit "pass" ↔ (n = 0%N ∨ n = 11%N) ∧ chunks_present (vc_archive args) m s)
  end.
Proof.
  intros Hn1 He Hm Hn. apply verify_verdict in Hn; [|by rewrite Hn]. pose proof (wasm_verify_archive_eq _ (vc_device_pub args) _ _ _ Hm) as Hw.
  rewrite (wasm_device_pub_normal _ He) in Hw.
  assert (∀ m' sig c, signed_archive (vc_archive args) s m' sig c → m' = m ∧ trst_version m = lit "0.2.0"
    ∧ signature m = Some sig ∧ to_canonical_bytes m = Ok c) as Hsame.
  { intros m' sig c ((d' & Hm') & Hv & Hs & Hc). rewrite Hm in Hm'. apply Ok_inj in Hm'. by simplify_eq. }
  destruct (wasm_verify_archive _ _ s) as [v|e].
  - destruct Hw as (sig & c & (_ & Hver & Hs & Hc)%Hsame & Hsig & Hcont & _).
    destruct Hn as [m' sig' c' d' cs Hsa Hvm Hi|m' sig' c' Hsa Hvm Hi|m' sig' c' Hsa Hvm|m' d' Hm' Hd|e Hm'];
      try (apply Hsame in Hsa as (-> & _ & Hs' & Hc'); rewrite Hs in Hs'; rewrite Hc in Hc';
           apply Ok_inj in Hc'; simplify_eq).
    + pose proof (intact_present _ _ _ _ _ Hi) as Hp. split; [by left|].
      clear -Hsig Hcont Hvm Hp. intuition congruence.
    + split; [by right; right; left|]. clear -Hsig Hcont Hvm. intuition congruence.
    + split; [by right; left|]. clear -Hsig Hcont Hvm. intuition congruence.
    + exfalso. rewrite Hm in Hm'. apply Ok_inj in Hm'. injection Hm' as -> _. destruct Hd; congruence.
    + congruence.
  - destruct Hn as [m' sig' c' d' cs Hsa|m' sig' c' Hsa|m' sig' c' Hsa| |]; [..|done|done];
      apply Hsame in Hsa as (_ & Hv & Hs & _); destruct Hw; congruence.
Qed.
End Browser.

(** ** Strings *)

Section Strings.
Context `{Base64Laws} `{AeadLaws}.

(** What a script encrypts it can decrypt: with a valid key and a nonce that is absent or valid,
    encryption fails only when the cipher does, and otherwise gives a value that carries that
    nonce and decrypts to the string under the same key. *)
Theorem browser_string_roundtrip (random data key_b64 : bytes) (nonce_b64 : option bytes) :
  utf8_valid data = true → length random = 12 → validate_key key_b64 = true →
  (∀ n, nonce_b64 = Some n → validate_nonce n = true) →
  match wasm_encrypt random data key_b64 nonce_b64 with
  | Ok e => ed_nonce e = default (base64_encode random) nonce_b64 ∧ wasm_decrypt e key_b64 = Ok data
  | Err x => aead_encrypt Aes256Gcm (default [] (base64_decode key_b64))
      (default random (nonce_b64 ≫= base64_decode)) [] data = None
  end.
Proof.
  intros Hu Hr Hk Hn. unfold validate_key in Hk.
  destruct (base64_decode key_b64) as [key|] eqn:Ek; [|done].
  assert (decode_key key_b64 = Ok key) as Hkey by (unfold decode_key; rewrite Ek; cbn; by rewrite Hk).
  assert (∃ nonce, length nonce = 12 ∧ default random (nonce_b64 ≫= base64_decode) = nonce
    ∧ base64_encode nonce = default (base64_encode random) nonce_b64
    ∧ match nonce_b64 with
      | Some nonce_str => nonce_bytes ← decode_nonce nonce_str;
          ensure (length nonce_bytes =? 12)%nat (lit "Nonce must be 12 bytes (96 bits)") ≫= λ _,
          Ok nonce_bytes
      | None => Ok random
      end = Ok nonce) as (nonce & Hl & Hd & He & Hnonce).
  { destruct nonce_b64 as [ns|]; [|by exists random]. specialize (Hn ns eq_refl).
    unfold validate_nonce, decode_nonce in *. destruct (base64_decode ns) as [nb|] eqn:En; [|done].
    exists nb. cbn. rewrite En, Hn. apply Nat.eqb_eq in Hn. by apply base64_encode_decode in En. }
  unfold wasm_encrypt. rewrite Hkey. cbn [mbind result_bind]. rewrite Hnonce, Hd. cbn [default mbind result_bind].
  destruct (aead_encrypt Aes256Gcm key nonce [] data) as [ct|] eqn:Ect; [|done].
  cbn [ok_or mbind result_bind ed_nonce]. split; [done|].
  unfold wasm_decrypt, decode_nonce. cbn [ed_nonce ed_ciphertext]. rewrite Hkey, !base64_decode_encode.
  cbn [ok_or mbind result_bind]. rewrite Hl. cbn.
  rewrite (aead_decrypt_encrypt _ _ _ _ _ _ Ect). cbn. by rewrite Hu.
Qed.
End Strings.

(** ** Witnesses *)

From S2P Require Import Reference Demo CommandDemo.

#[local] Instance demo_js_error : JsError := λ _, lit "JsValue(NotFoundError)".

(** The archive passes in the browser as it does with [seal verify]. *)
Lemma browser_agrees_with_seal_witness :
  match wasm_verify_archive dir_0 (public key_a) rk_fs with
  | Ok v => wv_continuity v = lit "pass"
  | Err _ => False
  end.
Proof.
  assert (is_ok (wasm_verify_archive dir_0 (public key_a) rk_fs) = true) as Hok
    by (vm_compute; reflexivity).
  assert (exit_code (handle_verify rk_verify 5 rk_fs).1 = 0%N) as Hex by (vm_compute; reflexivity).
  assert (starts_with ecdsa_prefix (public key_a) = false) as Hkey by (vm_compute; reflexivity).
  pose proof (browser_agrees_with_seal rk_verify 5 rk_fs manifest_0 rk_detached 0 ltac:(discriminate) Hkey rk_manifest Hex) as Hb.
  change (vc_archive rk_verify) with dir_0 in Hb. change (vc_device_pub rk_verify) with (public key_a) in Hb.
  destruct (wasm_verify_archive dir_0 (public key_a) rk_fs); [|discriminate].
  destruct Hb as (_ & _ & Hc & _). exact (Hc eq_refl).
Defined.

Lemma browser_string_roundtrip_witness :
  match wasm_encrypt (repeat "n"%char 12) (lit "text") (base64_encode (repeat "k"%char 32)) None with
  | Ok e => wasm_decrypt e (base64_encode (repeat "k"%char 32)) = Ok (lit "text")
  | Err _ => False
  end.
Proof.
  refine (_ (browser_string_roundtrip (repeat "n"%char 12) (lit "text")
    (base64_encode (repeat "k"%char 32)) None eq_refl eq_refl _ _)).
  - vm_compute. intros [_ Hd]. exact Hd.
  - vm_compute. reflexivity.
  - discriminate.
Defined.
