(* ===== verification/RateLimitTheorems.v ===== *)
(** * Properties of the rate limit

    Which address a request is counted under, that a client cannot choose it, and that the
    clients do not share their limits. *)

From S2P Require Import Prelude External Utf8 Archive Addresses RateLimit CommandsCorrect.

(** ** Lists separated by commas *)

Lemma split_on_nonempty c (s : bytes) : split_on c s ≠ [].
Proof. destruct s as [|b s]; cbn; [done|]. case_decide; [done|]. by destruct (split_on c s). Qed.

Lemma split_on_sep c (l r : bytes) : split_on c (l ++ c :: r) = split_on c l ++ split_on c r.
Proof.
  induction l as [|b l IH]; cbn; [by rewrite decide_True|]. case_decide; rewrite IH; [done|].
  pose proof (split_on_nonempty c l). by destruct (split_on c l).
Qed.

Lemma split_on_absent c (s : bytes) : Forall (λ b, b ≠ c) s → split_on c s = [s].
Proof. induction 1 as [|b s Hb _ IH]; cbn; [done|]. by rewrite decide_False, IH by done. Qed.

Lemma fmt_N_solid n : Forall solid (fmt_N n).
Proof.
  pose proof (fmt_N_digits n) as Hd. rewrite forallb_Forall in Hd. eapply Forall_impl; [done|].
  intros b. unfold solid, is_digit, byte_in. rewrite !andb_true_iff, !N.leb_le. lia.
Qed.

Lemma fmt_ipv4_solid a b c d : Forall solid (fmt_ipv4 a b c d).
Proof. unfold fmt_ipv4. rewrite !Forall_app. split_and!; try apply fmt_N_solid; by repeat constructor. Qed.

Lemma fmt_ipv4_no_comma a b c d : Forall (λ x, x ≠ ","%char) (fmt_ipv4 a b c d).
Proof.
  assert (∀ n, Forall (λ x, x ≠ ","%char) (fmt_N n)) as Hn.
  { intros n. pose proof (fmt_N_digits n) as Hd. rewrite forallb_Forall in Hd.
    eapply Forall_impl; [done|]. by intros x Hx ->. }
  unfold fmt_ipv4. rewrite !Forall_app. split_and!; try apply Hn; by repeat constructor.
Qed.

Lemma trim_space (s : bytes) : Forall solid s → trim (lit " " ++ s) = s.
Proof.
  intros Hs. by rewrite <-(trim_all_solid s Hs) at 2.
Qed.

Section RateLimit.
Context `{Networks} `{HeaderLaws} `{GovernorLaws}.

(** ** The address of a client *)

Lemma first_untrusted_spec (proxies : list ipnet) (parts : list bytes) :
  first_untrusted proxies parts
  = head (filter (λ ip, is_trusted proxies ip = false) (omap (λ p, parse_ip (trim p)) parts)).
Proof.
  induction parts as [|p parts IH]; [done|]. cbn [first_untrusted omap list_omap].
  destruct (parse_ip (trim p)) as [ip|]; [|done]. cbv beta iota.
  destruct (is_trusted proxies ip) eqn:E.
  - by rewrite filter_cons_False by congruence.
  - by rewrite filter_cons_True.
Qed.

Lemma omap_reverse {A B} (f : A → option B) (l : list A) : omap f (reverse l) = reverse (omap f l).
Proof.
  induction l as [|x l IH]; [done|]. rewrite reverse_cons, omap_app, IH. cbn [omap list_omap].
  destruct (f x); [by rewrite reverse_cons|]. by rewrite app_nil_r.
Qed.

Lemma filter_reverse {A} (P : A → Prop) `{∀ x, Decision (P x)} (l : list A) :
  filter P (reverse l) = reverse (filter P l).
Proof.
  induction l as [|x l IH]; [done|]. rewrite reverse_cons, filter_app, IH, !filter_cons, filter_nil.
  case_decide; [by rewrite reverse_cons|]. by rewrite app_nil_r.
Qed.

Lemma head_reverse {A} (l : list A) : head (reverse l) = last l.
Proof. by rewrite <-last_reverse, reverse_involutive. Qed.

(** The addresses of a forwarding header that are not those of trusted proxies *)
Definition untrusted_hops (proxies : list ipnet) (xff : bytes) : list IpAddr :=
  filter (λ ip, is_trusted proxies ip = false) (omap (λ p, parse_ip (trim p)) (split_on ","%char xff)).

Lemma extract_client_ip_spec (peer : IpAddr) (hs : headers) (proxies : list ipnet) :
  extract_client_ip peer hs proxies =
  if is_trusted proxies peer then
    default peer ((headers_get (lit "x-forwarded-for") hs ≫= header_to_str)
      ≫= λ xff, last (untrusted_hops proxies xff))
  else peer.
Proof.
  unfold extract_client_ip. destruct proxies as [|n proxies]; [done|]. set (ps := n :: proxies).
  destruct (is_trusted ps peer); [|done]. cbn [negb].
  destruct (headers_get _ hs ≫= header_to_str) as [xff|]; [|done]. cbn.
  by rewrite first_untrusted_spec, omap_reverse, filter_reverse, head_reverse.
Qed.

Lemma untrusted_hops_snoc (proxies : list ipnet) (l r : bytes) :
  untrusted_hops proxies (l ++ lit "," ++ r) = untrusted_hops proxies l ++ untrusted_hops proxies r.
Proof. unfold untrusted_hops. change (lit "," ++ r) with (","%char :: r). by rewrite split_on_sep, omap_app, filter_app. Qed.

(** What the hops add to a header is the address of the one who sent the request. *)
Lemma untrusted_hops_address (proxies : list ipnet) (t : bytes) (a b c d : N) :
  Forall (λ n, (n ≤ u8_max)%N) [a; b; c; d] → t = fmt_ipv4 a b c d ∨ t = lit " " ++ fmt_ipv4 a b c d →
  untrusted_hops proxies t = if is_trusted proxies (V4 [a; b; c; d]) then [] else [V4 [a; b; c; d]].
Proof.
  intros Ho Ht. assert (trim t = fmt_ipv4 a b c d ∧ Forall (λ x, x ≠ ","%char) t) as [Htr Hc].
  { pose proof (fmt_ipv4_no_comma a b c d). destruct Ht as [->| ->].
    - split; [apply (trim_all_solid _ (fmt_ipv4_solid a b c d))|done].
    - split; [apply (trim_space _ (fmt_ipv4_solid a b c d))|]. apply Forall_app. split; [by repeat constructor|done]. }
  unfold untrusted_hops. rewrite (split_on_absent _ _ Hc). cbn [omap list_omap].
  rewrite Htr, (parse_fmt_ipv4 a b c d Ho).
  destruct (is_trusted proxies _) eqn:E; [by rewrite filter_cons_False by congruence|].
  by rewrite filter_cons_True.
Qed.

(** What a chain of proxies makes of the first forwarding header of a request: the first one
    appends the address of the client to the client's own header, if there is one, and each
    further one the address that it got the request from. *)
Definition hop_text (h : N * N * N * N) : bytes := let '(a, b, c, d) := h in fmt_ipv4 a b c d.
Definition append_hop (xff : bytes) (h : N * N * N * N) : bytes := xff ++ lit "," ++ lit " " ++ hop_text h.
Definition forwarded (sent : option bytes) (client : N * N * N * N) (hops : list (N * N * N * N)) : bytes :=
  foldl append_hop (from_option (λ x, append_hop x client) (hop_text client) sent) hops.
Definition hop_ip (h : N * N * N * N) : IpAddr := let '(a, b, c, d) := h in V4 [a; b; c; d].
Definition hop_ok (h : N * N * N * N) : Prop :=
  let '(a, b, c, d) := h in Forall (λ n, (n ≤ u8_max)%N) [a; b; c; d].

Lemma untrusted_hops_hop (proxies : list ipnet) (h : N * N * N * N) (t : bytes) :
  hop_ok h → t = hop_text h ∨ t = lit " " ++ hop_text h →
  untrusted_hops proxies t = if is_trusted proxies (hop_ip h) then [] else [hop_ip h].
Proof. destruct h as [[[a b] c] d]. apply untrusted_hops_address. Qed.

Lemma untrusted_hops_append (proxies : list ipnet) (xff : bytes) (h : N * N * N * N) :
  hop_ok h → untrusted_hops proxies (append_hop xff h)
  = untrusted_hops proxies xff ++ if is_trusted proxies (hop_ip h) then [] else [hop_ip h].
Proof.
  intros Hh. unfold append_hop. rewrite untrusted_hops_snoc.
  by rewrite (untrusted_hops_hop _ h (lit " " ++ hop_text h)) by auto.
Qed.

Lemma untrusted_hops_trusted (proxies : list ipnet) (hops : list (N * N * N * N)) (xff : bytes) :
  Forall hop_ok hops → (∀ h, h ∈ hops → is_trusted proxies (hop_ip h) = true) →
  untrusted_hops proxies (foldl append_hop xff hops) = untrusted_hops proxies xff.
Proof.
  intros Hok. revert xff. induction Hok as [|h hops Hh _ IH]; intros xff Ht; [done|]. cbn [foldl].
  rewrite IH by (intros h' ?; apply Ht; by right). rewrite (untrusted_hops_append _ _ _ Hh), Ht by left.
  apply app_nil_r.
Qed.

(** The client's address is the last one of the header that is not a proxy's. *)
Lemma last_untrusted_forwarded (proxies : list ipnet) (sent : option bytes) (client : N * N * N * N)
    (hops : list (N * N * N * N)) :
  hop_ok client → Forall hop_ok hops →
  is_trusted proxies (hop_ip client) = false → (∀ h, h ∈ hops → is_trusted proxies (hop_ip h) = true) →
  last (untrusted_hops proxies (forwarded sent client hops)) = Some (hop_ip client).
Proof.
  intros Hc Hh Hu Ht. unfold forwarded. rewrite untrusted_hops_trusted by done.
  destruct sent as [x|]; cbn [from_option].
  - rewrite (untrusted_hops_append _ _ _ Hc), Hu. apply last_snoc.
  - rewrite (untrusted_hops_hop _ client (hop_text client)) by auto. by rewrite Hu.
Qed.

(** The proxies add only text: whether the header can be read is up to what the client sent. *)
Lemma hop_text_visible (h : N * N * N * N) : forallb visible_ascii (hop_text h) = true.
Proof.
  destruct h as [[[a b] c] d]. assert (∀ n, forallb visible_ascii (fmt_N n) = true) as Hn.
  { intros n. pose proof (fmt_N_digits n) as Hd. rewrite forallb_Forall in *.
    eapply Forall_impl; [done|]. intros x. unfold is_digit, visible_ascii, byte_in.
    rewrite orb_true_iff, !andb_true_iff, !N.leb_le. lia. }
  cbn [hop_text]. unfold fmt_ipv4. by rewrite !forallb_app, !Hn.
Qed.

Lemma forwarded_visible (sent : option bytes) (client : N * N * N * N) (hops : list (N * N * N * N)) :
  forallb visible_ascii (forwarded sent client hops) = forallb visible_ascii (default [] sent).
Proof.
  assert (∀ x h, forallb visible_ascii (append_hop x h) = forallb visible_ascii x) as Ha.
  { intros x h. unfold append_hop. rewrite !forallb_app, hop_text_visible. apply andb_true_r. }
  unfold forwarded. set (x := from_option _ _ _).
  assert (forallb visible_ascii x = forallb visible_ascii (default [] sent)) as Hx
    by (unfold x; destruct sent; [apply Ha|apply hop_text_visible]).
  clearbody x. revert x Hx. induction hops as [|h hops IH]; intros x Hx; [done|].
  cbn [foldl]. apply IH. by rewrite Ha.
Qed.

(** C29. A client behind the operator's proxies cannot choose the address it is counted under. If
    the peer is not a trusted proxy, the request is counted under the peer, whatever the headers
    are. If it is one, and the first forwarding header is what the client sent in it, any bytes
    or none, with the client's IPv4 address appended by the first proxy and, by each further
    one, the trusted IPv4 address it got the request from, then the request is counted under the
    client's address, or, when what the client sent is not visible ASCII, under the peer's. *)
Theorem forwarded_address_unspoofable (proxies : list ipnet) (peer : IpAddr) (hs : headers) :
  (is_trusted proxies peer = false → extract_client_ip peer hs proxies = peer)
  ∧ ∀ sent client hops, is_trusted proxies peer = true →
    hop_ok client → Forall hop_ok hops →
    is_trusted proxies (hop_ip client) = false → (∀ h, h ∈ hops → is_trusted proxies (hop_ip h) = true) →
    headers_get (lit "x-forwarded-for") hs = Some (forwarded sent client hops) →
    extract_client_ip peer hs proxies
    = if forallb visible_ascii (default [] sent) then hop_ip client else peer.
Proof.
  rewrite extract_client_ip_spec. split; [by intros ->|].
  intros sent client hops -> Hc Hh Hu Ht ->. rewrite <-(forwarded_visible sent client hops).
  cbn [mbind option_bind]. destruct (forallb visible_ascii (forwarded _ _ _)) eqn:Hv.
  - rewrite (header_to_str_visible _ Hv). cbn [mbind option_bind]. by rewrite last_untrusted_forwarded.
  - by rewrite (header_to_str_other _ Hv).
Qed.

(** ** The limits of the clients *)

(** The requests of client [c] with the answers that they get *)
Definition answers_to (c : IpAddr) (st : RateLimitState) (rs : list WebRequest) : list (WebRequest * bool) :=
  filter (λ p, client_of (trusted_proxies st) p.1 = c) (zip rs (rate_limit_all st rs)).

Lemma rate_limit_all_cons (l : limiter) (ps : list ipnet) (r : WebRequest) (rs : list WebRequest) :
  let checked := check_key (client_of ps r) (arrived r) l in
  rate_limit_all (mkRateLimitState l ps) (r :: rs)
  = checked.1 :: rate_limit_all (mkRateLimitState checked.2 ps) rs.
Proof. cbn. unfold rate_limit_middleware. cbn. by destruct (check_key _ _ _). Qed.

Lemma answers_to_own (c : IpAddr) (rs : list WebRequest) (st st' : RateLimitState) :
  trusted_proxies st = trusted_proxies st' → quota_of (rl_limiter st) c = quota_of (rl_limiter st') c →
  answers_to c st rs = answers_to c st' (filter (λ r, client_of (trusted_proxies st) r = c) rs).
Proof.
  revert st st'. induction rs as [|r rs IH]; intros [l ps] [l' ps'] Hp Hq; [done|].
  cbn [trusted_proxies rl_limiter] in *. subst ps'.
  pose proof (IH (mkRateLimitState (check_key (client_of ps r) (arrived r) l).2 ps)) as IH'.
  unfold answers_to in *. cbn [trusted_proxies rl_limiter] in *. rewrite rate_limit_all_cons. cbn [zip_with].
  destruct (decide (client_of ps r = c)) as [Hc|Hc].
  - subst c. destruct (check_key_own (client_of ps r) (arrived r) l l' Hq) as [Ha Hb].
    rewrite (filter_cons_True _ r), rate_limit_all_cons by done. cbn [zip_with].
    rewrite !filter_cons_True by done. rewrite Ha. f_equal.
    by apply (IH' (mkRateLimitState (check_key (client_of ps r) (arrived r) l').2 ps)).
  - rewrite (filter_cons_False _ r), filter_cons_False by done.
    apply (IH' (mkRateLimitState l' ps)); [done|]. by rewrite (check_key_other _ c _ l Hc).
Qed.

(** The clients are limited separately: the answers a client gets depend only on its own
    requests and their times, whatever the requests of other clients between them are. *)
Theorem clients_limited_separately (c : IpAddr) (st : RateLimitState) (rs rs' : list WebRequest) :
  filter (λ r, client_of (trusted_proxies st) r = c) rs = filter (λ r, client_of (trusted_proxies st) r = c) rs' →
  answers_to c st rs = answers_to c st rs'.
Proof. intros Heq. by rewrite (answers_to_own c rs st st), (answers_to_own c rs' st st), Heq. Qed.
End RateLimit.

(** ** Witnesses *)

(** Networks of whole first octets, a limiter that counts to [rps] for each address, and header
    values that are text. *)
#[local] Instance demo_networks : Networks := {|
  ipnet := N;
  ipnet_contains n ip := match ip with V4 (a :: _) => (a =? n)%N | _ => false end;
  ipnet_from_str s := parse_usize s;
|}.
#[local] Instance demo_headers : HeaderValues := {|
  header_to_str v := if forallb visible_ascii v then Some v else None;
  header_from_str := Some;
|}.
#[local] Instance demo_header_laws : HeaderLaws.
Proof. constructor; intros v Hv; cbn; by rewrite Hv. Defined.
#[local] Instance demo_governor : Governor := {|
  limiter := N * (IpAddr → N);
  keyed_limiter rps := (rps, λ _, 0%N);
  check_key ip _ l :=
    ((l.2 ip <? l.1)%N, (l.1, λ k, if decide (k = ip) then l.2 ip + 1 else l.2 k)%N);
|}.
#[local, refine] Instance demo_governor_laws : GovernorLaws := {|
  quota := N * N;
  quota_of l ip := (l.1, l.2 ip);
|}.
Proof.
  - intros ip now [n f] [n' f']. cbn. intros [= <- Hf]. rewrite !decide_True by done. by rewrite Hf.
  - intros ip ip' now [n f] Hne. cbn. by rewrite decide_False.
Defined.

Definition demo_proxies : list ipnet := [10%N : ipnet].
Definition demo_xff (sent : option bytes) : headers :=
  [(lit "x-forwarded-for", forwarded sent (203, 0, 113, 5)%N [(10, 0, 0, 9)%N])].

Lemma forwarded_address_unspoofable_witness :
  extract_client_ip (V4 [10; 0; 0; 1]%N) (demo_xff (Some (lit "1.2.3.4, what"))) demo_proxies
    = V4 [203; 0; 113; 5]%N
  ∧ extract_client_ip (V4 [10; 0; 0; 1]%N) (demo_xff (Some [byte_of_N 200])) demo_proxies
    = V4 [10; 0; 0; 1]%N
  ∧ extract_client_ip (V4 [7; 0; 0; 1]%N) (demo_xff (Some (lit "1.2.3.4"))) demo_proxies
    = V4 [7; 0; 0; 1]%N.
Proof.
  assert (∀ sent, extract_client_ip (V4 [10; 0; 0; 1]%N) (demo_xff sent) demo_proxies
    = if forallb visible_ascii (default [] sent) then V4 [203; 0; 113; 5]%N else V4 [10; 0; 0; 1]%N) as Hp.
  { intros sent. apply (proj2 (forwarded_address_unspoofable demo_proxies (V4 [10; 0; 0; 1]%N)
      (demo_xff sent)) sent (203, 0, 113, 5)%N [(10, 0, 0, 9)%N]).
    - reflexivity.
    - repeat constructor; vm_compute; discriminate.
    - repeat constructor; vm_compute; discriminate.
    - reflexivity.
    - intros h ->%list_elem_of_singleton. reflexivity.
    - reflexivity. }
  split_and!; [apply (Hp (Some (lit "1.2.3.4, what")))|apply (Hp (Some [byte_of_N 200]))|].
  apply (proj1 (forwarded_address_unspoofable demo_proxies (V4 [7; 0; 0; 1]%N)
    (demo_xff (Some (lit "1.2.3.4"))))). reflexivity.
Defined.

Definition demo_request (a : N) : WebRequest := mkWebRequest (Some (V4 [a; 0; 0; 1]%N)) [] 0.

Lemma clients_limited_separately_witness :
  let st := mkRateLimitState (keyed_limiter 1) demo_proxies in
  let rs := [demo_request 7; demo_request 8; demo_request 8; demo_request 7] in
  answers_to (V4 [7; 0; 0; 1]%N) st rs = answers_to (V4 [7; 0; 0; 1]%N) st [demo_request 7; demo_request 7]
  ∧ (rate_limit_all st rs) = [true; true; false; false].
Proof.
  intros st rs. split; [|reflexivity].
  apply (clients_limited_separately (V4 [7; 0; 0; 1]%N) st rs [demo_request 7; demo_request 7]).
  reflexivity.
Defined.

(** A part that is not an address is skipped: when the proxy writes the client's address with its
    port, the client chooses the address it is counted under. *)
Example port_skipped : extract_client_ip (V4 [10; 0; 0; 1]%N)
  [(lit "x-forwarded-for", lit "1.2.3.4, 203.0.113.5:80")] demo_proxies = V4 [1; 2; 3; 4]%N.
Proof. reflexivity. Qed.

(** Of two headers the first one is used. *)
Example second_header_ignored : extract_client_ip (V4 [10; 0; 0; 1]%N)
  [(lit "x-forwarded-for", lit "1.2.3.4"); (lit "x-forwarded-for", lit "203.0.113.5")] demo_proxies
  = V4 [1; 2; 3; 4]%N.
Proof. reflexivity. Qed.
