(* ===== verification/HybridTheorems.v ===== *)
(** * Properties of hybrid encryption

    Envelopes for one recipient open with its key and carry nothing else that is protected; which
    algorithms take part; key exchange agrees. *)

From S2P Require Import Prelude External Format Backends Hsm Hybrid.

Section Hybrid.
Context `{Blake3Laws} `{HexLaws} `{Ed25519Laws} `{RsaLaws} `{P256EcdhLaws} `{AeadLaws}
  `{BincodeLaws PublicKey} `{BincodeLaws HybridEnvelope}.

Definition is_rsa (a : AsymmetricAlgorithm) : bool :=
  match a with URsa2048 | URsa4096 => true | _ => false end.

Lemma generate_rsa_ok (bits : N) (random : bytes) (kp : KeyPair) :
  generate_rsa bits random = Ok kp →
  (bits = 2048 ∨ bits = 4096)%N ∧ ∃ sk pk a, rsa_generate bits random = Some (sk, pk) ∧ is_rsa a = true
    ∧ kp = mkKeyPair (PublicKey_new a pk) (PrivateKey_new a sk).
Proof.
  unfold generate_rsa. destruct (rsa_generate bits random) as [[sk pk]|]; [|done].
  cbn [ok_or mbind result_bind]. intros Hg.
  destruct (N.eqb_spec bits 2048) as [->|_]; [injection Hg as <-; split; [by left|]; by exists sk, pk, URsa2048|].
  destruct (N.eqb_spec bits 4096) as [->|_]; [|done].
  injection Hg as <-; split; [by right|]; by exists sk, pk, URsa4096.
Qed.

(** The pairs that can be made for the algorithm *)
Lemma generate_algorithm (a : AsymmetricAlgorithm) (random : bytes) (kp : KeyPair) :
  KeyPair_generate a random = Ok kp → pk_algorithm (kp_public kp) = a ∧ sk_algorithm (kp_private kp) = a.
Proof.
  destruct a; cbn; [by intros [= <-]..| |]; unfold generate_rsa;
    (destruct (rsa_generate _ random) as [[sk pk]|]; [|done]); by intros [= <-].
Qed.

Lemma session_key_roundtrip (a : AsymmetricAlgorithm) (random r key : bytes) (kp : KeyPair) :
  is_rsa a = true → KeyPair_generate a random = Ok kp → length key = 32 →
  ∃ ct, encrypt_key_asymmetric r key (kp_public kp) = Ok ct
    ∧ decrypt_key_asymmetric ct (kp_private kp) = Ok key.
Proof.
  intros Ha Hk Hl. assert (∃ bits, generate_rsa bits random = Ok kp) as [bits Hg] by (destruct a; by eauto).
  apply generate_rsa_ok in Hg as (Hb & sk & pk & a' & Hg & Ha' & ->).
  destruct (rsa_pair _ _ _ _ Hb Hg) as [Hpk Hsk].
  destruct (rsa_decrypt_encrypt _ _ _ _ r key Hb Hg) as (ct & He & Hd); [lia|]. exists ct.
  unfold encrypt_key_asymmetric, decrypt_key_asymmetric, rsa_encrypt_key, rsa_decrypt_key.
  cbn [kp_public kp_private pk_algorithm sk_algorithm PublicKey_new PrivateKey_new pk_bytes sk_bytes].
  destruct a'; try done; rewrite Hpk, Hsk, He; cbn [ensure ok_or mbind result_bind]; rewrite Hd;
    cbn [ok_or mbind result_bind]; by rewrite Hl.
Qed.

Lemma parse_serialized (e : HybridEnvelope) (b extra : bytes) :
  hy_magic e = HYBRID_MAGIC → hy_version e = HYBRID_VERSION → serialize e = Ok b →
  parse_envelope (b ++ extra) = Ok e.
Proof.
  intros Hm Hv Hs. unfold parse_envelope, deserialize. rewrite (deserialize_serialize e b extra Hs).
  cbn [fmap result_fmap fst map_err mbind result_bind]. rewrite Hm, Hv. by rewrite bool_decide_true.
Qed.

(** An envelope for one recipient opens with the recipient's key, for the whole input that was
    sealed: for a generated RSA pair, sealing fails only when the cipher or bincode does, and
    what it makes, even with bytes appended to it, opens to the data; for the other two
    algorithms a key pair can be made as well, but nothing can be sealed for it. *)
Theorem hybrid_roundtrip (a : AsymmetricAlgorithm) (random : bytes) (kp : KeyPair) (d : HybridDraws)
    (data extra : bytes) :
  KeyPair_generate a random = Ok kp → length (hyd_session_key d) = 32 →
  match seal_for_recipient d data (kp_public kp) with
  | Ok envelope => is_rsa a = true ∧ open_envelope (envelope ++ extra) (kp_private kp) = Ok data
  | Err e => is_rsa a = false ∨ aead_encrypt Aes256Gcm (hyd_session_key d) (hyd_nonce d) [] data = None
      ∨ ∃ (x : HybridEnvelope) m, serialize x = Err m ∧ e = SerializationError m
  end.
Proof.
  intros Hk Hl. destruct (generate_algorithm _ _ _ Hk) as [Hpa _]. unfold seal_for_recipient, encrypt_symmetric.
  destruct (aead_encrypt _ _ _ _ data) as [ct|] eqn:Ect; cbn [ok_or mbind result_bind]; [|by right; left].
  destruct (is_rsa a) eqn:Ha.
  - destruct (session_key_roundtrip a random (hyd_padding d) _ kp Ha Hk Hl) as (w & He & Hd).
    rewrite He. cbn [map_err mbind result_bind]. unfold assemble_envelope.
    destruct (serialize _) as [b|m] eqn:Es; cbn [map_err]; [|right; right; by eauto].
    split; [done|]. unfold open_envelope. pose proof (λ h1 h2, parse_serialized _ b extra h1 h2 Es) as Hp. rewrite (Hp eq_refl eq_refl).
    cbn [mbind result_bind hy_encrypted_session_key hy_encrypted_payload hy_nonce].
    rewrite Hd. cbn [map_err mbind result_bind]. unfold decrypt_symmetric.
    by rewrite (aead_decrypt_encrypt _ _ _ _ _ _ Ect).
  - unfold encrypt_key_asymmetric. rewrite Hpa. destruct a; try done; by left.
Qed.

(** Only the session key and the payload are protected: the recipient's identifier and the
    algorithm of an envelope can be replaced by anything, and it opens to the same result. *)
Lemma hybrid_header_unprotected (e : HybridEnvelope) (id : bytes) (algorithm : N) (b b' : bytes) (k : PrivateKey) :
  let e' := mkHybridEnvelope (hy_magic e) (hy_version e) id (hy_encrypted_session_key e)
    (hy_encrypted_payload e) (hy_nonce e) algorithm in
  serialize e = Ok b → serialize e' = Ok b' → open_envelope b' k = open_envelope b k.
Proof.
  intros e' Hb Hb'. unfold open_envelope, parse_envelope, deserialize.
  rewrite <-(app_nil_r b), <-(app_nil_r b'), (deserialize_serialize _ _ _ Hb), (deserialize_serialize _ _ _ Hb').
  cbn [fmap result_fmap fst map_err mbind result_bind e' hy_magic hy_version].
  by do 2 (destruct (ensure _ _); [|done]).
Qed.

(** Both sides of a key exchange between generated P-256 pairs get the same secret. *)
Lemma key_exchange_agrees (ra rb : bytes) (ka kb : KeyPair) :
  p256_secret_ok ra = true → p256_secret_ok rb = true →
  KeyPair_generate UEcdsaP256 ra = Ok ka → KeyPair_generate UEcdsaP256 rb = Ok kb →
  ∃ shared, key_exchange (kp_private ka) (kp_public kb) = Ok shared
    ∧ key_exchange (kp_private kb) (kp_public ka) = Ok shared.
Proof.
  intros Ha Hb [= <-] [= <-]. exists (p256_dh ra (p256_public rb)). unfold key_exchange, ecdh_p256. cbn.
  destruct (p256_public_encoded ra Ha) as [-> ->], (p256_public_encoded rb Hb) as [-> ->].
  rewrite Ha, Hb. cbn. split; [done|]. by rewrite p256_dh_comm.
Qed.
End Hybrid.

(** ** Witnesses *)

From S2P Require Import Reference ReferenceCodec.

(** Keys that are the drawn bytes, and encryption that prepends a hash of the key *)
#[export] Instance demo_rsa : Rsa := {|
  rsa_generate _ random := Some (random, random);
  rsa_public_ok _ := true;
  rsa_private_ok _ := true;
  rsa_encrypt pk _ msg := Some (blake3 pk ++ msg);
  rsa_decrypt sk ct := strip_prefix (blake3 sk) ct;
  rsa_key_error _ := lit "malformed";
  rsa_encrypt_error _ := lit "message too long";
  rsa_decrypt_error _ _ := lit "decryption error";
|}.
#[export] Instance demo_rsa_laws : RsaLaws.
Proof.
  split; [done|]. intros bits random sk pk r msg _ [= <- <-] _. exists (blake3 random ++ msg).
  split; [done|]. apply strip_prefix_app.
Qed.
#[local] Instance demo_ecdh : P256Ecdh := {|
  p256_dh a b := if decide (a = b) then a else [];
  p256_secret_error _ := lit "crypto error";
  p256_encoded_error _ := lit "crypto error";
  p256_on_curve _ := true;
|}.
#[local] Instance demo_ecdh_laws : P256EcdhLaws.
Proof. split; [|done]. intros a b _ _. cbn. repeat case_decide; congruence. Qed.

Definition codec_hybrid : codec HybridEnvelope.
Proof.
  refine (codec_map (λ e, (hy_magic e, hy_version e, hy_recipient_key_id e, hy_encrypted_session_key e,
               hy_encrypted_payload e, hy_nonce e, hy_algorithm e))
    (λ '(a, b, c, d, e, f, g), mkHybridEnvelope a b c d e f g) _
    (codec_bytes ** codec_N ** codec_bytes ** codec_bytes ** codec_bytes ** codec_bytes ** codec_N)).
  by intros [].
Defined.
#[export] Instance demo_hybrid_bincode : Bincode HybridEnvelope := bincode_of codec_hybrid.
#[export] Instance demo_hybrid_laws : BincodeLaws HybridEnvelope := bincode_of_laws codec_hybrid.

Definition demo_hybrid_pair : KeyPair := mkKeyPair (PublicKey_new URsa2048 (lit "pq")) (PrivateKey_new URsa2048 (lit "pq")).
Definition demo_draws : HybridDraws := mkHybridDraws (repeat "k"%char 32) (repeat "n"%char 12) (lit "pad").

Lemma hybrid_roundtrip_witness :
  match seal_for_recipient demo_draws (lit "data") (kp_public demo_hybrid_pair) with
  | Ok envelope => open_envelope (envelope ++ lit "more") (kp_private demo_hybrid_pair) = Ok (lit "data")
  | Err _ => False
  end.
Proof.
  assert (is_ok (seal_for_recipient demo_draws (lit "data") (kp_public demo_hybrid_pair)) = true) as Hok
    by (vm_compute; reflexivity).
  pose proof (hybrid_roundtrip URsa2048 (lit "pq") demo_hybrid_pair demo_draws (lit "data") (lit "more")
    eq_refl eq_refl) as Hr.
  destruct (seal_for_recipient _ _ _); [|discriminate]. exact (proj2 Hr).
Defined.
