(* ===== verification/PubkyTheorems.v ===== *)
(** * Properties of the Pubky adapters

    Version 2 envelopes open for their recipient and are signed as a whole; a key whose
    record is served is found and what is sent to it is received; what the client does not check; the command that
    cannot succeed. *)

From S2P Require Import Prelude External Utf8 FileSystem Format Backends Hsm Hybrid Envelope Archive Pubky.
From S2P Require Import HybridTheorems.

(** ** Version 2 envelopes *)

Section EnvelopeV2.
Context `{Blake3} `{Ed25519Laws} `{HpkeLaws} `{!KeyAgreement} `{!X25519Laws} `{Kdf} `{AeadLaws}
  `{BincodeLaws ChunkManifestV2} `{BincodeLaws EnvelopeV2}.

Lemma session_key_wraps (nonce session_key key w : bytes) :
  length nonce = 12 → length session_key = 32 →
  encrypt_session_key nonce session_key key = Ok w → decrypt_session_key w key = Ok session_key.
Proof.
  unfold encrypt_session_key, decrypt_session_key. intros Hn Hk Hw. inv_ok.
  rewrite length_app, Hn. rewrite (proj2 (Nat.ltb_ge _ _)) by lia. cbn [negb ensure mbind result_bind].
  rewrite take_app_length', drop_app_length' by done.
  match goal with E : aead_encrypt _ _ _ _ _ = Some _ |- _ => rewrite (aead_decrypt_encrypt _ _ _ _ _ _ E) end.
  cbn [ok_or mbind result_bind]. by rewrite Hk.
Qed.

Lemma encrypt_chunk_opens d session_key h i data c :
  encrypt_chunk_v2 d session_key h i data = Ok c →
  open_chunk_v2 session_key h c = Ok data ∧ nc_sequence c = N.of_nat i.
Proof.
  unfold encrypt_chunk_v2, open_chunk_v2. intros Hc. inv_ok.
  match goal with E : in_context _ _ = Ok _ |- _ => apply in_context_ok, deserialize_ok in E as Hm end.
  cbn [nc_manifest chunk_new nc_nonce nc_data nc_sequence]. rewrite Hm. split; [|done].
  cbn [in_context map_err mbind result_bind m2_sequence m2_chunk_size].
  match goal with E : aead_encrypt _ _ _ _ _ = Some _ |- _ => apply aead_decrypt_encrypt in E as Hd end.
  unfold build_chunk_aad in *. unfold as_u32 in *. rewrite N.Div0.mod_mod. by rewrite Hd.
Qed.

Lemma chunks_open d payload session_key h cs :
  encrypt_payload_chunks d payload session_key h = Ok cs →
  nc_sequence <$> cs = N.of_nat <$> seq 0 (length cs)
  ∧ length cs = length (slice_chunks (N.to_nat V2_CHUNK_SIZE) payload)
  ∧ decrypt_payload_chunks cs session_key h = Ok payload.
Proof.
  unfold encrypt_payload_chunks. set (pieces := slice_chunks _ payload). intros Hcs%map_res_ok.
  assert (length cs = length pieces) as Hlen
    by (apply Forall2_length in Hcs; unfold enumerate in Hcs; by rewrite length_enumerate_from in Hcs).
  assert (∀ i c, cs !! i = Some c → ∃ p, pieces !! i = Some p
    ∧ open_chunk_v2 session_key h c = Ok p ∧ nc_sequence c = N.of_nat i) as Hc.
  { intros i c Hi. destruct (Forall2_lookup_r _ _ _ _ _ Hcs Hi) as ([j p] & Hj & He).
    unfold enumerate in Hj. rewrite lookup_enumerate_from in Hj.
    apply fmap_Some in Hj as (p' & Hp & [= -> ->]). exists p'. eauto using encrypt_chunk_opens. }
  assert (nc_sequence <$> cs = N.of_nat <$> seq 0 (length cs)) as Hlab.
  { apply list_eq. intros i. rewrite !list_lookup_fmap. destruct (cs !! i) as [c|] eqn:E; cbn.
    - rewrite lookup_seq_lt by by eapply lookup_lt_Some. cbn. f_equal.
      by destruct (Hc _ _ E) as (p & _ & _ & ->).
    - apply lookup_ge_None in E. by rewrite lookup_ge_None_2 by by rewrite length_seq. }
  repeat split; [done..|]. unfold decrypt_payload_chunks. rewrite sort_labelled by done.
  rewrite (proj2 (map_res_ok _ _ pieces)); cbn [mbind result_bind].
  - f_equal. apply slice_chunks_concat, chunk_size_pos.
  - apply Forall2_same_length_lookup_2; [done|]. intros i c p Hi Hp.
    destruct (Hc _ _ Hi) as (p' & Hp' & Ho & _). congruence.
Qed.

(** The checks of the order are those of version 1. *)
Definition as_v1 (e : EnvelopeV2) : Envelope :=
  mkEnvelope 2 [] (v2_chunks e) [] []
    (mkEnvelopeMetadata 0 0 (vh_chunk_count (v2_header e)) 0 0 0).
Lemma verify_chunk_sequence_v2_v1 e : verify_chunk_sequence_v2 e = verify_chunk_sequence (as_v1 e).
Proof. done. Qed.

Lemma verify_v2_ok e :
  verify_v2 e = true ↔
  verify_signature_v2 e = true ∧ vh_magic (v2_header e) = ENVELOPE_V2_MAGIC
  ∧ vh_version (v2_header e) = ENVELOPE_V2_VERSION
  ∧ vh_chunk_count (v2_header e) = N.of_nat (length (v2_chunks e))
  ∧ nc_sequence <$> v2_chunks e ≡ₚ N.of_nat <$> seq 0 (length (v2_chunks e)).
Proof.
  transitivity (verify_signature_v2 e = true ∧ verify_header_v2 e = true ∧ verify_chunk_sequence (as_v1 e) = true).
  { unfold verify_v2. rewrite verify_chunk_sequence_v2_v1.
    destruct (verify_signature_v2 e), (verify_header_v2 e), (verify_chunk_sequence (as_v1 e)); cbn; naive_solver. }
  rewrite verify_chunk_sequence_ok. cbn [as_v1 env_chunks env_metadata em_chunk_count].
  unfold verify_header_v2. split.
  - intros (Hs & Hh & Hc & Hp). case_bool_decide; [|done]. cbn [negb] in Hh.
    destruct (vh_version _ =? _)%N eqn:Hver in Hh; [|done]. apply N.eqb_eq in Hver. eauto.
  - intros (Hs & Hm & Hver & Hc & Hp). rewrite bool_decide_true, Hver, Hc, !N.eqb_refl by done. eauto.
Qed.

Lemma seal_v2_verifies d payload sender recipient_pub id e :
  seal_v2 d payload sender recipient_pub id = Ok e →
  (N.of_nat (length payload) ≤ u32_max * V2_CHUNK_SIZE)%N → verify_v2 e = true.
Proof.
  unfold seal_v2. intros He Hb. inv_ok.
  match goal with E : encrypt_payload_chunks _ _ _ _ = Ok _ |- _ =>
    destruct (chunks_open _ _ _ _ _ E) as (Hlab & Hlen & _) end.
  apply verify_v2_ok. cbn [v2_header v2_chunks vh_magic vh_version vh_chunk_count].
  split; [|split; [done|]; split; [done|]; split].
  - unfold verify_signature_v2. unfold compute_hash_for_signing in *. unfold unsigned_v2 in *.
    cbn [v2_header v2_encrypted_session_key v2_chunks v2_signature vh_sender_ed25519_pubkey] in *. inv_ok.
    match goal with E : in_context _ _ = Ok _ |- _ => rewrite E end. cbn [mbind result_bind].
    unfold dual_ed25519_public. by rewrite length_ed_sign, ed_public_ok, ed_verify_sign.
  - rewrite Hlen, slice_chunks_length by apply chunk_size_pos. rewrite N2Nat.id. unfold as_u32.
    apply N.mod_small. unfold div_ceil, V2_CHUNK_SIZE, u32_max in *.
    apply N.Div0.div_lt_upper_bound. lia.
  - by rewrite Hlab.
Qed.

Lemma seal_v2_unseals d payload sender recipient id e :
  seal_v2 d payload sender (dual_x25519_public recipient) id = Ok e →
  length (vd_wrap_nonce d) = 12 → length (vd_session_key d) = 32 →
  verify_v2 e = true → unseal_v2 e recipient = Ok payload.
Proof.
  intros He Hn Hk Hv. unfold unseal_v2. rewrite Hv. cbn [ensure mbind result_bind].
  unfold seal_v2 in He. inv_ok.
  cbn [v2_header v2_encrypted_session_key v2_chunks vh_sender_x25519_pubkey vh_payload_size].
  unfold dual_x25519_public in *. rewrite x25519_comm.
  match goal with E : encrypt_session_key _ _ _ = Ok _ |- _ =>
    rewrite (session_key_wraps _ _ _ _ Hn Hk E) end. cbn [mbind result_bind].
  match goal with E : encrypt_payload_chunks _ _ _ _ = Ok _ |- _ =>
    destruct (chunks_open _ _ _ _ _ E) as (_ & _ & ->) end. cbn [mbind result_bind].
  by rewrite N.eqb_refl.
Qed.

(** The signed hash fixes the header, the wrapped key and the chunks. *)
Lemma signing_hash_binds e e' h :
  compute_hash_for_signing e = Ok h → compute_hash_for_signing e' = Ok h →
  unsigned_v2 e' = unsigned_v2 e ∨ Collision.
Proof.
  unfold compute_hash_for_signing. intros (b & Hb%in_context_ok & Hh)%bind_ok (b' & Hb'%in_context_ok & Hh')%bind_ok.
  destruct (decide (b = b')) as [<-|Hne]; [left; eauto using serialize_inj|].
  right. exists b, b'. split; [done|]. congruence.
Qed.

(** Unsealing looks at the signature only to verify. *)
Lemma unseal_v2_unsigned e e' recipient :
  unsigned_v2 e' = unsigned_v2 e → verify_v2 e = true → verify_v2 e' = true →
  unseal_v2 e' recipient = unseal_v2 e recipient.
Proof. unfold unseal_v2. intros [= -> -> ->] -> ->. done. Qed.

Lemma verify_v2_signed e :
  verify_v2 e = true → ∃ h, compute_hash_for_signing e = Ok h
    ∧ ed_verify (vh_sender_ed25519_pubkey (v2_header e)) h (v2_signature e) = true.
Proof.
  intros [Hs _]%verify_v2_ok. unfold verify_signature_v2 in Hs.
  destruct (compute_hash_for_signing e) as [h|]; [|done]. exists h. split; [done|].
  do 2 (destruct (negb _) in Hs; [done|]). done.
Qed.

(** C31. A version 2 envelope reaches its recipient whole or not at all: what [seal] returns verifies
    and unseals to the payload, and every envelope that verifies under the sender's key
    unseals to that same payload, unless the sender signed another hash or BLAKE3
    collides.  Chunks cannot be dropped, reordered or repeated, as they can in version 1. *)
Theorem v2_envelope_intact (d : V2Draws) (payload id : bytes) (sender recipient : DualKeyPair) (e : EnvelopeV2) :
  seal_v2 d payload sender (dual_x25519_public recipient) id = Ok e →
  length (vd_wrap_nonce d) = 12 → length (vd_session_key d) = 32 →
  (N.of_nat (length payload) ≤ u32_max * V2_CHUNK_SIZE)%N →
  verify_v2 e = true ∧ unseal_v2 e recipient = Ok payload
  ∧ ∀ e', verify_v2 e' = true → vh_sender_ed25519_pubkey (v2_header e') = dual_ed25519_public sender →
      (unsigned_v2 e' = unsigned_v2 e ∧ unseal_v2 e' recipient = Ok payload)
      ∨ Collision
      ∨ ∃ h, compute_hash_for_signing e' = Ok h ∧ compute_hash_for_signing e ≠ Ok h
          ∧ ed_verify (dual_ed25519_public sender) h (v2_signature e') = true.
Proof.
  intros He Hn Hk Hb. pose proof (seal_v2_verifies _ _ _ _ _ _ He Hb) as Hv.
  pose proof (seal_v2_unseals _ _ _ _ _ _ He Hn Hk Hv) as Hu. do 2 (split; [done|]). intros e' Hv' Hkey.
  destruct (verify_v2_signed _ Hv) as (h & Hh & _), (verify_v2_signed _ Hv') as (h' & Hh' & Hs').
  rewrite Hkey in Hs'. destruct (decide (h' = h)) as [->|Hne].
  - destruct (signing_hash_binds _ _ _ Hh Hh') as [Heq|Hc]; [left|by right; left].
    split; [done|]. by rewrite (unseal_v2_unsigned e e').
  - right; right. exists h'. rewrite Hh. split; [done|]. split; [congruence|done].
Qed.

Lemma v2_bytes_roundtrip (e : EnvelopeV2) (b extra : bytes) :
  to_bytes_v2 e = Ok b → from_bytes_v2 (b ++ extra) = Ok e.
Proof.
  unfold to_bytes_v2, from_bytes_v2, deserialize. intros Hb%in_context_ok.
  by rewrite (deserialize_serialize e b extra Hb).
Qed.
End EnvelopeV2.

(** ** Identities *)

Section Client.
Context `{HexLaws} `{Ed25519Laws} `{HpkeLaws} `{PubkySdk} `{IdentityJsonLaws}.

(** An identity that belongs to a key pair passes the check. *)
Lemma own_identity_verifies now name k : identity_verify (to_pubky_identity now name k) = true.
Proof.
  unfold identity_verify, to_pubky_identity, dual_ed25519_public, dual_x25519_public. cbn.
  by rewrite ed_public_ok, length_x25519_public.
Qed.

(** Any identity whose key is a curve point is returned for any identifier the network serves it
    under: the identifier asked for is parsed and dropped. *)
Lemma get_identity_unbound (n : network) (id key j : bytes) (r : SealedgeIdentityRecord) :
  pubky_key_try_from id = Ok key → net_get (pubky_url id identity_path) n = Ok (Ok j) →
  identity_record_to_string r = Ok j → identity_verify (ir_identity r) = true →
  get_identity n id = Ok (ir_identity r)
  ∧ resolve_encryption_key n id = Ok (pi_x25519_pubkey (ir_identity r)).
Proof.
  intros Hk Hg [Hj Hu]%identity_json_roundtrip Hv.
  assert (get_identity n id = Ok (ir_identity r)) as Hi.
  { unfold get_identity. rewrite Hk, Hg. cbn [map_err mbind result_bind]. rewrite Hu.
    cbn [ensure mbind result_bind]. rewrite Hj. cbn [in_context map_err mbind result_bind]. by rewrite Hv. }
  split; [done|]. unfold resolve_encryption_key. by rewrite Hi.
Qed.

(** The table of a batch has exactly the identifiers that resolve, each with its key. *)
Theorem batch_resolves_exactly (n : network) (ids : list bytes) (id key : bytes) :
  batch_resolve_encryption_keys n ids !! id = Some key ↔
  id ∈ ids ∧ resolve_encryption_key n id = Ok key.
Proof.
  unfold batch_resolve_encryption_keys.
  induction ids as [|i ids IH] using rev_ind.
  { cbn. rewrite lookup_empty, elem_of_nil. naive_solver. }
  rewrite foldl_app, elem_of_app, list_elem_of_singleton. cbn [foldl].
  destruct (decide (id = i)) as [<-|Hne].
  - destruct (resolve_encryption_key n id) as [k|e]; [rewrite lookup_insert_eq; naive_solver|].
    rewrite IH. naive_solver.
  - destruct (resolve_encryption_key n i) as [k|e]; [rewrite lookup_insert_ne by done|]; naive_solver.
Qed.
End Client.

(** ** Keys *)

Section Adapter.
Context `{Blake3Laws} `{HexLaws} `{Ed25519Laws} `{RsaLaws} `{P256EcdhLaws} `{AeadLaws} `{BincodeLaws PublicKey}
  `{BincodeLaws HybridEnvelope} `{PubkySdk} `{KeyRecordJsonLaws} `{OperationDebug}.

Lemma algorithm_of_debug a : algorithm_of_name (asymmetric_debug a) = Some a.
Proof. by destruct a. Qed.

(** A record reads back as the key it was made from, identifier included. *)
Lemma key_record_reads (now : option N) (k : Hybrid.PublicKey) (j : bytes) :
  key_record_to_string (key_record now k) = Ok j → key_of_record j = Ok k ∧ utf8_valid j = true.
Proof.
  intros [Hj Hu]%key_record_roundtrip. split; [|done]. unfold key_of_record. rewrite Hj.
  cbn [map_err mbind result_bind kr_public_key key_record pd_algorithm pd_key_bytes pd_key_id].
  rewrite algorithm_of_debug. cbn [ok_or mbind result_bind]. rewrite hex_decode_encode.
  by destruct k as [a b [i|]].
Qed.

Lemma resolve_served (n : network) (id j : bytes) (now : option N) (k : Hybrid.PublicKey) :
  key_record_to_string (key_record now k) = Ok j →
  net_get (pubky_url id public_key_path_pubky) n = Ok (Ok j) → resolve_public_key n id = Ok k.
Proof.
  intros [Hk Hu]%key_record_reads Hg. unfold resolve_public_key. rewrite Hg.
  cbn [map_err mbind result_bind]. by rewrite Hu.
Qed.

(** Publications in the double one after the other *)
Definition publish_all (st : gmap (list ascii) (list ascii)) (ps : list (bytes * option N * Hybrid.PublicKey))
    : gmap (list ascii) (list ascii) :=
  foldl (λ st p, (mock_publish_public_key p.1.1 p.1.2 p.2 st).2) st ps.

Lemma publish_others st ps id :
  Forall (λ p : bytes * option N * Hybrid.PublicKey, p.1.1 ≠ id) ps →
  mock_resolve_public_key (publish_all st ps) id = mock_resolve_public_key st id.
Proof.
  unfold publish_all. intros Hps. revert st. induction Hps as [|[[i now] k] ps Hi _ IH]; intros st; [done|].
  cbn. rewrite IH. unfold mock_publish_public_key. destruct (key_record_to_string _); [|done].
  unfold mock_resolve_public_key. cbn. by rewrite lookup_insert_ne.
Qed.

Lemma mock_publish_resolves id now k j st :
  key_record_to_string (key_record now k) = Ok j →
  mock_resolve_public_key (mock_publish_public_key id now k st).2 id = Ok k.
Proof.
  unfold mock_publish_public_key, mock_resolve_public_key. intros Hj. rewrite Hj. cbn [snd].
  rewrite lookup_insert_eq. cbn [ok_or mbind result_bind]. by apply key_record_reads in Hj as [-> _].
Qed.

(** What sending to a pair of the algorithm comes to: for RSA the envelope, even with bytes
    appended, gives the holder of the private key the data, and sending fails only when the cipher
    or bincode does; for the other algorithms it fails. *)
Definition received (a : AsymmetricAlgorithm) (kp : Hybrid.KeyPair) (d : HybridDraws) (data extra : bytes)
    (sent : result PubkyAdapterError bytes) : Prop :=
  match sent with
  | Ok envelope => is_rsa a = true ∧ receive_trusted_data (envelope ++ extra) (kp_private kp) = Ok data
  | Err e => is_rsa a = false ∨ aead_encrypt Aes256Gcm (hyd_session_key d) (hyd_nonce d) [] data = None
      ∨ ∃ (x : HybridEnvelope) m, serialize x = Err m ∧ e = PaCoreError (SerializationError m)
  end.

Lemma send_to_received a random kp d data extra (resolve : bytes → result PubkyAdapterError Hybrid.PublicKey) id :
  KeyPair_generate a random = Ok kp → length (hyd_session_key d) = 32 → resolve id = Ok (kp_public kp) →
  received a kp d data extra (send_to resolve d data id).
Proof.
  intros Hk Hl Hr. unfold send_to. rewrite Hr. cbn [mbind result_bind].
  pose proof (hybrid_roundtrip a random kp d data extra Hk Hl) as Hh.
  destruct (seal_for_recipient _ _ _) as [env|e]; cbn [map_err received].
  - destruct Hh as [Ha Ho]. split; [done|]. unfold receive_trusted_data. by rewrite Ho.
  - destruct Hh as [?|[?|(x & m & Hx & ->)]]; eauto 6.
Qed.

(** C38. The record of a key leads to its holder.  For a generated pair and the record that
    [publish_public_key] puts on the network: wherever the network serves that record under an
    identifier, the identifier resolves to exactly this public key, and what is sent to it is
    received: for RSA, sending fails only when the cipher or bincode does, and the envelope, even
    with bytes appended, gives the holder of the private key the data; for the other two
    algorithms keys resolve, but nothing can be sent to them.  The in-memory double of the
    backend serves a published key in this way, whatever others publish under theirs; that the
    network serves what was put there is not part of the statement. *)
Theorem published_key_receives (a : AsymmetricAlgorithm) (random : bytes) (kp : Hybrid.KeyPair)
    (now : option N) (record : bytes) (d : HybridDraws) (data extra : bytes) :
  KeyPair_generate a random = Ok kp → length (hyd_session_key d) = 32 →
  key_record_to_string (key_record now (kp_public kp)) = Ok record →
  (∀ keypair n, (publish_public_key keypair now (kp_public kp) n).2 = (net_put public_key_path_pubky record n).2)
  ∧ (∀ n id, net_get (pubky_url id public_key_path_pubky) n = Ok (Ok record) →
      resolve_public_key n id = Ok (kp_public kp)
      ∧ received a kp d data extra (send_trusted_data d n data id))
  ∧ (∀ id st later, Forall (λ p, p.1.1 ≠ id) later →
      let st' := publish_all (mock_publish_public_key id now (kp_public kp) st).2 later in
      mock_resolve_public_key st' id = Ok (kp_public kp)
      ∧ received a kp d data extra (mock_send_trusted_data d st' data id)).
Proof.
  intros Hk Hl Hj. split_and!.
  - intros keypair n. unfold publish_public_key. rewrite Hj. by destruct (net_put _ _ n).
  - intros n id Hg. pose proof (resolve_served _ _ _ _ _ Hj Hg) as Hr. split; [done|].
    by eapply send_to_received.
  - intros id st later Hlater st'. assert (mock_resolve_public_key st' id = Ok (kp_public kp)) as Hr.
    { unfold st'. rewrite publish_others by done. by eapply mock_publish_resolves. }
    split; [done|]. by eapply send_to_received.
Qed.

(** The backend and its double answer [GetPublicKey] with the bytes of the key, and nothing else. *)
Lemma mock_backend_gets (st : gmap (list ascii) (list ascii)) (id : bytes) (op : CryptoOperation) (r : CryptoResult)
    (s s' : fs) :
  ub_perform_operation (mock_backend st) id op s = (Ok r, s') ↔
  s' = s ∧ op = OpGetPublicKey
  ∧ ∃ k, mock_resolve_public_key st id = Ok k ∧ r = Backends.PublicKey (pk_bytes k).
Proof.
  cbn. unfold io_lift, pubky_perform. destruct op; try (split; [done|naive_solver]).
  destruct (mock_resolve_public_key st id) as [k|e]; cbn; naive_solver.
Qed.

(** The capabilities deny the one operation that is supported. *)
Lemma pubky_capabilities_deny op : pubky_supports op = true → operation_type_supported pubky_capabilities op = false.
Proof. by destruct op. Qed.

(** ** The command line *)

(** An envelope never opens with an Ed25519 key. *)
Lemma ed25519_opens_nothing (envelope : bytes) (k : PrivateKey) :
  sk_algorithm k = UEd25519 → ∃ e, open_envelope envelope k = Err e.
Proof.
  intros Hk. unfold open_envelope, decrypt_key_asymmetric. rewrite Hk.
  destruct (parse_envelope envelope); cbn; eauto.
Qed.

(** [decrypt] never succeeds and never writes: it takes every private key to be an Ed25519 key, with
    which no session key can be decrypted. *)
Theorem pubky_decrypt_fails (input output key : path) (s : fs) :
  ∃ e, decrypt_data input output key s = (Err e, s).
Proof.
  unfold decrypt_data, io_read, io_lift, mbind, io_bind.
  destruct (in_context _ (read_file input s)) as [envelope|]; [|eauto].
  destruct (read_private_key key s) as [k|] eqn:Hk; [|eauto].
  assert (sk_algorithm k = UEd25519) as Ha by (unfold read_private_key in Hk; by inv_ok).
  destruct (ed25519_opens_nothing envelope k Ha) as [e He].
  unfold receive_trusted_data. rewrite He. cbn. eauto.
Qed.

(** The key file that [generate] writes is read by [decrypt] as the seed of the identity shown. *)
Lemma generated_key_reads (random id : bytes) (output : path) (seed : option bytes) (s s' : fs) :
  length random = 32 → generate_keypair random (Some output) seed false s = (Ok id, s') →
  ∃ secret, read_private_key output s' = Ok (PrivateKey_new UEd25519 secret)
    ∧ id = our_pubky_id secret ∧ length secret = 32.
Proof.
  intros Hr Hg. unfold generate_keypair in Hg.
  apply io_bind_ok in Hg as (secret & s1 & [Hs ->]%io_lift_ok & Hg).
  cbn in Hg. apply io_bind_ok in Hg as ([] & s2 & Hw%io_map_err_ok & [-> ->]%io_ret_ok).
  assert (length secret = 32) as Hl.
  { destruct seed as [h|]; unfold seed_of_hex, pubky_backend_new_sync in Hs; inv_ok;
      repeat match goal with E : in_context _ _ = Ok _ |- _ => apply in_context_ok in E; inv_ok end;
      [by apply Nat.eqb_eq|done]. }
  exists secret. split; [|done]. apply create_write_inv in Hw as (-> & _ & Ha). unfold read_private_key.
  rewrite (read_file_ok _ _ (hex_encode secret)); [|rewrite <-Ha; apply ancestor_error_ext|apply lookup_insert_eq].
  - cbn [in_context map_err mbind result_bind]. rewrite hexdigits_valid, hexdigits_trim, hex_decode_encode by apply hex_encode_digits.
    cbn [ensure ok_or mbind result_bind]. by rewrite Hl.
  - intros q Hq%ancestors_shorter. rewrite lookup_insert_ne; [done|]. intros ->. lia.
Qed.
End Adapter.

(** ** Witnesses *)

From S2P Require Import Reference ReferenceCodec.

(** An exchange that combines the two keys byte by byte *)
#[local] Instance demo_agreement : KeyAgreement := {|
  to_scalar sk := fit32 sk;
  to_montgomery pk := pk;
  diffie_hellman a b := fit32 (zip_with xor_byte (fit32 a) b);
|}.
#[local] Instance demo_x25519_laws : X25519Laws.
Proof.
  intros a b. cbn [diffie_hellman x25519_public demo_agreement ref_hpke]. f_equal.
  generalize (fit32 a), (fit32 b). clear. intros l. induction l as [|x l IH]; intros [|y k]; cbn; [done..|].
  by rewrite xor_byte_comm, IH.
Qed.

Definition codec_header_v2 : codec EnvelopeHeaderV2.
Proof.
  refine (codec_map (λ h, (vh_magic h, vh_version h, vh_recipient_pubkey_id h, vh_sender_ed25519_pubkey h,
               vh_sender_x25519_pubkey h, vh_created_at h, vh_payload_size h, vh_chunk_count h, vh_aead_algorithm h))
    (λ '(a, b, c, d, e, f, g, i, j), mkEnvelopeHeaderV2 a b c X25519Ecdh d e f g i j) _
    (codec_bytes ** codec_N ** codec_bytes ** codec_bytes ** codec_bytes ** codec_N ** codec_N ** codec_N ** codec_N)).
  by intros [? ? ? [] ? ? ? ? ? ?].
Defined.
Definition codec_envelope_v2 : codec EnvelopeV2.
Proof.
  refine (codec_map (λ e, (v2_header e, v2_encrypted_session_key e, v2_chunks e, v2_signature e))
    (λ '(a, b, c, d), mkEnvelopeV2 a b c d) _
    (codec_header_v2 ** codec_bytes ** codec_list codec_chunk ** codec_bytes)).
  by intros [].
Defined.
Definition codec_manifest_v2 : codec ChunkManifestV2.
Proof.
  refine (codec_map (λ m, (m2_sequence m, m2_chunk_size m)) (λ '(a, b), mkChunkManifestV2 a b) _
    (codec_N ** codec_N)).
  by intros [].
Defined.
#[local] Instance demo_v2_bincode : Bincode EnvelopeV2 := bincode_of codec_envelope_v2.
#[local] Instance demo_v2_laws : BincodeLaws EnvelopeV2 := bincode_of_laws codec_envelope_v2.
#[local] Instance demo_m2_bincode : Bincode ChunkManifestV2 := bincode_of codec_manifest_v2.
#[local] Instance demo_m2_laws : BincodeLaws ChunkManifestV2 := bincode_of_laws codec_manifest_v2.

Definition demo_v2_draws : V2Draws :=
  mkV2Draws (Some 7%N) (lit "ephemeral") (repeat "s"%char 32) (repeat "n"%char 12)
    (λ i, fmt_nat i ++ repeat "c"%char 11) (λ _, Some 7%N).
Definition demo_v2_sender : DualKeyPair := dual_from_keys (lit "alice") (lit "a").
Definition demo_v2_recipient : DualKeyPair := dual_from_keys (lit "bob") (lit "b").

Lemma v2_envelope_intact_witness :
  match seal_v2 demo_v2_draws (lit "payload") demo_v2_sender (dual_x25519_public demo_v2_recipient) (lit "bob") with
  | Ok e => verify_v2 e = true ∧ unseal_v2 e demo_v2_recipient = Ok (lit "payload")
  | Err _ => False
  end.
Proof.
  destruct (seal_v2 _ _ _ _ _) as [e|] eqn:E; [|vm_compute in E; discriminate].
  destruct (v2_envelope_intact demo_v2_draws (lit "payload") (lit "bob") demo_v2_sender demo_v2_recipient e E
    eq_refl eq_refl ltac:(vm_compute; discriminate)) as (Hv & Hu & _).
  split; [exact Hv|exact Hu].
Defined.

(** Records in hexadecimal *)
Definition codec_key_record : codec SealedgeKeyRecord.
Proof.
  refine (codec_map (λ r, (pd_algorithm (kr_public_key r), pd_key_bytes (kr_public_key r), pd_key_id (kr_public_key r),
               kr_created_at r, map_to_list <$> kr_metadata r))
    (λ '(a, b, c, d, e), mkKeyRecord (mkPublicKeyData a b c) d (list_to_map <$> e)) _
    (codec_bytes ** codec_bytes ** codec_option codec_bytes ** codec_N
       ** codec_option (codec_list (codec_bytes ** codec_bytes)))).
  intros [[] ? [m|]]; cbn; [by rewrite list_to_map_to_list|done].
Defined.
#[local] Instance demo_key_json : KeyRecordJson := {|
  key_record_to_string r := Ok (hex_encode (enc codec_key_record r));
  key_record_from_str j := ok_or (b ← hex_decode j; fst <$> dec codec_key_record b) (lit "expected value");
|}.
#[local] Instance demo_key_json_laws : KeyRecordJsonLaws.
Proof.
  intros r j <-%Ok_inj. cbn [key_record_from_str demo_key_json]. rewrite hex_decode_encode. cbn [mbind option_bind].
  rewrite <-(app_nil_r (enc codec_key_record r)), dec_enc. split; [done|].
  apply hexdigits_valid, hex_encode_digits.
Qed.

(** A network of one record, served under every identifier *)
#[local] Instance demo_sdk : PubkySdk := {|
  network := bytes;
  client_build := Ok tt; runtime_build := Ok tt;
  net_put _ body _ := (Ok tt, body);
  net_get _ n := Ok (Ok n);
  net_delete _ _ := (Ok tt, []);
  pubky_key_try_from := Ok; keypair_public k := k; utf8_debug b := b;
|}.

Lemma published_key_receives_witness :
  let n := (publish_public_key (lit "pair") (Some 7%N) (kp_public demo_hybrid_pair) []).2 in
  let st := (mock_publish_public_key (lit "id") (Some 7%N) (kp_public demo_hybrid_pair) ∅).2 in
  let st' := publish_all st [(lit "other", None, kp_public demo_hybrid_pair)] in
  received URsa2048 demo_hybrid_pair demo_draws (lit "data") (lit "more")
    (send_trusted_data demo_draws n (lit "data") (lit "id"))
  ∧ is_ok (send_trusted_data demo_draws n (lit "data") (lit "id")) = true
  ∧ received URsa2048 demo_hybrid_pair demo_draws (lit "data") (lit "more")
      (mock_send_trusted_data demo_draws st' (lit "data") (lit "id"))
  ∧ is_ok (mock_send_trusted_data demo_draws st' (lit "data") (lit "id")) = true.
Proof.
  cbv zeta. destruct (key_record_to_string (key_record (Some 7%N) (kp_public demo_hybrid_pair)))
    as [j|] eqn:Ej; [|discriminate].
  pose proof (published_key_receives URsa2048 (lit "pq") demo_hybrid_pair (Some 7%N) j demo_draws (lit "data")
    (lit "more") eq_refl eq_refl Ej) as (Hp & Hn & Hm). rewrite Hp.
  split_and!; [apply Hn; reflexivity| |apply Hm; repeat constructor; discriminate|].
  - rewrite <-(Hp (lit "pair") []). vm_compute. reflexivity.
  - vm_compute. reflexivity.
Defined.
