(* ===== verification/CaTheorems.v ===== *)
(** * Properties of the certificate authority

    What an issued certificate carries and what its signature covers; issued serial numbers can
    be revoked. *)

From S2P Require Import Prelude External Utf8 FileSystem Json Crypto Backends Hsm Archive.
From S2P Require Import Addresses CertificateAuthority CommandsCorrect UnwrapCorrect.

(** ** Lists *)

Lemma chunks_of_concat (fuel n : nat) (s : bytes) :
  0 < n → length s ≤ fuel → concat (chunks_of fuel n s) = s ∧ Forall (λ l, length l ≤ n) (chunks_of fuel n s).
Proof.
  intros Hn. revert s. induction fuel as [|f IH]; intros [|b s] Hf; cbn [chunks_of length] in *; [done|lia|done|].
  destruct (IH (drop n (b :: s))) as [Hc Hl]; [rewrite length_drop; cbn; lia|].
  cbn [concat]. rewrite Hc, take_drop. split; [done|]. constructor; [rewrite length_take; lia|done].
Qed.

Lemma chunks_of_sub (P : byte → Prop) (fuel n : nat) (s : bytes) :
  Forall P s → Forall (Forall P) (chunks_of fuel n s).
Proof.
  revert s. induction fuel as [|f IH]; intros [|b s] Hs; cbn [chunks_of]; [constructor..|].
  constructor; [by apply Forall_take|]. by apply IH, Forall_drop.
Qed.

Lemma split_on_join (c : byte) (parts : list bytes) : parts ≠ [] →
  Forall (Forall (λ b, b ≠ c)) parts → split_on c (join [c] parts) = parts.
Proof.
  destruct parts as [|p ps]; [done|]. intros _ [Hp Hps]%Forall_cons. cbn [join].
  revert p Hp. induction Hps as [|q qs Hq Hqs IH]; intros p Hp; cbn.
  - rewrite app_nil_r. clear -Hp. induction Hp as [|b p Hb _ IH]; cbn; [done|].
    by rewrite decide_False, IH by done.
  - rewrite split_on_app by done. f_equal. by apply IH.
Qed.

(** The lines of a certificate without the first and the last, and what they encode *)
Definition pem_decode `{Base64} (pem : bytes) : option bytes :=
  match split_on newline pem with
  | first :: rest =>
      if decide (first = pem_begin ∧ last rest = Some pem_end)
      then base64_decode (concat (take (length rest - 1) rest)) else None
  | [] => None
  end.

Section Ca.
Context `{HexLaws} `{Base64Laws} `{SerdeJsonLaws} `{DateTimes} `{ValueText}.

(** ** The certificate as text *)

Lemma build_certificate_pem_ok (data sig pem : bytes) :
  build_certificate_pem data sig = Ok pem →
  ∃ v, value_from_slice data = Ok v ∧ pem_decode pem = Some (certificate_content v data sig)
    ∧ Forall (λ l, length l ≤ 64) (split_on newline pem).
Proof.
  unfold build_certificate_pem. intros Hb. apply bind_ok in Hb as (v & Hv%map_err_ok & <-%Ok_inj).
  exists v. split; [done|]. set (b := base64_encode (certificate_content v data sig)).
  assert (Forall solid b) as Hb by apply base64_solid.
  pose proof (chunks_of_sub solid (length b) 64 b Hb) as Hs.
  assert (from_utf8_lossy <$> chunks_of (length b) 64 b = chunks_of (length b) 64 b) as ->.
  { rewrite <-(list_fmap_id (chunks_of (length b) 64 b)) at 2. apply Forall_fmap_ext_1.
    eapply Forall_impl; [done|]. intros l Hl. apply from_utf8_lossy_valid, ascii_valid.
    eapply Forall_impl; [done|]. intros c. unfold solid, byte_in. rewrite !andb_true_iff, !N.leb_le. lia. }
  destruct (chunks_of_concat (length b) 64 b) as [Hc Hl]; [lia|done|].
  set (ls := chunks_of (length b) 64 b) in *.
  assert (split_on newline (join [newline] (pem_begin :: ls ++ [pem_end])) = pem_begin :: ls ++ [pem_end]) as Hsp.
  { apply split_on_join; [done|]. constructor; [by repeat constructor|]. apply Forall_app. split.
    - eapply Forall_impl; [exact Hs|]. apply solid_not_newline.
    - constructor; [by repeat constructor|done]. }
  unfold pem_decode. rewrite Hsp. split.
  - rewrite decide_True by by rewrite last_snoc. rewrite length_app, Nat.add_sub, take_app_length, Hc.
    apply base64_decode_encode.
  - constructor; [by cbn; lia|]. apply Forall_app. split; [done|]. constructor; [by cbn; lia|done].
Qed.

(** ** Serial numbers *)

Lemma generate_serial_number_hex (u : bytes) : generate_serial_number u = hex_encode u.
Proof.
  unfold generate_serial_number, uuid_text.
  assert (∀ s, Forall (λ c, c ≠ "-"%char) s → filter (λ c, c ≠ "-"%char) s = s) as Hf.
  { intros s Hs. induction Hs as [|c s Hc _ IH]; [done|]. by rewrite filter_cons_True, IH. }
  assert (Forall (λ c, c ≠ "-"%char) (hex_encode u)) as Hh
    by (eapply Forall_impl; [apply hex_encode_lower|]; by intros c [Hc _] ->).
  rewrite !filter_app, !(Hf (take _ _)), (Hf (drop _ _)) by auto using Forall_take, Forall_drop.
  change (filter (λ c, c ≠ "-"%char) (lit "-")) with (@nil byte). cbn [app].
  set (h := hex_encode u).
  rewrite <-(take_drop 8 h) at 6. f_equal. rewrite <-(take_drop 4 (drop 8 h)) at 2. f_equal.
  rewrite drop_drop. cbn. rewrite <-(take_drop 4 (drop 12 h)) at 2. f_equal. rewrite drop_drop. cbn.
  rewrite <-(take_drop 4 (drop 16 h)) at 2. f_equal. by rewrite drop_drop.
Qed.

(** An issued serial number can be revoked, for every standard reason. *)
Lemma revoke_issued (u reason : bytes) :
  length u = 16 → reason ∈ valid_reasons → revoke_certificate (generate_serial_number u) reason = Ok tt.
Proof.
  intros Hl Hr. rewrite generate_serial_number_hex.
  assert (forallb is_ascii_hexdigit (hex_encode u) = true) as Hh.
  { apply forallb_Forall. eapply Forall_impl; [apply hex_encode_lower|]. by intros c [-> _]. }
  pose proof (length_hex_encode u) as Hn. rewrite Hl in Hn.
  assert (is_empty (hex_encode u) = false) as He by by destruct (hex_encode u).
  assert (Forall (λ r, is_empty r = false ∧ (length r <=? 255)%nat = true) valid_reasons) as Hall
    by by repeat constructor.
  rewrite Forall_forall in Hall. destruct (Hall reason Hr) as [Hre Hrl].
  unfold revoke_certificate, validate_revocation_request, service_revoke_certificate, valid_or.
  rewrite He, Hh, Hre, Hrl, Hn, (bool_decide_true (reason ∈ valid_reasons)) by done. cbn.
  rewrite bool_decide_false; [done|]. intros Heq%(f_equal length). by rewrite Hn in Heq.
Qed.

(** ** What the signature covers *)

#[local] Instance key_usage_text_inj : Inj (=) (=) key_usage_text.
Proof. by intros [] []. Qed.
#[local] Instance extended_key_usage_text_inj : Inj (=) (=) extended_key_usage_text.
Proof. by intros [] []. Qed.
#[local] Instance san_json_inj : Inj (=) (=) san_json.
Proof. intros [] []; cbn; intros Heq; by simplify_eq. Qed.

Lemma certificate_json_wf serial subject issuer nb na r :
  json_wf (certificate_json serial subject issuer nb na r) = true.
Proof.
  cbn. rewrite !andb_true_iff. split_and!; try done; rewrite forallb_Forall, Forall_fmap;
    apply Forall_true; by intros [].
Qed.

Lemma certificate_json_inj serial subject issuer nb na r serial' subject' issuer' nb' na' r' :
  certificate_json serial subject issuer nb na r = certificate_json serial' subject' issuer' nb' na' r' →
  (serial, subject, issuer) = (serial', subject', issuer') ∧ to_rfc3339 nb = to_rfc3339 nb'
  ∧ to_rfc3339 na = to_rfc3339 na' ∧ key_usage r = key_usage r'
  ∧ extended_key_usage r = extended_key_usage r' ∧ san_entries r = san_entries r'.
Proof.
  intros Heq. injection Heq as He Hk Hs -> -> -> Hna Hnb. split_and!; [done..| | |].
  - by apply (inj (fmap (JStr ∘ key_usage_text))) in Hk.
  - by apply (inj (fmap (JStr ∘ extended_key_usage_text))) in He.
  - by apply (inj (fmap san_json)) in Hs.
Qed.

(** The document behind a certificate for request [r] *)
Definition certificate_document (c : Certificate) (r : CertificateRequest) : json :=
  certificate_json (serial_number c) (cert_subject c) (cert_issuer c) (not_before c) (not_after c) r.

(** serde_json reads what it prints. *)
Definition reads_back (j : json) : Prop := value_from_slice (jprint j) = Ok (value_of_json j).

(** A certificate that was issued: the backend signed the printed document, and the text has
    the signature and the document. *)
Record issued (svc : CertificateAuthorityService) (r : CertificateRequest) (d : CaDraws) (s s' : fs)
    (c : Certificate) (sig : bytes) : Prop := {
  is_valid : validate_certificate_request r = Ok tt;
  is_serial : serial_number c = hex_encode (cd_serial d);
  is_names : cert_subject c = format_subject (req_subject r) ∧ cert_issuer c = format_subject (ca_subject svc);
  is_validity : not_before c = cd_now d
    ∧ not_after c = (cd_now d + default (default_validity_days svc) (validity_days r) * DAY)%N;
  is_status : cert_status c = CertIssued ∧ cert_revoked_at c = None;
  is_signed : ub_perform_operation (ca_backend svc) (ca_key_id svc)
    (OpSign (jprint (certificate_document c r)) USigEcdsaP256) s = (Ok (Signed sig), s');
  is_pem : pem_decode (certificate_pem c) = Some (certificate_content
    (value_of_json (certificate_document c r)) (jprint (certificate_document c r)) sig);
}.

Lemma issue_certificate_ok (svc : CertificateAuthorityService) (tenant : bytes) (r : CertificateRequest)
    (d : CaDraws) (s s' : fs) (c : Certificate) :
  issue_certificate svc tenant r d s = (Ok c, s') → reads_back (certificate_document c r) →
  ∃ sig, issued svc r d s s' c sig.
Proof.
  unfold issue_certificate, service_issue_certificate. rewrite io_bind_eq. unfold io_lift at 1.
  destruct (validate_certificate_request r) as [[]|] eqn:Hv; [|done]. rewrite io_bind_eq. unfold io_lift at 1.
  destruct (ensure _ _); [|done]. rewrite io_bind_eq. unfold io_map_err.
  destruct (ub_perform_operation _ _ _ s) as [res s1] eqn:Hp.
  destruct res as [[]|]; try done. cbn [map_err]. rewrite io_bind_eq. unfold io_lift at 1. rewrite io_bind_eq.
  unfold io_lift at 1. destruct (build_certificate_pem _ _) as [pem|] eqn:Hpem; [|done].
  intros [= <- <-] Hrb. apply build_certificate_pem_ok in Hpem as (v & Hval & Hdec & _).
  unfold reads_back, certificate_document, build_certificate_data in *.
  cbn [serial_number cert_subject cert_issuer not_before not_after] in Hrb.
  rewrite generate_serial_number_hex in *. rewrite Hrb in Hval. apply Ok_inj in Hval as <-.
  exists b. by split.
Qed.

(** C28. An issued certificate carries what was asked for and what was signed, and its signature
    covers all of it: the request passed the checks; the text of the certificate decodes to a
    content that has the backend's signature and, in hexadecimal, the signed document; the
    document determines the serial number, the names, the validity, the usages and the
    alternative names, so that no two certificates that differ in one of them share a
    signature's message; and the serial number can be revoked for every standard reason. *)
Theorem issued_certificate_binds (svc svc' : CertificateAuthorityService) (t t' : bytes)
    (r r' : CertificateRequest) (d d' : CaDraws) (s1 s2 s1' s2' : fs) (c c' : Certificate) :
  length (cd_serial d) = 16 →
  issue_certificate svc t r d s1 = (Ok c, s2) → issue_certificate svc' t' r' d' s1' = (Ok c', s2') →
  reads_back (certificate_document c r) → reads_back (certificate_document c' r') →
  ∃ sig sig', issued svc r d s1 s2 c sig ∧ issued svc' r' d' s1' s2' c' sig'
  ∧ (∀ reason, reason ∈ valid_reasons → revoke_certificate (serial_number c) reason = Ok tt)
  ∧ (jprint (certificate_document c r) = jprint (certificate_document c' r') →
     (serial_number c, cert_subject c, cert_issuer c) = (serial_number c', cert_subject c', cert_issuer c')
     ∧ to_rfc3339 (not_before c) = to_rfc3339 (not_before c')
     ∧ to_rfc3339 (not_after c) = to_rfc3339 (not_after c') ∧ key_usage r = key_usage r'
     ∧ extended_key_usage r = extended_key_usage r' ∧ san_entries r = san_entries r').
Proof.
  intros Hl Hc Hc' [sig Hi]%(issue_certificate_ok _ _ _ _ _ _ _ Hc)
    [sig' Hi']%(issue_certificate_ok _ _ _ _ _ _ _ Hc'). exists sig, sig'.
  split_and!; [done..| |].
  - intros reason Hr. rewrite (is_serial _ _ _ _ _ _ _ Hi), <-generate_serial_number_hex. by apply revoke_issued.
  - intros Heq%jprint_inj; [by apply certificate_json_inj in Heq|apply certificate_json_wf..].
Qed.
End Ca.

(** ** Witnesses *)

From S2P Require Import Reference.

#[local] Instance demo_chrono : DateTimes := {|
  to_rfc3339 := fmt_N;
  datetime_max := 10 ^ 30;
  parse_from_rfc3339 s := Z.of_N <$> parse_usize s;
|}.

Definition demo_ca_backend : UniversalBackend := mkUniversalBackend
  (λ key_id op s, match op with
    | OpSign data _ => (Ok (Signed (key_id ++ blake3 data)), s)
    | _ => (Err (UnsupportedOperation (lit "not a signature")), s)
    end) (λ _, true) software_only (lit "demo").
Definition demo_subject (name : string) : CertificateSubject :=
  mkCertificateSubject (lit name) (Some (lit "Acme")) None (Some (lit "US")) None None None.
Definition demo_ca : CertificateAuthorityService :=
  mkCaService demo_ca_backend (lit "ca-key") (lit "PEM") (demo_subject "ca") 365.
Definition demo_ca_request : CertificateRequest :=
  mkCertificateRequest (demo_subject "host.example") (Some 30%N) [DigitalSignature] [ServerAuth]
    [DnsName (lit "host.example"); IpAddress (lit "::1"); Email (lit "a@b"); Uri (lit "https://x")].
Definition demo_ca_draws : CaDraws := mkCaDraws (repeat "s"%char 16) (repeat "i"%char 16) 5 6.

Definition demo_document : json :=
  certificate_json (hex_encode (repeat "s"%char 16)) (lit "CN=host.example, O=Acme, C=US")
    (lit "CN=ca, O=Acme, C=US") 5 (5 + 30 * DAY) demo_ca_request.
#[local] Instance demo_value_text : ValueText := {|
  value_from_slice b := if decide (b = jprint demo_document) then Ok (value_of_json demo_document)
                        else Err (lit "expected value");
  value_debug _ := lit "Array [..]";
|}.

Definition demo_certificate : Certificate :=
  match (issue_certificate demo_ca (lit "tenant") demo_ca_request demo_ca_draws ∅).1 with
  | Ok c => c
  | Err _ => mkCertificate [] [] [] [] [] 0 0 CertPending [] 0 None None
  end.

Lemma issued_certificate_binds_witness :
  ∃ sig, issued demo_ca demo_ca_request demo_ca_draws ∅ ∅ demo_certificate sig
  ∧ revoke_certificate (serial_number demo_certificate) (lit "keyCompromise") = Ok tt.
Proof.
  assert (issue_certificate demo_ca (lit "tenant") demo_ca_request demo_ca_draws ∅
    = (Ok demo_certificate, ∅)) as Hi by (vm_compute; reflexivity).
  assert (reads_back (certificate_document demo_certificate demo_ca_request)) as Hr
    by (vm_compute; reflexivity).
  destruct (issued_certificate_binds demo_ca demo_ca (lit "tenant") (lit "tenant") demo_ca_request
    demo_ca_request demo_ca_draws demo_ca_draws ∅ ∅ ∅ ∅ demo_certificate demo_certificate eq_refl Hi Hi Hr Hr)
    as (sig & _ & Hs & _ & Hrev & _).
  exists sig. split; [exact Hs|]. apply Hrev. vm_compute. repeat (first [left; reflexivity|right]).
Defined.

(** Two subjects with one name: the organization can contain further parts. *)
Example subject_ambiguous :
  format_subject (mkCertificateSubject (lit "host") (Some (lit "Acme, C=US")) None None None None None)
  = format_subject (mkCertificateSubject (lit "host") (Some (lit "Acme")) None (Some (lit "US")) None None None).
Proof. reflexivity. Qed.
