(* ===== verification/YubiKeyTheorems.v ===== *)
(** * Properties of the YubiKey backend

    Nothing is signed without the device and its PIN; how many wrong PINs the device can see,
    certificates apart; what the advertised capabilities are worth. *)

From S2P Require Import Prelude External FileSystem Backends Hsm Stream YubiKey.

(** The device counts the wrong PINs since the last right one; only [verify_pin] changes the
    count. *)
Class YubiKeyLaws `{YubiKeyDevice} := {
  pin_failures : device → N;
  verify_pin_ok pin d : is_ok (yk_verify_pin pin d).1 = true → pin_failures (yk_verify_pin pin d).2 = 0%N;
  verify_pin_failed pin d : is_ok (yk_verify_pin pin d).1 = false →
    (pin_failures (yk_verify_pin pin d).2 ≤ pin_failures d + 1)%N;
  sign_data_pin digest a s d : pin_failures (yk_sign_data digest a s d).2 = pin_failures d;
  read_certificate_pin s d : pin_failures (yk_read_certificate s d).2 = pin_failures d;
}.

Section YubiKey.
Context `{YubiKeyLaws} `{X509} `{UnicodeCase} `{Sha2} `{OperationDebug}.

(** The public calls that reach the device: the operations of the interface, the listing of keys
    and the making of a certificate, with the error text that rcgen would give *)
Inductive yk_call :=
  | YPerform (key_id : bytes) (op : CryptoOperation)
  | YListKeys
  | YCertificate (rcgen_error slot_id subject : bytes).
Definition yk_exec (c : yk_call) (b : YubiKeyBackend) : YubiKeyBackend :=
  match c with
  | YPerform key_id op => (yubikey_perform key_id op b).2
  | YListKeys => (yubikey_list_keys b).2
  | YCertificate e slot_id subject => (generate_certificate e slot_id subject b).2
  end.
(** Making a certificate sends the PIN once, past the count of attempts. *)
Definition uncounted (c : yk_call) : N :=
  match c with YCertificate _ _ _ => 1 | _ => 0 end.
Definition uncounted_pins (calls : list yk_call) : N := foldr (λ c n, uncounted c + n)%N 0%N calls.

(** The device has seen at most as many wrong PINs, beyond [before], as the backend counts, and
    the backend counts at most to its limit. *)
Record pin_bounded (before : N) (b : YubiKeyBackend) : Prop := {
  pb_limit : (pin_retry_count b ≤ yc_max_pin_retries (yk_config b))%N;
  pb_device d : yk_device b = Some d → (pin_failures d ≤ before + pin_retry_count b)%N;
}.

Lemma pin_bounded_mono (n n' : N) (b : YubiKeyBackend) : (n ≤ n')%N → pin_bounded n b → pin_bounded n' b.
Proof. intros Hn [Hl Hd]. split; [done|]. intros d Hb. specialize (Hd d Hb). lia. Qed.

(** A call that keeps the configuration and sends at most [k] wrong PINs past the count *)
Definition adds_pins {E A} (k : N) (m : yk E A) : Prop := ∀ before b,
  pin_bounded before b → pin_bounded (before + k) (m b).2 ∧ yk_config (m b).2 = yk_config b.
Abbreviation keeps_pin := (adds_pins 0).

Lemma keeps_pin_lift {E A} (r : result E A) : keeps_pin (yk_lift r).
Proof. intros before b Hb. by rewrite N.add_0_r. Qed.
Lemma adds_pins_bind {E A B} (j k : N) (m : yk E A) (f : A → yk E B) :
  adds_pins j m → (∀ a, adds_pins k (f a)) → adds_pins (j + k) (m ≫= f).
Proof.
  intros Hm Hf before b Hb. unfold mbind, yk_bind. destruct (Hm before b Hb) as [Hb' Hc].
  destruct (m b) as [[a|e] b']; cbn in *.
  - destruct (Hf a _ b' Hb') as [Hb2 Hc']. rewrite N.add_assoc. split; [done|]. by rewrite Hc'.
  - split; [|done]. eapply pin_bounded_mono; [|done]. lia.
Qed.
Lemma keeps_pin_bind {E A B} (k : N) (m : yk E A) (f : A → yk E B) :
  keeps_pin m → (∀ a, adds_pins k (f a)) → adds_pins k (m ≫= f).
Proof. apply (adds_pins_bind 0 k). Qed.
Lemma keeps_pin_device {E A} (absent : E) (err : bytes → E) (call : device → result bytes A * device) :
  (∀ d, pin_failures (call d).2 = pin_failures d) → keeps_pin (on_device absent err call).
Proof.
  intros Hc before b Hb. rewrite N.add_0_r. revert b Hb. intros [c [d|] n] Hb; unfold on_device; cbn; [|done].
  specialize (Hc d). destruct (call d) as [r d']. cbn in *. split; [|done]. destruct Hb as [Hl Hd].
  split; [done|]. intros d0 [= <-]. rewrite Hc. by apply Hd.
Qed.
Lemma keeps_connected : keeps_pin ensure_connected.
Proof. intros before b Hb. rewrite N.add_0_r. unfold ensure_connected. by destruct (yk_device b). Qed.

Lemma keeps_verify_pin : keeps_pin verify_pin.
Proof.
  intros before [c dv n] [Hl Hd]. rewrite N.add_0_r. cbn in *. unfold verify_pin. cbn.
  destruct (yc_pin c) as [pin|]; [|by split]. destruct dv as [d|]; [|by split].
  destruct (_ <=? n)%N eqn:Hmax; [by split|]. apply N.leb_gt in Hmax. specialize (Hd d eq_refl).
  pose proof (verify_pin_ok pin d) as Hok. pose proof (verify_pin_failed pin d) as Hbad.
  destruct (yk_verify_pin pin d) as [[u|e] d']; cbn in *.
  - split; [|done]. split; cbn; [lia|]. intros d0 [= <-]. rewrite Hok by done. lia.
  - split; [|done]. split; cbn; [lia|]. intros d0 [= <-]. specialize (Hbad eq_refl). lia.
Qed.

Lemma populated_slots_pin (slots : list SlotId) (d : device) :
  pin_failures (populated_slots slots d).2 = pin_failures d.
Proof.
  revert d. induction slots as [|s slots IH]; intros d; [done|]. cbn [populated_slots].
  pose proof (read_certificate_pin s d) as Hr. destruct (yk_read_certificate s d) as [r d1].
  specialize (IH d1). destruct (populated_slots slots d1) as [l d2]. cbn in *. congruence.
Qed.

Lemma keeps_enumerate : keeps_pin enumerate_slots.
Proof.
  apply keeps_pin_bind; [apply keeps_connected|]. intros _. apply keeps_pin_device. intros d.
  pose proof (populated_slots_pin [Authentication; Signature; KeyManagement; CardAuthentication] d) as Hp.
  by destruct (populated_slots _ d).
Qed.
Lemma keeps_sign slot data a : keeps_pin (piv_sign slot data a).
Proof.
  apply keeps_pin_bind; [apply keeps_connected|]. intros _. apply keeps_pin_bind; [apply keeps_verify_pin|].
  intros _. apply keeps_pin_bind; [apply keeps_pin_lift|]. intros id. apply keeps_pin_device, sign_data_pin.
Qed.
Lemma keeps_public_key slot : keeps_pin (piv_get_public_key slot).
Proof.
  apply keeps_pin_bind; [apply keeps_connected|]. intros _.
  apply keeps_pin_bind; [apply keeps_pin_device, read_certificate_pin|]. intros cert.
  apply keeps_pin_bind; [apply keeps_pin_lift|]. intros spki. apply keeps_pin_lift.
Qed.

(** The PIN of a certificate *)
Lemma adds_unchecked_pin {E} (absent : E) (err : bytes → E) (pin : bytes) :
  adds_pins 1 (on_device absent err (yk_verify_pin pin)).
Proof.
  intros before [c [d|] n] Hb; unfold on_device; cbn; [|split; [eapply pin_bounded_mono; [|done]; lia|done]].
  pose proof (verify_pin_ok pin d) as Hok. pose proof (verify_pin_failed pin d) as Hbad.
  destruct Hb as [Hl Hd]. specialize (Hd d eq_refl). cbn in Hd.
  destruct (yk_verify_pin pin d) as [r d']. cbn in *. split; [|done]. split; cbn; [done|].
  intros d0 [= <-]. destruct (is_ok r); [rewrite Hok by done|specialize (Hbad eq_refl)]; lia.
Qed.
Lemma adds_remote_sign (slot : SlotId) (msg : bytes) : adds_pins 1 (remote_sign slot msg).
Proof.
  intros before b Hb. unfold remote_sign. destruct (yc_pin (yk_config b)) as [pin|].
  - apply (adds_pins_bind 1 0); [apply adds_unchecked_pin| |done].
    intros _. apply keeps_pin_device, sign_data_pin.
  - apply (adds_pins_bind 0 1); [by apply keeps_pin_device| |done]. intros _ before' b' Hb'.
    eapply pin_bounded_mono in Hb'; [|exact (N.le_add_r before' 1)].
    destruct (keeps_pin_device tt (λ _, tt) (yk_sign_data (sha2_digest USha256 msg) EccP256 slot)
      (sign_data_pin _ _ _) _ _ Hb') as [Hs ?]. by rewrite N.add_0_r in Hs.
Qed.
Lemma adds_certificate (e slot_id subject : bytes) : adds_pins 1 (generate_certificate e slot_id subject).
Proof.
  apply keeps_pin_bind; [apply keeps_connected|]. intros _.
  apply keeps_pin_bind; [apply keeps_pin_lift|]. intros slot.
  apply keeps_pin_bind; [apply keeps_public_key|]. intros der.
  apply keeps_pin_bind; [apply keeps_pin_lift|]. intros raw.
  apply keeps_pin_bind; [apply keeps_pin_lift|]. intros _.
  apply (adds_pins_bind 1 0); [|intros x; apply keeps_pin_lift].
  intros before b Hb. destruct (adds_remote_sign slot (rcgen_to_sign raw subject) before b Hb) as [Hr Hc].
  by destruct (remote_sign _ _ b).
Qed.

Lemma keeps_perform (key_id : bytes) (op : CryptoOperation) : keeps_pin (yubikey_perform key_id op).
Proof.
  destruct op; cbn; repeat case_match; try apply keeps_pin_lift;
    (apply keeps_pin_bind; [apply keeps_pin_lift|]; intros slot);
    (apply keeps_pin_bind; [first [apply keeps_sign|apply keeps_public_key|apply keeps_pin_lift]|]; intros x);
    apply keeps_pin_lift.
Qed.

Lemma exec_pins (c : yk_call) (before : N) (b : YubiKeyBackend) : pin_bounded before b →
  pin_bounded (before + uncounted c) (yk_exec c b) ∧ yk_config (yk_exec c b) = yk_config b.
Proof.
  destruct c as [key_id op| |e slot_id subject]; cbn [yk_exec uncounted].
  - apply keeps_perform.
  - assert (keeps_pin yubikey_list_keys) as Hk; [|apply Hk].
    apply keeps_pin_bind; [apply keeps_enumerate|]. intros l. apply keeps_pin_lift.
  - apply adds_certificate.
Qed.

(** C37. The wrong PINs that a device sees are bounded, but for certificates: whatever sequence of
    the public calls is made (the operations of the interface, listings of the keys, makings of
    certificates) and however many of them fail, the device has counted at most
    [max_pin_retries] more wrong PINs in a row than when the backend opened it, and one more for
    each certificate that was asked for, which the limit does not hold back. *)
Theorem pin_attempts_bounded (config : YubiKeyConfig) (d0 d : device) (calls : list yk_call) :
  yk_device (foldl (flip yk_exec) (yubikey_with_config config (Ok d0)) calls) = Some d →
  (pin_failures d ≤ pin_failures d0 + yc_max_pin_retries config + uncounted_pins calls)%N.
Proof.
  set (b0 := yubikey_with_config config (Ok d0)).
  assert (pin_bounded (pin_failures d0) b0 ∧ yk_config b0 = config) as [Hb Hc].
  { split; [|done]. split; cbn; [lia|]. intros d1 [= <-]. lia. }
  clearbody b0. generalize (pin_failures d0) Hb. clear Hb. intros before Hb.
  revert b0 before Hb Hc. induction calls as [|c calls IH]; intros b before Hb Hc Hd.
  - cbn in *. destruct Hb as [Hl Hf]. specialize (Hf d Hd). rewrite Hc in Hl. lia.
  - change (uncounted_pins (c :: calls)) with (uncounted c + uncounted_pins calls)%N.
    destruct (exec_pins c _ _ Hb) as [Hb' Hc']. specialize (IH _ _ Hb' (eq_trans Hc' Hc) Hd). lia.
Qed.

(** A signature comes from the device, behind the PIN: a signing operation succeeds exactly when
    the key names a slot, a device is connected, a PIN is configured, the limit of attempts is not
    reached, the device accepts the PIN, the algorithm is one of the device's and the device then
    signs the SHA-256 digest of the data; the result is what the device returned. *)
Theorem signatures_come_from_device (b b' : YubiKeyBackend) (key_id data sig : bytes) (a : USignatureAlgorithm) :
  yubikey_perform key_id (OpSign data a) b = (Ok (Signed sig), b') ↔
  ∃ slot d d1 d2 pin id u, parse_slot key_id = Ok slot ∧ yk_device b = Some d
    ∧ yc_pin (yk_config b) = Some pin ∧ (pin_retry_count b < yc_max_pin_retries (yk_config b))%N
    ∧ yk_verify_pin pin d = (Ok u, d1) ∧ algorithm_id a = Ok id
    ∧ yk_sign_data (sha2_digest USha256 data) id slot d1 = (Ok sig, d2)
    ∧ b' = mkYubiKeyBackend (yk_config b) (Some d2) 0.
Proof.
  destruct b as [c dv n]. cbn [yubikey_perform yk_config yk_device pin_retry_count].
  unfold piv_sign, mbind, yk_bind, yk_lift, ensure_connected, verify_pin, on_device.
  cbn [yk_config yk_device pin_retry_count]. split.
  - destruct (parse_slot key_id) as [slot|]; [|done]. destruct dv as [d|]; [|done].
    cbn [yk_config yk_device pin_retry_count]. destruct (yc_pin c) as [pin|]; [|done]. destruct (_ <=? n)%N eqn:Hn; [done|]. apply N.leb_gt in Hn.
    destruct (yk_verify_pin pin d) as [[u|e] d1] eqn:Hp; [|done]. destruct (algorithm_id a) as [id|]; [|done].
    cbn. destruct (yk_sign_data _ id slot d1) as [[s|e] d2] eqn:Hs; [|done]. cbn. intros [= -> <-].
    by exists slot, d, d1, d2, pin, id, u.
  - intros (slot & d & d1 & d2 & pin & id & u & -> & -> & Hpin & Hn & Hp & -> & Hs & ->).
    cbn [yk_config yk_device pin_retry_count]. rewrite Hpin, (proj2 (N.leb_gt _ _) Hn), Hp. cbn. by rewrite Hs.
Qed.

(** The bound is met: the PIN of a certificate goes to the device each time, and the count of
    attempts stays as it is. *)
Lemma remote_sign_uncounted (slot : SlotId) (msg : bytes) (b : YubiKeyBackend) (d : device) (pin : bytes) :
  yk_device b = Some d → yc_pin (yk_config b) = Some pin → is_ok (yk_verify_pin pin d).1 = false →
  (remote_sign slot msg b).2 = set_device (yk_verify_pin pin d).2 b.
Proof.
  intros Hd Hpin Hbad. unfold remote_sign, mbind, yk_bind, on_device. rewrite Hpin, Hd.
  by destruct (yk_verify_pin pin d) as [[]].
Qed.

(** Every key of a listing has the same identifier. *)
Lemma listed_keys_zero (b b' : YubiKeyBackend) (l : list KeyMetadata) (k : KeyMetadata) :
  yubikey_list_keys b = (Ok l, b') → k ∈ l → km_key_id k = replicate 16 (byte_of_N 0).
Proof.
  unfold yubikey_list_keys, mbind, yk_bind, yk_lift. destruct (enumerate_slots b) as [[slots|] b1]; [|done].
  intros [= <- _] (s & -> & _)%list_elem_of_fmap. by destruct s.
Qed.
End YubiKey.

(** ** Witnesses *)

From S2P Require Import Reference.

(** A device with the PIN 123456 that counts wrong ones *)
#[local] Instance demo_device : YubiKeyDevice := {|
  device := N;
  yk_verify_pin pin n := if decide (pin = lit "123456") then (Ok tt, 0%N)
                         else (Err (lit "wrong PIN"), (n + 1)%N);
  yk_sign_data digest _ slot n := (Ok (slot_name slot ++ digest), n);
  yk_read_certificate _ n := (Ok (lit "certificate"), n);
|}.
#[local, refine] Instance demo_device_laws : YubiKeyLaws := {| pin_failures (n : device) := (n : N) |}.
Proof.
  - intros pin d. cbn. by case_decide.
  - intros pin d. cbn. by case_decide.
  - done.
  - done.
Defined.
#[local] Instance demo_x509 : X509 := {|
  spki_ref := bytes; spki_try_from := Ok; spki_to_der := Ok; spki_raw_key := Ok; rcgen_remote_ok _ := Ok tt;
  rcgen_to_sign k s := k ++ s; rcgen_certificate t s := t ++ s;
|}.
#[local] Instance demo_case : UnicodeCase := to_ascii_lowercase.
#[local] Instance demo_sha2 : Sha2 := λ _ b, blake3 b.
#[local] Instance demo_debug : OperationDebug := {| op_debug _ := lit "operation"; op_type_name := lit "type" |}.

Definition demo_pin_config (pin : string) : YubiKeyConfig := mkYubiKeyConfig (Some (lit pin)) (lit "9c") false 3.
Definition demo_sign_call : yk_call := YPerform (lit "9C") (OpSign (lit "m") USigEcdsaP256).

Definition demo_certificate_call : yk_call := YCertificate (lit "e") (lit "9c") (lit "CN=a").
Definition demo_calls : list yk_call := repeat demo_sign_call 9 ++ repeat demo_certificate_call 2.

Lemma pin_attempts_bounded_witness :
  yk_device (foldl (flip yk_exec) (yubikey_with_config (demo_pin_config "000000") (Ok (1%N : device)))
    demo_calls) = Some (6%N : device)
  ∧ (pin_failures (6%N : device) ≤ pin_failures (1%N : device) + 3 + 2)%N.
Proof.
  assert (yk_device (foldl (flip yk_exec) (yubikey_with_config (demo_pin_config "000000") (Ok (1%N : device)))
    demo_calls) = Some (6%N : device)) as Hd by (vm_compute; reflexivity).
  split; [exact Hd|]. exact (pin_attempts_bounded (demo_pin_config "000000") 1%N 6%N _ Hd).
Defined.
